(** * build2api: request routing, rotation and streaming engine

    A shallow embedding of [unified-server.js] (classes [MessageQueue],
    [RequestHandler] and the parts of [ProxyServerSystem] they read) and
    the properties of its rotation controller, request pipeline and
    dialect translator.

    Conventions of the embedding.
    - JavaScript strings are [string]s; a character stands for one code
      unit below 256, and a source literal outside ASCII is kept as its
      UTF-8 bytes.
    - JavaScript numbers are integers ([Z]); the code only copies and
      compares the numbers it handles.
    - An [async] function is a computation in the monad [M]; what it
      awaits from the outside (queue deliveries, the browser driver,
      timers) is read from scripts stored in the [World]. *)

From Stdlib Require Import ZArith List String Ascii Bool Lia.
From Stdlib Require Import DecimalString.
Import ListNotations.

Open Scope string_scope.
Open Scope list_scope.
Open Scope Z_scope.

(* ================================================================== *)
(** * JavaScript values and built-ins *)
(* ================================================================== *)

Module Js.

(** [s.includes(sub)] *)
Fixpoint includes (s sub : string) : bool :=
  String.prefix sub s ||
  match s with
  | EmptyString => false
  | String _ s' => includes s' sub
  end.

(** [s.substring(n)] *)
Fixpoint drop (n : nat) (s : string) : string :=
  match n, s with
  | O, _ => s
  | S _, EmptyString => EmptyString
  | S n', String _ s' => drop n' s'
  end.

(** [s.replace(pat, rep)] for a string pattern: the first occurrence only. *)
Fixpoint replace (s pat rep : string) : string :=
  if String.prefix pat s then rep ++ drop (String.length pat) s
  else match s with
       | EmptyString => EmptyString
       | String c s' => String c (replace s' pat rep)
       end.

(** [l.join(sep)] on strings *)
Definition join (sep : string) (l : list string) : string := String.concat sep l.

(** [a.toLowerCase()] on one code unit *)
Definition lower_ascii (c : ascii) : ascii :=
  let n := nat_of_ascii c in
  if (Nat.leb 65 n && Nat.leb n 90)%bool then ascii_of_nat (n + 32) else c.

Fixpoint toLowerCase (s : string) : string :=
  match s with
  | EmptyString => EmptyString
  | String c s' => String (lower_ascii c) (toLowerCase s')
  end.

#[local] Set Warnings "-register-all".

(** Values as [JSON.parse] builds them, with [undefined] for what a
    property access may yield.  An object keeps its fields in insertion
    order. *)
Inductive json : Type :=
| JUndefined
| JNull
| JBool (b : bool)
| JNum (n : Z)
| JStr (s : string)
| JArr (items : list json)
| JObj (fields : list (string * json)).

Fixpoint assoc (k : string) (fields : list (string * json)) : json :=
  match fields with
  | [] => JUndefined
  | (k', v) :: rest => if String.eqb k k' then v else assoc k rest
  end.

(** [v.k]: a [TypeError] ([None]) on [undefined] and [null]; none of the
    names the code reads is a built-in of strings, numbers or arrays. *)
Definition get (v : json) (k : string) : option json :=
  match v with
  | JUndefined | JNull => None
  | JObj fields => Some (assoc k fields)
  | _ => Some JUndefined
  end.

(** [v?.k] *)
Definition get_opt (v : json) (k : string) : json :=
  match get v k with
  | Some x => x
  | None => JUndefined
  end.

(** [o.k = x] on an object: replaces the field in place or appends it. *)
Fixpoint set_field (k : string) (x : json) (fields : list (string * json))
  : list (string * json) :=
  match fields with
  | [] => [(k, x)]
  | (k', v) :: rest =>
      if String.eqb k k' then (k, x) :: rest else (k', v) :: set_field k x rest
  end.

(** ToBoolean *)
Definition truthy (v : json) : bool :=
  match v with
  | JUndefined | JNull => false
  | JBool b => b
  | JNum n => negb (n =? 0)
  | JStr s => negb (String.eqb s "")
  | JArr _ | JObj _ => true
  end.

Definition string_of_Z (n : Z) : string := NilZero.string_of_int (Z.to_int n).

(** ToString, as a template literal applies it. *)
Fixpoint toString (v : json) : string :=
  match v with
  | JUndefined => "undefined"
  | JNull => "null"
  | JBool true => "true"
  | JBool false => "false"
  | JNum n => string_of_Z n
  | JStr s => s
  | JArr items =>
      join "," (map (fun x => match x with
                              | JUndefined | JNull => ""
                              | _ => toString x
                              end) items)
  | JObj _ => "[object Object]"
  end.

(** The string an element contributes to [Array.prototype.join]. *)
Definition join_item (v : json) : string :=
  match v with
  | JUndefined | JNull => ""
  | _ => toString v
  end.

(** [x || d] on a number that may be missing *)
Definition or_default (x : option Z) (d : Z) : Z :=
  match x with
  | Some n => if n =? 0 then d else n
  | None => d
  end.

(** [a.includes(x)] on an array of numbers, [x] possibly [undefined] *)
Definition includes_num (a : list Z) (x : option Z) : bool :=
  match x with
  | Some n => existsb (Z.eqb n) a
  | None => false
  end.

(** [typeof s === "string" && s] as a condition: a string that is not empty *)
Definition nonempty (s : option string) : bool :=
  match s with
  | Some x => negb (String.eqb x "")
  | None => false
  end.

Definition of_opt_string (s : option string) : json :=
  match s with
  | Some x => JStr x
  | None => JUndefined
  end.

End Js.
Import Js.

(** What the JavaScript runtime provides and the file does not define. *)
Record Runtime : Type := {
  JSON_parse : string -> option json;     (* [None]: SyntaxError *)
  SyntaxError_message : string -> string; (* its message, for a text that does not parse *)
  JSON_stringify : json -> string;
  Date_now : Z
}.

(* ================================================================== *)
(** * Data model *)
(* ================================================================== *)

(** [ProxyServerSystem._loadConfiguration]: the keys the request handler reads. *)
Record Config : Type := {
  failureThreshold : Z;
  switchOnUses : Z;
  maxRetries : Z;
  retryDelay : Z;
  immediateSwitchStatusCodes : list Z
}.

(** The defaults of [_loadConfiguration]. *)
Definition default_config : Config := {|
  failureThreshold := 3;
  switchOnUses := 40;
  maxRetries := 1;
  retryDelay := 2000;
  immediateSwitchStatusCodes := [429; 503]
|}.

(** The mutable switches of [ProxyServerSystem] (the admin routes set them). *)
Record ServerSystem : Type := {
  streamingMode : string;
  enableReasoning : bool;
  enableNativeReasoning : bool;
  enableResume : bool;
  resumeLimit : Z;
  redirect25to30 : bool
}.

(** The rotation fields of [RequestHandler]. *)
Record RequestHandler : Type := {
  failureCount : Z;
  usageCount : Z;
  activeRequestCount : Z;
  pendingSwitch : bool;
  isAuthSwitching : bool;
  isSystemBusy : bool
}.

(** [RequestHandler.constructor] *)
Definition new_handler : RequestHandler := {|
  failureCount := 0;
  usageCount := 0;
  activeRequestCount := 0;
  pendingSwitch := false;
  isAuthSwitching := false;
  isSystemBusy := false
|}.

(** What [ConnectionRegistry._routeMessage] puts on a request's queue: the
    three relay events it lets through, and the [STREAM_END] sentinel. *)
Inductive message : Type :=
| ResponseHeaders (status : option Z) (headers : list (string * string))
| Chunk (data : option string)
| ErrorEvent (status : option Z) (msg : option string)
| StreamEnd.

(** [m.event_type === "error"] *)
Definition is_error (m : message) : bool :=
  match m with ErrorEvent _ _ => true | _ => false end.

(** [m.event_type === "chunk"] *)
Definition is_chunk (m : message) : bool :=
  match m with Chunk _ => true | _ => false end.

(** [m.type === "STREAM_END"] *)
Definition is_stream_end (m : message) : bool :=
  match m with StreamEnd => true | _ => false end.

(** [m.data] *)
Definition msg_data (m : message) : option string :=
  match m with Chunk d => d | _ => None end.

(** [m.status] *)
Definition msg_status (m : message) : option Z :=
  match m with
  | ResponseHeaders s _ | ErrorEvent s _ => s
  | _ => None
  end.

(** [m.message] *)
Definition msg_message (m : message) : option string :=
  match m with ErrorEvent _ t => t | _ => None end.

(** [m.headers] *)
Definition msg_headers (m : message) : list (string * string) :=
  match m with ResponseHeaders _ h => h | _ => [] end.

(** What one [MessageQueue.dequeue] settles to: a message, or a rejection
    ("Queue timeout", "Queue closed", "Queue is closed"). *)
Inductive dq : Type :=
| Msg (m : message)
| Rejected (reason : string).

(** The incoming Express request. *)
Record Request : Type := {
  req_method : string;
  req_path : string;
  req_headers : list (string * string);
  req_query : list (string * string);
  req_body : json
}.

(** The frame [_forwardRequest] serialises for the relay. *)
Record ProxyRequest : Type := {
  path : string;
  method : string;
  headers : list (string * string);
  query_params : list (string * string);
  body : string;
  request_id : string;
  streaming_mode : string;
  is_generative : option bool;
  client_wants_stream : option bool;
  resume_on_prohibit : bool;
  resume_limit : Z
}.

(* ================================================================== *)
(** * The Express response object *)
(* ================================================================== *)

(** The handler sees the response through [status], [set], [type],
    [write], [end], [json] and [send], and reads [headersSent] and
    [writableEnded].  [statusLines] lists the status lines that went out
    on the wire and [out] the body pieces, both in order; [header_fields]
    holds the name/value pairs as the handler hands them to Express. *)
Module Res.

Record Response : Type := {
  statusCode : Z;
  headersSent : bool;
  writableEnded : bool;
  header_fields : list (string * string);
  statusLines : list Z;
  out : list string
}.

Definition fresh : Response := {|
  statusCode := 200;
  headersSent := false;
  writableEnded := false;
  header_fields := [];
  statusLines := [];
  out := []
|}.

(** [res.status(c)] *)
Definition status (c : Z) (r : Response) : Response :=
  {| statusCode := c; headersSent := headersSent r;
     writableEnded := writableEnded r; header_fields := header_fields r;
     statusLines := statusLines r; out := out r |}.

Definition put_header (k v : string) (h : list (string * string))
  : list (string * string) :=
  filter (fun kv => negb (String.eqb (toLowerCase (fst kv)) (toLowerCase k))) h
    ++ [(k, v)].

(** [res.set(k, v)]: throws ([None]) once the headers are out. *)
Definition set (k v : string) (r : Response) : option Response :=
  if headersSent r then None
  else Some {| statusCode := statusCode r; headersSent := false;
               writableEnded := writableEnded r;
               header_fields := put_header k v (header_fields r);
               statusLines := statusLines r; out := out r |}.

(** The implicit header: the status line goes out with the first byte. *)
Definition flush (r : Response) : Response :=
  if headersSent r then r
  else {| statusCode := statusCode r; headersSent := true;
          writableEnded := writableEnded r; header_fields := header_fields r;
          statusLines := statusLines r ++ [statusCode r]; out := out r |}.

(** [res.write(s)]; a write after [end] reaches nobody. *)
Definition write (s : string) (r : Response) : Response :=
  if writableEnded r then r
  else let r' := flush r in
       {| statusCode := statusCode r'; headersSent := headersSent r';
          writableEnded := writableEnded r'; header_fields := header_fields r';
          statusLines := statusLines r'; out := out r' ++ [s] |}.

(** [res.end()] *)
Definition end_ (r : Response) : Response :=
  let r' := flush r in
  {| statusCode := statusCode r'; headersSent := headersSent r';
     writableEnded := true; header_fields := header_fields r';
     statusLines := statusLines r'; out := out r' |}.

(** [res.send(s)]: sets headers, so it throws once they are out; otherwise
    sends the whole response. *)
Definition send (s : string) (r : Response) : option Response :=
  if headersSent r then None else Some (end_ (write s r)).

(** [res.type(t)] *)
Definition type (t : string) (r : Response) : option Response :=
  set "Content-Type" t r.

(** [res.json(v)], given the serialised value. *)
Definition json (s : string) (r : Response) : option Response :=
  match set "Content-Type" "application/json" r with
  | Some r' => send s r'
  | None => None
  end.

End Res.

(* ================================================================== *)
(** * Rotation controller: the synchronous segments *)
(* ================================================================== *)

(** Every stretch of [RequestHandler] code between two [await]s runs
    without interruption.  The stretches that touch the rotation fields
    are the functions of this module; the handlers below and the
    interleaving semantics at the end are both built from them. *)
Module Rotation.

Definition with_failureCount (n : Z) (h : RequestHandler) : RequestHandler :=
  {| failureCount := n; usageCount := usageCount h;
     activeRequestCount := activeRequestCount h;
     pendingSwitch := pendingSwitch h; isAuthSwitching := isAuthSwitching h;
     isSystemBusy := isSystemBusy h |}.

Definition with_usageCount (n : Z) (h : RequestHandler) : RequestHandler :=
  {| failureCount := failureCount h; usageCount := n;
     activeRequestCount := activeRequestCount h;
     pendingSwitch := pendingSwitch h; isAuthSwitching := isAuthSwitching h;
     isSystemBusy := isSystemBusy h |}.

Definition with_active (n : Z) (h : RequestHandler) : RequestHandler :=
  {| failureCount := failureCount h; usageCount := usageCount h;
     activeRequestCount := n;
     pendingSwitch := pendingSwitch h; isAuthSwitching := isAuthSwitching h;
     isSystemBusy := isSystemBusy h |}.

Definition with_pending (b : bool) (h : RequestHandler) : RequestHandler :=
  {| failureCount := failureCount h; usageCount := usageCount h;
     activeRequestCount := activeRequestCount h;
     pendingSwitch := b; isAuthSwitching := isAuthSwitching h;
     isSystemBusy := isSystemBusy h |}.

Definition with_switching (b : bool) (h : RequestHandler) : RequestHandler :=
  {| failureCount := failureCount h; usageCount := usageCount h;
     activeRequestCount := activeRequestCount h;
     pendingSwitch := pendingSwitch h; isAuthSwitching := b;
     isSystemBusy := isSystemBusy h |}.

Definition with_busy (b : bool) (h : RequestHandler) : RequestHandler :=
  {| failureCount := failureCount h; usageCount := usageCount h;
     activeRequestCount := activeRequestCount h;
     pendingSwitch := pendingSwitch h; isAuthSwitching := isAuthSwitching h;
     isSystemBusy := b |}.

(** [if (this.pendingSwitch || this.isAuthSwitching)], the first statement
    of [processRequest] and of [processOpenAIRequest]. *)
Definition gate_closed (h : RequestHandler) : bool :=
  pendingSwitch h || isAuthSwitching h.

(** [this.activeRequestCount++] *)
Definition enter_request (h : RequestHandler) : RequestHandler :=
  with_active (activeRequestCount h + 1) h.

(** [this.activeRequestCount--] on the early exits *)
Definition leave_request (h : RequestHandler) : RequestHandler :=
  with_active (activeRequestCount h - 1) h.

(** The [finally] of both handlers:
    [this.activeRequestCount--; if (this.activeRequestCount < 0) this.activeRequestCount = 0]. *)
Definition finalise_request (h : RequestHandler) : RequestHandler :=
  let n := activeRequestCount h - 1 in
  with_active (if n <? 0 then 0 else n) h.

Section WithConfig.
Variable cfg : Config.

(** [if (switchOnUses > 0 && isGenerativeRequest && !this.pendingSwitch)
       { this.usageCount++; if (this.usageCount >= switchOnUses) this.pendingSwitch = true; }] *)
Definition count_use (isGenerative : bool) (h : RequestHandler) : RequestHandler :=
  if (0 <? switchOnUses cfg) && isGenerative && negb (pendingSwitch h) then
    let h1 := with_usageCount (usageCount h + 1) h in
    if switchOnUses cfg <=? usageCount h1 then with_pending true h1 else h1
  else h.

(** [if (failureThreshold > 0) this.failureCount++] *)
Definition count_failure (h : RequestHandler) : RequestHandler :=
  if 0 <? failureThreshold cfg
  then with_failureCount (failureCount h + 1) h
  else h.

(** [isImmediateSwitch || isThresholdReached] in [_handleRequestFailureAndSwitch] *)
Definition must_switch (status : option Z) (h : RequestHandler) : bool :=
  includes_num (immediateSwitchStatusCodes cfg) status
  || ((0 <? failureThreshold cfg) && (failureThreshold cfg <=? failureCount h)).

End WithConfig.

(** [if (this.failureCount > 0) this.failureCount = 0] *)
Definition reset_failures (h : RequestHandler) : RequestHandler :=
  if 0 <? failureCount h then with_failureCount 0 h else h.

(** [this.isSystemBusy = true; this.isAuthSwitching = true] *)
Definition switch_enter (h : RequestHandler) : RequestHandler :=
  with_switching true (with_busy true h).

(** [this.failureCount = 0; this.usageCount = 0] *)
Definition switch_reset (h : RequestHandler) : RequestHandler :=
  with_usageCount 0 (with_failureCount 0 h).

(** [finally { this.isAuthSwitching = false; this.isSystemBusy = false }] *)
Definition switch_leave (h : RequestHandler) : RequestHandler :=
  with_busy false (with_switching false h).

(** The condition of [_tryExecutePendingSwitch] *)
Definition pending_ready (h : RequestHandler) : bool :=
  pendingSwitch h && (activeRequestCount h =? 0) && negb (isAuthSwitching h).

(** [_getNextAuthIndex]: [null] when no index is available, the first one
    when the current index is not in the list, else the next cyclically. *)
Fixpoint indexOf (x : Z) (l : list Z) : option nat :=
  match l with
  | [] => None
  | y :: l' => if x =? y then Some O
               else match indexOf x l' with
                    | Some i => Some (S i)
                    | None => None
                    end
  end.

Definition _getNextAuthIndex (available : list Z) (current : Z) : option Z :=
  match available with
  | [] => None
  | first :: _ =>
      match indexOf current available with
      | None => Some first
      | Some i => nth_error available (Nat.modulo (i + 1) (List.length available))
      end
  end.

End Rotation.
Import Rotation.

(* ================================================================== *)
(** * The world of one request and the monad of its handler *)
(* ================================================================== *)

(** One request is handled against: the rotation fields; its response;
    the frames sent to the relay; and the scripts of what its [await]s
    bring back.  [links] answers, look by look, whether the registry
    holds a connection; [inbox] is what the request's queue settles to,
    dequeue by dequeue (none left: the dequeue times out); [browser] tells
    whether each [launchOrSwitchContext] succeeds (none left: it fails);
    [ticks] counts the firings of the keep-alive interval during each
    [await]; [timers] records the delays slept; [ids] is what the calls
    of [_generateRequestId] return. *)
Record World : Type := {
  handler : RequestHandler;
  res : Res.Response;
  relay : list ProxyRequest;
  links : list bool;
  inbox : list dq;
  browser : list bool;
  currentAuthIndex : Z;
  availableIndices : list Z;
  keepAlive : bool;
  ticks : list nat;
  timers : list Z;
  ids : list string
}.

Inductive outcome (A : Type) : Type :=
| Return (a : A)
| Throw (e : string).
Arguments Return {A} a.
Arguments Throw {A} e.

Definition M (A : Type) : Type := World -> outcome A * World.

Definition ret {A} (a : A) : M A := fun w => (Return a, w).

Definition throw {A} (e : string) : M A := fun w => (Throw e, w).

Definition bind {A B} (m : M A) (k : A -> M B) : M B :=
  fun w => match m w with
           | (Return a, w') => k a w'
           | (Throw e, w') => (Throw e, w')
           end.

(** [try { m } catch (error) { h error.message }] *)
Definition try_catch {A} (m : M A) (h : string -> M A) : M A :=
  fun w => match m w with
           | (Return a, w') => (Return a, w')
           | (Throw e, w') => h e w'
           end.

(** [try { m } finally { f }] *)
Definition finally {A} (m : M A) (f : M unit) : M A :=
  fun w => match m w with
           | (o, w') => match f w' with
                        | (Return _, w'') => (o, w'')
                        | (Throw e, w'') => (Throw e, w'')
                        end
           end.

Declare Scope js_scope.
Delimit Scope js_scope with js.
Notation "x <- m ;; k" := (bind m (fun x => k))
  (at level 61, m at next level, right associativity) : js_scope.
Notation "m ;; k" := (bind m (fun _ => k))
  (at level 61, right associativity) : js_scope.
Open Scope js_scope.

Definition when (b : bool) (m : M unit) : M unit := if b then m else ret tt.

Definition get_handler : M RequestHandler := fun w => (Return (handler w), w).
Definition get_res : M Res.Response := fun w => (Return (res w), w).

Definition modify_handler (f : RequestHandler -> RequestHandler) : M unit :=
  fun w => (Return tt,
    {| handler := f (handler w); res := res w; relay := relay w;
       links := links w; inbox := inbox w; browser := browser w;
       currentAuthIndex := currentAuthIndex w;
       availableIndices := availableIndices w; keepAlive := keepAlive w;
       ticks := ticks w; timers := timers w; ids := ids w |}).

Definition put_res (r : Res.Response) (w : World) : World :=
  {| handler := handler w; res := r; relay := relay w;
     links := links w; inbox := inbox w; browser := browser w;
     currentAuthIndex := currentAuthIndex w;
     availableIndices := availableIndices w; keepAlive := keepAlive w;
     ticks := ticks w; timers := timers w; ids := ids w |}.

Definition modify_res (f : Res.Response -> Res.Response) : M unit :=
  fun w => (Return tt, put_res (f (res w)) w).

(** A response call that throws once the headers are out. *)
Definition try_res (f : Res.Response -> option Res.Response) : M unit :=
  fun w => match f (res w) with
           | Some r => (Return tt, put_res r w)
           | None => (Throw "Cannot set headers after they are sent to the client", w)
           end.

Definition push_relay (p : ProxyRequest) : M unit :=
  fun w => (Return tt,
    {| handler := handler w; res := res w; relay := relay w ++ [p];
       links := links w; inbox := inbox w; browser := browser w;
       currentAuthIndex := currentAuthIndex w;
       availableIndices := availableIndices w; keepAlive := keepAlive w;
       ticks := ticks w; timers := timers w; ids := ids w |}).

(** [connectionRegistry.hasActiveConnections()] and the test of
    [getFirstConnection()] *)
Definition hasActiveConnections : M bool :=
  fun w => (Return (hd false (links w)),
    {| handler := handler w; res := res w; relay := relay w;
       links := tl (links w); inbox := inbox w; browser := browser w;
       currentAuthIndex := currentAuthIndex w;
       availableIndices := availableIndices w; keepAlive := keepAlive w;
       ticks := ticks w; timers := timers w; ids := ids w |}).

Definition set_keepAlive (b : bool) : M unit :=
  fun w => (Return tt,
    {| handler := handler w; res := res w; relay := relay w;
       links := links w; inbox := inbox w; browser := browser w;
       currentAuthIndex := currentAuthIndex w;
       availableIndices := availableIndices w; keepAlive := b;
       ticks := ticks w; timers := timers w; ids := ids w |}).

Definition set_currentAuthIndex (i : Z) : M unit :=
  fun w => (Return tt,
    {| handler := handler w; res := res w; relay := relay w;
       links := links w; inbox := inbox w; browser := browser w;
       currentAuthIndex := i;
       availableIndices := availableIndices w; keepAlive := keepAlive w;
       ticks := ticks w; timers := timers w; ids := ids w |}).

Definition pop_inbox : M (option dq) :=
  fun w => (Return (hd_error (inbox w)),
    {| handler := handler w; res := res w; relay := relay w;
       links := links w; inbox := tl (inbox w); browser := browser w;
       currentAuthIndex := currentAuthIndex w;
       availableIndices := availableIndices w; keepAlive := keepAlive w;
       ticks := ticks w; timers := timers w; ids := ids w |}).

Definition pop_browser : M bool :=
  fun w => (Return (hd false (browser w)),
    {| handler := handler w; res := res w; relay := relay w;
       links := links w; inbox := inbox w; browser := tl (browser w);
       currentAuthIndex := currentAuthIndex w;
       availableIndices := availableIndices w; keepAlive := keepAlive w;
       ticks := ticks w; timers := timers w; ids := ids w |}).

Definition pop_ticks : M nat :=
  fun w => (Return (hd O (ticks w)),
    {| handler := handler w; res := res w; relay := relay w;
       links := links w; inbox := inbox w; browser := browser w;
       currentAuthIndex := currentAuthIndex w;
       availableIndices := availableIndices w; keepAlive := keepAlive w;
       ticks := tl (ticks w); timers := timers w; ids := ids w |}).

Definition pop_ids : M string :=
  fun w => (Return (hd "" (ids w)),
    {| handler := handler w; res := res w; relay := relay w;
       links := links w; inbox := inbox w; browser := browser w;
       currentAuthIndex := currentAuthIndex w;
       availableIndices := availableIndices w; keepAlive := keepAlive w;
       ticks := ticks w; timers := timers w; ids := tl (ids w) |}).

Definition get_world : M World := fun w => (Return w, w).

Definition push_timer (ms : Z) : M unit :=
  fun w => (Return tt,
    {| handler := handler w; res := res w; relay := relay w;
       links := links w; inbox := inbox w; browser := browser w;
       currentAuthIndex := currentAuthIndex w;
       availableIndices := availableIndices w; keepAlive := keepAlive w;
       ticks := ticks w; timers := timers w ++ [ms]; ids := ids w |}).

(** The callback of [setInterval] in [_handlePseudoStreamResponse]:
    [if (!res.writableEnded) res.write(": keep-alive\n\n")]. *)
Definition nl : string := String (ascii_of_nat 10) EmptyString.

Definition keep_alive_tick (r : Res.Response) : Res.Response :=
  if Res.writableEnded r then r else Res.write (": keep-alive" ++ nl ++ nl) r.

Fixpoint repeat_tick (n : nat) (r : Res.Response) : Res.Response :=
  match n with
  | O => r
  | S n' => repeat_tick n' (keep_alive_tick r)
  end.

(** An [await]: while the handler is suspended, the keep-alive interval,
    when armed, fires as often as the script says. *)
Definition await : M unit :=
  fun w => if keepAlive w
           then (n <- pop_ticks ;; modify_res (repeat_tick n)) w
           else (Return tt, w).

(** [await messageQueue.dequeue(...)] *)
Definition dequeue : M message :=
  await ;;
  x <- pop_inbox ;;
  match x with
  | Some (Msg m) => ret m
  | Some (Rejected e) => throw e
  | None => throw "Queue timeout"
  end.

(** [await new Promise((resolve) => setTimeout(resolve, ms))] *)
Definition sleep (ms : Z) : M unit := push_timer ms ;; await.

(** [await this.browserManager.launchOrSwitchContext(i)], by its contract:
    it throws, or returns with [currentAuthIndex] set to [i]; an index
    that is not available ([getAuth] returns [null]) always throws. *)
Definition launchOrSwitchContext (i : option Z) : M unit :=
  await ;;
  ok <- pop_browser ;;
  w <- get_world ;;
  match i with
  | Some n =>
      if ok && existsb (Z.eqb n) (availableIndices w)
      then set_currentAuthIndex n
      else throw "launchOrSwitchContext failed"
  | None => throw "launchOrSwitchContext failed"
  end.

(** [browserManager.switchAccount] *)
Definition switchAccount (i : option Z) : M unit := launchOrSwitchContext i.

(* ================================================================== *)
(** * Dialect translator *)
(* ================================================================== *)

Module Translator.

(** A step that may throw inside a function whose exceptions are only
    ever caught whole: [None] is the exception. *)
Notation "'try!' x ':=' e 'in' k" :=
  (match e with Some x => k | None => None end)
  (at level 10, x name, e at level 100, k at level 200, only parsing).

(** ** The regular expression of the image data URL

    The pattern reads: start of input, [data:], a first group made of
    [image/] and as few code units as possible, [;base64,], a second
    group made of as many code units as possible, end of input. *)

(** [.] matches any code unit but a line terminator. *)
Definition is_line_terminator (c : ascii) : bool :=
  let n := nat_of_ascii c in (Nat.eqb n 10 || Nat.eqb n 13)%bool.

Fixpoint no_line_terminator (s : string) : bool :=
  match s with
  | EmptyString => true
  | String c s' => negb (is_line_terminator c) && no_line_terminator s'
  end.

Fixpoint strip_prefix (p s : string) : option string :=
  match p, s with
  | EmptyString, _ => Some s
  | String a p', String b s' =>
      if Ascii.eqb a b then strip_prefix p' s' else None
  | String _ _, EmptyString => None
  end.

(** The lazy tail of the first group and what follows it: at each
    position the matcher first tries [;base64,], the second group and the
    end of input and, when that fails, lets the first group take one more
    code unit.  [acc] is the first group so far. *)
Fixpoint match_lazy (s acc : string) : option (string * string) :=
  let extend :=
    match s with
    | EmptyString => None
    | String c s' =>
        if is_line_terminator c then None
        else match_lazy s' (acc ++ String c EmptyString)
    end in
  match strip_prefix ";base64," s with
  | Some rest => if no_line_terminator rest then Some (acc, rest) else extend
  | None => extend
  end.

(** [url.match(...)] with that pattern: the two groups. *)
Definition match_data_url (url : string) : option (string * string) :=
  match strip_prefix "data:image/" url with
  | Some rest => match_lazy rest "image/"
  | None => None
  end.

(** ** [_translateOpenAIToGoogle] *)

(** [v === s] for a string literal [s] *)
Definition is_str (v : json) (s : string) : bool :=
  match v with
  | JStr x => String.eqb x s
  | _ => false
  end.

(** [messages.filter((msg) => msg.role === "system")] and its complement;
    the callback throws on a message that is [null]. *)
Fixpoint filter_system (keep : bool) (messages : list json) : option (list json) :=
  match messages with
  | [] => Some []
  | msg :: rest =>
      try! role := get msg "role" in
      try! rest' := filter_system keep rest in
      Some (if Bool.eqb (is_str role "system") keep then msg :: rest' else rest')
  end.

Definition text_part (text : json) : json := JObj [("text", text)].

Definition inline_part (mimeType data : string) : json :=
  JObj [("inlineData", JObj [("mimeType", JStr mimeType); ("data", JStr data)])].

(** The loop [for (const part of message.content)], [googleParts] being
    the array built so far. *)
Fixpoint translate_parts (content : list json) (googleParts : list json)
  : option (list json) :=
  match content with
  | [] => Some googleParts
  | part :: rest =>
      try! type := get part "type" in
      if is_str type "text" then
        translate_parts rest (googleParts ++ [text_part (get_opt part "text")])
      else if is_str type "image_url" then
        try! image_url := get part "image_url" in
        try! url := get image_url "url" in
        match url with
        | JStr u =>
            match match_data_url u with
            | Some (mimeType, data) =>
                translate_parts rest (googleParts ++ [inline_part mimeType data])
            | None => translate_parts rest googleParts
            end
        | _ => None
        end
      else translate_parts rest googleParts
  end.

Definition google_role (message : json) : string :=
  if is_str (get_opt message "role") "assistant" then "model" else "user".

(** The loop [for (const message of conversationMessages)]. *)
Fixpoint translate_messages (conversationMessages : list json)
  (googleContents : list json) : option (list json) :=
  match conversationMessages with
  | [] => Some googleContents
  | message :: rest =>
      try! googleParts :=
        match get_opt message "content" with
        | JStr s => Some [text_part (JStr s)]
        | JArr content => translate_parts content []
        | _ => Some []
        end in
      translate_messages rest
        (googleContents ++
           [JObj [("role", JStr (google_role message)); ("parts", JArr googleParts)]])
  end.

Definition safetySettings : json :=
  JArr (map (fun c => JObj [("category", JStr c); ("threshold", JStr "BLOCK_NONE")])
          ["HARM_CATEGORY_HARASSMENT"; "HARM_CATEGORY_HATE_SPEECH";
           "HARM_CATEGORY_SEXUALLY_EXPLICIT"; "HARM_CATEGORY_DANGEROUS_CONTENT"]).

Definition _translateOpenAIToGoogle (sys : ServerSystem) (openaiBody : json)
  : option json :=
  try! messages := get openaiBody "messages" in
  match messages with
  | JArr msgs =>
      try! systemMessages := filter_system true msgs in
      let systemInstruction :=
        match systemMessages with
        | [] => None
        | _ => Some [text_part
                       (JStr (join nl
                                (map (fun msg => join_item (get_opt msg "content"))
                                   systemMessages)))]
        end in
      try! conversationMessages := filter_system false msgs in
      try! googleContents := translate_messages conversationMessages [] in
      let generationConfig :=
        [("temperature", get_opt openaiBody "temperature");
         ("topP", get_opt openaiBody "top_p");
         ("topK", get_opt openaiBody "top_k");
         ("maxOutputTokens", get_opt openaiBody "max_tokens");
         ("stopSequences", get_opt openaiBody "stop")] in
      Some (JObj
        ([("contents", JArr googleContents)]
         ++ match systemInstruction with
            | Some parts => [("systemInstruction", JObj [("parts", JArr parts)])]
            | None => []
            end
         ++ [("generationConfig",
              JObj (if enableReasoning sys
                    then set_field "thinkingConfig"
                           (JObj [("includeThoughts", JBool true)]) generationConfig
                    else generationConfig));
             ("safetySettings", safetySettings)]))
  | _ => None
  end.

End Translator.

(* ================================================================== *)
(** * [RequestHandler]: rotation and the three response modes *)
(* ================================================================== *)

(** What [_switchToNextAuth] and [_switchToSpecificAuth] return. *)
Inductive switch_result : Type :=
| Busy
| InvalidIndex
| Success (newIndex : Z)
| Fallback (newIndex : Z).

Section Handlers.

Variable rt : Runtime.
Variable cfg : Config.
Variable sys : ServerSystem.

Definition read_index : M Z := fun w => (Return (currentAuthIndex w), w).

(** [_switchToNextAuth] *)
Definition _switchToNextAuth : M switch_result :=
  h <- get_handler ;;
  if isAuthSwitching h then ret Busy
  else
    modify_handler switch_enter ;;
    finally
      (previousAuthIndex <- read_index ;;
       w <- get_world ;;
       let nextAuthIndex := _getNextAuthIndex (availableIndices w) previousAuthIndex in
       try_catch
         (switchAccount nextAuthIndex ;;
          modify_handler switch_reset ;;
          i <- read_index ;;
          ret (Success i))
         (fun _ =>
            launchOrSwitchContext (Some previousAuthIndex) ;;
            modify_handler switch_reset ;;
            i <- read_index ;;
            ret (Fallback i)))
      (modify_handler switch_leave).

(** [_switchToSpecificAuth] *)
Definition _switchToSpecificAuth (targetIndex : Z) : M switch_result :=
  h <- get_handler ;;
  if isAuthSwitching h then ret Busy
  else
    w <- get_world ;;
    if negb (existsb (Z.eqb targetIndex) (availableIndices w)) then ret InvalidIndex
    else
      modify_handler switch_enter ;;
      finally
        (switchAccount (Some targetIndex) ;;
         modify_handler switch_reset ;;
         modify_handler (with_pending false) ;;
         i <- read_index ;;
         ret (Success i))
        (modify_handler switch_leave).

(** [_tryExecutePendingSwitch].  The handlers call it without awaiting
    it; here it runs to its end before the handler returns. *)
Definition _tryExecutePendingSwitch : M unit :=
  h <- get_handler ;;
  when (pending_ready h)
    (finally
       (try_catch (_switchToNextAuth ;; ret tt) (fun _ => ret tt))
       (modify_handler (with_pending false))).

(** [_sendErrorChunkToClient]; [has_res] is false where the caller
    passes [null] for [res]. *)
Definition error_chunk (errorMessage : option string) : string :=
  "data: "
  ++ JSON_stringify rt
       (JObj [("error", JObj [("message", of_opt_string errorMessage);
                              ("code", JStr "proxy_error")])])
  ++ nl ++ nl.

Definition _sendErrorChunkToClient (has_res : bool) (errorMessage : option string)
  : M unit :=
  r <- get_res ;;
  when (has_res && negb (Res.writableEnded r))
    (modify_res (Res.write (error_chunk errorMessage))).

(** [_sendErrorResponse] *)
Definition error_body (code : Z) (message : option string) : string :=
  JSON_stringify rt
    (JObj [("error", JObj [("code", JNum code);
                           ("message", of_opt_string message);
                           ("status", JStr "SERVICE_UNAVAILABLE")])]).

Definition _sendErrorResponse (status : option Z) (message : option string)
  : M unit :=
  r <- get_res ;;
  when (negb (Res.headersSent r))
    (let code := or_default status 500 in
     modify_res (Res.status code) ;;
     try_res (Res.json (error_body code message))).

(** [_handleRequestError], given [error.message] *)
Definition _handleRequestError (message : string) : M unit :=
  r <- get_res ;;
  if Res.headersSent r
  then when (negb (Res.writableEnded r)) (modify_res Res.end_)
  else
    let status := if includes message "Timeout" then 504 else 500 in
    _sendErrorResponse (Some status) (Some message).

(** [_handleRequestFailureAndSwitch] *)
Definition _handleRequestFailureAndSwitch (errorDetails : message) (has_res : bool)
  : M unit :=
  modify_handler (count_failure cfg) ;;
  h <- get_handler ;;
  when (must_switch cfg (msg_status errorDetails) h)
    (try_catch
       (result <- _switchToNextAuth ;;
        match result with
        | Success _ => ret tt
        | Fallback _ =>
            when has_res
              (_sendErrorChunkToClient has_res
                 (Some "自动切换失败，已回退原账号"))
        | _ => ret tt
        end)
       (fun _ =>
          when has_res
            (_sendErrorChunkToClient has_res
               (Some "服务暂时不可用 (Switch Failed)")))).

(** [_forwardRequest] *)
Definition _forwardRequest (proxyRequest : ProxyRequest) : M unit :=
  connection <- hasActiveConnections ;;
  if connection then push_relay proxyRequest
  else throw "No available browser connection.".

(** The three headers of an event stream. *)
Definition set_sse_headers : M unit :=
  try_res (Res.set "Content-Type" "text/event-stream") ;;
  try_res (Res.set "Cache-Control" "no-cache") ;;
  try_res (Res.set "Connection" "keep-alive").

(** [!lastMessage.message?.includes("aborted")] *)
Definition not_aborted (m : message) : bool :=
  match msg_message m with
  | Some s => negb (includes s "aborted")
  | None => true
  end.

(** The loop [for (let attempt = 1; attempt <= this.maxRetries; attempt++)]
    of [_handlePseudoStreamResponse], from the test of its condition on;
    it yields [lastMessage] and [requestFailed].  [fuel] bounds the
    iterations left; [maxRetries] of them are enough. *)
Fixpoint pseudo_attempts (proxyRequest : ProxyRequest) (fuel : nat) (attempt : Z)
  (lastMessage : option message) : M (option message * bool) :=
  match fuel with
  | O => ret (lastMessage, false)
  | S fuel' =>
      if attempt <=? maxRetries cfg then
        _forwardRequest proxyRequest ;;
        m <- try_catch dequeue
               (fun _ => ret (ErrorEvent (Some 504) (Some "Timeout"))) ;;
        if is_error m then
          if not_aborted m then
            if attempt <? maxRetries cfg then
              sleep (retryDelay cfg) ;;
              pseudo_attempts proxyRequest fuel' (attempt + 1) (Some m)
            else ret (Some m, true)
          else ret (Some m, false)
        else ret (Some m, false)
      else ret (lastMessage, false)
  end.

(** [_handlePseudoStreamResponse] *)
Definition _handlePseudoStreamResponse (proxyRequest : ProxyRequest) : M unit :=
  modify_res (Res.status 200) ;;
  set_sse_headers ;;
  set_keepAlive true ;;
  finally
    (try_catch
       (r <- pseudo_attempts proxyRequest (Z.to_nat (maxRetries cfg)) 1 None ;;
        let '(lastMessage, requestFailed) := r in
        if requestFailed then
          match lastMessage with
          | Some m =>
              _handleRequestFailureAndSwitch m true ;;
              _sendErrorChunkToClient true (msg_message m)
          | None => throw "TypeError"
          end
        else
          modify_handler reset_failures ;;
          dataMessage <- dequeue ;;
          endMessage <- dequeue ;;
          when (nonempty (msg_data dataMessage))
            (modify_res
               (Res.write ("data: " ++ match msg_data dataMessage with
                                       | Some d => d
                                       | None => ""
                                       end ++ nl ++ nl))) ;;
          modify_res (Res.write ("data: [DONE]" ++ nl ++ nl)))
       _handleRequestError)
    (set_keepAlive false ;;
     r <- get_res ;;
     when (negb (Res.writableEnded r)) (modify_res Res.end_)).

(** [_setResponseHeaders] *)
Fixpoint copy_headers (isStream : bool) (headers : list (string * string)) : M unit :=
  match headers with
  | [] => ret tt
  | (name, value) :: rest =>
      (if String.eqb (toLowerCase name) "content-length" then ret tt
       else if isStream && String.eqb (toLowerCase name) "content-type" then ret tt
       else try_res (Res.set name value)) ;;
      copy_headers isStream rest
  end.

Definition _setResponseHeaders (headerMessage : message) (isStream : bool) : M unit :=
  modify_res (Res.status (or_default (msg_status headerMessage) 200)) ;;
  copy_headers isStream (msg_headers headerMessage) ;;
  when isStream set_sse_headers.

(** The loop [while (true)] of [_handleRealStreamResponse].  Each turn
    takes one entry of the inbox, so one more turn than the inbox has
    entries is never needed. *)
Fixpoint real_stream_loop (fuel : nat) : M unit :=
  match fuel with
  | O => throw "Queue timeout"
  | S fuel' =>
      dataMessage <- dequeue ;;
      if is_stream_end dataMessage then ret tt
      else
        when (nonempty (msg_data dataMessage))
          (modify_res (Res.write match msg_data dataMessage with
                                 | Some d => d
                                 | None => ""
                                 end)) ;;
        real_stream_loop fuel'
  end.

(** [_handleRealStreamResponse] *)
Definition _handleRealStreamResponse (proxyRequest : ProxyRequest) : M unit :=
  _forwardRequest proxyRequest ;;
  headerMessage <- dequeue ;;
  if is_error headerMessage then
    _handleRequestFailureAndSwitch headerMessage false ;;
    _sendErrorResponse (msg_status headerMessage) (msg_message headerMessage)
  else
    modify_handler reset_failures ;;
    _setResponseHeaders headerMessage true ;;
    finally
      (try_catch
         (w <- get_world ;; real_stream_loop (S (List.length (inbox w))))
         (fun e => if String.eqb e "Queue timeout" then ret tt else throw e))
      (r <- get_res ;;
       when (negb (Res.writableEnded r)) (modify_res Res.end_)).

(** The loop [while (true)] that buffers a body: [STREAM_END] ends it, a
    chunk with data is appended to [fullBody]. *)
Fixpoint drain_body (fuel : nat) (fullBody : string) : M string :=
  match fuel with
  | O => throw "Queue timeout"
  | S fuel' =>
      m <- dequeue ;;
      if is_stream_end m then ret fullBody
      else if is_chunk m && nonempty (msg_data m)
           then drain_body fuel' (fullBody ++ match msg_data m with
                                              | Some d => d
                                              | None => ""
                                              end)
           else drain_body fuel' fullBody
  end.

Definition buffer_body : M string :=
  w <- get_world ;; drain_body (S (List.length (inbox w))) "".

(** [v?.[0]] *)
Definition index0 (v : json) : json :=
  match v with
  | JArr (x :: _) => x
  | JObj fields => assoc "0" fields
  | JStr (String c _) => JStr (String c EmptyString)
  | _ => JUndefined
  end.

(** [parts.some(p => p.inlineData)] and [parts.findIndex(p => p.inlineData)]
    at once: [None] when the callback throws, else the index if any. *)
Fixpoint find_inlineData (parts : list json) : option (option nat) :=
  match parts with
  | [] => Some None
  | p :: rest =>
      match get p "inlineData" with
      | None => None
      | Some d =>
          if truthy d then Some (Some O)
          else match find_inlineData rest with
               | Some (Some i) => Some (Some (S i))
               | other => other
               end
      end
  end.

(** [parts[i] = x] *)
Fixpoint update_nth (i : nat) (x : json) (parts : list json) : list json :=
  match i, parts with
  | _, [] => []
  | O, _ :: rest => x :: rest
  | S i', p :: rest => p :: update_nth i' x rest
  end.

Definition image_markdown (label : string) (image : json) : string :=
  "![" ++ label ++ "](data:" ++ toString (get_opt image "mimeType")
  ++ ";base64," ++ toString (get_opt image "data") ++ ")".

(** The image block of [_handleNonStreamResponse]: the parsed body after
    the in-place rewrite, or [None] when the block leaves [fullBody] alone
    (nothing to rewrite, or an exception that its [catch] swallows).  The
    rewrite needs [parsedBody.candidates[0].content.parts] to be an array
    reached through objects ([candidates] may be an array or an object
    with a field ["0"]); any other shape stops before it. *)
Definition rewrite_parts (content : json) : option json :=
  match content with
  | JObj cf =>
      match assoc "parts" cf with
      | JArr parts =>
          match find_inlineData parts with
          | Some (Some imagePartIndex) =>
              let image := get_opt (nth imagePartIndex parts JUndefined) "inlineData" in
              Some (JObj (set_field "parts"
                            (JArr (update_nth imagePartIndex
                                     (JObj [("text", JStr (image_markdown "Image" image))])
                                     parts)) cf))
          | _ => None
          end
      | _ => None
      end
  | _ => None
  end.

Definition rewrite_candidate (candidate : json) : option json :=
  match candidate with
  | JObj cf =>
      match rewrite_parts (assoc "content" cf) with
      | Some content' => Some (JObj (set_field "content" content' cf))
      | None => None
      end
  | _ => None
  end.

Definition rewrite_inline_image (parsedBody : json) : option json :=
  match parsedBody with
  | JObj bf =>
      match assoc "candidates" bf with
      | JArr (candidate :: others) =>
          match rewrite_candidate candidate with
          | Some c' => Some (JObj (set_field "candidates" (JArr (c' :: others)) bf))
          | None => None
          end
      | JObj cands =>
          match rewrite_candidate (assoc "0" cands) with
          | Some c' =>
              Some (JObj (set_field "candidates" (JObj (set_field "0" c' cands)) bf))
          | None => None
          end
      | _ => None
      end
  | _ => None
  end.

Definition image_block (fullBody : string) : string :=
  match JSON_parse rt fullBody with
  | Some parsedBody =>
      match rewrite_inline_image parsedBody with
      | Some parsedBody' => JSON_stringify rt parsedBody'
      | None => fullBody
      end
  | None => fullBody
  end.

(** [_handleNonStreamResponse] *)
Definition _handleNonStreamResponse (proxyRequest : ProxyRequest) : M unit :=
  _forwardRequest proxyRequest ;;
  try_catch
    (headerMessage <- dequeue ;;
     if is_error headerMessage then
       _handleRequestFailureAndSwitch headerMessage false ;;
       _sendErrorResponse (Some (or_default (msg_status headerMessage) 500))
         (msg_message headerMessage)
     else
       fullBody <- buffer_body ;;
       modify_handler reset_failures ;;
       let fullBody := image_block fullBody in
       modify_res (Res.status (or_default (msg_status headerMessage) 200)) ;;
       try_res (Res.type "application/json") ;;
       try_res (Res.send (if String.eqb fullBody "" then "{}" else fullBody)))
    _handleRequestError.

(** [_generateRequestId] *)
Definition _generateRequestId : M string := pop_ids.

(** [finalBody.generationConfig.thinkingConfig = { includeThoughts: true }]
    after [if (!finalBody.generationConfig) finalBody.generationConfig = {}],
    as it shows once serialised; [None] when an assignment throws (class
    bodies are strict code, so a property cannot be put on a primitive). *)
Definition inject_thinking (finalBody : json) : option json :=
  match finalBody with
  | JObj fields =>
      let fields1 :=
        if truthy (assoc "generationConfig" fields) then fields
        else set_field "generationConfig" (JObj []) fields in
      match assoc "generationConfig" fields1 with
      | JObj g =>
          Some (JObj (set_field "generationConfig"
                        (JObj (set_field "thinkingConfig"
                                 (JObj [("includeThoughts", JBool true)]) g))
                        fields1))
      | JArr _ => Some (JObj fields1)
      | _ => None
      end
  | JArr _ => Some finalBody
  | _ => None
  end.

Definition is_generate_path (p : string) : bool :=
  includes p "generateContent" || includes p "streamGenerateContent".

(** [_buildProxyRequest] *)
Definition _buildProxyRequest (req : Request) (requestId : string) : ProxyRequest :=
  let finalBody :=
    if enableNativeReasoning sys && is_generate_path (req_path req) then
      match req_body req with
      | JUndefined => req_body req
      | b =>
          match JSON_parse rt (JSON_stringify rt b) with
          | Some copy =>
              match inject_thinking copy with
              | Some injected => injected
              | None => copy
              end
          | None => req_body req
          end
      end
    else req_body req in
  {| path := req_path req;
     method := req_method req;
     headers := req_headers req;
     query_params := req_query req;
     body := if truthy finalBody then JSON_stringify rt finalBody else "";
     request_id := requestId;
     streaming_mode := streamingMode sys;
     is_generative := None;
     client_wants_stream := None;
     resume_on_prohibit := enableResume sys;
     resume_limit := resumeLimit sys |}.

Definition with_path (p : string) (r : ProxyRequest) : ProxyRequest :=
  {| path := p; method := method r; headers := headers r;
     query_params := query_params r; body := body r;
     request_id := request_id r; streaming_mode := streaming_mode r;
     is_generative := is_generative r;
     client_wants_stream := client_wants_stream r;
     resume_on_prohibit := resume_on_prohibit r;
     resume_limit := resume_limit r |}.

Definition with_method (m : string) (r : ProxyRequest) : ProxyRequest :=
  {| path := path r; method := m; headers := headers r;
     query_params := query_params r; body := body r;
     request_id := request_id r; streaming_mode := streaming_mode r;
     is_generative := is_generative r;
     client_wants_stream := client_wants_stream r;
     resume_on_prohibit := resume_on_prohibit r;
     resume_limit := resume_limit r |}.

Definition with_streaming_mode (m : string) (r : ProxyRequest) : ProxyRequest :=
  {| path := path r; method := method r; headers := headers r;
     query_params := query_params r; body := body r;
     request_id := request_id r; streaming_mode := m;
     is_generative := is_generative r;
     client_wants_stream := client_wants_stream r;
     resume_on_prohibit := resume_on_prohibit r;
     resume_limit := resume_limit r |}.

Definition with_is_generative (b : bool) (r : ProxyRequest) : ProxyRequest :=
  {| path := path r; method := method r; headers := headers r;
     query_params := query_params r; body := body r;
     request_id := request_id r; streaming_mode := streaming_mode r;
     is_generative := Some b;
     client_wants_stream := client_wants_stream r;
     resume_on_prohibit := resume_on_prohibit r;
     resume_limit := resume_limit r |}.

(** [req.headers.accept] *)
Fixpoint header (name : string) (h : list (string * string)) : option string :=
  match h with
  | [] => None
  | (k, v) :: rest => if String.eqb k name then Some v else header name rest
  end.

(** [wantsStreamByHeader || wantsStreamByPath] as a condition *)
Definition wantsStream (req : Request) : bool :=
  match header "accept" (req_headers req) with
  | Some a => negb (String.eqb a "") && includes a "text/event-stream"
  | None => false
  end
  || includes (req_path req) ":streamGenerateContent".

(** The frame [processRequest] prepares, before the mode of the response
    is chosen. *)
Definition prepare_frame (req : Request) (requestId : string) : ProxyRequest :=
  let proxyRequest := _buildProxyRequest req requestId in
  let proxyRequest :=
    if redirect25to30 sys && negb (String.eqb (path proxyRequest) "")
       && includes (path proxyRequest) "gemini-2.5-pro"
    then with_path (replace (path proxyRequest) "gemini-2.5-pro" "gemini-3-pro-preview")
           proxyRequest
    else proxyRequest in
  with_is_generative
    (String.eqb (req_method req) "POST" && is_generate_path (req_path req))
    proxyRequest.

(** [processRequest] *)
Definition processRequest (req : Request) : M unit :=
  h <- get_handler ;;
  if gate_closed h
  then _sendErrorResponse (Some 503) (Some "Server rotating accounts...")
  else
    modify_handler enter_request ;;
    requestId <- _generateRequestId ;;
    connection <- hasActiveConnections ;;
    proceed <-
      (if connection then ret true
       else
         h <- get_handler ;;
         if isSystemBusy h then
           modify_handler leave_request ;;
           _sendErrorResponse (Some 503) (Some "Server recovering...") ;;
           ret false
         else
           modify_handler (with_busy true) ;;
           finally
             (try_catch
                (i <- read_index ;;
                 launchOrSwitchContext (Some i) ;;
                 ret true)
                (fun _ =>
                   modify_handler leave_request ;;
                   modify_handler (with_busy false) ;;
                   _sendErrorResponse (Some 503) (Some "Service unavailable") ;;
                   ret false))
             (modify_handler (with_busy false))) ;;
    if negb proceed then ret tt
    else
      h <- get_handler ;;
      if isSystemBusy h then
        modify_handler leave_request ;;
        _sendErrorResponse (Some 503) (Some "Server busy")
      else
        let isGenerativeRequest :=
          String.eqb (req_method req) "POST" && is_generate_path (req_path req) in
        modify_handler (count_use cfg isGenerativeRequest) ;;
        let proxyRequest := prepare_frame req requestId in
        finally
          (try_catch
             (if wantsStream req then
                if String.eqb (streamingMode sys) "fake"
                then _handlePseudoStreamResponse proxyRequest
                else _handleRealStreamResponse proxyRequest
              else
                _handleNonStreamResponse (with_streaming_mode "fake" proxyRequest))
             _handleRequestError)
          (modify_handler finalise_request ;;
           _tryExecutePendingSwitch).

(** [s.trim()], on code units below 256 *)
Definition is_space (c : ascii) : bool :=
  let n := nat_of_ascii c in
  ((Nat.leb 9 n && Nat.leb n 13) || Nat.eqb n 32 || Nat.eqb n 160)%bool.

Fixpoint trimStart (s : string) : string :=
  match s with
  | EmptyString => EmptyString
  | String c s' => if is_space c then trimStart s' else s
  end.

Fixpoint trimEnd (s : string) : string :=
  match s with
  | EmptyString => EmptyString
  | String c s' =>
      match trimEnd s' with
      | EmptyString => if is_space c then EmptyString else String c EmptyString
      | t => String c t
      end
  end.

Definition trim (s : string) : string := trimEnd (trimStart s).

(** [p.text || ""], appended to a string *)
Definition text_or_empty (p : json) : string :=
  let t := get_opt p "text" in
  if truthy t then toString t else "".

(** The [forEach] over the parts of a candidate, in the stream
    translation: [content] and [reasoningContent] so far.  The callback
    throws on a part that is [null]. *)
Fixpoint walk_parts_stream (parts : list json) (content reasoningContent : string)
  : option (string * string) :=
  match parts with
  | [] => Some (content, reasoningContent)
  | p :: rest =>
      match get p "inlineData" with
      | None => None
      | Some d =>
          if truthy d then walk_parts_stream rest (content ++ "![Image]") reasoningContent
          else if truthy (get_opt p "thought")
               then walk_parts_stream rest content (reasoningContent ++ text_or_empty p)
               else walk_parts_stream rest (content ++ text_or_empty p) reasoningContent
      end
  end.

(** [x || null] *)
Definition or_null (v : json) : json := if truthy v then v else JNull.

(** The frame [_translateGoogleToOpenAIStream] returns. *)
Definition completion_chunk (id : string) (modelName : json)
  (delta : list (string * json)) (finishReason : json) : string :=
  "data: "
  ++ JSON_stringify rt
       (JObj [("id", JStr ("chatcmpl-" ++ id));
              ("object", JStr "chat.completion.chunk");
              ("created", JNum (Date_now rt / 1000));
              ("model", modelName);
              ("choices", JArr [JObj [("index", JNum 0);
                                      ("delta", JObj delta);
                                      ("finish_reason", or_null finishReason)]])])
  ++ nl ++ nl.

(** [_translateGoogleToOpenAIStream]; [None] is the [null] it returns. *)
Definition _translateGoogleToOpenAIStream (googleChunk : string) (modelName : json)
  : M (option string) :=
  if String.eqb googleChunk "" || String.eqb (trim googleChunk) "" then ret None
  else
    let jsonString :=
      if String.prefix "data: " googleChunk then trim (drop 6 googleChunk)
      else googleChunk in
    if String.eqb jsonString "" || String.eqb jsonString "[DONE]" then ret None
    else
      match JSON_parse rt jsonString with
      | None => ret None
      | Some googleResponse =>
          match get googleResponse "candidates" with
          | None => ret None
          | Some candidates =>
              let candidate := index0 candidates in
              if negb (truthy candidate) then ret None
              else
                let content := get_opt candidate "content" in
                let walked :=
                  if truthy content then
                    match get_opt content "parts" with
                    | JArr parts => walk_parts_stream parts "" ""
                    | _ => Some ("", "")
                    end
                  else Some ("", "") in
                match walked with
                | None => ret None
                | Some (text, reasoningContent) =>
                    let delta :=
                      (if String.eqb text "" then []
                       else [("content", JStr text)])
                      ++ (if String.eqb reasoningContent "" then []
                          else [("reasoning_content", JStr reasoningContent)]) in
                    let finishReason := get_opt candidate "finishReason" in
                    if match delta with [] => negb (truthy finishReason) | _ => false end
                    then ret None
                    else
                      id <- _generateRequestId ;;
                      ret (Some (completion_chunk id modelName delta finishReason))
                end
          end
      end.

(** The loop [while (true)] of the streaming branch of
    [processOpenAIRequest]; what it scrapes for the log is left out. *)
Fixpoint openai_stream_loop (fuel : nat) (model : json) : M unit :=
  match fuel with
  | O => throw "Queue timeout"
  | S fuel' =>
      m <- dequeue ;;
      if is_stream_end m then modify_res (Res.write ("data: [DONE]" ++ nl ++ nl))
      else
        (if nonempty (msg_data m) then
           translatedChunk <-
             _translateGoogleToOpenAIStream
               (match msg_data m with Some d => d | None => "" end) model ;;
           match translatedChunk with
           | Some c => when (negb (String.eqb c "")) (modify_res (Res.write c))
           | None => ret tt
           end
         else ret tt) ;;
        openai_stream_loop fuel' model
  end.

(** The [forEach] over the parts in the buffered branch:
    [responseContent] and [responseReasoning] so far. *)
Fixpoint walk_parts_buffered (parts : list json) (responseContent responseReasoning : string)
  : option (string * string) :=
  match parts with
  | [] => Some (responseContent, responseReasoning)
  | p :: rest =>
      match get p "inlineData" with
      | None => None
      | Some d =>
          if truthy d
          then walk_parts_buffered rest
                 (responseContent ++ image_markdown "Generated Image" d ++ nl)
                 responseReasoning
          else if truthy (get_opt p "thought")
               then walk_parts_buffered rest responseContent
                      (responseReasoning ++ text_or_empty p)
               else walk_parts_buffered rest (responseContent ++ text_or_empty p)
                      responseReasoning
      end
  end.

(** The [chat.completion] object of the buffered branch; [None] when
    building it throws. *)
Definition chat_completion (requestId : string) (model : json) (googleResponse : json)
  : option json :=
      match get googleResponse "candidates" with
      | None => None
      | Some candidates =>
          let candidate := index0 candidates in
          let parts := get_opt (get_opt candidate "content") "parts" in
          let walked :=
            if truthy parts then
              match parts with
              | JArr ps => walk_parts_buffered ps "" ""
              | _ => None
              end
            else Some ("", "") in
          match walked with
          | None => None
          | Some (responseContent, responseReasoning) =>
              let finishReason := get_opt candidate "finishReason" in
              Some (JObj
                [("id", JStr ("chatcmpl-" ++ requestId));
                 ("object", JStr "chat.completion");
                 ("created", JNum (Date_now rt / 1000));
                 ("model", model);
                 ("choices", JArr [JObj
                    [("index", JNum 0);
                     ("message", JObj
                        [("role", JStr "assistant");
                         ("content", JStr responseContent);
                         ("reasoning_content",
                          if String.eqb responseReasoning "" then JNull
                          else JStr responseReasoning)]);
                     ("finish_reason",
                      if truthy finishReason then finishReason
                      else JStr "UNKNOWN")]])])
          end
      end.

(** The frame [processOpenAIRequest] forwards. *)
Definition openai_frame (requestId : string) (model : json) (isOpenAIStream : bool)
  (googleBody : json) : ProxyRequest :=
  {| path := "/v1beta/models/" ++ toString model ++ ":"
             ++ (if isOpenAIStream then "streamGenerateContent" else "generateContent");
     method := "POST";
     headers := [("Content-Type", "application/json")];
     query_params := if isOpenAIStream then [("alt", "sse")] else [];
     body := JSON_stringify rt googleBody;
     request_id := requestId;
     streaming_mode := "real";
     is_generative := Some true;
     client_wants_stream := Some true;
     resume_on_prohibit := enableResume sys;
     resume_limit := resumeLimit sys |}.

(** [processOpenAIRequest] *)
Definition processOpenAIRequest (req : Request) : M unit :=
  h <- get_handler ;;
  if gate_closed h
  then _sendErrorResponse (Some 503) (Some "Server rotating accounts...")
  else
    modify_handler enter_request ;;
    modify_handler (count_use cfg true) ;;
    requestId <- _generateRequestId ;;
    match get (req_body req) "stream", get (req_body req) "model" with
    | Some stream, Some m =>
        let isOpenAIStream := match stream with JBool true => true | _ => false end in
        let model := if truthy m then m else JStr "gemini-1.5-pro-latest" in
        let model :=
          if redirect25to30 sys
             && match model with JStr s => String.eqb s "gemini-2.5-pro" | _ => false end
          then JStr "gemini-3-pro-preview" else model in
        match Translator._translateOpenAIToGoogle sys (req_body req) with
        | None =>
            modify_handler leave_request ;;
            _sendErrorResponse (Some 400) (Some "Invalid OpenAI request format.")
        | Some googleBody =>
            let proxyRequest := openai_frame requestId model isOpenAIStream googleBody in
            finally
              (try_catch
                 (_forwardRequest proxyRequest ;;
                  initialMessage <- dequeue ;;
                  if is_error initialMessage then
                    _handleRequestFailureAndSwitch initialMessage true ;;
                    if isOpenAIStream then
                      r <- get_res ;;
                      when (negb (Res.writableEnded r))
                        (modify_res (Res.write ("data: [DONE]" ++ nl ++ nl)) ;;
                         modify_res Res.end_)
                    else
                      _sendErrorResponse
                        (Some (or_default (msg_status initialMessage) 500))
                        (msg_message initialMessage)
                  else
                    modify_handler reset_failures ;;
                    if isOpenAIStream then
                      modify_res (Res.status 200) ;;
                      set_sse_headers ;;
                      w <- get_world ;;
                      openai_stream_loop (S (List.length (inbox w))) model
                    else
                      fullBody <- buffer_body ;;
                      match JSON_parse rt fullBody with
                      | None => throw (SyntaxError_message rt fullBody)
                      | Some googleResponse =>
                          match chat_completion requestId model googleResponse with
                          | None => throw "TypeError"
                          | Some completion =>
                              modify_res (Res.status 200) ;;
                              try_res (Res.json (JSON_stringify rt completion))
                          end
                      end)
                 _handleRequestError)
              (r <- get_res ;;
               when (negb (Res.writableEnded r)) (modify_res Res.end_) ;;
               modify_handler finalise_request ;;
               _tryExecutePendingSwitch)
        end
    | _, _ => throw "TypeError"
    end.

(** [googleModels.map(model => ...)] of [processModelListRequest]; the
    callback throws on an entry without a string [name]. *)
Fixpoint openai_models (googleModels : list json) : option (list json) :=
  match googleModels with
  | [] => Some []
  | model :: rest =>
      match get model "name" with
      | Some (JStr name) =>
          match openai_models rest with
          | Some rest' =>
              Some (JObj [("id", JStr (replace name "models/" ""));
                          ("object", JStr "model");
                          ("created", JNum (Date_now rt / 1000));
                          ("owned_by", JStr "google")] :: rest')
          | None => None
          end
      | _ => None
      end
  end.

(** [processModelListRequest] *)
Definition processModelListRequest (req : Request) : M unit :=
  requestId <- _generateRequestId ;;
  let proxyRequest :=
    with_streaming_mode "fake"
      (with_method "GET" (with_path "/v1beta/models" (_buildProxyRequest req requestId))) in
  try_catch
    (_forwardRequest proxyRequest ;;
     headerMessage <- dequeue ;;
     if is_error headerMessage
     then throw (match msg_message headerMessage with
                 | Some s => if String.eqb s "" then "Upstream error" else s
                 | None => "Upstream error"
                 end)
     else
       w <- get_world ;;
       fullBody <- drain_body (S (List.length (inbox w))) "" ;;
       let googleModels :=
         match JSON_parse rt fullBody with
         | Some parsed =>
             match get parsed "models" with
             | Some models => if truthy models then models else JArr []
             | None => JArr []
             end
         | None => JArr []
         end in
       match googleModels with
       | JArr l =>
           match openai_models l with
           | Some openaiModels =>
               modify_res (Res.status 200) ;;
               try_res (Res.json (JSON_stringify rt
                  (JObj [("object", JStr "list"); ("data", JArr openaiModels)])))
           | None => throw "TypeError"
           end
       | _ => throw "TypeError"
       end)
    (fun _ => _sendErrorResponse (Some 500) (Some "Failed to fetch model list.")).

End Handlers.


(* ================================================================== *)
(** * The translation, as the specification words it *)
(* ================================================================== *)

(** A second description of the request translation that follows the
    sentences of the specification (with "any other role becomes
    [user]" and "an image data URL"), to be compared with
    [Translator._translateOpenAIToGoogle]. *)
Module TranslatorSpec.
Import Translator.

Definition is_system (msg : json) : bool := is_str (get_opt msg "role") "system".

(** "role [assistant] becomes [model]", every other one [user] *)
Definition spec_role (msg : json) : string :=
  if is_str (get_opt msg "role") "assistant" then "model" else "user".

(** What one entry of an array content contributes: a text part
    verbatim, an image data URL as inline data, nothing otherwise. *)
Definition spec_part (part : json) : list json :=
  if is_str (get_opt part "type") "text" then [text_part (get_opt part "text")]
  else if is_str (get_opt part "type") "image_url" then
    match get_opt (get_opt part "image_url") "url" with
    | JStr u =>
        match match_data_url u with
        | Some (mimeType, data) => [inline_part mimeType data]
        | None => []
        end
    | _ => []
    end
  else [].

(** "Content strings become one text part; array content maps ..." *)
Definition spec_parts (content : json) : list json :=
  match content with
  | JStr s => [text_part (JStr s)]
  | JArr entries => flat_map spec_part entries
  | _ => []
  end.

Definition spec_content (msg : json) : json :=
  JObj [("role", JStr (spec_role msg));
        ("parts", JArr (spec_parts (get_opt msg "content")))].

(** "Map remaining messages" *)
Definition spec_contents (messages : list json) : list json :=
  map spec_content (filter (fun msg => negb (is_system msg)) messages).

(** "Merge every system message into a single systemInstruction with
    newline-joined text parts" *)
Definition spec_systemInstruction (messages : list json) : json :=
  match filter is_system messages with
  | [] => JUndefined
  | system =>
      JObj [("parts",
             JArr [text_part
                     (JStr (join nl
                              (map (fun msg => join_item (get_opt msg "content"))
                                 system)))])]
  end.

(** A data URL of an image, in words: [data:], a media type that starts
    with [image/], [;base64,], the data; all on one line. *)
Definition image_data_url (url mimeType data : string) : Prop :=
  url = ("data:" ++ mimeType ++ ";base64," ++ data)%string
  /\ String.prefix "image/" mimeType = true
  /\ no_line_terminator mimeType = true
  /\ no_line_terminator data = true.

(** The bodies the translation does not throw on: [messages] is an array
    of values that are not [null]; so is every content that is an array;
    and an entry of type [image_url] carries a string at [image_url.url]. *)
Definition entry_ok (part : json) : bool :=
  match get part "type" with
  | None => false
  | Some type =>
      if is_str type "text" then true
      else if is_str type "image_url" then
        match get_opt (get_opt part "image_url") "url" with
        | JStr _ => true
        | _ => false
        end
      else true
  end.

Definition message_ok (msg : json) : bool :=
  match get msg "role" with
  | None => false
  | Some _ =>
      match get_opt msg "content" with
      | JArr entries => forallb entry_ok entries
      | _ => true
      end
  end.

End TranslatorSpec.

(* ================================================================== *)
(** * A runtime to compute with *)
(* ================================================================== *)

(** The statements hold for every [Runtime].  To run the handlers on
    concrete inputs, [Example.runtime] serialises as [JSON.stringify]
    does on the values of the model and parses the texts of a table. *)
Module Example.

Definition hex_digit (n : nat) : ascii :=
  ascii_of_nat (if Nat.ltb n 10 then 48 + n else 87 + n).

Definition escape (c : ascii) : string :=
  let n := nat_of_ascii c in
  if Nat.eqb n 34 then "\" ++ String c EmptyString
  else if Nat.eqb n 92 then "\\"
  else if Nat.eqb n 8 then "\b"
  else if Nat.eqb n 9 then "\t"
  else if Nat.eqb n 10 then "\n"
  else if Nat.eqb n 12 then "\f"
  else if Nat.eqb n 13 then "\r"
  else if Nat.ltb n 32
       then "\u00" ++ String (hex_digit (Nat.div n 16))
                         (String (hex_digit (Nat.modulo n 16)) EmptyString)
       else String c EmptyString.

Fixpoint escape_all (s : string) : string :=
  match s with
  | EmptyString => EmptyString
  | String c s' => escape c ++ escape_all s'
  end.

Definition quote (s : string) : string :=
  String (ascii_of_nat 34) (escape_all s ++ String (ascii_of_nat 34) EmptyString).

Fixpoint stringify (v : json) : string :=
  match v with
  | JUndefined => "undefined"
  | JNull => "null"
  | JBool true => "true"
  | JBool false => "false"
  | JNum n => string_of_Z n
  | JStr s => quote s
  | JArr items =>
      "[" ++ join "," (map (fun x => match x with
                                     | JUndefined => "null"
                                     | _ => stringify x
                                     end) items) ++ "]"
  | JObj fields =>
      "{" ++ join "," (flat_map (fun kv => match kv with
                                           | (_, JUndefined) => []
                                           | (k, x) => [(quote k ++ ":" ++ stringify x)%string]
                                           end) fields) ++ "}"
  end.

Fixpoint lookup (table : list (string * json)) (text : string) : option json :=
  match table with
  | [] => None
  | (t, v) :: rest => if String.eqb t text then Some v else lookup rest text
  end.

Definition runtime (table : list (string * json)) : Runtime :=
  {| JSON_parse := lookup table;
     SyntaxError_message := fun _ => "Unexpected token";
     JSON_stringify := stringify;
     Date_now := 1700000000000 |}.

Definition system : ServerSystem :=
  {| streamingMode := "real"; enableReasoning := false;
     enableNativeReasoning := false; enableResume := false;
     resumeLimit := 3; redirect25to30 := false |}.

(** A world at rest: a fresh response, the relay connected at every
    look, one credential. *)
Definition world (h : RequestHandler) (inbox : list dq) : World :=
  {| handler := h; res := Res.fresh; relay := [];
     links := [true; true; true; true]; inbox := inbox; browser := [];
     currentAuthIndex := 1; availableIndices := [1]; keepAlive := false;
     ticks := []; timers := []; ids := ["1700000000000_abcdefghi"] |}.


(** The answer of the relay to [GET /v1beta/models], and the request. *)
Definition models_value : json :=
  JObj [("models", JArr [JObj [("name", JStr "models/gemini-pro")]])].

Definition models_runtime : Runtime :=
  runtime [(stringify models_value, models_value)].

Definition models_inbox : list dq :=
  [Msg (ResponseHeaders (Some 200) []);
   Msg (Chunk (Some (stringify models_value)));
   Msg StreamEnd].

Definition get_models : Request :=
  {| req_method := "GET"; req_path := "/v1/models"; req_headers := [];
     req_query := []; req_body := JObj [] |}.

(** A chat request without [messages], and a configuration that rotates
    after every use. *)
Definition no_messages : Request :=
  {| req_method := "POST"; req_path := "/v1/chat/completions";
     req_headers := []; req_query := [];
     req_body := JObj [("model", JStr "gemini-pro")] |}.

Definition rotate_every (n : Z) : Config :=
  {| failureThreshold := 3; switchOnUses := n; maxRetries := 1;
     retryDelay := 2000; immediateSwitchStatusCodes := [429; 503] |}.

(** Scenario "pseudo stream with one retry": [streamingMode = fake],
    [retryDelay = 0]; the relay answers the first frame with
    [error 500 "x"], and has headers, one buffered chunk and the end of
    the stream for a second one. *)
Definition fake_system : ServerSystem :=
  {| streamingMode := "fake"; enableReasoning := false;
     enableNativeReasoning := false; enableResume := false;
     resumeLimit := 3; redirect25to30 := false |}.

Definition retries (n : Z) : Config :=
  {| failureThreshold := 3; switchOnUses := 40; maxRetries := n;
     retryDelay := 0; immediateSwitchStatusCodes := [429; 503] |}.

Definition stream_request : Request :=
  {| req_method := "POST";
     req_path := "/v1beta/models/gemini-pro:streamGenerateContent";
     req_headers := [("accept", "text/event-stream")];
     req_query := []; req_body := JObj [] |}.

(** The same with a client cancellation as first answer. *)
Definition aborted_then_answer : list dq :=
  [Msg (ErrorEvent (Some 500) (Some "The user aborted a request."));
   Msg (ResponseHeaders (Some 200) []);
   Msg (Chunk (Some "{}"));
   Msg StreamEnd].

Definition error_then_answer : list dq :=
  [Msg (ErrorEvent (Some 500) (Some "x"));
   Msg (ResponseHeaders (Some 200) []);
   Msg (Chunk (Some "{}"));
   Msg StreamEnd].

(** Scenario "OpenAI non-stream translation": a system message and a
    user message with a text and an image. *)
Definition chat_body : json :=
  JObj [("model", JStr "gemini-2.5-pro");
        ("messages",
         JArr [JObj [("role", JStr "system"); ("content", JStr "S")];
               JObj [("role", JStr "user");
                     ("content",
                      JArr [JObj [("type", JStr "text"); ("text", JStr "hi")];
                            JObj [("type", JStr "image_url");
                                  ("image_url",
                                   JObj [("url", JStr "data:image/png;base64,AAA")])]])]]);
        ("stream", JBool false)].

Definition chat_translated : json :=
  JObj [("contents",
         JArr [JObj [("role", JStr "user");
                     ("parts",
                      JArr [JObj [("text", JStr "hi")];
                            JObj [("inlineData",
                                   JObj [("mimeType", JStr "image/png");
                                         ("data", JStr "AAA")])]])]]);
        ("systemInstruction", JObj [("parts", JArr [JObj [("text", JStr "S")]])]);
        ("generationConfig",
         JObj [("temperature", JUndefined); ("topP", JUndefined);
               ("topK", JUndefined); ("maxOutputTokens", JUndefined);
               ("stopSequences", JUndefined)]);
        ("safetySettings", Translator.safetySettings)].

(** A message from a tool, and a document sent as a data URL. *)
Definition tool_body : json :=
  JObj [("messages", JArr [JObj [("role", JStr "tool"); ("content", JStr "42")]])].

Definition pdf_body : json :=
  JObj [("messages",
         JArr [JObj [("role", JStr "user");
                     ("content",
                      JArr [JObj [("type", JStr "image_url");
                                  ("image_url",
                                   JObj [("url", JStr "data:application/pdf;base64,AAA")])]])]])].

(** An answer of the relay to a chat request: status 201 and one
    candidate with one text part. *)
Definition answer_value : json :=
  JObj [("candidates",
         JArr [JObj [("content", JObj [("parts", JArr [JObj [("text", JStr "hello")]])]);
                     ("finishReason", JStr "STOP")]])].

Definition answer_runtime : Runtime :=
  runtime [(stringify answer_value, answer_value)].

Definition answer_inbox : list dq :=
  [Msg (ResponseHeaders (Some 201) []);
   Msg (Chunk (Some (stringify answer_value)));
   Msg StreamEnd].

Definition chat_request : Request :=
  {| req_method := "POST"; req_path := "/v1/chat/completions";
     req_headers := []; req_query := []; req_body := chat_body |}.

(** A pass-through request that does not ask for a stream. *)
Definition plain_request : Request :=
  {| req_method := "POST";
     req_path := "/v1beta/models/gemini-pro:generateContent";
     req_headers := []; req_query := []; req_body := JObj [] |}.






(** The relay link is lost while a pseudo-streamed request waits: its
    queue is closed. *)
Definition queue_closed : list dq := [Rejected "Queue closed"].

(** The same world with a keep-alive interval that fires once during
    the first wait. *)
Definition ticking (h : RequestHandler) (inbox : list dq) : World :=
  {| handler := h; res := Res.fresh; relay := [];
     links := [true; true; true; true]; inbox := inbox; browser := [];
     currentAuthIndex := 1; availableIndices := [1]; keepAlive := false;
     ticks := [1%nat]; timers := []; ids := ["1700000000000_abcdefghi"] |}.

(** The handler after two failures. *)
Definition failed_twice : RequestHandler := with_failureCount 2 new_handler.

(** A rotation is pending and one is in progress. *)
Definition rotating : RequestHandler :=
  with_switching true (with_pending true new_handler).

End Example.

(* ================================================================== *)
(** * Notions used in the statements *)
(* ================================================================== *)

(** The world a computation leaves and the way it completes. *)
Definition run {A} (m : M A) (w : World) : World := snd (m w).
Definition completion {A} (m : M A) (w : World) : outcome A := fst (m w).

(** A computation [preserves] a relation between the world it starts in
    and the world it leaves. *)
Definition preserves (R : World -> World -> Prop) {A} (m : M A) : Prop :=
  forall w, R w (run m w).

(** Nothing of the response has left yet. *)
Definition unsent (r : Res.Response) : Prop :=
  Res.headersSent r = false /\ Res.writableEnded r = false
  /\ Res.statusLines r = [] /\ Res.out r = [].

(** The request was turned away at the gate: nothing was forwarded or
    taken from the queue, the rotation fields are as they were, and the
    client got the one response [status] with the body of
    [_sendErrorResponse]. *)
Definition turned_away (rt : Runtime) (status : Z) (message : string)
  (m : M unit) (w : World) : Prop :=
  completion m w = Return tt
  /\ handler (run m w) = handler w
  /\ relay (run m w) = relay w
  /\ inbox (run m w) = inbox w
  /\ Res.statusLines (res (run m w)) = [status]
  /\ Res.out (res (run m w)) = [error_body rt status (Some message)]
  /\ Res.writableEnded (res (run m w)) = true.

(** The same world with [pendingSwitch] set to [b]. *)
Definition set_pending (b : bool) (w : World) : World :=
  run (modify_handler (with_pending b)) w.

(** A computation is blind to [pendingSwitch] when it neither reads nor
    writes it: whatever the flag, it completes the same way and leaves
    the same world, flag apart. *)
Definition blind_to_pending {A} (m : M A) : Prop :=
  forall b w, m (set_pending b w) = (completion m w, set_pending b (run m w)).

(** What it takes for a relation between worlds to hold across every
    piece of handler code: it is reflexive and transitive, and every
    primitive preserves it (forwarding a frame and counting a failure
    apart, which are asked for where they are used). *)
Record Frame (cfg : Config) (R : World -> World -> Prop) : Prop := {
  f_refl : forall w, R w w;
  f_trans : forall a b c, R a b -> R b c -> R a c;
  f_await : preserves R await;
  f_status : forall c, preserves R (modify_res (Res.status c));
  f_write : forall s, preserves R (modify_res (Res.write s));
  f_end : preserves R (modify_res Res.end_);
  f_set : forall k v, preserves R (try_res (Res.set k v));
  f_type : forall t, preserves R (try_res (Res.type t));
  f_json : forall s, preserves R (try_res (Res.json s));
  f_send : forall s, preserves R (try_res (Res.send s));
  f_links : preserves R hasActiveConnections;
  f_inbox : preserves R pop_inbox;
  f_browser : preserves R pop_browser;
  f_ids : preserves R pop_ids;
  f_timer : forall ms, preserves R (push_timer ms);
  f_keepAlive : forall b, preserves R (set_keepAlive b);
  f_index : forall i, preserves R (set_currentAuthIndex i);
  f_enter : preserves R (modify_handler enter_request);
  f_leave : preserves R (modify_handler leave_request);
  f_finalise : preserves R (modify_handler finalise_request);
  f_count_use : forall g, preserves R (modify_handler (count_use cfg g));
  f_reset_failures : preserves R (modify_handler reset_failures);
  f_switch_enter : preserves R (modify_handler switch_enter);
  f_switch_reset : preserves R (modify_handler switch_reset);
  f_switch_leave : preserves R (modify_handler switch_leave);
  f_pending : forall b, preserves R (modify_handler (with_pending b));
  f_busy : forall b, preserves R (modify_handler (with_busy b))
}.

(** The relation "no frame was forwarded". *)
Definition same_relay (w w' : World) : Prop := relay w' = relay w.

(** The relation "no answer was put into the queue": the handlers only
    take from it. *)
Definition inbox_shrinks (w w' : World) : Prop :=
  (List.length (inbox w') <= List.length (inbox w))%nat.

(** ** Buffered answers *)
Module Buffered.

(** What a message adds to [fullBody]. *)
Definition chunk_text (m : message) : string :=
  if is_chunk m && nonempty (msg_data m)
  then match msg_data m with Some d => d | None => "" end
  else "".










(** [req.body.model || "gemini-1.5-pro-latest"], after the redirection
    of [processOpenAIRequest]. *)
Definition chosen_model (sys : ServerSystem) (m : json) : json :=
  let model := if truthy m then m else JStr "gemini-1.5-pro-latest" in
  if redirect25to30 sys
     && match model with JStr s => String.eqb s "gemini-2.5-pro" | _ => false end
  then JStr "gemini-3-pro-preview" else model.



(** Once the response has ended, nothing of it changes any more. *)
Definition settled (w w' : World) : Prop :=
  Res.headersSent (res w) = true -> Res.writableEnded (res w) = true ->
  Res.headersSent (res w') = true /\ Res.writableEnded (res w') = true
  /\ Res.statusLines (res w') = Res.statusLines (res w)
  /\ Res.header_fields (res w') = Res.header_fields (res w)
  /\ Res.out (res w') = Res.out (res w).

End Buffered.

(** ** The failure counter *)
Module Failures.

(** From [w] to [w'] the failure counter did not grow (and stayed a
    count). *)
Definition quiet (w w' : World) : Prop :=
  0 <= failureCount (handler w) ->
  0 <= failureCount (handler w') <= failureCount (handler w).

(** Running [m] from [w] leaves the failure counter higher than it was. *)
Definition grows (m : M unit) (w : World) : Prop :=
  failureCount (handler w) < failureCount (handler (run m w)).

(** The first answer the queue has for the request is an error event of
    the relay. *)
Definition first_answer_is_error (w : World) : Prop :=
  exists status message, hd_error (inbox w) = Some (Msg (ErrorEvent status message)).

(** How an attempt of the pseudo stream ends, by what the queue settles
    its wait with: the attempt fails on an error event that does not say
    "aborted", and on a wait that fails (the queue is closed, or nothing
    arrives), which [_handlePseudoStreamResponse] turns into the error
    504 "Timeout". *)
Definition attempt_fails (answer : option dq) : bool :=
  match answer with
  | Some (Msg m) => is_error m && not_aborted m
  | Some (Rejected _) => true
  | None => true
  end.

(** Every one of the [maxRetries] attempts was forwarded and failed. *)
Definition every_attempt_failed (cfg : Config) (w : World) : Prop :=
  1 <= maxRetries cfg
  /\ forall k, (k < Z.to_nat (maxRetries cfg))%nat ->
       nth k (links w) false = true
       /\ attempt_fails (nth_error (inbox w) k) = true.

(** The queue holds a first answer that is not an error, then chunks,
    then the end of the stream. *)
Definition answers_in_full (w : World) : Prop :=
  exists first chunks rest,
    is_error first = false
    /\ inbox w = Msg first :: map Msg chunks ++ Msg StreamEnd :: rest
    /\ forallb (fun m => negb (is_stream_end m)) chunks = true.

End Failures.

Module StatusLine.

(** The response object keeps its own books: headers are out exactly
    when one status line went out. *)
Definition consistent (r : Res.Response) : Prop :=
  (Res.headersSent r = false /\ Res.statusLines r = [])
  \/ (Res.headersSent r = true /\ exists c, Res.statusLines r = [c]).

(** From [r] to [r']: still one status line at most, and the line that
    was out stays the one that is out. *)
Definition stable (r r' : Res.Response) : Prop :=
  consistent r ->
  consistent r' /\ (Res.headersSent r = true -> Res.statusLines r' = Res.statusLines r).

(** The relation on worlds. *)
Definition R (w w' : World) : Prop := stable (res w) (res w').

(** Running [m] from [w], the client sees one response start at most, and
    a status line that was out before is the one that is out after. *)
Definition one_start (m : M unit) (w : World) : Prop :=
  (List.length (Res.statusLines (res (run m w))) <= 1)%nat
  /\ (Res.headersSent (res w) = true ->
      Res.statusLines (res (run m w)) = Res.statusLines (res w)).

(** What was sent of the body stays: the body after is the body before,
    with more at its end perhaps. *)
Definition body_kept (w w' : World) : Prop :=
  exists more, Res.out (res w') = Res.out (res w) ++ more.

(** Running [m] from [w] only ends the response: status, status line,
    headers and body are the same, and nothing else moves. *)
Definition only_ends (m : M unit) (w : World) : Prop :=
  completion m w = Return tt
  /\ Res.statusCode (res (run m w)) = Res.statusCode (res w)
  /\ Res.statusLines (res (run m w)) = Res.statusLines (res w)
  /\ Res.header_fields (res (run m w)) = Res.header_fields (res w)
  /\ Res.out (res (run m w)) = Res.out (res w)
  /\ Res.writableEnded (res (run m w)) = true
  /\ handler (run m w) = handler w
  /\ relay (run m w) = relay w.

End StatusLine.

(* ================================================================== *)
(** * Requests and rotations interleaved *)
(* ================================================================== *)

(** Many requests are in flight at once, each suspended at one of its
    [await]s, while the rotation fields are shared.  A [System] is those
    fields together with a census of the suspended tasks; a [step] is one
    synchronous stretch of [RequestHandler] code, named by an [event]. *)
Module Interleaving.

(** Who called [_switchToNextAuth] or [_switchToSpecificAuth]. *)
Inductive origin : Type :=
| ByFailure      (* [_handleRequestFailureAndSwitch], inside a request *)
| ByIdle         (* [_tryExecutePendingSwitch] *)
| ByAdminNext    (* POST /api/switch-account without a target *)
| ByAdminTarget. (* POST /api/switch-account with a target *)

(** How the browser driver ended a switch. *)
Inductive ending : Type :=
| Switched
| FellBack
| Broke.

Record System : Type := {
  ctl : RequestHandler;
  awaiting : nat;          (* accepted, waiting for the first answer of the relay *)
  answering : nat;         (* answer handled, not yet in the [finally] block *)
  recovering : nat;        (* in [processRequest], awaiting [launchOrSwitchContext] *)
  switching : list origin; (* switches awaiting the browser driver *)
  clearing : nat           (* [_tryExecutePendingSwitch] about to clear [pendingSwitch] *)
}.

Definition initial : System :=
  {| ctl := new_handler; awaiting := 0; answering := 0; recovering := 0;
     switching := []; clearing := 0 |}.

Inductive event : Type :=
| Rejected503
| TurnedAway
| Accepted (isGenerative : bool)
| RecoveryStarted
| RecoveryFailed
| Recovered (isGenerative : bool)
| OpenAIAccepted
| OpenAIRefused
| ModelListServed
| Answered
| Abandoned
| Failed (status : option Z)
| FailedOver (status : option Z)
| Finalised
| FinalisedAndSwitched
| AdminRefused
| AdminSwitchBegun (who : origin)
| SwitchEnded (who : origin) (how : ending)
| PendingCleared.

(** The rotation an event begins, if any. *)
Definition begins (e : event) : option origin :=
  match e with
  | FailedOver _ => Some ByFailure
  | FinalisedAndSwitched => Some ByIdle
  | AdminSwitchBegun who => Some who
  | _ => None
  end.



(** What the end of a switch does to the rotation fields, before the
    [finally] of the switch function. *)
Definition settle (who : origin) (how : ending) (h : RequestHandler) : RequestHandler :=
  match who, how with
  | _, Broke => h
  | ByAdminTarget, _ => with_pending false (switch_reset h)
  | _, _ => switch_reset h
  end.

Section WithConfig.
Variable cfg : Config.

Inductive step : System -> event -> System -> Prop :=
(* [processRequest], [processOpenAIRequest]: the gate is closed *)
| step_rejected c a n r s k :
    gate_closed c = true ->
    step (Build_System c a n r s k) Rejected503 (Build_System c a n r s k)
(* [processRequest]: "Server recovering..." and "Server busy" *)
| step_turned_away c a n r s k :
    gate_closed c = false ->
    isSystemBusy c = true ->
    step (Build_System c a n r s k) TurnedAway
         (Build_System (leave_request (enter_request c)) a n r s k)
(* [processRequest] with the relay connected *)
| step_accepted g c a n r s k :
    gate_closed c = false ->
    isSystemBusy c = false ->
    step (Build_System c a n r s k) (Accepted g)
         (Build_System (count_use cfg g (enter_request c)) (S a) n r s k)
(* [processRequest] without a connection: automatic recovery *)
| step_recovery_started c a n r s k :
    gate_closed c = false ->
    isSystemBusy c = false ->
    step (Build_System c a n r s k) RecoveryStarted
         (Build_System (with_busy true (enter_request c)) a n (S r) s k)
| step_recovery_failed c a n r s k :
    step (Build_System c a n (S r) s k) RecoveryFailed
         (Build_System (with_busy false (with_busy false (leave_request c))) a n r s k)
| step_recovered g c a n r s k :
    step (Build_System c a n (S r) s k) (Recovered g)
         (Build_System (count_use cfg g (with_busy false c)) (S a) n r s k)
(* [processOpenAIRequest] *)
| step_openai_accepted c a n r s k :
    gate_closed c = false ->
    step (Build_System c a n r s k) OpenAIAccepted
         (Build_System (count_use cfg true (enter_request c)) (S a) n r s k)
| step_openai_refused c a n r s k :
    gate_closed c = false ->
    step (Build_System c a n r s k) OpenAIRefused
         (Build_System (leave_request (count_use cfg true (enter_request c))) a n r s k)
(* [processModelListRequest] *)
| step_model_list c a n r s k :
    step (Build_System c a n r s k) ModelListServed (Build_System c a n r s k)
(* the first answer of the relay is not an error *)
| step_answered c a n r s k :
    step (Build_System c (S a) n r s k) Answered
         (Build_System (reset_failures c) a (S n) r s k)
(* an exception ends the wait *)
| step_abandoned c a n r s k :
    step (Build_System c (S a) n r s k) Abandoned
         (Build_System c a (S n) r s k)
(* [_handleRequestFailureAndSwitch] *)
| step_failed status c a n r s k :
    must_switch cfg status (count_failure cfg c) = false
    \/ isAuthSwitching (count_failure cfg c) = true ->
    step (Build_System c (S a) n r s k) (Failed status)
         (Build_System (count_failure cfg c) a (S n) r s k)
| step_failed_over status c a n r s k :
    must_switch cfg status (count_failure cfg c) = true ->
    isAuthSwitching (count_failure cfg c) = false ->
    step (Build_System c (S a) n r s k) (FailedOver status)
         (Build_System (switch_enter (count_failure cfg c)) a n r (ByFailure :: s) k)
(* the [finally] block of a request *)
| step_finalised c a n r s k :
    pending_ready (finalise_request c) = false ->
    step (Build_System c a (S n) r s k) Finalised
         (Build_System (finalise_request c) a n r s k)
| step_finalised_switched c a n r s k :
    pending_ready (finalise_request c) = true ->
    step (Build_System c a (S n) r s k) FinalisedAndSwitched
         (Build_System (switch_enter (finalise_request c)) a n r (ByIdle :: s) k)
(* POST /api/switch-account *)
| step_admin_refused c a n r s k :
    step (Build_System c a n r s k) AdminRefused (Build_System c a n r s k)
| step_admin_begun who c a n r s k :
    who = ByAdminNext \/ who = ByAdminTarget ->
    isAuthSwitching c = false ->
    step (Build_System c a n r s k) (AdminSwitchBegun who)
         (Build_System (switch_enter c) a n r (who :: s) k)
(* the browser driver returns *)
| step_switch_ended who how c a n r s1 s2 k :
    (who = ByAdminTarget -> how <> FellBack) ->
    step (Build_System c a n r (s1 ++ who :: s2) k) (SwitchEnded who how)
         (Build_System (switch_leave (settle who how c)) a
            (match who with ByFailure => S n | _ => n end) r (s1 ++ s2)
            (match who with ByIdle => S k | _ => k end))
(* the [finally] of [_tryExecutePendingSwitch] *)
| step_pending_cleared c a n r s k :
    step (Build_System c a n r s (S k)) PendingCleared
         (Build_System (with_pending false c) a n r s k).

(** A run of the system, event by event. *)
Inductive trace : System -> list event -> System -> Prop :=
| trace_nil s : trace s [] s
| trace_snoc s tr s1 e s2 :
    trace s tr s1 -> step s1 e s2 -> trace s (tr ++ [e]) s2.

Definition reachable (s : System) : Prop := exists tr, trace initial tr s.

End WithConfig.

(** The requests counted by [activeRequestCount] that are in flight. *)
Definition in_flight (s : System) : nat :=
  awaiting s + answering s + recovering s
  + List.length (filter (fun o => match o with ByFailure => true | _ => false end)
                   (switching s)).


(** Mutual exclusion: [isAuthSwitching] is set exactly while one switch
    awaits the browser driver, and there is never more than one. *)
Definition exclusive (s : System) : Prop :=
  (isAuthSwitching (ctl s) = false /\ switching s = [])
  \/ (isAuthSwitching (ctl s) = true /\ exists o, switching s = [o]).

(** [activeRequestCount] counts the requests in flight. *)
Definition counted (s : System) : Prop :=
  activeRequestCount (ctl s) = Z.of_nat (in_flight s).


(** One request accepted by [processRequest] and waiting for the relay,
    and the same system once the relay has answered [error 429] under the
    default configuration. *)
Definition one_waiting : System :=
  {| ctl := count_use default_config true (enter_request new_handler);
     awaiting := 1; answering := 0; recovering := 0; switching := [];
     clearing := 0 |}.


Definition failing_over : System :=
  {| ctl := switch_enter (count_failure default_config (ctl one_waiting));
     awaiting := 0; answering := 0; recovering := 0; switching := [ByFailure];
     clearing := 0 |}.

End Interleaving.
From Stdlib Require Import Permutation Sorted.

(* ================================================================== *)
(** * The message queue of a request *)
(* ================================================================== *)

(** [MessageQueue].  Each call of [dequeue] makes a promise; the promise
    is named by a number, its resolver.  An operation returns the queue
    it leaves and the promises it settles, in order. *)
Module Queue.

Inductive settlement (A : Type) : Type :=
| Resolve (resolver : nat) (message : A)
| Reject (resolver : nat) (reason : string).
Arguments Resolve {A} resolver message.
Arguments Reject {A} resolver reason.

Record MessageQueue (A : Type) : Type := {
  messages : list A;
  waitingResolvers : list nat;
  closed : bool
}.
Arguments messages {A} _.
Arguments waitingResolvers {A} _.
Arguments closed {A} _.

Section WithMessage.
Context {A : Type}.

(** [constructor] *)
Definition empty : MessageQueue A :=
  {| messages := []; waitingResolvers := []; closed := false |}.

(** [enqueue(message)] *)
Definition enqueue (message : A) (q : MessageQueue A)
  : MessageQueue A * list (settlement A) :=
  if closed q then (q, [])
  else match waitingResolvers q with
       | resolver :: rest =>
           ({| messages := messages q; waitingResolvers := rest; closed := closed q |},
            [Resolve resolver message])
       | [] =>
           ({| messages := messages q ++ [message];
               waitingResolvers := waitingResolvers q; closed := closed q |},
            [])
       end.

(** [dequeue(timeoutMs)], up to the point where its timer is armed. *)
Definition dequeue (resolver : nat) (q : MessageQueue A)
  : MessageQueue A * list (settlement A) :=
  if closed q then (q, [Reject resolver "Queue is closed"])
  else match messages q with
       | message :: rest =>
           ({| messages := rest; waitingResolvers := waitingResolvers q;
               closed := closed q |},
            [Resolve resolver message])
       | [] =>
           ({| messages := messages q;
               waitingResolvers := waitingResolvers q ++ [resolver];
               closed := closed q |},
            [])
       end.

(** [waitingResolvers.splice(index, 1)] at the first position of [resolver] *)
Fixpoint splice_out (resolver : nat) (l : list nat) : list nat :=
  match l with
  | [] => []
  | r :: rest => if Nat.eqb r resolver then rest else r :: splice_out resolver rest
  end.

(** The callback of the timer that [dequeue] arms. *)
Definition timeout (resolver : nat) (q : MessageQueue A)
  : MessageQueue A * list (settlement A) :=
  if existsb (Nat.eqb resolver) (waitingResolvers q)
  then ({| messages := messages q;
           waitingResolvers := splice_out resolver (waitingResolvers q);
           closed := closed q |},
        [Reject resolver "Queue timeout"])
  else (q, []).

(** [close()] *)
Definition close (q : MessageQueue A) : MessageQueue A * list (settlement A) :=
  ({| messages := []; waitingResolvers := []; closed := true |},
   map (fun resolver => Reject resolver "Queue closed") (waitingResolvers q)).

(** What can happen to a queue, and a run of such events. *)
Inductive op : Type :=
| Enqueue (message : A)
| Dequeue (resolver : nat)
| Timeout (resolver : nat)
| Close.

Definition step (o : op) (q : MessageQueue A) : MessageQueue A * list (settlement A) :=
  match o with
  | Enqueue m => enqueue m q
  | Dequeue r => dequeue r q
  | Timeout r => timeout r q
  | Close => close q
  end.

Fixpoint steps (ops : list op) (q : MessageQueue A)
  : MessageQueue A * list (settlement A) :=
  match ops with
  | [] => (q, [])
  | o :: rest =>
      let (q1, s1) := step o q in
      let (q2, s2) := steps rest q1 in
      (q2, s1 ++ s2)
  end.

(** The messages handed to [enqueue], the promises made by [dequeue], the
    messages delivered and the promises settled, each in order. *)
Definition enqueued (ops : list op) : list A :=
  flat_map (fun o => match o with Enqueue m => [m] | _ => [] end) ops.

Definition promised (ops : list op) : list nat :=
  flat_map (fun o => match o with Dequeue r => [r] | _ => [] end) ops.

Definition delivered (s : list (settlement A)) : list A :=
  flat_map (fun x => match x with Resolve _ m => [m] | Reject _ _ => [] end) s.

Definition settled (s : list (settlement A)) : list nat :=
  map (fun x => match x with Resolve r _ | Reject r _ => r end) s.

(** A queue never holds a message while a promise waits, and holds
    nothing once closed. *)
Definition balanced (q : MessageQueue A) : Prop :=
  (messages q = [] \/ waitingResolvers q = [])
  /\ (closed q = true -> messages q = [] /\ waitingResolvers q = []).

End WithMessage.

End Queue.

(* ================================================================== *)
(** * The connection registry *)
(* ================================================================== *)

(** [ConnectionRegistry]: the browser sockets, the queues of the requests
    in flight, and the timer that gives a lost browser five seconds to
    reconnect. *)
Module Registry.

(** What [_routeMessage] puts on a queue: a relay frame as it was
    parsed, or the sentinel [{ type: "STREAM_END" }]. *)
Inductive queued : Type :=
| Relayed (message : json)
| STREAM_END.

(** A JavaScript [Map] with string keys, in insertion order; a key is
    held once. *)
Section Maps.
Context {V : Type}.

Fixpoint map_get (k : string) (m : list (string * V)) : option V :=
  match m with
  | [] => None
  | (k', v) :: rest => if String.eqb k k' then Some v else map_get k rest
  end.

Fixpoint map_set (k : string) (v : V) (m : list (string * V)) : list (string * V) :=
  match m with
  | [] => [(k, v)]
  | (k', v') :: rest =>
      if String.eqb k k' then (k, v) :: rest else (k', v') :: map_set k v rest
  end.

Definition map_delete (k : string) (m : list (string * V)) : list (string * V) :=
  filter (fun kv => negb (String.eqb k (fst kv))) m.

End Maps.

(** [connections] is the [Set] of sockets, each named by a number.
    [reconnectGraceTimer] is the timer the field holds ([None]: [null]). *)
Record ConnectionRegistry : Type := {
  connections : list nat;
  messageQueues : list (string * Queue.MessageQueue queued);
  reconnectGraceTimer : option nat
}.

(** The timers of the runtime that are set and have neither fired nor
    been cleared, and the number the next [setTimeout] returns. *)
Record Timers : Type := {
  armed : list nat;
  next_timer : nat
}.

(** [constructor] *)
Definition empty : ConnectionRegistry :=
  {| connections := []; messageQueues := []; reconnectGraceTimer := None |}.

Definition with_queues (m : list (string * Queue.MessageQueue queued))
  (reg : ConnectionRegistry) : ConnectionRegistry :=
  {| connections := connections reg; messageQueues := m;
     reconnectGraceTimer := reconnectGraceTimer reg |}.

(** [createMessageQueue(requestId)] *)
Definition createMessageQueue (requestId : string) (reg : ConnectionRegistry)
  : ConnectionRegistry :=
  with_queues (map_set requestId Queue.empty (messageQueues reg)) reg.

(** The settlements of the queue of [requestId]. *)
Definition of_request (requestId : string) (s : list (Queue.settlement queued))
  : list (string * Queue.settlement queued) :=
  map (pair requestId) s.

(** [removeMessageQueue(requestId)] *)
Definition removeMessageQueue (requestId : string) (reg : ConnectionRegistry)
  : ConnectionRegistry * list (string * Queue.settlement queued) :=
  match map_get requestId (messageQueues reg) with
  | Some queue =>
      (with_queues (map_delete requestId (messageQueues reg)) reg,
       of_request requestId (snd (Queue.close queue)))
  | None => (reg, [])
  end.

(** [_routeMessage(message, queue)] *)
Definition _routeMessage (message : json) (queue : Queue.MessageQueue queued)
  : Queue.MessageQueue queued * list (Queue.settlement queued) :=
  match get_opt message "event_type" with
  | JStr event_type =>
      if String.eqb event_type "response_headers"
         || String.eqb event_type "chunk"
         || String.eqb event_type "error"
      then Queue.enqueue (Relayed message) queue
      else if String.eqb event_type "stream_close"
      then Queue.enqueue STREAM_END queue
      else (queue, [])
  | _ => (queue, [])
  end.

(** [this.messageQueues.get(requestId)]: the keys are the strings that
    [createMessageQueue] was given, so no other value finds a queue. *)
Definition queue_of (requestId : json) (reg : ConnectionRegistry)
  : option (string * Queue.MessageQueue queued) :=
  match requestId with
  | JStr id =>
      match map_get id (messageQueues reg) with
      | Some queue => Some (id, queue)
      | None => None
      end
  | _ => None
  end.

Section WithRuntime.
Variable rt : Runtime.

(** [_handleIncomingMessage(messageData)]; whatever throws inside is
    caught and dropped. *)
Definition _handleIncomingMessage (messageData : string) (reg : ConnectionRegistry)
  : ConnectionRegistry * list (string * Queue.settlement queued) :=
  match JSON_parse rt messageData with
  | None => (reg, [])
  | Some parsedMessage =>
      match get parsedMessage "request_id" with
      | None => (reg, [])
      | Some requestId =>
          if negb (truthy requestId) then (reg, [])
          else
            match queue_of requestId reg with
            | Some (id, queue) =>
                let (queue', s) := _routeMessage parsedMessage queue in
                (with_queues (map_set id queue' (messageQueues reg)) reg,
                 of_request id s)
            | None => (reg, [])
            end
      end
  end.

(** A run of incoming frames. *)
Fixpoint incoming (frames : list string) (reg : ConnectionRegistry)
  : ConnectionRegistry * list (string * Queue.settlement queued) :=
  match frames with
  | [] => (reg, [])
  | messageData :: rest =>
      let (reg1, s1) := _handleIncomingMessage messageData reg in
      let (reg2, s2) := incoming rest reg1 in
      (reg2, s1 ++ s2)
  end.

(** What a frame adds to the queue of [id], when that queue is open and
    nothing waits on it. *)
Definition routed (id : string) (messageData : string) : list queued :=
  match JSON_parse rt messageData with
  | Some parsedMessage =>
      match get parsedMessage "request_id" with
      | Some (JStr id') =>
          if String.eqb id' id && negb (String.eqb id' "")
          then match get_opt parsedMessage "event_type" with
               | JStr event_type =>
                   if String.eqb event_type "response_headers"
                      || String.eqb event_type "chunk"
                      || String.eqb event_type "error"
                   then [Relayed parsedMessage]
                   else if String.eqb event_type "stream_close" then [STREAM_END]
                   else []
               | _ => []
               end
          else []
      | _ => []
      end
  | None => []
  end.

End WithRuntime.

(** [hasActiveConnections()] and [getFirstConnection()] *)
Definition hasActiveConnections (reg : ConnectionRegistry) : bool :=
  negb (Nat.eqb (List.length (connections reg)) 0).

Definition getFirstConnection (reg : ConnectionRegistry) : option nat :=
  hd_error (connections reg).

(** [addConnection(websocket, clientInfo)] *)
Definition addConnection (websocket : nat) (st : ConnectionRegistry * Timers)
  : ConnectionRegistry * Timers :=
  let (reg, tm) := st in
  let tm1 :=
    match reconnectGraceTimer reg with
    | Some t => {| armed := filter (fun x => negb (Nat.eqb x t)) (armed tm);
                   next_timer := next_timer tm |}
    | None => tm
    end in
  ({| connections :=
        if existsb (Nat.eqb websocket) (connections reg) then connections reg
        else connections reg ++ [websocket];
      messageQueues := messageQueues reg;
      reconnectGraceTimer := None |},
   tm1).

(** [_removeConnection(websocket)] *)
Definition _removeConnection (websocket : nat) (st : ConnectionRegistry * Timers)
  : ConnectionRegistry * Timers :=
  let (reg, tm) := st in
  let remaining := filter (fun x => negb (Nat.eqb x websocket)) (connections reg) in
  match remaining with
  | [] =>
      ({| connections := remaining; messageQueues := messageQueues reg;
          reconnectGraceTimer := Some (next_timer tm) |},
       {| armed := armed tm ++ [next_timer tm]; next_timer := S (next_timer tm) |})
  | _ :: _ =>
      ({| connections := remaining; messageQueues := messageQueues reg;
          reconnectGraceTimer := reconnectGraceTimer reg |},
       tm)
  end.

(** The callback of the grace timer [t]; it runs when [t] is still armed. *)
Definition grace_expired (t : nat) (st : ConnectionRegistry * Timers)
  : (ConnectionRegistry * Timers) * list (string * Queue.settlement queued) :=
  let (reg, tm) := st in
  if existsb (Nat.eqb t) (armed tm) then
    (({| connections := connections reg; messageQueues := [];
         reconnectGraceTimer := reconnectGraceTimer reg |},
      {| armed := filter (fun x => negb (Nat.eqb x t)) (armed tm);
         next_timer := next_timer tm |}),
     flat_map (fun kq => of_request (fst kq) (snd (Queue.close (snd kq))))
       (messageQueues reg))
  else (st, []).

(** The life of the sockets: one connects, one closes, a grace timer
    fires. *)
Inductive link_event : Type :=
| Connected (websocket : nat)
| Disconnected (websocket : nat)
| GraceExpired (t : nat).

Definition link_step (e : link_event) (st : ConnectionRegistry * Timers)
  : (ConnectionRegistry * Timers) * list (string * Queue.settlement queued) :=
  match e with
  | Connected ws => (addConnection ws st, [])
  | Disconnected ws => (_removeConnection ws st, [])
  | GraceExpired t => grace_expired t st
  end.

Fixpoint link_steps (es : list link_event) (st : ConnectionRegistry * Timers)
  : (ConnectionRegistry * Timers) * list (string * Queue.settlement queued) :=
  match es with
  | [] => (st, [])
  | e :: rest =>
      let (st1, s1) := link_step e st in
      let (st2, s2) := link_steps rest st1 in
      (st2, s1 ++ s2)
  end.

(** A socket closes only while it is connected. *)
Fixpoint well_formed (es : list link_event) (connected : list nat) : Prop :=
  match es with
  | [] => True
  | Connected ws :: rest => ~ In ws connected /\ well_formed rest (connected ++ [ws])
  | Disconnected ws :: rest =>
      In ws connected
      /\ well_formed rest (filter (fun x => negb (Nat.eqb x ws)) connected)
  | GraceExpired _ :: rest => well_formed rest connected
  end.

(** At most one grace timer is armed, it is the one the registry holds,
    and it is armed only while no socket is connected. *)
Definition one_timer (st : ConnectionRegistry * Timers) : Prop :=
  armed (snd st) = []
  \/ (connections (fst st) = []
      /\ exists t, armed (snd st) = [t] /\ reconnectGraceTimer (fst st) = Some t).

End Registry.


(* ================================================================== *)
(** * The log buffer *)
(* ================================================================== *)

(** [LoggingService] *)
Module Logging.

Record LoggingService : Type := {
  serviceName : string;
  logBuffer : list string;
  maxBufferSize : nat
}.

(** [constructor(serviceName)] *)
Definition create (serviceName : string) : LoggingService :=
  {| serviceName := serviceName; logBuffer := []; maxBufferSize := 100 |}.

(** One call of [info], [error] or [warn]: its level, the text of
    [new Date().toISOString()] at that moment, and the message. *)
Record line : Type := {
  level : string;
  timestamp : string;
  text : string
}.

Definition formatted (serviceName : string) (l : line) : string :=
  "[" ++ level l ++ "] " ++ timestamp l ++ " [" ++ serviceName ++ "] - " ++ text l.

(** [_formatMessage(level, message)] *)
Definition _formatMessage (l : line) (logger : LoggingService)
  : string * LoggingService :=
  let pushed := logBuffer logger ++ [formatted (serviceName logger) l] in
  (formatted (serviceName logger) l,
   {| serviceName := serviceName logger;
      logBuffer := if Nat.ltb (maxBufferSize logger) (List.length pushed)
                   then tl pushed else pushed;
      maxBufferSize := maxBufferSize logger |}).

(** A run of calls of [info], [error] and [warn]. *)
Definition logged (lines : list line) (logger : LoggingService) : LoggingService :=
  fold_left (fun lg l => snd (_formatMessage l lg)) lines logger.

End Logging.

(* ================================================================== *)
(** * The authentication sources *)
(* ================================================================== *)

(** [AuthSource] *)
Module Auth.

(** What the class reads from outside: the environment, in the order
    [for ... in] enumerates it; the names in [auth/] ([None]: the
    directory does not exist, [Some None]: [readdirSync] throws); the
    text of a file of [auth/] ([None]: it does not exist or cannot be
    read); and [parseInt(digits, 10)] on a nonempty run of digits. *)
Record Host : Type := {
  env : list (string * string);
  readdir : option (option (list string));
  readFile : string -> option string;
  parseInt : string -> Z
}.

(** [process.env[key]] *)
Definition getenv (h : Host) (key : string) : option string :=
  Registry.map_get key (env h).

Definition is_digit (c : ascii) : bool :=
  let n := nat_of_ascii c in (Nat.leb 48 n && Nat.leb n 57)%bool.

(** The longest run of digits at the head of [s], and what follows it. *)
Fixpoint span_digits (s : string) : string * string :=
  match s with
  | EmptyString => (EmptyString, EmptyString)
  | String c s' =>
      if is_digit c
      then let (digits, rest) := span_digits s' in (String c digits, rest)
      else (EmptyString, s)
  end.

(** The first group of [key.match(/^prefix(\d+)suffix$/)], for a suffix
    that does not begin with a digit. *)
Definition match_index (prefix suffix s : string) : option string :=
  match Translator.strip_prefix prefix s with
  | Some rest =>
      let (digits, tail) := span_digits rest in
      if negb (String.eqb digits "") && String.eqb tail suffix
      then Some digits else None
  | None => None
  end.

(** [[...new Set(indices)]]: the first occurrence of each number. *)
Definition dedupe (indices : list Z) : list Z :=
  fold_left (fun seen i => if existsb (Z.eqb i) seen then seen else seen ++ [i])
    indices [].

(** [.sort((a, b) => a - b)]: the numbers in ascending order. *)
Fixpoint insert (i : Z) (sorted : list Z) : list Z :=
  match sorted with
  | [] => [i]
  | j :: rest => if i <=? j then i :: sorted else j :: insert i rest
  end.

Definition sort (indices : list Z) : list Z := fold_right insert [] indices.

Record AuthSource : Type := {
  authMode : string;
  availableIndices : list Z;
  initialIndices : list Z;
  accountNameMap : list (Z * json)
}.

Section WithHost.
Variable rt : Runtime.
Variable h : Host.

(** The indices of the names that match. *)
Definition indices_of (prefix suffix : string) (names : list string) : list Z :=
  flat_map (fun name => match match_index prefix suffix name with
                        | Some digits => [parseInt h digits]
                        | None => []
                        end) names.

(** [_discoverAvailableIndices]: what it leaves in [initialIndices] and
    [availableIndices]. *)
Definition _discoverAvailableIndices (authMode : string) : list Z :=
  if String.eqb authMode "env"
  then sort (dedupe (indices_of "AUTH_JSON_" "" (map fst (env h))))
  else match readdir h with
       | Some (Some files) => sort (dedupe (indices_of "auth-" ".json" files))
       | _ => []
       end.

(** [_getAuthContent(index)]: [None] for [undefined] and [null]. *)
Definition _getAuthContent (authMode : string) (index : Z) : option string :=
  if String.eqb authMode "env"
  then getenv h ("AUTH_JSON_" ++ string_of_Z index)
  else readFile h ("auth-" ++ string_of_Z index ++ ".json").

(** [accountNameMap.set(index, name)] *)
Fixpoint name_set (index : Z) (name : json) (m : list (Z * json)) : list (Z * json) :=
  match m with
  | [] => [(index, name)]
  | (i, n) :: rest =>
      if index =? i then (index, name) :: rest else (i, n) :: name_set index name rest
  end.

(** One turn of the loop of [_preValidateAndFilter] on [validIndices],
    [accountNameMap] and [invalidSourceDescriptions].  The index is
    pushed before the account name is read, so JSON that parses to
    [null] is kept though it is described as invalid. *)
Definition validate (authMode : string) (index : Z)
  (st : list Z * list (Z * json) * list string)
  : list Z * list (Z * json) * list string :=
  let '(validIndices, names, invalid) := st in
  match _getAuthContent authMode index with
  | Some authContent =>
      if String.eqb authContent ""
      then (validIndices, names,
            invalid ++ [("auth-" ++ string_of_Z index ++ " (无法读取)")%string])
      else
        match JSON_parse rt authContent with
        | Some authData =>
            match get authData "accountName" with
            | Some accountName =>
                (validIndices ++ [index],
                 name_set index
                   (if truthy accountName then accountName else JStr "N/A (未命名)")
                   names,
                 invalid)
            | None =>
                (validIndices ++ [index], names,
                 invalid ++ [("auth-" ++ string_of_Z index)%string])
            end
        | None => (validIndices, names, invalid ++ [("auth-" ++ string_of_Z index)%string])
        end
  | None =>
      (validIndices, names,
       invalid ++ [("auth-" ++ string_of_Z index ++ " (无法读取)")%string])
  end.

(** [_preValidateAndFilter] *)
Definition _preValidateAndFilter (a : AuthSource) : AuthSource :=
  match availableIndices a with
  | [] => a
  | _ :: _ =>
      let '(validIndices, names, _) :=
        fold_left (fun st index => validate (authMode a) index st)
          (availableIndices a) ([], accountNameMap a, []) in
      {| authMode := authMode a; availableIndices := validIndices;
         initialIndices := initialIndices a; accountNameMap := names |}
  end.

(** [constructor]: [None] when it throws "No valid authentication
    sources found." *)
Definition create : option AuthSource :=
  let authMode := if nonempty (getenv h "AUTH_JSON_1") then "env" else "file" in
  let indices := _discoverAvailableIndices authMode in
  let a := _preValidateAndFilter
             {| authMode := authMode; availableIndices := indices;
                initialIndices := indices; accountNameMap := [] |} in
  match availableIndices a with
  | [] => None
  | _ :: _ => Some a
  end.

(** [getAuth(index)], [null] included. *)
Definition getAuth (a : AuthSource) (index : Z) : json :=
  if negb (existsb (Z.eqb index) (availableIndices a)) then JNull
  else match _getAuthContent (authMode a) index with
       | Some jsonString =>
           if String.eqb jsonString "" then JNull
           else match JSON_parse rt jsonString with
                | Some v => v
                | None => JNull
                end
       | None => JNull
       end.

(** The sources that [_preValidateAndFilter] keeps. *)
Definition parses (authMode : string) (index : Z) : bool :=
  match _getAuthContent authMode index with
  | Some authContent =>
      negb (String.eqb authContent "")
      && match JSON_parse rt authContent with Some _ => true | None => false end
  | None => false
  end.

End WithHost.

(** [getMaxIndex()]: [Math.max(...this.availableIndices, 0)] *)
Definition getMaxIndex (a : AuthSource) : Z :=
  fold_left Z.max (availableIndices a) 0.

(** The text is a nonempty run of digits. *)
Fixpoint all_digits (s : string) : bool :=
  match s with
  | EmptyString => true
  | String c s' => is_digit c && all_digits s'
  end.

Definition index_text (s : string) : Prop :=
  s <> EmptyString /\ all_digits s = true.

End Auth.

(* ================================================================== *)
(** * Successive rotations *)
(* ================================================================== *)

(** The account after [n] rotations from [current], each one taking
    [_getNextAuthIndex]. *)
Fixpoint rotate (n : nat) (available : list Z) (current : Z) : option Z :=
  match n with
  | O => Some current
  | S n' =>
      match _getNextAuthIndex available current with
      | Some next => rotate n' available next
      | None => None
      end
  end.

(* ================================================================== *)
(** * More notions used in the statements *)
(* ================================================================== *)

(** The rotation fields are as they were. *)
Definition same_handler (w w' : World) : Prop := handler w' = handler w.

(** While no keep-alive interval is armed, the response is as it was
    and no interval has been armed. *)
Definition calm (w w' : World) : Prop :=
  keepAlive w = false -> res w' = res w /\ keepAlive w' = false.

(** The response is one status line and one body, and has ended. *)
Definition served (status : Z) (body : string) (r : Res.Response) : Prop :=
  Res.statusLines r = [status] /\ Res.out r = [body] /\ Res.writableEnded r = true.

(** The frame of a model list request. *)
Definition model_list_frame (rt : Runtime) (sys : ServerSystem) (req : Request)
  (requestId : string) : ProxyRequest :=
  with_streaming_mode "fake"
    (with_method "GET"
       (with_path "/v1beta/models" (_buildProxyRequest rt sys req requestId))).

(* ================================================================== *)
(** * Configuration and the API key check *)
(* ================================================================== *)

(** [ProxyServerSystem._loadConfiguration] and [_createAuthMiddleware] *)
Module Loaded.

(** [process.env], and [parseInt(text, 10)] ([None]: [NaN]). *)
Record Environment : Type := {
  variables : list (string * string);
  parseInt : string -> option Z
}.

Record Configuration : Type := {
  httpPort : Z;
  host : string;
  wsPort : Z;
  streamingMode : string;
  failureThreshold : Z;
  switchOnUses : Z;
  maxRetries : Z;
  retryDelay : Z;
  browserExecutablePath : option string;
  apiKeys : list string;
  immediateSwitchStatusCodes : list Z;
  apiKeySource : string
}.

(** [s.split(",")] *)
Fixpoint split_comma (s : string) : list string :=
  match s with
  | EmptyString => [EmptyString]
  | String c s' =>
      if Ascii.eqb c ","%char then EmptyString :: split_comma s'
      else match split_comma s' with
           | piece :: rest => String c piece :: rest
           | [] => [String c EmptyString]
           end
  end.

Section WithEnvironment.
Variable e : Environment.

(** [process.env.NAME] *)
Definition variable (name : string) : option string :=
  Registry.map_get name (variables e).

(** [if (process.env.NAME) x = parseInt(process.env.NAME, 10) || x] *)
Definition number_setting (name : string) (default : Z) : Z :=
  match variable name with
  | Some text => if String.eqb text "" then default
                 else or_default (parseInt e text) default
  | None => default
  end.

(** [if (process.env.NAME) x = process.env.NAME] *)
Definition text_setting (name : string) (default : string) : string :=
  match variable name with
  | Some text => if String.eqb text "" then default else text
  | None => default
  end.

(** [rawCodes.split(",").map(code => parseInt(String(code).trim(), 10))
      .filter(code => !isNaN(code))] *)
Definition status_codes (rawCodes : string) : list Z :=
  flat_map (fun code => match parseInt e (trim code) with
                        | Some n => [n]
                        | None => []
                        end)
    (split_comma rawCodes).

(** [apiKeys.map(k => String(k).trim()).filter(k => k)] *)
Definition clean_keys (keys : list string) : list string :=
  filter (fun k => negb (String.eqb k "")) (map trim keys).

(** [_loadConfiguration]: what it leaves in [this.config]. *)
Definition _loadConfiguration : Configuration :=
  let apiKeys :=
    clean_keys (if nonempty (variable "API_KEYS")
                then split_comma (text_setting "API_KEYS" "")
                else []) in
  {| httpPort := number_setting "PORT" 7860;
     host := text_setting "HOST" "0.0.0.0";
     wsPort := 9998;
     streamingMode := text_setting "STREAMING_MODE" "real";
     failureThreshold := number_setting "FAILURE_THRESHOLD" 3;
     switchOnUses := number_setting "SWITCH_ON_USES" 40;
     maxRetries := number_setting "MAX_RETRIES" 1;
     retryDelay := number_setting "RETRY_DELAY" 2000;
     browserExecutablePath :=
       if nonempty (variable "CAMOUFOX_EXECUTABLE_PATH")
       then variable "CAMOUFOX_EXECUTABLE_PATH" else None;
     apiKeys := match apiKeys with [] => ["123456"] | _ :: _ => apiKeys end;
     immediateSwitchStatusCodes :=
       status_codes (text_setting "IMMEDIATE_SWITCH_STATUS_CODES"
                       (join "," (map string_of_Z [429; 503])));
     apiKeySource := match apiKeys with [] => "默认" | _ :: _ => "自定义" end |}.

End WithEnvironment.

(** The part of the configuration that [RequestHandler] reads. *)
Definition handler_config (c : Configuration) : Config :=
  Build_Config (failureThreshold c) (switchOnUses c) (maxRetries c) (retryDelay c)
    (immediateSwitchStatusCodes c).

(** [req.headers["x-goog-api-key"]
     || (req.headers.authorization && req.headers.authorization.substring(7))
     || req.headers["x-api-key"] || req.query.key] *)
Definition clientKey (req : Request) : option string :=
  let goog := header "x-goog-api-key" (req_headers req) in
  if nonempty goog then goog
  else
    let authorization := header "authorization" (req_headers req) in
    let bearer :=
      match authorization with
      | Some a => if String.eqb a "" then authorization else Some (drop 7 a)
      | None => None
      end in
    if nonempty bearer then bearer
    else
      let api := header "x-api-key" (req_headers req) in
      if nonempty api then api
      else header "key" (req_query req).

(** [if (req.query.key) delete req.query.key] *)
Definition without_key (req : Request) : Request :=
  if nonempty (header "key" (req_query req))
  then {| req_method := req_method req; req_path := req_path req;
          req_headers := req_headers req;
          req_query := filter (fun kv => negb (String.eqb (fst kv) "key")) (req_query req);
          req_body := req_body req |}
  else req.

Section WithRuntime.
Variable rt : Runtime.

Definition denied_body : string :=
  JSON_stringify rt (JObj [("error", JObj [("message", JStr "Access denied.")])]).

(** [res.status(401).json({ error: { message: "Access denied." } })] *)
Definition denied : M unit :=
  modify_res (Res.status 401) ;; try_res (Res.json denied_body).

(** The middleware that [_createAuthMiddleware] returns, applied to a
    request and to what comes next. *)
Definition _createAuthMiddleware (serverApiKeys : list string) (req : Request)
  (next : Request -> M unit) : M unit :=
  match serverApiKeys with
  | [] => next req
  | _ :: _ =>
      match clientKey req with
      | Some key =>
          if negb (String.eqb key "") && existsb (String.eqb key) serverApiKeys
          then next (without_key req)
          else denied
      | None => denied
      end
  end.

End WithRuntime.

End Loaded.

(* ================================================================== *)
(** * Start-up *)
(* ================================================================== *)

(** [ProxyServerSystem.start] and [initializeServer] *)
Module Startup.

(** [parseInt(process.env.INITIAL_AUTH_INDEX, 10) || 1] *)
Definition initialAuthIndex (e : Loaded.Environment) : Z :=
  match Loaded.variable e "INITIAL_AUTH_INDEX" with
  | Some text => or_default (Loaded.parseInt e text) 1
  | None => 1
  end.

(** [startupOrder], for [initialAuthIndex] a number or [null]. *)
Definition startupOrder (initialAuthIndex : option Z) (allAvailableIndices : list Z)
  : list Z :=
  match initialAuthIndex with
  | Some i =>
      if negb (i =? 0) && existsb (Z.eqb i) allAvailableIndices
      then i :: filter (fun j => negb (j =? i)) allAvailableIndices
      else allAvailableIndices
  | None => allAvailableIndices
  end.

(** The loop over [startupOrder]: [isStarted] when it is left. *)
Fixpoint launch_first (order : list Z) : M bool :=
  match order with
  | [] => ret false
  | index :: rest =>
      isStarted <- try_catch (launchOrSwitchContext (Some index) ;; ret true)
                     (fun _ => ret false) ;;
      if isStarted then ret true else launch_first rest
  end.

(** [start(initialAuthIndex)], up to the servers it then opens. *)
Definition start (initialAuthIndex : option Z) : M unit :=
  w <- get_world ;;
  match availableIndices w with
  | [] => throw "无可用认证源。"
  | _ :: _ =>
      isStarted <- launch_first (startupOrder initialAuthIndex (availableIndices w)) ;;
      if isStarted then ret tt else throw "所有账号启动失败。"
  end.

(** The launches that were tried and failed before the first one that
    succeeds, among the first [n] answers of the browser. *)
Fixpoint failures_before (n : nat) (answers : list bool) : option nat :=
  match n with
  | O => None
  | S n' =>
      match answers with
      | true :: _ => Some O
      | false :: rest => option_map S (failures_before n' rest)
      | [] => None
      end
  end.

End Startup.

(* ================================================================== *)
(** * The script that saves a new account *)
(* ================================================================== *)

Module SaveAuth.

(** [getNextAuthIndex()], on the directory [auth/] of [Auth.Host]; [None]
    when [readdirSync] throws.  Indices are integers; the sum is the one
    of JavaScript while they are below [2^53]. *)
Definition getNextAuthIndex (h : Auth.Host) : option Z :=
  match Auth.readdir h with
  | None => Some 1
  | Some None => None
  | Some (Some files) =>
      let maxIndex :=
        fold_left (fun maxIndex file =>
                     match Auth.match_index "auth-" ".json" file with
                     | Some digits =>
                         let currentIndex := Auth.parseInt h digits in
                         if maxIndex <? currentIndex then currentIndex else maxIndex
                     | None => maxIndex
                     end) files 0 in
      Some (maxIndex + 1)
  end.

(** [`auth-${newIndex}.json`] *)
Definition newAuthFileName (newIndex : Z) : string :=
  "auth-" ++ string_of_Z newIndex ++ ".json".

End SaveAuth.

(* ================================================================== *)
(** * Sample inputs *)
(* ================================================================== *)

Module Sample.

Definition chunk_frame : json :=
  JObj [("request_id", JStr "r1"); ("event_type", JStr "chunk");
        ("data", JStr "{}")].

Definition chunk_text : string := Example.stringify chunk_frame.

Definition frames_runtime : Runtime := Example.runtime [(chunk_text, chunk_frame)].

(** Two requests in flight. *)
Definition two_requests : Registry.ConnectionRegistry :=
  Registry.createMessageQueue "r2"
    (Registry.createMessageQueue "r1" Registry.empty).

Definition no_timers : Registry.Timers :=
  {| Registry.armed := []; Registry.next_timer := 0 |}.

(** The browser connects, drops, and is back before the grace timer
    fires; the stale timer fires later. *)
Definition reconnect : list Registry.link_event :=
  [Registry.Connected 1; Registry.Disconnected 1; Registry.Connected 2;
   Registry.GraceExpired 0].

(** [parseInt] on a run of digits, read exactly. *)
Definition decimal (digits : string) : Z :=
  fold_left (fun n c => 10 * n + (Z.of_nat (nat_of_ascii c) - 48))
    (list_ascii_of_string digits) 0.

Definition account (name : string) : json :=
  JObj [("accountName", JStr name); ("cookies", JArr [])].

(** An environment with two good sources, one under a name that is not
    canonical, one that is the JSON [null], one that does not parse and
    one whose name does not match. *)
Definition auth_host : Auth.Host :=
  {| Auth.env :=
       [("PATH", "/usr/bin");
        ("AUTH_JSON_2", Example.stringify (account "b"));
        ("AUTH_JSON_1", Example.stringify (account "a"));
        ("AUTH_JSON_03", "{}");
        ("AUTH_JSON_4", "null");
        ("AUTH_JSON_5", "{oops");
        ("AUTH_JSON_x", "{}")];
     Auth.readdir := None;
     Auth.readFile := fun _ => None;
     Auth.parseInt := decimal |}.

Definition auth_runtime : Runtime :=
  Example.runtime
    [(Example.stringify (account "a"), account "a");
     (Example.stringify (account "b"), account "b");
     ("{}", JObj []);
     ("null", JNull)].

Definition auth_source : Auth.AuthSource :=
  {| Auth.authMode := "env";
     Auth.availableIndices := [1; 2; 4];
     Auth.initialIndices := [1; 2; 3; 4; 5];
     Auth.accountNameMap := [(1, JStr "a"); (2, JStr "b")] |}.

(** Native thinking is on; a request with a generation configuration. *)
Definition thinking_system : ServerSystem :=
  {| streamingMode := "real"; enableReasoning := false;
     enableNativeReasoning := true; enableResume := false;
     resumeLimit := 3; redirect25to30 := false |}.

Definition thinking_fields : list (string * json) :=
  [("contents", JArr []);
   ("generationConfig", JObj [("temperature", JNum 1)])].

Definition thinking_request : Request :=
  {| req_method := "POST";
     req_path := "/v1beta/models/gemini-pro:generateContent";
     req_headers := []; req_query := []; req_body := JObj thinking_fields |}.

Definition thinking_runtime : Runtime :=
  Example.runtime [(Example.stringify (JObj thinking_fields), JObj thinking_fields)].

(** A chat completion that asks for a stream, and the error the relay
    answers it with. *)
Definition stream_chat_body : json :=
  JObj [("model", JStr "gemini-pro");
        ("messages", JArr [JObj [("role", JStr "user"); ("content", JStr "hi")]]);
        ("stream", JBool true)].

Definition stream_chat_request : Request :=
  {| req_method := "POST"; req_path := "/v1/chat/completions";
     req_headers := []; req_query := []; req_body := stream_chat_body |}.

Definition stream_chat_translated : json :=
  Eval vm_compute in
    match Translator._translateOpenAIToGoogle Example.system stream_chat_body with
    | Some googleBody => googleBody
    | None => JNull
    end.

Definition upstream_error : list dq := [Msg (ErrorEvent (Some 500) (Some "boom"))].

(** The first message of a relayed answer, with its own length and
    content type. *)
Definition relayed_headers : message :=
  ResponseHeaders (Some 201)
    [("Content-Length", "12"); ("content-type", "application/json"); ("X-Foo", "bar")].

(** A request with the default key after a scheme and in the query, and
    one with a wrong [x-goog-api-key] beside a right [x-api-key]. *)
Definition keyed_request : Request :=
  {| req_method := "GET"; req_path := "/v1beta/models";
     req_headers := [("authorization", "Bearer 123456")];
     req_query := [("key", "123456"); ("alt", "sse")]; req_body := JObj [] |}.

Definition wrong_key_request : Request :=
  {| req_method := "GET"; req_path := "/v1beta/models";
     req_headers := [("x-goog-api-key", "nope"); ("x-api-key", "123456")];
     req_query := [("key", "123456")]; req_body := JObj [] |}.

Definition bare_request : Request :=
  {| req_method := "GET"; req_path := "/v1beta/models";
     req_headers := [("accept", "*/*")]; req_query := []; req_body := JObj [] |}.

(** An environment that sets only blanks as keys. *)
Definition blank_keys : Loaded.Environment :=
  {| Loaded.variables := [("API_KEYS", " , ,"); ("MAX_RETRIES", "0")];
     Loaded.parseInt := fun text => Some (decimal text) |}.

(** A directory with two accounts and a file of another kind. *)
Definition auth_directory : Auth.Host :=
  {| Auth.env := [];
     Auth.readdir := Some (Some ["auth-1.json"; "notes.txt"; "auth-07.json"]);
     Auth.readFile := fun _ => None;
     Auth.parseInt := decimal |}.

(** The world of a request that has just arrived, and the route that
    comes after the key check. *)
Definition arrival : World := Example.world new_handler Example.models_inbox.

Definition models_route (req : Request) : M unit :=
  processModelListRequest Example.models_runtime Example.system req.

End Sample.

(* ================================================================== *)
(** * The handlers as runs of the interleaving semantics *)
(* ================================================================== *)

(** A handler of the embedding runs one request from its first statement
    to its last.  Its effect on the rotation fields is compared with the
    events of [Interleaving.step], one event for each stretch of code
    between two [await]s, in the order of the code. *)
Module Refinement.
Import Interleaving.

(** [isGenerativeRequest] of [processRequest] *)
Definition is_generative (req : Request) : bool :=
  String.eqb (req_method req) "POST" && is_generate_path (req_path req).

(** The response mode [processRequest] chooses for a frame. *)
Definition respond (rt : Runtime) (cfg : Config) (sys : ServerSystem) (req : Request)
  (proxyRequest : ProxyRequest) : M unit :=
  if wantsStream req then
    if String.eqb (streamingMode sys) "fake"
    then _handlePseudoStreamResponse rt cfg proxyRequest
    else _handleRealStreamResponse rt cfg proxyRequest
  else _handleNonStreamResponse rt cfg (with_streaming_mode "fake" proxyRequest).

(** The [finally] block of [processRequest]. *)
Definition finish : M unit :=
  modify_handler finalise_request ;; _tryExecutePendingSwitch.

(** The [try] block of [processOpenAIRequest], and its [finally] block. *)
Definition chat_try (rt : Runtime) (cfg : Config) (requestId : string) (model : json)
  (isOpenAIStream : bool) (proxyRequest : ProxyRequest) : M unit :=
  _forwardRequest proxyRequest ;;
  initialMessage <- dequeue ;;
  if is_error initialMessage then
    _handleRequestFailureAndSwitch rt cfg initialMessage true ;;
    if isOpenAIStream then
      r <- get_res ;;
      when (negb (Res.writableEnded r))
        (modify_res (Res.write ("data: [DONE]" ++ nl ++ nl)) ;;
         modify_res Res.end_)
    else
      _sendErrorResponse rt
        (Some (or_default (msg_status initialMessage) 500))
        (msg_message initialMessage)
  else
    modify_handler reset_failures ;;
    if isOpenAIStream then
      modify_res (Res.status 200) ;;
      set_sse_headers ;;
      w <- get_world ;;
      openai_stream_loop rt (S (List.length (inbox w))) model
    else
      fullBody <- buffer_body ;;
      match JSON_parse rt fullBody with
      | None => throw (SyntaxError_message rt fullBody)
      | Some googleResponse =>
          match chat_completion rt requestId model googleResponse with
          | None => throw "TypeError"
          | Some completion =>
              modify_res (Res.status 200) ;;
              try_res (Res.json (JSON_stringify rt completion))
          end
      end.

Definition chat_finish : M unit :=
  r <- get_res ;;
  when (negb (Res.writableEnded r)) (modify_res Res.end_) ;;
  modify_handler finalise_request ;;
  _tryExecutePendingSwitch.

(** [req.body.stream === true] *)
Definition is_true (stream : json) : bool :=
  match stream with JBool true => true | _ => false end.

(** The events of the [finally] block of a request: it ends the request
    and, when [_tryExecutePendingSwitch] finds its condition true, runs
    the pending rotation to its end. *)
Definition finalises (tr : list event) : Prop :=
  tr = [Finalised]
  \/ exists how, tr = [FinalisedAndSwitched; SwitchEnded ByIdle how; PendingCleared].

(** The events of [_handleRequestFailureAndSwitch] for an error with
    [status]: the failure is counted and, when a switch is due and none
    is in progress, the rotation runs to its end. *)
Definition fails (status : option Z) (tr : list event) : Prop :=
  tr = [Failed status]
  \/ exists how, tr = [FailedOver status; SwitchEnded ByFailure how].

(** What happens to an accepted request before its [finally] block. *)
Definition answers (tr : list event) : Prop :=
  tr = [Answered] \/ tr = [Abandoned] \/ exists status, fails status tr.

(** The rotation fields go from [c] to [c'] the way an accepted request
    takes them, from its acceptance to its [finally] block. *)
Definition answered_as (cfg : Config) (c c' : RequestHandler) : Prop :=
  forall a n r s k,
    exists tr, answers tr
               /\ trace cfg (Build_System c (S a) n r s k) tr
                    (Build_System c' a (S n) r s k).

(** The events of one call of [processRequest]. *)
Definition request_events (g : bool) (tr : list event) : Prop :=
  tr = [Rejected503] \/ tr = [TurnedAway] \/ tr = [RecoveryStarted; RecoveryFailed]
  \/ exists mid fin,
       (tr = Accepted g :: mid ++ fin \/ tr = RecoveryStarted :: Recovered g :: mid ++ fin)
       /\ answers mid /\ finalises fin.

(** The events of one call of [processOpenAIRequest] on a body that
    has the fields it reads. *)
Definition chat_events (tr : list event) : Prop :=
  tr = [Rejected503] \/ tr = [OpenAIRefused]
  \/ exists mid fin, tr = OpenAIAccepted :: mid ++ fin /\ answers mid /\ finalises fin.

(** The events of a call of [_switchToNextAuth] or [_switchToSpecificAuth]
    by the route [POST /api/switch-account]. *)
Definition admin_events (who : origin) (tr : list event) : Prop :=
  tr = [AdminRefused]
  \/ exists how, (who = ByAdminTarget -> how <> FellBack)
                 /\ tr = [AdminSwitchBegun who; SwitchEnded who how].

(** A computation [refines] a shape of events when each of its runs
    takes the rotation fields where a run of the interleaving semantics
    with events of that shape takes them, whatever else is in flight. *)
Definition refines {A} (cfg : Config) (m : M A) (shape : list event -> Prop) : Prop :=
  forall w a n r s k,
    exists tr, shape tr
               /\ trace cfg (Build_System (handler w) a n r s k) tr
                    (Build_System (handler (run m w)) a n r s k).



(** A request that has been let in and reaches its [finally] block with
    a switch pending, alone. *)
Definition last_one_out : World :=
  {| handler := with_pending true (enter_request new_handler);
     res := Res.fresh; relay := []; links := []; inbox := [];
     browser := [true]; currentAuthIndex := 1; availableIndices := [1; 2];
     keepAlive := false; ticks := []; timers := []; ids := [] |}.

(** The same request when it fails with error 429 while nothing is
    pending. *)
Definition failing_in_flight : World :=
  {| handler := enter_request new_handler;
     res := Res.fresh; relay := []; links := []; inbox := [];
     browser := [true]; currentAuthIndex := 1; availableIndices := [1; 2];
     keepAlive := false; ticks := []; timers := []; ids := [] |}.

(** When every use rotates: the first request accepted, answered, and
    the rotation its [finally] block begins; and the rotation the same
    request begins when the relay answers it with error 429. *)
Definition first_use : System :=
  {| ctl := count_use (Example.rotate_every 1) true (enter_request new_handler);
     awaiting := 1; answering := 0; recovering := 0; switching := [];
     clearing := 0 |}.

Definition first_answered : System :=
  {| ctl := reset_failures (ctl first_use);
     awaiting := 0; answering := 1; recovering := 0; switching := [];
     clearing := 0 |}.

Definition idle_rotation : System :=
  {| ctl := switch_enter (finalise_request (ctl first_answered));
     awaiting := 0; answering := 0; recovering := 0; switching := [ByIdle];
     clearing := 0 |}.

Definition failure_rotation : System :=
  {| ctl := switch_enter (count_failure (Example.rotate_every 1) (ctl first_use));
     awaiting := 0; answering := 0; recovering := 0; switching := [ByFailure];
     clearing := 0 |}.

End Refinement.
(* ================================================================== *)
(** * Reasoning about handlers *)
(* ================================================================== *)

(** Running a sequence. *)
Lemma run_bind_return {A B} (m : M A) (k : A -> M B) w a w' :
  m w = (Return a, w') -> run (bind m k) w = run (k a) w'.
Proof. intro H. unfold run, bind. rewrite H. reflexivity. Qed.

Lemma run_bind_throw {A B} (m : M A) (k : A -> M B) w e w' :
  m w = (Throw e, w') -> run (bind m k) w = w'.
Proof. intro H. unfold run, bind. rewrite H. reflexivity. Qed.

Lemma completion_bind_return {A B} (m : M A) (k : A -> M B) w a w' :
  m w = (Return a, w') -> completion (bind m k) w = completion (k a) w'.
Proof. intro H. unfold completion, bind. rewrite H. reflexivity. Qed.

Lemma completion_bind_throw {A B} (m : M A) (k : A -> M B) w e w' :
  m w = (Throw e, w') -> completion (bind m k) w = Throw e.
Proof. intro H. unfold completion, bind. rewrite H. reflexivity. Qed.

Lemma run_try_bind_return {A B} (m : M A) (k : A -> M B) h w a w' :
  m w = (Return a, w') ->
  run (try_catch (bind m k) h) w = run (try_catch (k a) h) w'.
Proof. intro H. unfold run, try_catch, bind. rewrite H. reflexivity. Qed.

Lemma run_try_bind_throw {A B} (m : M A) (k : A -> M B) h w e w' :
  m w = (Throw e, w') ->
  run (try_catch (bind m k) h) w = run (h e) w'.
Proof. intro H. unfold run, try_catch, bind. rewrite H. reflexivity. Qed.

Lemma run_guarded_return {A B} (m : M A) (k : A -> M B) h c w a w' :
  m w = (Return a, w') ->
  run (finally (try_catch (bind m k) h) c) w
  = run (finally (try_catch (k a) h) c) w'.
Proof. intro H. unfold run, finally, try_catch, bind. rewrite H. reflexivity. Qed.

Lemma run_guarded_throw {A B} (m : M A) (k : A -> M B) h c w e w' :
  m w = (Throw e, w') ->
  run (finally (try_catch (bind m k) h) c) w = run (finally (h e) c) w'.
Proof. intro H. unfold run, finally, try_catch, bind. rewrite H. reflexivity. Qed.

(** For a reflexive and transitive relation, [preserves] follows the
    structure of the code. *)
Section Preserves.
Variable R : World -> World -> Prop.
Hypothesis R_refl : forall w, R w w.
Hypothesis R_trans : forall a b c, R a b -> R b c -> R a c.

Lemma preserves_ret {A} (a : A) : preserves R (ret a).
Proof. intro w. apply R_refl. Qed.

Lemma preserves_throw {A} (e : string) : preserves R (@throw A e).
Proof. intro w. apply R_refl. Qed.

Lemma preserves_bind {A B} (m : M A) (k : A -> M B) :
  preserves R m -> (forall a, preserves R (k a)) -> preserves R (bind m k).
Proof.
  intros Hm Hk w. unfold run, bind.
  specialize (Hm w). unfold run in Hm.
  destruct (m w) as [[a|e] w1]; simpl in *.
  - eapply R_trans; [exact Hm|]. apply (Hk a w1).
  - exact Hm.
Qed.

Lemma preserves_try_catch {A} (m : M A) (h : string -> M A) :
  preserves R m -> (forall e, preserves R (h e)) -> preserves R (try_catch m h).
Proof.
  intros Hm Hh w. unfold run, try_catch.
  specialize (Hm w). unfold run in Hm.
  destruct (m w) as [[a|e] w1]; simpl in *.
  - exact Hm.
  - eapply R_trans; [exact Hm|]. apply (Hh e w1).
Qed.

Lemma preserves_finally {A} (m : M A) (f : M unit) :
  preserves R m -> preserves R f -> preserves R (finally m f).
Proof.
  intros Hm Hf w. unfold run, finally.
  specialize (Hm w). unfold run in Hm.
  destruct (m w) as [o w1]; simpl in *.
  specialize (Hf w1). unfold run in Hf.
  destruct (f w1) as [[u|e] w2]; simpl in *;
    eapply R_trans; eauto.
Qed.

Lemma preserves_when (b : bool) (m : M unit) :
  preserves R m -> preserves R (when b m).
Proof. intros Hm. destruct b; simpl; [exact Hm | apply preserves_ret]. Qed.

Lemma preserves_get_handler : preserves R get_handler.
Proof. intro w. apply R_refl. Qed.

Lemma preserves_get_res : preserves R get_res.
Proof. intro w. apply R_refl. Qed.

Lemma preserves_get_world : preserves R get_world.
Proof. intro w. apply R_refl. Qed.

Lemma preserves_read_index : preserves R read_index.
Proof. intro w. apply R_refl. Qed.

End Preserves.

(** Structural steps of a [preserves] proof under a [Frame] [F]; [extra]
    closes what [F] does not cover. *)
Ltac frame_step F extra :=
  lazymatch goal with
  | |- preserves _ (bind _ _) =>
      apply (preserves_bind _ (f_trans _ _ F)); [ | intros ]
  | |- preserves _ (try_catch _ _) =>
      apply (preserves_try_catch _ (f_trans _ _ F)); [ | intros ]
  | |- preserves _ (finally _ _) =>
      apply (preserves_finally _ (f_trans _ _ F))
  | |- preserves _ (when _ _) => apply (preserves_when _ (f_refl _ _ F))
  | |- preserves _ (ret _) => apply (preserves_ret _ (f_refl _ _ F))
  | |- preserves _ (throw _) => apply (preserves_throw _ (f_refl _ _ F))
  | |- preserves _ get_handler => apply (preserves_get_handler _ (f_refl _ _ F))
  | |- preserves _ get_res => apply (preserves_get_res _ (f_refl _ _ F))
  | |- preserves _ get_world => apply (preserves_get_world _ (f_refl _ _ F))
  | |- preserves _ read_index => apply (preserves_read_index _ (f_refl _ _ F))
  | |- preserves _ await => apply (f_await _ _ F)
  | |- preserves _ (modify_res (Res.status _)) => apply (f_status _ _ F)
  | |- preserves _ (modify_res (Res.write _)) => apply (f_write _ _ F)
  | |- preserves _ (modify_res Res.end_) => apply (f_end _ _ F)
  | |- preserves _ (try_res (Res.set _ _)) => apply (f_set _ _ F)
  | |- preserves _ (try_res (Res.type _)) => apply (f_type _ _ F)
  | |- preserves _ (try_res (Res.json _)) => apply (f_json _ _ F)
  | |- preserves _ (try_res (Res.send _)) => apply (f_send _ _ F)
  | |- preserves _ hasActiveConnections => apply (f_links _ _ F)
  | |- preserves _ pop_inbox => apply (f_inbox _ _ F)
  | |- preserves _ pop_browser => apply (f_browser _ _ F)
  | |- preserves _ pop_ids => apply (f_ids _ _ F)
  | |- preserves _ (push_timer _) => apply (f_timer _ _ F)
  | |- preserves _ (set_keepAlive _) => apply (f_keepAlive _ _ F)
  | |- preserves _ (set_currentAuthIndex _) => apply (f_index _ _ F)
  | |- preserves _ (modify_handler enter_request) => apply (f_enter _ _ F)
  | |- preserves _ (modify_handler leave_request) => apply (f_leave _ _ F)
  | |- preserves _ (modify_handler finalise_request) => apply (f_finalise _ _ F)
  | |- preserves _ (modify_handler (count_use _ _)) => apply (f_count_use _ _ F)
  | |- preserves _ (modify_handler reset_failures) => apply (f_reset_failures _ _ F)
  | |- preserves _ (modify_handler switch_enter) => apply (f_switch_enter _ _ F)
  | |- preserves _ (modify_handler switch_reset) => apply (f_switch_reset _ _ F)
  | |- preserves _ (modify_handler switch_leave) => apply (f_switch_leave _ _ F)
  | |- preserves _ (modify_handler (with_pending _)) => apply (f_pending _ _ F)
  | |- preserves _ (modify_handler (with_busy _)) => apply (f_busy _ _ F)
  | |- preserves _ (let _ := _ in _) => cbv zeta
  | |- preserves _ (match ?x with _ => _ end) => destruct x
  | |- _ => extra
  end.

Ltac frame_go F extra := repeat (frame_step F extra).

Create HintDb frame.

(** The code of [RequestHandler], piece by piece, under a [Frame]. *)
Section Framed.
Variable rt : Runtime.
Variable cfg : Config.
Variable sys : ServerSystem.
Variable R : World -> World -> Prop.
Variable F : Frame cfg R.

Ltac go := frame_go F ltac:(solve [ eauto with frame ]).

Lemma framed_dequeue : preserves R dequeue.
Proof. unfold dequeue. go. Qed.
Hint Resolve framed_dequeue : frame.

Lemma framed_sleep ms : preserves R (sleep ms).
Proof. unfold sleep. go. Qed.
Hint Resolve framed_sleep : frame.

Lemma framed_launchOrSwitchContext i : preserves R (launchOrSwitchContext i).
Proof. unfold launchOrSwitchContext. go. Qed.
Hint Resolve framed_launchOrSwitchContext : frame.

Lemma framed__switchToNextAuth : preserves R _switchToNextAuth.
Proof. unfold _switchToNextAuth, switchAccount. go. Qed.
Hint Resolve framed__switchToNextAuth : frame.

Lemma framed__switchToSpecificAuth i : preserves R (_switchToSpecificAuth i).
Proof. unfold _switchToSpecificAuth, switchAccount. go. Qed.

Lemma framed__tryExecutePendingSwitch : preserves R _tryExecutePendingSwitch.
Proof. unfold _tryExecutePendingSwitch. go. Qed.
Hint Resolve framed__tryExecutePendingSwitch : frame.

Lemma framed__sendErrorChunkToClient b m :
  preserves R (_sendErrorChunkToClient rt b m).
Proof. unfold _sendErrorChunkToClient. go. Qed.
Hint Resolve framed__sendErrorChunkToClient : frame.

Lemma framed__sendErrorResponse s m : preserves R (_sendErrorResponse rt s m).
Proof. unfold _sendErrorResponse. go. Qed.
Hint Resolve framed__sendErrorResponse : frame.

Lemma framed__handleRequestError e : preserves R (_handleRequestError rt e).
Proof. unfold _handleRequestError. go. Qed.
Hint Resolve framed__handleRequestError : frame.

Lemma framed_set_sse_headers : preserves R set_sse_headers.
Proof. unfold set_sse_headers. go. Qed.
Hint Resolve framed_set_sse_headers : frame.

Lemma framed_copy_headers b hs : preserves R (copy_headers b hs).
Proof. induction hs as [|[k v] hs IH]; simpl; go. Qed.
Hint Resolve framed_copy_headers : frame.

Lemma framed__setResponseHeaders m b : preserves R (_setResponseHeaders m b).
Proof. unfold _setResponseHeaders. go. Qed.
Hint Resolve framed__setResponseHeaders : frame.

Lemma framed_real_stream_loop fuel : preserves R (real_stream_loop fuel).
Proof. induction fuel as [|fuel IH]; simpl; go. Qed.
Hint Resolve framed_real_stream_loop : frame.

Lemma framed_drain_body fuel : forall acc, preserves R (drain_body fuel acc).
Proof. induction fuel as [|fuel IH]; intro acc; simpl; go. Qed.
Hint Resolve framed_drain_body : frame.

Lemma framed_buffer_body : preserves R buffer_body.
Proof. unfold buffer_body. go. Qed.
Hint Resolve framed_buffer_body : frame.

Lemma framed__generateRequestId : preserves R _generateRequestId.
Proof. unfold _generateRequestId. go. Qed.
Hint Resolve framed__generateRequestId : frame.

Lemma framed__translateGoogleToOpenAIStream c m :
  preserves R (_translateGoogleToOpenAIStream rt c m).
Proof. unfold _translateGoogleToOpenAIStream. go. Qed.
Hint Resolve framed__translateGoogleToOpenAIStream : frame.

Lemma framed_openai_stream_loop fuel model :
  preserves R (openai_stream_loop rt fuel model).
Proof. induction fuel as [|fuel IH]; simpl; go. Qed.
Hint Resolve framed_openai_stream_loop : frame.

(** Counting a failure is asked for apart. *)
Section Failing.
Hypothesis f_count_failure : preserves R (modify_handler (count_failure cfg)).
Hint Resolve f_count_failure : frame.

Lemma framed__handleRequestFailureAndSwitch m b :
  preserves R (_handleRequestFailureAndSwitch rt cfg m b).
Proof. unfold _handleRequestFailureAndSwitch. go. Qed.
Hint Resolve framed__handleRequestFailureAndSwitch : frame.

(** So is forwarding a frame. *)
Section Forwarding.
Hypothesis f_relay : forall p, preserves R (push_relay p).
Hint Resolve f_relay : frame.

Lemma framed__forwardRequest p : preserves R (_forwardRequest p).
Proof. unfold _forwardRequest. go. Qed.
Hint Resolve framed__forwardRequest : frame.

Lemma framed_pseudo_attempts p fuel :
  forall attempt last, preserves R (pseudo_attempts cfg p fuel attempt last).
Proof. induction fuel as [|fuel IH]; intros attempt last; simpl; go. Qed.
Hint Resolve framed_pseudo_attempts : frame.

Lemma framed__handlePseudoStreamResponse p :
  preserves R (_handlePseudoStreamResponse rt cfg p).
Proof. unfold _handlePseudoStreamResponse. go. Qed.
Hint Resolve framed__handlePseudoStreamResponse : frame.

Lemma framed__handleRealStreamResponse p :
  preserves R (_handleRealStreamResponse rt cfg p).
Proof. unfold _handleRealStreamResponse. go. Qed.
Hint Resolve framed__handleRealStreamResponse : frame.

Lemma framed__handleNonStreamResponse p :
  preserves R (_handleNonStreamResponse rt cfg p).
Proof. unfold _handleNonStreamResponse. go. Qed.
Hint Resolve framed__handleNonStreamResponse : frame.

Lemma framed_processRequest req : preserves R (processRequest rt cfg sys req).
Proof. unfold processRequest. go. Qed.

Lemma framed_processOpenAIRequest req :
  preserves R (processOpenAIRequest rt cfg sys req).
Proof. unfold processOpenAIRequest. go. Qed.

Lemma framed_processModelListRequest req :
  preserves R (processModelListRequest rt sys req).
Proof. unfold processModelListRequest. go. Qed.

End Forwarding.
End Failing.
End Framed.

(** The pieces above that need nothing but the [Frame] [F], for use on
    code that is not a function of its own; [extra] is tried on what
    they leave. *)
Ltac framed F extra :=
  first
    [ eapply framed_dequeue | eapply framed_sleep
    | eapply framed_launchOrSwitchContext | eapply framed__switchToNextAuth
    | eapply framed__tryExecutePendingSwitch
    | eapply framed__sendErrorChunkToClient | eapply framed__sendErrorResponse
    | eapply framed__handleRequestError | eapply framed_set_sse_headers
    | eapply framed_copy_headers | eapply framed__setResponseHeaders
    | eapply framed_real_stream_loop | eapply framed_drain_body
    | eapply framed_buffer_body | eapply framed__generateRequestId
    | eapply framed__translateGoogleToOpenAIStream
    | eapply framed_openai_stream_loop
    | eapply framed__handleRequestFailureAndSwitch
    | eapply framed__forwardRequest
    | eapply framed_pseudo_attempts ];
  first [ exact F | extra ].

Ltac framed_go F extra := frame_go F ltac:(framed F extra).

(* ================================================================== *)
(** * One response start per request *)
(* ================================================================== *)

Module StatusLineFacts.
Import StatusLine.

Lemma stable_refl r : stable r r.
Proof. intro H. split; auto. Qed.

Lemma stable_trans a b c : stable a b -> stable b c -> stable a c.
Proof.
  intros Hab Hbc Ha. destruct (Hab Ha) as [Hb Hl]. destruct (Hbc Hb) as [Hc Hl'].
  split; [exact Hc|]. intro Hs. specialize (Hl Hs).
  assert (Res.headersSent b = true) as Hsb.
  { destruct Ha as [[Hf _]|[_ [x Hx]]]; [congruence|].
    destruct Hb as [[_ Hn]|[Ht _]]; [congruence | exact Ht]. }
  rewrite (Hl' Hsb). exact Hl.
Qed.

Lemma stable_status c r : stable r (Res.status c r).
Proof. intro H. split; [exact H | reflexivity]. Qed.

Lemma stable_flush r : stable r (Res.flush r).
Proof.
  intro H. unfold Res.flush. destruct (Res.headersSent r) eqn:Hs.
  - split; auto.
  - split; [|discriminate]. right. simpl. split; [reflexivity|].
    destruct H as [[_ Hn]|[Ht _]]; [|congruence].
    rewrite Hn. simpl. eauto.
Qed.

Lemma stable_write s r : stable r (Res.write s r).
Proof.
  unfold Res.write. destruct (Res.writableEnded r); [apply stable_refl|].
  intro H. destruct (stable_flush r H) as [Hc Hl]. split; [exact Hc | exact Hl].
Qed.

Lemma stable_end r : stable r (Res.end_ r).
Proof.
  intro H. destruct (stable_flush r H) as [Hc Hl]. split; [exact Hc | exact Hl].
Qed.

Lemma stable_set k v r r' : Res.set k v r = Some r' -> stable r r'.
Proof.
  unfold Res.set. destruct (Res.headersSent r) eqn:Hs; [discriminate|].
  intros [= <-] H. split; [|simpl; reflexivity].
  destruct H as [[_ Hn]|[Ht _]]; [|congruence]. left. simpl. auto.
Qed.

Lemma stable_send s r r' : Res.send s r = Some r' -> stable r r'.
Proof.
  unfold Res.send. destruct (Res.headersSent r); [discriminate|].
  intros [= <-]. eapply stable_trans; [apply stable_write | apply stable_end].
Qed.

Lemma stable_json s r r' : Res.json s r = Some r' -> stable r r'.
Proof.
  unfold Res.json. destruct (Res.set _ _ r) as [r1|] eqn:E; [|discriminate].
  intro Hs. eapply stable_trans; [eapply stable_set; eauto | eapply stable_send; eauto].
Qed.

Lemma stable_tick r : stable r (keep_alive_tick r).
Proof.
  unfold keep_alive_tick. destruct (Res.writableEnded r);
    [apply stable_refl | apply stable_write].
Qed.

Lemma stable_ticks n : forall r, stable r (repeat_tick n r).
Proof.
  induction n as [|n IH]; intro r; simpl; [apply stable_refl|].
  eapply stable_trans; [apply stable_tick | apply IH].
Qed.

Lemma modify_res_ok f : (forall r, stable r (f r)) -> preserves R (modify_res f).
Proof. intros Hf w. apply Hf. Qed.

Lemma try_res_ok f :
  (forall r r', f r = Some r' -> stable r r') -> preserves R (try_res f).
Proof.
  intros Hf w. unfold R, run, try_res.
  destruct (f (res w)) as [r'|] eqn:E; simpl; [eauto | apply stable_refl].
Qed.

Lemma same_res_ok {A} (m : M A) :
  (forall w, res (snd (m w)) = res w) -> preserves R m.
Proof. intros H w. unfold R, run. rewrite H. apply stable_refl. Qed.

Lemma await_ok : preserves R await.
Proof.
  intro w. unfold R, run, await. destruct (keepAlive w); [|apply stable_refl].
  simpl. apply stable_ticks.
Qed.

(** The status-line relation holds across every piece of handler code. *)
Lemma frame cfg : Frame cfg R.
Proof.
  constructor;
    try (intros; apply same_res_ok; intros; reflexivity).
  - intro w. apply stable_refl.
  - intros a b c. apply stable_trans.
  - apply await_ok.
  - intro c. apply modify_res_ok. apply stable_status.
  - intro s. apply modify_res_ok. apply stable_write.
  - apply modify_res_ok. apply stable_end.
  - intros k v. apply try_res_ok. apply stable_set.
  - intro t. apply try_res_ok. intros r r'. apply stable_set.
  - intro s. apply try_res_ok. apply stable_json.
  - intro s. apply try_res_ok. apply stable_send.
Qed.

Lemma count_failure_ok cfg : preserves R (modify_handler (count_failure cfg)).
Proof. apply same_res_ok. intros; reflexivity. Qed.

Lemma push_relay_ok p : preserves R (push_relay p).
Proof. apply same_res_ok. intros; reflexivity. Qed.

Lemma one_start_of_stable (m : M unit) w :
  consistent (res w) -> R w (run m w) -> one_start m w.
Proof.
  intros Hc HR. destruct (HR Hc) as [Hc' Hl]. split; [|exact Hl].
  destruct Hc' as [[_ ->]|[_ [c ->]]]; simpl; lia.
Qed.

(** ** The body only grows *)

Lemma body_kept_refl w : body_kept w w.
Proof. exists []. rewrite app_nil_r. reflexivity. Qed.

Lemma body_kept_trans a b c : body_kept a b -> body_kept b c -> body_kept a c.
Proof.
  intros [m1 H1] [m2 H2]. exists (m1 ++ m2). rewrite H2, H1, app_assoc. reflexivity.
Qed.

Lemma body_kept_same {A} (m : M A) :
  (forall w, Res.out (res (snd (m w))) = Res.out (res w)) -> preserves body_kept m.
Proof. intros H w. exists []. unfold run. rewrite H, app_nil_r. reflexivity. Qed.

Lemma out_flush r : Res.out (Res.flush r) = Res.out r.
Proof. unfold Res.flush. destruct (Res.headersSent r); reflexivity. Qed.

Lemma out_write s r :
  Res.out (Res.write s r) = Res.out r
  \/ Res.out (Res.write s r) = Res.out r ++ [s].
Proof.
  unfold Res.write. destruct (Res.writableEnded r); [left; reflexivity|].
  right. simpl. rewrite out_flush. reflexivity.
Qed.

Lemma out_end r : Res.out (Res.end_ r) = Res.out r.
Proof. unfold Res.end_. simpl. apply out_flush. Qed.

Lemma out_set k v r r' : Res.set k v r = Some r' -> Res.out r' = Res.out r.
Proof.
  unfold Res.set. destruct (Res.headersSent r); [discriminate|].
  intro H. injection H as <-. reflexivity.
Qed.

Lemma out_send s r r' :
  Res.send s r = Some r' -> exists more, Res.out r' = Res.out r ++ more.
Proof.
  unfold Res.send. destruct (Res.headersSent r); [discriminate|].
  intro H. injection H as <-. rewrite out_end.
  destruct (out_write s r) as [-> | ->]; [exists [] | exists [s]];
    rewrite ?app_nil_r; reflexivity.
Qed.

Lemma out_ticks n : forall r, exists more, Res.out (repeat_tick n r) = Res.out r ++ more.
Proof.
  induction n as [|n IH]; intro r; simpl.
  - exists []. rewrite app_nil_r. reflexivity.
  - destruct (IH (keep_alive_tick r)) as [more H]. rewrite H.
    unfold keep_alive_tick. destruct (Res.writableEnded r).
    + exists more. reflexivity.
    + destruct (out_write (": keep-alive" ++ nl ++ nl) r) as [-> | ->].
      * exists more. reflexivity.
      * eexists. rewrite <- app_assoc. reflexivity.
Qed.

Lemma body_kept_try f :
  (forall r r', f r = Some r' -> exists more, Res.out r' = Res.out r ++ more) ->
  preserves body_kept (try_res f).
Proof.
  intros Hf w. unfold body_kept, run, try_res.
  destruct (f (res w)) as [r'|] eqn:E; simpl.
  - apply (Hf _ _ E).
  - exists []. rewrite app_nil_r. reflexivity.
Qed.

Lemma body_kept_modify f :
  (forall r, exists more, Res.out (f r) = Res.out r ++ more) ->
  preserves body_kept (modify_res f).
Proof. intros Hf w. unfold body_kept, run, modify_res, put_res. cbn [snd res]. apply Hf. Qed.

Lemma body_kept_frame cfg : Frame cfg body_kept.
Proof.
  constructor;
    try (intros; apply body_kept_same; intros; reflexivity).
  - apply body_kept_refl.
  - apply body_kept_trans.
  - intro w. unfold body_kept, run, await. destruct (keepAlive w).
    + unfold bind, pop_ticks, modify_res, put_res. cbn [snd res]. apply out_ticks.
    + exists []. rewrite app_nil_r. reflexivity.
  - intro s. apply body_kept_modify. intro r.
    destruct (out_write s r) as [-> | ->]; [exists [] | exists [s]];
      rewrite ?app_nil_r; reflexivity.
  - apply body_kept_modify. intro r. rewrite out_end.
    exists []. rewrite app_nil_r. reflexivity.
  - intros k v. apply body_kept_try. intros r r' H. exists [].
    rewrite app_nil_r. apply (out_set _ _ _ _ H).
  - intro t. apply body_kept_try. intros r r' H. exists [].
    rewrite app_nil_r. apply (out_set _ _ _ _ H).
  - intro s. apply body_kept_try. intros r r' H. unfold Res.json in H.
    destruct (Res.set "Content-Type" "application/json" r) as [r1|] eqn:E;
      [|discriminate].
    destruct (out_send _ _ _ H) as [more Hm]. exists more.
    rewrite Hm, (out_set _ _ _ _ E). reflexivity.
  - intro s. apply body_kept_try. apply out_send.
Qed.

Lemma body_kept_count_failure cfg :
  preserves body_kept (modify_handler (count_failure cfg)).
Proof. apply body_kept_same. intros; reflexivity. Qed.

Lemma body_kept_push_relay p : preserves body_kept (push_relay p).
Proof. apply body_kept_same. intros; reflexivity. Qed.

(** C8, as stated, does not hold: in pseudo streaming the keep-alive
    interval fires during the wait and flushes the headers; the relay
    then answers with an error, and the error is written into the body
    as an error chunk before the response ends. *)
Lemma C8_an_error_after_the_headers_is_written_to_the_body :
  Res.statusLines
    (res (run (processRequest Example.models_runtime (Example.retries 1)
                 Example.fake_system Example.stream_request)
            (Example.ticking new_handler Example.error_then_answer))) = [200]
  /\ Res.out
       (res (run (processRequest Example.models_runtime (Example.retries 1)
                    Example.fake_system Example.stream_request)
               (Example.ticking new_handler Example.error_then_answer)))
     = [(": keep-alive" ++ nl ++ nl)%string;
        error_chunk Example.models_runtime (Some "x")]
  /\ Res.writableEnded
       (res (run (processRequest Example.models_runtime (Example.retries 1)
                    Example.fake_system Example.stream_request)
               (Example.ticking new_handler Example.error_then_answer))) = true.
Proof. vm_compute. repeat split; reflexivity. Qed.

(** C8, amended: a request gets one response start at most.  Whatever
    the relay, the browser driver and the timers do, each of the three
    entry points puts one status line on the wire at most, never
    replaces one that is out, and never takes back what it sent of the
    body.  Once the headers are out, [_handleRequestError] does not
    touch the status or send anything: it only ends the response.  But
    [_sendErrorChunkToClient], by which pseudo streaming reports an
    error of the relay, still writes its chunk into the body when the
    headers are out and the response has not ended. *)
Theorem C8_one_response_start rt cfg sys req w :
  consistent (res w) ->
  (one_start (processRequest rt cfg sys req) w
   /\ body_kept w (run (processRequest rt cfg sys req) w))
  /\ (one_start (processOpenAIRequest rt cfg sys req) w
      /\ body_kept w (run (processOpenAIRequest rt cfg sys req) w))
  /\ (one_start (processModelListRequest rt sys req) w
      /\ body_kept w (run (processModelListRequest rt sys req) w))
  /\ (forall message,
        Res.headersSent (res w) = true ->
        only_ends (_handleRequestError rt message) w)
  /\ (forall message,
        Res.headersSent (res w) = true ->
        Res.writableEnded (res w) = false ->
        Res.out (res (run (_sendErrorChunkToClient rt true message) w))
        = Res.out (res w) ++ [error_chunk rt message]
        /\ Res.statusLines (res (run (_sendErrorChunkToClient rt true message) w))
           = Res.statusLines (res w)
        /\ Res.writableEnded (res (run (_sendErrorChunkToClient rt true message) w))
           = false).
Proof.
  intro Hc.
  split.
  { split.
    - apply one_start_of_stable; [exact Hc|].
      apply (framed_processRequest rt cfg sys R (frame cfg)
               (count_failure_ok cfg) push_relay_ok).
    - apply (framed_processRequest rt cfg sys body_kept (body_kept_frame cfg)
               (body_kept_count_failure cfg) body_kept_push_relay). }
  split.
  { split.
    - apply one_start_of_stable; [exact Hc|].
      apply (framed_processOpenAIRequest rt cfg sys R (frame cfg)
               (count_failure_ok cfg) push_relay_ok).
    - apply (framed_processOpenAIRequest rt cfg sys body_kept (body_kept_frame cfg)
               (body_kept_count_failure cfg) body_kept_push_relay). }
  split.
  { split.
    - apply one_start_of_stable; [exact Hc|].
      apply (framed_processModelListRequest rt cfg sys R (frame cfg) push_relay_ok).
    - apply (framed_processModelListRequest rt cfg sys body_kept (body_kept_frame cfg)
               body_kept_push_relay). }
  split.
  { intros message Hs.
    unfold only_ends, completion, run, _handleRequestError, bind, get_res, when,
      modify_res, Res.end_, Res.flush.
    simpl. rewrite Hs.
    destruct (Res.writableEnded (res w)) eqn:He; simpl; rewrite ?Hs; simpl;
      repeat split; auto. }
  intros message Hs He.
  unfold run, _sendErrorChunkToClient, bind, get_res, when, modify_res, Res.write,
    Res.flush.
  simpl. rewrite He. simpl. rewrite He, Hs. simpl. repeat split; auto.
Qed.

(** The theorem at work on a response whose headers a keep-alive has
    flushed. *)
Lemma C8_one_response_start_witness :
  one_start (processRequest Example.models_runtime (Example.retries 1)
               Example.fake_system Example.stream_request)
    (put_res (keep_alive_tick Res.fresh)
       (Example.world new_handler Example.error_then_answer))
  /\ only_ends (_handleRequestError Example.models_runtime "boom")
       (put_res (keep_alive_tick Res.fresh)
          (Example.world new_handler Example.error_then_answer))
  /\ Res.out
       (res (run (_sendErrorChunkToClient Example.models_runtime true (Some "x"))
               (put_res (keep_alive_tick Res.fresh)
                  (Example.world new_handler Example.error_then_answer))))
     = [(": keep-alive" ++ nl ++ nl)%string;
        error_chunk Example.models_runtime (Some "x")].
Proof.
  destruct (C8_one_response_start Example.models_runtime (Example.retries 1)
              Example.fake_system Example.stream_request
              (put_res (keep_alive_tick Res.fresh)
                 (Example.world new_handler Example.error_then_answer)))
    as ((H1 & _) & _ & _ & H4 & H5).
  { right. split; [reflexivity|]. exists 200. reflexivity. }
  split; [exact H1|]. split; [apply H4; reflexivity|].
  destruct (H5 (Some "x") eq_refl eq_refl) as (Ho & _). exact Ho.
Defined.

End StatusLineFacts.

(* ================================================================== *)
(** * When a rotation begins *)
(* ================================================================== *)

Module InterleavingFacts.
Import Interleaving.


(** The rotation fields each segment leaves alone. *)
Lemma count_use_switching cfg g h :
  isAuthSwitching (count_use cfg g h) = isAuthSwitching h.
Proof.
  unfold count_use.
  destruct ((0 <? switchOnUses cfg) && g && negb (pendingSwitch h)); [|reflexivity].
  cbv zeta. destruct (switchOnUses cfg <=? _); reflexivity.
Qed.

Lemma count_use_active cfg g h :
  activeRequestCount (count_use cfg g h) = activeRequestCount h.
Proof.
  unfold count_use.
  destruct ((0 <? switchOnUses cfg) && g && negb (pendingSwitch h)); [|reflexivity].
  cbv zeta. destruct (switchOnUses cfg <=? _); reflexivity.
Qed.

Lemma count_use_failures cfg g h :
  failureCount (count_use cfg g h) = failureCount h
  /\ isSystemBusy (count_use cfg g h) = isSystemBusy h.
Proof.
  unfold count_use.
  destruct ((0 <? switchOnUses cfg) && g && negb (pendingSwitch h)); [|auto].
  cbv zeta. destruct (switchOnUses cfg <=? _); auto.
Qed.

Lemma count_failure_switching cfg h :
  isAuthSwitching (count_failure cfg h) = isAuthSwitching h.
Proof. unfold count_failure. destruct (0 <? failureThreshold cfg); reflexivity. Qed.

Lemma count_failure_active cfg h :
  activeRequestCount (count_failure cfg h) = activeRequestCount h.
Proof. unfold count_failure. destruct (0 <? failureThreshold cfg); reflexivity. Qed.

Lemma reset_failures_switching h :
  isAuthSwitching (reset_failures h) = isAuthSwitching h.
Proof. unfold reset_failures. destruct (0 <? failureCount h); reflexivity. Qed.

Lemma reset_failures_active h :
  activeRequestCount (reset_failures h) = activeRequestCount h.
Proof. unfold reset_failures. destruct (0 <? failureCount h); reflexivity. Qed.

Lemma settle_switching who how h :
  isAuthSwitching (settle who how h) = isAuthSwitching h.
Proof. destruct who, how; reflexivity. Qed.

Lemma settle_active who how h :
  activeRequestCount (settle who how h) = activeRequestCount h.
Proof. destruct who, how; reflexivity. Qed.

Lemma exclusive_initial : exclusive initial.
Proof. left. split; reflexivity. Qed.

Lemma counted_initial : counted initial.
Proof. reflexivity. Qed.

Lemma exclusive_step cfg s e s' :
  step cfg s e s' -> exclusive s -> exclusive s'.
Proof.
  unfold exclusive.
  intros Hstep Hex; inversion Hstep; subst; simpl in *;
    rewrite ?count_use_switching, ?count_failure_switching,
      ?reset_failures_switching, ?settle_switching in *;
    simpl in *; auto.
  - (* a request fails over *)
    destruct Hex as [[_ ->]|[Ht _]]; [|congruence]. right. eauto.
  - (* the pending switch starts *)
    destruct Hex as [[_ ->]|[Ht _]].
    + right. eauto.
    + unfold pending_ready, finalise_request in *. simpl in *.
      rewrite Ht in *. rewrite andb_false_r in *. discriminate.
  - (* the admin route starts a switch *)
    destruct Hex as [[_ ->]|[Ht _]]; [|congruence]. right. eauto.
  - (* a switch ends *)
    destruct Hex as [[_ Hn]|[_ [o Ho]]].
    + destruct s1; discriminate.
    + left. split; [reflexivity|].
      destruct s1 as [|x s1]; simpl in *.
      * injection Ho as _ ->. reflexivity.
      * injection Ho as _ Hs. destruct s1; discriminate.
Qed.

Lemma in_flight_app a n r s1 s2 k c who :
  in_flight (Build_System c a n r (s1 ++ who :: s2) k)
  = (in_flight (Build_System c a n r (s1 ++ s2) k)
     + match who with ByFailure => 1 | _ => 0 end)%nat.
Proof.
  unfold in_flight. simpl. rewrite !filter_app, !length_app. simpl.
  destruct who; simpl; lia.
Qed.

Lemma counted_step cfg s e s' :
  step cfg s e s' -> counted s -> counted s'.
Proof.
  unfold counted.
  intros Hstep Hc; inversion Hstep; subst;
    try rewrite in_flight_app in Hc;
    unfold in_flight in *; simpl in *;
    rewrite ?count_use_active, ?count_failure_active,
      ?reset_failures_active, ?settle_active in *;
    simpl in *;
    rewrite ?count_use_active, ?count_failure_active in *; simpl in *;
    try lia.
  - (* the [finally] block, nothing pending *)
    destruct (activeRequestCount c - 1 <? 0) eqn:E;
      [apply Z.ltb_lt in E | apply Z.ltb_ge in E]; lia.
  - (* the [finally] block starts the pending switch *)
    destruct (activeRequestCount c - 1 <? 0) eqn:E;
      [apply Z.ltb_lt in E | apply Z.ltb_ge in E]; lia.
  - (* the admin route starts a switch *)
    destruct H as [-> | ->]; simpl; lia.
  - (* a switch ends *)
    destruct who; simpl in *; lia.
Qed.

Lemma invariants_trace cfg s tr s' :
  trace cfg s tr s' ->
  exclusive s /\ counted s -> exclusive s' /\ counted s'.
Proof.
  induction 1 as [|s tr s1 e s2 Htr IH Hstep]; intro H; [exact H|].
  destruct (IH H) as [Hex Hc]. split.
  - eapply exclusive_step; eauto.
  - eapply counted_step; eauto.
Qed.

Lemma reachable_invariants cfg s :
  reachable cfg s -> exclusive s /\ counted s.
Proof.
  intros [tr Htr]. eapply invariants_trace; eauto.
  split; [apply exclusive_initial | apply counted_initial].
Qed.

Lemma reachable_step cfg s e s' :
  reachable cfg s -> step cfg s e s' -> reachable cfg s'.
Proof. intros [tr Htr] Hstep. exists (tr ++ [e]). econstructor; eauto. Qed.

Lemma one_waiting_reachable : reachable default_config one_waiting.
Proof.
  exists ([] ++ [Accepted true]).
  eapply trace_snoc; [apply trace_nil|].
  apply (step_accepted default_config true new_handler 0 0 0 [] 0); reflexivity.
Defined.

Lemma one_waiting_fails_over :
  step default_config one_waiting (FailedOver (Some 429)) failing_over.
Proof.
  apply (step_failed_over default_config (Some 429) (ctl one_waiting) 0 0 0 [] 0);
    reflexivity.
Defined.

(** C1, as stated, does not hold: under the default configuration a
    request is accepted and the relay answers it with error 429; the
    rotation begins at once, with [activeRequestCount = 1].  In the
    code: [_handleRequestFailureAndSwitch], called for such an answer
    while the request is counted, moves the browser from account 1 to
    account 2 and leaves [activeRequestCount] at 1. *)
Lemma C1_rotation_begins_with_a_request_in_flight :
  reachable default_config one_waiting
  /\ step default_config one_waiting (FailedOver (Some 429)) failing_over
  /\ begins (FailedOver (Some 429)) = Some ByFailure
  /\ activeRequestCount (ctl one_waiting) = 1
  /\ activeRequestCount (ctl failing_over) = 1
  /\ isAuthSwitching (ctl failing_over) = true
  /\ activeRequestCount (handler Refinement.failing_in_flight) = 1
  /\ currentAuthIndex Refinement.failing_in_flight = 1
  /\ currentAuthIndex
       (run (_handleRequestFailureAndSwitch Example.models_runtime default_config
               (ErrorEvent (Some 429) (Some "quota")) false)
          Refinement.failing_in_flight) = 2
  /\ activeRequestCount
       (handler
          (run (_handleRequestFailureAndSwitch Example.models_runtime default_config
                  (ErrorEvent (Some 429) (Some "quota")) false)
             Refinement.failing_in_flight)) = 1.
Proof.
  split; [apply one_waiting_reachable|].
  split; [apply one_waiting_fails_over|].
  vm_compute. repeat split.
Qed.

(** In every reachable state, a rotation begins only while
    [isAuthSwitching] is false and no other switch is in progress; the
    pending (deferred) rotation begins with [activeRequestCount = 0] and
    no counted request in flight; a rotation begun by a failing request
    begins with that request counted, [activeRequestCount > 0]. *)
Lemma rotation_begin_invariant cfg s e s' who :
  reachable cfg s -> step cfg s e s' -> begins e = Some who ->
  isAuthSwitching (ctl s) = false
  /\ switching s = []
  /\ (who = ByIdle -> activeRequestCount (ctl s') = 0 /\ in_flight s' = 0%nat)
  /\ (who = ByFailure -> 0 < activeRequestCount (ctl s')).
Proof.
  intros Hr Hstep Hb.
  destruct (reachable_invariants cfg s Hr) as [Hex Hc].
  destruct (reachable_invariants cfg s' (reachable_step cfg s e s' Hr Hstep))
    as [_ Hc'].
  assert (isAuthSwitching (ctl s) = false) as Hoff.
  { inversion Hstep; subst; simpl in *; try discriminate.
    - rewrite count_failure_switching in *. assumption.
    - unfold pending_ready, finalise_request in *. simpl in *.
      destruct (isAuthSwitching c); [|reflexivity].
      rewrite andb_false_r in *. discriminate.
    - assumption. }
  split; [exact Hoff|].
  split.
  { destruct Hex as [[_ Hn]|[Ht _]]; [exact Hn | congruence]. }
  split.
  - intros ->. unfold counted in Hc'.
    inversion Hstep; subst; simpl in *; try discriminate.
    + unfold pending_ready in H.
      apply andb_prop in H. destruct H as [H _].
      apply andb_prop in H. destruct H as [_ H].
      apply Z.eqb_eq in H. simpl in H.
      split; [exact H|]. rewrite H in Hc'. lia.
    + destruct H as [H|H]; subst; discriminate.
  - intros ->. unfold counted in Hc'.
    inversion Hstep; subst; simpl in *; try discriminate.
    + rewrite Hc'. unfold in_flight. simpl. lia.
    + destruct H as [H|H]; subst; discriminate.
Qed.

(** ** The usage count *)






Lemma count_use_counts cfg h :
  0 < switchOnUses cfg ->
  (pendingSwitch h = false ->
   usageCount (count_use cfg true h) = usageCount h + 1
   /\ pendingSwitch (count_use cfg true h) = (switchOnUses cfg <=? usageCount h + 1))
  /\ (pendingSwitch h = true ->
      usageCount (count_use cfg true h) = usageCount h
      /\ pendingSwitch (count_use cfg true h) = true).
Proof.
  intro HN. apply Z.ltb_lt in HN. unfold count_use. rewrite HN.
  split; intro Hp; rewrite Hp; simpl.
  - destruct (switchOnUses cfg <=? usageCount h + 1); simpl; auto.
  - auto.
Qed.



End InterleavingFacts.

(* ================================================================== *)
(** * The acceptance gate *)
(* ================================================================== *)

Module GateFacts.
Import Interleaving.

(** [_sendErrorResponse] on a response of which nothing has left. *)
Lemma _sendErrorResponse_unsent rt status message w :
  unsent (res w) ->
  let code := or_default status 500 in
  completion (_sendErrorResponse rt status message) w = Return tt
  /\ handler (run (_sendErrorResponse rt status message) w) = handler w
  /\ relay (run (_sendErrorResponse rt status message) w) = relay w
  /\ inbox (run (_sendErrorResponse rt status message) w) = inbox w
  /\ Res.statusLines (res (run (_sendErrorResponse rt status message) w)) = [code]
  /\ Res.out (res (run (_sendErrorResponse rt status message) w))
     = [error_body rt code message]
  /\ Res.writableEnded (res (run (_sendErrorResponse rt status message) w)) = true.
Proof.
  intros (Hs & He & Hl & Ho).
  unfold completion, run, _sendErrorResponse, bind, get_res, when, modify_res, try_res,
    Res.json, Res.set, Res.send, Res.write, Res.end_, Res.flush, Res.status.
  simpl. rewrite Hs. simpl. rewrite Hs. simpl. rewrite He. simpl.
  rewrite Hl, Ho. simpl. repeat split; reflexivity.
Qed.

Lemma closed_gate_processRequest rt cfg sys req w :
  gate_closed (handler w) = true ->
  unsent (res w) ->
  turned_away rt 503 "Server rotating accounts..." (processRequest rt cfg sys req) w.
Proof.
  intros Hgate Hres.
  pose proof (_sendErrorResponse_unsent rt (Some 503)
                (Some "Server rotating accounts...") w Hres) as H.
  unfold turned_away, completion, run, processRequest, bind, get_handler in *.
  simpl in *. rewrite Hgate. exact H.
Qed.

Lemma closed_gate_processOpenAIRequest rt cfg sys req w :
  gate_closed (handler w) = true ->
  unsent (res w) ->
  turned_away rt 503 "Server rotating accounts..." (processOpenAIRequest rt cfg sys req) w.
Proof.
  intros Hgate Hres.
  pose proof (_sendErrorResponse_unsent rt (Some 503)
                (Some "Server rotating accounts...") w Hres) as H.
  unfold turned_away, completion, run, processOpenAIRequest, bind, get_handler in *.
  simpl in *. rewrite Hgate. exact H.
Qed.

(** ** Requests in flight do not look at [pendingSwitch] *)

Lemma blind_ret {A} (a : A) : blind_to_pending (ret a).
Proof. intros b w. reflexivity. Qed.

Lemma blind_throw {A} e : blind_to_pending (@throw A e).
Proof. intros b w. reflexivity. Qed.

Lemma blind_bind {A B} (m : M A) (k : A -> M B) :
  blind_to_pending m -> (forall a, blind_to_pending (k a)) ->
  blind_to_pending (bind m k).
Proof.
  intros Hm Hk b w. unfold bind, completion, run. rewrite (Hm b w).
  unfold completion, run. destruct (m w) as [[a|e] w1]; simpl.
  - rewrite (Hk a b w1). reflexivity.
  - reflexivity.
Qed.

Lemma blind_try_catch {A} (m : M A) (h : string -> M A) :
  blind_to_pending m -> (forall e, blind_to_pending (h e)) ->
  blind_to_pending (try_catch m h).
Proof.
  intros Hm Hh b w. unfold try_catch, completion, run. rewrite (Hm b w).
  unfold completion, run. destruct (m w) as [[a|e] w1]; simpl.
  - reflexivity.
  - rewrite (Hh e b w1). reflexivity.
Qed.

Lemma blind_finally {A} (m : M A) (f : M unit) :
  blind_to_pending m -> blind_to_pending f -> blind_to_pending (finally m f).
Proof.
  intros Hm Hf b w. unfold finally, completion, run. rewrite (Hm b w).
  unfold completion, run. destruct (m w) as [o w1]; simpl.
  rewrite (Hf b w1). unfold completion, run.
  destruct (f w1) as [[u|e] w2]; reflexivity.
Qed.

Lemma blind_when c (m : M unit) : blind_to_pending m -> blind_to_pending (when c m).
Proof. intro Hm. destruct c; simpl; [exact Hm | apply blind_ret]. Qed.

(** Reading the rotation fields, then using all but [pendingSwitch]. *)
Lemma blind_get_handler {A} (k : RequestHandler -> M A) :
  (forall b h, k (with_pending b h) = k h) ->
  (forall h, blind_to_pending (k h)) ->
  blind_to_pending (bind get_handler k).
Proof.
  intros Hsame Hk b w. unfold bind, get_handler, completion, run. simpl.
  rewrite Hsame. apply Hk.
Qed.

Lemma blind_get_world {A} (k : World -> M A) :
  (forall b w, k (set_pending b w) = k w) ->
  (forall w, blind_to_pending (k w)) ->
  blind_to_pending (bind get_world k).
Proof.
  intros Hsame Hk b w. unfold bind, get_world, completion, run. simpl.
  rewrite Hsame. apply Hk.
Qed.

Lemma blind_modify_handler f :
  (forall b h, f (with_pending b h) = with_pending b (f h)) ->
  blind_to_pending (modify_handler f).
Proof.
  intros Hf b w. unfold modify_handler, set_pending, completion, run. simpl.
  rewrite Hf. reflexivity.
Qed.

Lemma blind_await : blind_to_pending await.
Proof.
  intros b w. unfold await, set_pending, completion, run, modify_handler. simpl.
  destruct (keepAlive w) eqn:E;
    unfold bind, pop_ticks, modify_res, put_res; simpl; rewrite E; reflexivity.
Qed.

Lemma blind_try_res f : blind_to_pending (try_res f).
Proof.
  intros b w. unfold try_res, set_pending, completion, run. simpl.
  destruct (f (res w)); reflexivity.
Qed.

Ltac commute_with_pending :=
  intros ? ?; unfold count_failure, reset_failures, switch_enter, switch_reset,
    switch_leave; simpl;
  repeat match goal with
         | |- context [if ?c then _ else _] => destruct c
         end;
  reflexivity.

Ltac blind_step :=
  lazymatch goal with
  | |- blind_to_pending (bind get_handler _) =>
      apply blind_get_handler; [ intros; reflexivity | intros ]
  | |- blind_to_pending (bind get_world _) =>
      apply blind_get_world; [ intros; reflexivity | intros ]
  | |- blind_to_pending (bind _ _) => apply blind_bind; [ | intros ]
  | |- blind_to_pending (try_catch _ _) => apply blind_try_catch; [ | intros ]
  | |- blind_to_pending (finally _ _) => apply blind_finally
  | |- blind_to_pending (when _ _) => apply blind_when
  | |- blind_to_pending (ret _) => apply blind_ret
  | |- blind_to_pending (throw _) => apply blind_throw
  | |- blind_to_pending await => apply blind_await
  | |- blind_to_pending (try_res _) => apply blind_try_res
  | |- blind_to_pending (modify_handler _) =>
      apply blind_modify_handler; commute_with_pending
  | |- blind_to_pending (let _ := _ in _) => cbv zeta
  | |- blind_to_pending (match ?x with _ => _ end) => destruct x
  | |- _ => first [ solve [ auto with blind ] | solve [ intros ? ?; reflexivity ] ]
  end.

Ltac blind := repeat blind_step.

Create HintDb blind.

Section Blind.
Variable rt : Runtime.
Variable cfg : Config.

Lemma blind_dequeue : blind_to_pending dequeue.
Proof. unfold dequeue. blind. Qed.
Hint Resolve blind_dequeue : blind.

Lemma blind_sleep ms : blind_to_pending (sleep ms).
Proof. unfold sleep. blind. Qed.
Hint Resolve blind_sleep : blind.

Lemma blind_launchOrSwitchContext i : blind_to_pending (launchOrSwitchContext i).
Proof. unfold launchOrSwitchContext. blind. Qed.
Hint Resolve blind_launchOrSwitchContext : blind.

Lemma blind__switchToNextAuth : blind_to_pending _switchToNextAuth.
Proof. unfold _switchToNextAuth, switchAccount. blind. Qed.
Hint Resolve blind__switchToNextAuth : blind.

Lemma blind__sendErrorChunkToClient c m :
  blind_to_pending (_sendErrorChunkToClient rt c m).
Proof. unfold _sendErrorChunkToClient. blind. Qed.
Hint Resolve blind__sendErrorChunkToClient : blind.

Lemma blind__sendErrorResponse s m : blind_to_pending (_sendErrorResponse rt s m).
Proof. unfold _sendErrorResponse. blind. Qed.
Hint Resolve blind__sendErrorResponse : blind.

Lemma blind__handleRequestError e : blind_to_pending (_handleRequestError rt e).
Proof. unfold _handleRequestError. blind. Qed.
Hint Resolve blind__handleRequestError : blind.

Lemma blind__handleRequestFailureAndSwitch m c :
  blind_to_pending (_handleRequestFailureAndSwitch rt cfg m c).
Proof. unfold _handleRequestFailureAndSwitch. blind. Qed.
Hint Resolve blind__handleRequestFailureAndSwitch : blind.

Lemma blind__forwardRequest p : blind_to_pending (_forwardRequest p).
Proof. unfold _forwardRequest. blind. Qed.
Hint Resolve blind__forwardRequest : blind.

Lemma blind_set_sse_headers : blind_to_pending set_sse_headers.
Proof. unfold set_sse_headers. blind. Qed.
Hint Resolve blind_set_sse_headers : blind.

Lemma blind_pseudo_attempts p fuel :
  forall attempt last, blind_to_pending (pseudo_attempts cfg p fuel attempt last).
Proof. induction fuel as [|fuel IH]; intros attempt last; simpl; blind. Qed.
Hint Resolve blind_pseudo_attempts : blind.

Lemma blind__handlePseudoStreamResponse p :
  blind_to_pending (_handlePseudoStreamResponse rt cfg p).
Proof. unfold _handlePseudoStreamResponse. blind. Qed.

Lemma blind_copy_headers c hs : blind_to_pending (copy_headers c hs).
Proof. induction hs as [|[k v] hs IH]; simpl; blind. Qed.
Hint Resolve blind_copy_headers : blind.

Lemma blind__setResponseHeaders m c : blind_to_pending (_setResponseHeaders m c).
Proof. unfold _setResponseHeaders. blind. Qed.
Hint Resolve blind__setResponseHeaders : blind.

Lemma blind_real_stream_loop fuel : blind_to_pending (real_stream_loop fuel).
Proof. induction fuel as [|fuel IH]; simpl; blind. Qed.
Hint Resolve blind_real_stream_loop : blind.

Lemma blind__handleRealStreamResponse p :
  blind_to_pending (_handleRealStreamResponse rt cfg p).
Proof. unfold _handleRealStreamResponse. blind. Qed.

Lemma blind_drain_body fuel : forall acc, blind_to_pending (drain_body fuel acc).
Proof. induction fuel as [|fuel IH]; intro acc; simpl; blind. Qed.
Hint Resolve blind_drain_body : blind.

Lemma blind_buffer_body : blind_to_pending buffer_body.
Proof. unfold buffer_body. blind. Qed.
Hint Resolve blind_buffer_body : blind.

Lemma blind__handleNonStreamResponse p :
  blind_to_pending (_handleNonStreamResponse rt cfg p).
Proof. unfold _handleNonStreamResponse. blind. Qed.

End Blind.

(** C2, as stated, does not hold for every incoming request: with a
    rotation pending and one in progress, [GET /v1/models] is forwarded to
    the relay and answered 200. *)
Lemma C2_model_list_served_while_rotating :
  gate_closed (handler (Example.world Example.rotating Example.models_inbox)) = true
  /\ map path
       (relay (run (processModelListRequest Example.models_runtime Example.system
                      Example.get_models)
                 (Example.world Example.rotating Example.models_inbox)))
     = ["/v1beta/models"]
  /\ Res.statusLines
       (res (run (processModelListRequest Example.models_runtime Example.system
                    Example.get_models)
               (Example.world Example.rotating Example.models_inbox)))
     = [200].
Proof. vm_compute. repeat split. Qed.

(** C2, amended: a request handled by [processRequest] or by
    [processOpenAIRequest] while [pendingSwitch] or [isAuthSwitching]
    holds is not accepted: it gets the one response 503 "Server rotating
    accounts...", nothing is forwarded and the rotation fields do not
    move.  The requests in flight go on: the three response modes neither
    read nor write [pendingSwitch], and in the interleaved system the
    answer of a waiting request and the [finally] block of an answering
    one can always run.  ([processModelListRequest] has no gate.) *)
Theorem C2_closed_gate rt cfg sys req w :
  gate_closed (handler w) = true ->
  unsent (res w) ->
  turned_away rt 503 "Server rotating accounts..." (processRequest rt cfg sys req) w
  /\ turned_away rt 503 "Server rotating accounts..."
       (processOpenAIRequest rt cfg sys req) w
  /\ (forall p,
        blind_to_pending (_handlePseudoStreamResponse rt cfg p)
        /\ blind_to_pending (_handleRealStreamResponse rt cfg p)
        /\ blind_to_pending (_handleNonStreamResponse rt cfg p))
  /\ (forall c a n r s k,
        exists s', step cfg (Build_System c (S a) n r s k) Answered s')
  /\ (forall c a n r s k,
        exists e s', step cfg (Build_System c a (S n) r s k) e s'
                     /\ answering s' = n).
Proof.
  intros Hgate Hres.
  split; [apply closed_gate_processRequest; assumption|].
  split; [apply closed_gate_processOpenAIRequest; assumption|].
  split.
  { intro p. split; [apply blind__handlePseudoStreamResponse|].
    split; [apply blind__handleRealStreamResponse
           | apply blind__handleNonStreamResponse]. }
  split.
  { intros. eexists. apply step_answered. }
  intros c a n r s k.
  destruct (pending_ready (finalise_request c)) eqn:E.
  - exists FinalisedAndSwitched. eexists. split.
    + apply step_finalised_switched. exact E.
    + reflexivity.
  - exists Finalised. eexists. split.
    + apply step_finalised. exact E.
    + reflexivity.
Qed.

Lemma C2_closed_gate_witness :
  turned_away Example.models_runtime 503 "Server rotating accounts..."
    (processRequest Example.models_runtime default_config Example.system
       Example.get_models)
    (Example.world Example.rotating [])
  /\ turned_away Example.models_runtime 503 "Server rotating accounts..."
       (processOpenAIRequest Example.models_runtime default_config Example.system
          Example.get_models)
       (Example.world Example.rotating [])
  /\ (forall p,
        blind_to_pending (_handlePseudoStreamResponse Example.models_runtime default_config p)
        /\ blind_to_pending (_handleRealStreamResponse Example.models_runtime default_config p)
        /\ blind_to_pending (_handleNonStreamResponse Example.models_runtime default_config p))
  /\ (forall c a n r s k,
        exists s', step default_config (Build_System c (S a) n r s k) Answered s')
  /\ (forall c a n r s k,
        exists e s', step default_config (Build_System c a (S n) r s k) e s'
                     /\ answering s' = n).
Proof.
  apply (C2_closed_gate Example.models_runtime default_config Example.system
           Example.get_models (Example.world Example.rotating [])).
  - reflexivity.
  - repeat split.
Defined.

(** ** A chat completion that does not translate *)

(** C10: on [POST /v1/chat/completions] with [switchOnUses > 0], a body
    that fails the translation is answered 400 and nothing is forwarded;
    [activeRequestCount] is back where it was, while [usageCount] keeps
    its increment and [pendingSwitch] is set if that use was the one that
    reached [switchOnUses]. *)
Theorem C10_untranslatable_request_uses_a_credit rt cfg sys req w :
  gate_closed (handler w) = false ->
  0 < switchOnUses cfg ->
  get (req_body req) "stream" <> None ->
  Translator._translateOpenAIToGoogle sys (req_body req) = None ->
  unsent (res w) ->
  completion (processOpenAIRequest rt cfg sys req) w = Return tt
  /\ Res.statusLines (res (run (processOpenAIRequest rt cfg sys req) w)) = [400]
  /\ Res.out (res (run (processOpenAIRequest rt cfg sys req) w))
     = [error_body rt 400 (Some "Invalid OpenAI request format.")]
  /\ relay (run (processOpenAIRequest rt cfg sys req) w) = relay w
  /\ activeRequestCount (handler (run (processOpenAIRequest rt cfg sys req) w))
     = activeRequestCount (handler w)
  /\ usageCount (handler (run (processOpenAIRequest rt cfg sys req) w))
     = usageCount (handler w) + 1
  /\ pendingSwitch (handler (run (processOpenAIRequest rt cfg sys req) w))
     = (switchOnUses cfg <=? usageCount (handler w) + 1).
Proof.
  intros Hgate HN Hbody Htr Hres.
  assert (exists st md, get (req_body req) "stream" = Some st
                        /\ get (req_body req) "model" = Some md) as (st & md & Est & Emd).
  { unfold get in *. destruct (req_body req); try congruence; eauto. }
  pose proof Hgate as Hg. unfold gate_closed in Hg. apply orb_false_elim in Hg.
  destruct Hg as [Hp _].
  pose proof HN as HN'.
  set (w2 := run (modify_handler leave_request)
               (run _generateRequestId
                  (run (modify_handler (count_use cfg true))
                     (run (modify_handler enter_request) w)))).
  assert (unsent (res w2)) as Hres2 by exact Hres.
  pose proof (_sendErrorResponse_unsent rt (Some 400)
                (Some "Invalid OpenAI request format.") w2 Hres2) as H.
  cbv zeta in H. destruct H as (H1 & H2 & H3 & H4 & H5 & H6 & H7).
  assert (processOpenAIRequest rt cfg sys req w
          = _sendErrorResponse rt (Some 400) (Some "Invalid OpenAI request format.") w2)
    as Heq.
  { unfold processOpenAIRequest, bind, get_handler. simpl. rewrite Hgate.
    simpl. rewrite Est, Emd, Htr. reflexivity. }
  unfold completion, run in *. rewrite Heq.
  split; [exact H1|]. split; [exact H5|]. split; [exact H6|].
  split; [rewrite H3; reflexivity|].
  rewrite H2.
  assert (handler w2 = leave_request (count_use cfg true (enter_request (handler w))))
    as -> by reflexivity.
  destruct (InterleavingFacts.count_use_counts cfg (enter_request (handler w)) HN')
    as [Hoff _].
  destruct (Hoff Hp) as [Hu Hpn].
  split; [simpl; rewrite InterleavingFacts.count_use_active; simpl; lia|].
  split; [simpl; rewrite Hu; reflexivity|].
  simpl. rewrite Hpn. reflexivity.
Qed.


Lemma C10_untranslatable_request_uses_a_credit_witness :
  completion (processOpenAIRequest Example.models_runtime (Example.rotate_every 1)
                Example.system Example.no_messages)
    (Example.world new_handler []) = Return tt
  /\ Res.statusLines
       (res (run (processOpenAIRequest Example.models_runtime (Example.rotate_every 1)
                    Example.system Example.no_messages)
               (Example.world new_handler []))) = [400]
  /\ Res.out
       (res (run (processOpenAIRequest Example.models_runtime (Example.rotate_every 1)
                    Example.system Example.no_messages)
               (Example.world new_handler [])))
     = [error_body Example.models_runtime 400 (Some "Invalid OpenAI request format.")]
  /\ relay (run (processOpenAIRequest Example.models_runtime (Example.rotate_every 1)
                   Example.system Example.no_messages)
              (Example.world new_handler []))
     = relay (Example.world new_handler [])
  /\ activeRequestCount
       (handler (run (processOpenAIRequest Example.models_runtime (Example.rotate_every 1)
                        Example.system Example.no_messages)
                   (Example.world new_handler [])))
     = activeRequestCount (handler (Example.world new_handler []))
  /\ usageCount
       (handler (run (processOpenAIRequest Example.models_runtime (Example.rotate_every 1)
                        Example.system Example.no_messages)
                   (Example.world new_handler [])))
     = usageCount (handler (Example.world new_handler [])) + 1
  /\ pendingSwitch
       (handler (run (processOpenAIRequest Example.models_runtime (Example.rotate_every 1)
                        Example.system Example.no_messages)
                   (Example.world new_handler [])))
     = (switchOnUses (Example.rotate_every 1)
        <=? usageCount (handler (Example.world new_handler [])) + 1).
Proof.
  apply (C10_untranslatable_request_uses_a_credit Example.models_runtime
           (Example.rotate_every 1) Example.system Example.no_messages
           (Example.world new_handler [])).
  - reflexivity.
  - reflexivity.
  - discriminate.
  - reflexivity.
  - repeat split.
Defined.

End GateFacts.

(* ================================================================== *)
(** * Pseudo streaming: attempts and retries *)
(* ================================================================== *)

Module PseudoFacts.

(** ** What the primitives of a wait do to the world *)

Lemma await_spec w :
  completion await w = Return tt
  /\ handler (run await w) = handler w
  /\ relay (run await w) = relay w
  /\ inbox (run await w) = inbox w
  /\ links (run await w) = links w
  /\ timers (run await w) = timers w.
Proof.
  unfold completion, run, await. destruct (keepAlive w); simpl; repeat split.
Qed.

Lemma dequeue_spec w :
  completion dequeue w
  = match inbox w with
    | Msg m :: _ => Return m
    | Rejected e :: _ => Throw e
    | [] => Throw "Queue timeout"
    end
  /\ handler (run dequeue w) = handler w
  /\ relay (run dequeue w) = relay w
  /\ inbox (run dequeue w) = tl (inbox w)
  /\ links (run dequeue w) = links w
  /\ timers (run dequeue w) = timers w.
Proof.
  destruct (await_spec w) as (Hc & Hh & Hr & Hi & Hl & Ht).
  unfold completion, run in *. unfold dequeue, bind.
  destruct (await w) as [[[]|e] w1]; simpl in *; [|discriminate].
  rewrite <- Hi, <- Hh, <- Hr, <- Hl, <- Ht.
  destruct (inbox w1) as [|[m|e] q]; simpl; repeat split.
Qed.

Lemma sleep_spec ms w :
  completion (sleep ms) w = Return tt
  /\ handler (run (sleep ms) w) = handler w
  /\ relay (run (sleep ms) w) = relay w
  /\ inbox (run (sleep ms) w) = inbox w
  /\ links (run (sleep ms) w) = links w
  /\ timers (run (sleep ms) w) = timers w ++ [ms].
Proof.
  unfold completion, run, sleep, bind, push_timer. simpl.
  match goal with |- context [await ?x] => destruct (await_spec x) as (Hc & Hh & Hr & Hi & Hl & Ht) end.
  unfold completion, run in *.
  match goal with |- context [await ?x] => destruct (await x) as [[[]|e] w1] end;
    simpl in *; [|discriminate].
  repeat split; assumption.
Qed.

Lemma forward_spec p w :
  (hd false (links w) = true ->
   completion (_forwardRequest p) w = Return tt
   /\ relay (run (_forwardRequest p) w) = relay w ++ [p])
  /\ (hd false (links w) = false ->
      completion (_forwardRequest p) w = Throw "No available browser connection."
      /\ relay (run (_forwardRequest p) w) = relay w)
  /\ handler (run (_forwardRequest p) w) = handler w
  /\ inbox (run (_forwardRequest p) w) = inbox w
  /\ links (run (_forwardRequest p) w) = tl (links w)
  /\ timers (run (_forwardRequest p) w) = timers w.
Proof.
  unfold completion, run, _forwardRequest, bind, hasActiveConnections. simpl.
  destruct (hd false (links w)); simpl; repeat split; intros; congruence.
Qed.

Section WithConfig.
Variable rt : Runtime.
Variable cfg : Config.

(** ** The relation "no frame was forwarded" *)

Lemma same_relay_frame : Frame cfg same_relay.
Proof.
  constructor; try (intros; intro w; reflexivity).
  - intro w. reflexivity.
  - intros a b c Hab Hbc. unfold same_relay in *. congruence.
  - intro w. unfold same_relay, run, await. destruct (keepAlive w); reflexivity.
  - intros k v w. unfold same_relay, run, try_res. destruct (Res.set k v (res w)); reflexivity.
  - intros t w. unfold same_relay, run, try_res. destruct (Res.type t (res w)); reflexivity.
  - intros s w. unfold same_relay, run, try_res. destruct (Res.json s (res w)); reflexivity.
  - intros s w. unfold same_relay, run, try_res. destruct (Res.send s (res w)); reflexivity.
Qed.

Lemma same_relay_count_failure :
  preserves same_relay (modify_handler (count_failure cfg)).
Proof. intro w. reflexivity. Qed.

(** In [try { x = a; K x } catch { H } finally { C }], when only [a]
    forwards frames, the frames forwarded are those of [a]. *)
Lemma relay_of_guarded {A} (a : M A) (K : A -> M unit) (H : string -> M unit)
  (C : M unit) w :
  (forall x, preserves same_relay (K x)) ->
  (forall e, preserves same_relay (H e)) ->
  preserves same_relay C ->
  relay (run (finally (try_catch (bind a K) H) C) w) = relay (run a w).
Proof.
  intros HK HH HC. unfold run, finally, try_catch, bind.
  destruct (a w) as [[x|e] w1]; simpl.
  - pose proof (HK x w1) as H1. unfold same_relay, run in H1.
    destruct (K x w1) as [[[]|e] w2]; simpl in *.
    + pose proof (HC w2) as H2. unfold same_relay, run in H2.
      destruct (C w2) as [[[]|e'] w3]; simpl in *; congruence.
    + pose proof (HH e w2) as H2. unfold same_relay, run in H2.
      destruct (H e w2) as [o w3]; simpl in *.
      pose proof (HC w3) as H3. unfold same_relay, run in H3.
      destruct (C w3) as [[[]|e'] w4]; simpl in *; congruence.
  - pose proof (HH e w1) as H2. unfold same_relay, run in H2.
    destruct (H e w1) as [o w3]; simpl in *.
    pose proof (HC w3) as H3. unfold same_relay, run in H3.
    destruct (C w3) as [[[]|e'] w4]; simpl in *; congruence.
Qed.

(** The headers of the event stream: nothing forwarded, nothing taken
    from the queue. *)
Lemma set_sse_headers_spec w :
  relay (run set_sse_headers w) = relay w
  /\ inbox (run set_sse_headers w) = inbox w
  /\ handler (run set_sse_headers w) = handler w
  /\ links (run set_sse_headers w) = links w.
Proof.
  unfold run, set_sse_headers, bind, try_res. simpl.
  repeat match goal with
         | |- context [match ?x with Some _ => _ | None => _ end] => destruct x; simpl
         end; repeat split; reflexivity.
Qed.

(** ** No frame after an aborted error *)

(** The frames the attempts forward are bounded by the position of the
    first answer that says "aborted". *)
Lemma attempts_stop_at_aborted p fuel :
  forall attempt last w k s m,
    nth_error (inbox w) k = Some (Msg (ErrorEvent s (Some m))) ->
    includes m "aborted" = true ->
    (List.length (relay (run (pseudo_attempts cfg p fuel attempt last) w))
     <= List.length (relay w) + k + 1)%nat.
Proof.
  induction fuel as [|fuel IH]; intros attempt last w k s m Hk Hab; simpl.
  - unfold run. simpl. lia.
  - destruct (attempt <=? maxRetries cfg); [|unfold run; simpl; lia].
    destruct (forward_spec p w) as (Hup & Hdown & Hh & Hi & Hl & Ht).
    unfold run, completion in *. unfold bind at 1.
    destruct (_forwardRequest p w) as [[[]|e] w1] eqn:Ef; simpl in *.
    2:{ destruct (hd false (links w)).
        - destruct (Hup eq_refl); discriminate.
        - destruct (Hdown eq_refl) as [_ ->]. lia. }
    assert (List.length (relay w1) <= List.length (relay w) + 1)%nat as Hlen.
    { destruct (hd false (links w)).
      - destruct (Hup eq_refl) as [_ ->]. rewrite length_app. simpl. lia.
      - destruct (Hdown eq_refl); discriminate. }
    destruct (dequeue_spec w1) as (Dc & Dh & Dr & Di & Dl & Dt).
    unfold run, completion in *. unfold bind at 1, try_catch.
    destruct (dequeue w1) as [[m1|e1] w2] eqn:Ed; simpl in *.
    + (* the relay answered *)
      rewrite Hi in *.
      destruct (inbox w) as [|[m0|e0] q] eqn:Eq; try discriminate.
      injection Dc as ->.
      destruct m0 as [st hs|dt|st tx|]; simpl; try (rewrite Dr; lia).
      destruct k as [|k]; simpl in Hk.
      * injection Hk as -> ->. unfold not_aborted. simpl. rewrite Hab. simpl.
        rewrite Dr. lia.
      * destruct (not_aborted (ErrorEvent st tx)); [|simpl; rewrite Dr; lia].
        destruct (attempt <? maxRetries cfg); [|simpl; rewrite Dr; lia].
        destruct (sleep_spec (retryDelay cfg) w2) as (Sc & Sh & Sr & Si & Sl & St).
        unfold run, completion in *. unfold bind at 1.
        destruct (sleep (retryDelay cfg) w2) as [[[]|e3] w3]; simpl in *;
          [|discriminate].
        assert (nth_error (inbox w3) k = Some (Msg (ErrorEvent s (Some m)))) as Hk3.
        { rewrite Si, Di. simpl. exact Hk. }
        specialize (IH (attempt + 1) (Some (ErrorEvent st tx)) w3 k s m Hk3 Hab).
        unfold run in IH. rewrite Sr, Dr in IH. lia.
    + (* the wait failed: it counts as error 504 "Timeout" *)
      rewrite Hi in *.
      destruct k as [|k].
      * destruct (inbox w) as [|[m0|e0] q]; simpl in *; discriminate.
      * unfold not_aborted. simpl.
        destruct (attempt <? maxRetries cfg); [|simpl; rewrite Dr; lia].
        destruct (sleep_spec (retryDelay cfg) w2) as (Sc & Sh & Sr & Si & Sl & St).
        unfold run, completion in *. unfold bind at 1.
        destruct (sleep (retryDelay cfg) w2) as [[[]|e3] w3]; simpl in *;
          [|discriminate].
        assert (nth_error (inbox w3) k = Some (Msg (ErrorEvent s (Some m)))) as Hk3.
        { rewrite Si, Di. destruct (inbox w); simpl in *; [discriminate | exact Hk]. }
        specialize (IH (attempt + 1) (Some (ErrorEvent (Some 504) (Some "Timeout")))
                      w3 k s m Hk3 Hab).
        unfold run in IH. rewrite Sr, Dr in IH. lia.
Qed.

(** In the whole of [_handlePseudoStreamResponse], the frames forwarded
    are those of the attempts. *)
Lemma pseudo_relay p w :
  relay (run (_handlePseudoStreamResponse rt cfg p) w) = relay w
  \/ exists w0,
       relay w0 = relay w /\ inbox w0 = inbox w
       /\ relay (run (_handlePseudoStreamResponse rt cfg p) w)
          = relay (run (pseudo_attempts cfg p (Z.to_nat (maxRetries cfg)) 1 None) w0).
Proof.
  unfold _handlePseudoStreamResponse.
  set (w1 := put_res (Res.status 200 (res w)) w).
  rewrite (run_bind_return (modify_res (Res.status 200)) _ w tt w1 eq_refl).
  destruct (set_sse_headers_spec w1) as (Hr & Hi & _). unfold run in Hr, Hi.
  destruct (set_sse_headers w1) as [[[]|e] w2] eqn:E; simpl in Hr, Hi.
  - rewrite (run_bind_return _ _ w1 tt w2 E).
    rewrite (run_bind_return (set_keepAlive true) _ w2 tt _ eq_refl).
    right. eexists. split; [|split; [|apply relay_of_guarded]].
    + simpl. exact Hr.
    + simpl. exact Hi.
    + intros [lastMessage requestFailed].
      framed_go same_relay_frame ltac:(apply same_relay_count_failure).
    + intro e0. framed_go same_relay_frame idtac.
    + framed_go same_relay_frame idtac.
  - rewrite (run_bind_throw _ _ w1 e w2 E). left. exact Hr.
Qed.

(** An aborted error ends the loop on the spot, whatever the attempt. *)
Lemma aborted_ends_attempts p fuel attempt last w s m :
  hd_error (inbox w) = Some (Msg (ErrorEvent s (Some m))) ->
  includes m "aborted" = true ->
  fuel <> O ->
  attempt <= maxRetries cfg ->
  hd false (links w) = true ->
  completion (pseudo_attempts cfg p fuel attempt last) w
  = Return (Some (ErrorEvent s (Some m)), false)
  /\ relay (run (pseudo_attempts cfg p fuel attempt last) w) = relay w ++ [p]
  /\ timers (run (pseudo_attempts cfg p fuel attempt last) w) = timers w.
Proof.
  intros Hhd Hab Hfuel Hle Hlink.
  destruct fuel as [|fuel]; [congruence|].
  apply Z.leb_le in Hle.
  destruct (forward_spec p w) as (Hup & _ & Hh & Hi & Hl & Ht).
  destruct (Hup Hlink) as [Fc Fr]. clear Hup.
  unfold completion, run in *.
  destruct (_forwardRequest p w) as [[[]|e] w1] eqn:Ef; simpl in Fc, Fr, Hi, Ht;
    [|discriminate].
  destruct (dequeue_spec w1) as (Dc & Dh & Dr & Di & Dl & Dt).
  unfold completion, run in *. rewrite Hi in *.
  destruct (inbox w) as [|[m0|e0] q]; simpl in Hhd; try discriminate.
  injection Hhd as ->.
  destruct (dequeue w1) as [[m1|e1] w2] eqn:Ed; simpl in Dc, Dr, Dt; [|discriminate].
  injection Dc as ->.
  assert (pseudo_attempts cfg p (S fuel) attempt last w
          = (Return (Some (ErrorEvent s (Some m)), false), w2)) as ->.
  { simpl. rewrite Hle. unfold bind, try_catch. rewrite Ef, Ed. simpl.
    unfold not_aborted. simpl. rewrite Hab. reflexivity. }
  simpl. repeat split; congruence.
Qed.

(** C5: in pseudo streaming, an error of the relay whose message
    contains "aborted" is never followed by another forward of the
    request.  Whatever [maxRetries] and [retryDelay] are: when the
    [k+1]-th answer of the queue is such an error, the handler forwards
    [k+1] frames at most; and at any attempt, such an answer ends the
    loop at once, without a delay and without declaring the request
    failed. *)
Theorem C5_aborted_is_never_retried p w k s m :
  nth_error (inbox w) k = Some (Msg (ErrorEvent s (Some m))) ->
  includes m "aborted" = true ->
  (List.length (relay (run (_handlePseudoStreamResponse rt cfg p) w))
   <= List.length (relay w) + k + 1)%nat
  /\ (forall fuel attempt last w',
        hd_error (inbox w') = Some (Msg (ErrorEvent s (Some m))) ->
        fuel <> O ->
        attempt <= maxRetries cfg ->
        hd false (links w') = true ->
        completion (pseudo_attempts cfg p fuel attempt last) w'
        = Return (Some (ErrorEvent s (Some m)), false)
        /\ relay (run (pseudo_attempts cfg p fuel attempt last) w') = relay w' ++ [p]
        /\ timers (run (pseudo_attempts cfg p fuel attempt last) w') = timers w').
Proof.
  intros Hk Hab. split.
  - destruct (pseudo_relay p w) as [-> | (w0 & Hr & Hi & ->)]; [lia|].
    rewrite <- Hr. apply (attempts_stop_at_aborted p _ 1 None w0 k s m).
    + rewrite Hi. exact Hk.
    + exact Hab.
  - intros fuel attempt last w' Hhd Hfuel Hle Hlink.
    apply aborted_ends_attempts; assumption.
Qed.

End WithConfig.

(** C4 at its own input: [streamingMode = fake], [maxRetries = 1],
    [retryDelay = 0], first answer [error 500 "x"].  The loop runs for
    [attempt = 1] only, and [attempt < maxRetries] is false there: the
    request is forwarded once, no delay is slept, the client gets status
    200 with the one error chunk, the buffered answer stays in the queue
    and [failureCount] is 1. *)
Lemma C4_maxRetries_1_makes_one_attempt :
  List.length
    (relay (run (processRequest Example.models_runtime (Example.retries 1)
                   Example.fake_system Example.stream_request)
              (Example.world new_handler Example.error_then_answer))) = 1%nat
  /\ timers (run (processRequest Example.models_runtime (Example.retries 1)
                    Example.fake_system Example.stream_request)
               (Example.world new_handler Example.error_then_answer)) = []
  /\ Res.statusLines
       (res (run (processRequest Example.models_runtime (Example.retries 1)
                    Example.fake_system Example.stream_request)
               (Example.world new_handler Example.error_then_answer))) = [200]
  /\ Res.out
       (res (run (processRequest Example.models_runtime (Example.retries 1)
                    Example.fake_system Example.stream_request)
               (Example.world new_handler Example.error_then_answer)))
     = [error_chunk Example.models_runtime (Some "x")]
  /\ failureCount
       (handler (run (processRequest Example.models_runtime (Example.retries 1)
                        Example.fake_system Example.stream_request)
                   (Example.world new_handler Example.error_then_answer))) = 1
  /\ inbox (run (processRequest Example.models_runtime (Example.retries 1)
                   Example.fake_system Example.stream_request)
              (Example.world new_handler Example.error_then_answer))
     = tl Example.error_then_answer.
Proof. vm_compute. repeat split. Qed.

(** The scenario comes out as described when [maxRetries = 2]: two
    frames, one delay of [retryDelay], one data payload, then [DONE], and
    [failureCount = 0]. *)
Lemma maxRetries_2_makes_one_retry :
  List.length
    (relay (run (processRequest Example.models_runtime (Example.retries 2)
                   Example.fake_system Example.stream_request)
              (Example.world new_handler Example.error_then_answer))) = 2%nat
  /\ timers (run (processRequest Example.models_runtime (Example.retries 2)
                    Example.fake_system Example.stream_request)
               (Example.world new_handler Example.error_then_answer)) = [0]
  /\ Res.statusLines
       (res (run (processRequest Example.models_runtime (Example.retries 2)
                    Example.fake_system Example.stream_request)
               (Example.world new_handler Example.error_then_answer))) = [200]
  /\ Res.out
       (res (run (processRequest Example.models_runtime (Example.retries 2)
                    Example.fake_system Example.stream_request)
               (Example.world new_handler Example.error_then_answer)))
     = ["data: {}" ++ nl ++ nl; "data: [DONE]" ++ nl ++ nl]%string
  /\ failureCount
       (handler (run (processRequest Example.models_runtime (Example.retries 2)
                        Example.fake_system Example.stream_request)
                   (Example.world new_handler Example.error_then_answer))) = 0.
Proof. vm_compute. repeat split. Qed.

Lemma C5_aborted_is_never_retried_witness :
  (List.length
     (relay (run (_handlePseudoStreamResponse Example.models_runtime (Example.retries 5)
                    (prepare_frame Example.models_runtime Example.fake_system
                       Example.stream_request "id"))
               (Example.world new_handler Example.aborted_then_answer)))
   <= List.length (relay (Example.world new_handler Example.aborted_then_answer)) + 0 + 1)%nat
  /\ (forall fuel attempt last w',
        hd_error (inbox w')
        = Some (Msg (ErrorEvent (Some 500) (Some "The user aborted a request."))) ->
        fuel <> O ->
        attempt <= maxRetries (Example.retries 5) ->
        hd false (links w') = true ->
        completion (pseudo_attempts (Example.retries 5)
                      (prepare_frame Example.models_runtime Example.fake_system
                         Example.stream_request "id") fuel attempt last) w'
        = Return (Some (ErrorEvent (Some 500) (Some "The user aborted a request.")), false)
        /\ relay (run (pseudo_attempts (Example.retries 5)
                         (prepare_frame Example.models_runtime Example.fake_system
                            Example.stream_request "id") fuel attempt last) w')
           = relay w' ++ [prepare_frame Example.models_runtime Example.fake_system
                            Example.stream_request "id"]
        /\ timers (run (pseudo_attempts (Example.retries 5)
                          (prepare_frame Example.models_runtime Example.fake_system
                             Example.stream_request "id") fuel attempt last) w')
           = timers w').
Proof.
  apply (C5_aborted_is_never_retried Example.models_runtime (Example.retries 5)
           (prepare_frame Example.models_runtime Example.fake_system
              Example.stream_request "id")
           (Example.world new_handler Example.aborted_then_answer) 0
           (Some 500) "The user aborted a request.").
  - reflexivity.
  - reflexivity.
Defined.

End PseudoFacts.

(* ================================================================== *)
(** * The failure counter *)
(* ================================================================== *)

Module FailureFacts.
Import Failures PseudoFacts.

Section WithConfig.
Variable rt : Runtime.
Variable cfg : Config.
Variable sys : ServerSystem.

Lemma quiet_handler f :
  (forall h, 0 <= failureCount h -> 0 <= failureCount (f h) <= failureCount h) ->
  preserves quiet (modify_handler f).
Proof. intros Hf w Hw. apply Hf. exact Hw. Qed.

Lemma quiet_same_handler {A} (m : M A) :
  (forall w, handler (snd (m w)) = handler w) -> preserves quiet m.
Proof. intros H w Hw. unfold run. rewrite H. lia. Qed.

Lemma quiet_frame : Frame cfg quiet.
Proof.
  constructor;
    try (intros; apply quiet_same_handler; intros; reflexivity);
    try (intros; apply quiet_handler; intros h Hh; simpl; lia).
  - intros w Hw. lia.
  - intros a b c Hab Hbc Ha. specialize (Hab Ha). specialize (Hbc (proj1 Hab)). lia.
  - apply quiet_same_handler. intro w. unfold await.
    destruct (keepAlive w); reflexivity.
  - intros k v. apply quiet_same_handler. intro w. unfold try_res.
    destruct (Res.set k v (res w)); reflexivity.
  - intros t. apply quiet_same_handler. intro w. unfold try_res.
    destruct (Res.type t (res w)); reflexivity.
  - intros t. apply quiet_same_handler. intro w. unfold try_res.
    destruct (Res.json t (res w)); reflexivity.
  - intros t. apply quiet_same_handler. intro w. unfold try_res.
    destruct (Res.send t (res w)); reflexivity.
  - intro g. apply quiet_handler. intros h Hh.
    rewrite (proj1 (InterleavingFacts.count_use_failures cfg g h)). lia.
  - apply quiet_handler. intros h Hh. unfold reset_failures.
    destruct (0 <? failureCount h); simpl; lia.
Qed.

Lemma quiet_count_failure_off :
  failureThreshold cfg <= 0 -> preserves quiet (modify_handler (count_failure cfg)).
Proof.
  intro Hoff. apply quiet_handler. intros h Hh. unfold count_failure.
  destruct (0 <? failureThreshold cfg) eqn:E; [apply Z.ltb_lt in E; lia | lia].
Qed.

Lemma quiet_push_relay p : preserves quiet (push_relay p).
Proof. apply quiet_same_handler. intros; reflexivity. Qed.

(** Without a threshold nothing counts failures. *)
Lemma grows_needs_threshold (m : M unit) w :
  (failureThreshold cfg <= 0 -> preserves quiet m) ->
  0 <= failureCount (handler w) -> grows m w -> 0 < failureThreshold cfg.
Proof.
  intros Hoff Hpos Hg.
  destruct (Z.lt_ge_cases 0 (failureThreshold cfg)) as [H|H]; [exact H|].
  exfalso. specialize (Hoff H w Hpos). unfold grows in Hg. lia.
Qed.

(** What comes back from a forward and from a dequeue. *)
Lemma forward_cases p w :
  exists o w1,
    _forwardRequest p w = (o, w1)
    /\ handler w1 = handler w /\ inbox w1 = inbox w
    /\ (o = Return tt \/ exists e, o = Throw e).
Proof.
  destruct (forward_spec p w) as (_ & _ & Hh & Hi & _).
  unfold run in *. destruct (_forwardRequest p w) as [[[]|e] w1].
  - exists (Return tt), w1. auto.
  - exists (Throw e), w1. repeat split; auto. right. eauto.
Qed.

Lemma dequeue_cases w :
  exists o w1,
    dequeue w = (o, w1)
    /\ handler w1 = handler w /\ inbox w1 = tl (inbox w)
    /\ ((exists m, o = Return m /\ hd_error (inbox w) = Some (Msg m))
        \/ (exists e, o = Throw e)).
Proof.
  destruct (dequeue_spec w) as (Hc & Hh & _ & Hi & _).
  unfold run, completion in *. destruct (dequeue w) as [[m|e] w1]; simpl in *.
  - exists (Return m), w1. repeat split; auto. left. exists m. split; [reflexivity|].
    destruct (inbox w) as [|[m0|e0] q]; simpl; congruence.
  - exists (Throw e), w1. repeat split; auto. right. eauto.
Qed.

Ltac quiet_go :=
  framed_go quiet_frame
    ltac:(first [ apply quiet_push_relay
                | apply quiet_count_failure_off; assumption ]).

(** ** Pass-through streaming *)

Lemma real_grows p w :
  0 <= failureCount (handler w) ->
  grows (_handleRealStreamResponse rt cfg p) w ->
  0 < failureThreshold cfg /\ first_answer_is_error w.
Proof.
  intros Hpos Hg. split.
  { apply (grows_needs_threshold (_handleRealStreamResponse rt cfg p) w);
      [|exact Hpos|exact Hg].
    intro Hoff. unfold _handleRealStreamResponse. quiet_go. }
  unfold grows, _handleRealStreamResponse in Hg.
  destruct (forward_cases p w) as (o & w1 & Ef & Hh & Hi & [-> | [e ->]]).
  2:{ rewrite (run_bind_throw _ _ _ _ _ Ef) in Hg. rewrite Hh in Hg. lia. }
  rewrite (run_bind_return _ _ _ _ _ Ef) in Hg.
  destruct (dequeue_cases w1) as (o & w2 & Ed & Dh & Di & [(m & -> & Hm) | [e ->]]).
  2:{ rewrite (run_bind_throw _ _ _ _ _ Ed) in Hg. rewrite Dh, Hh in Hg. lia. }
  rewrite (run_bind_return _ _ _ _ _ Ed) in Hg.
  rewrite Hi in Hm.
  destruct m as [st hs|dt|st tx|]; simpl in Hg;
    try (exfalso;
         match type of Hg with
         | context [run ?m w2] =>
             assert (preserves quiet m) as Hq by quiet_go;
             specialize (Hq w2); unfold quiet in Hq; rewrite Dh, Hh in Hq;
             specialize (Hq Hpos); lia
         end).
  exists st, tx. exact Hm.
Qed.

(** [Hg] says the counter grew along [run m w'] although [m] cannot
    count a failure. *)
Ltac quiet_absurd Hg w' Heq Hpos :=
  exfalso;
  match type of Hg with
  | context [run ?m w'] =>
      let Hq := fresh "Hq" in
      assert (preserves quiet m) as Hq by quiet_go;
      specialize (Hq w'); unfold quiet in Hq; rewrite Heq in Hq;
      specialize (Hq Hpos); lia
  end.

(** The same when the counter is only known not to have grown up to [w']. *)
Ltac quiet_absurd_le Hg w' Hle :=
  exfalso;
  match type of Hg with
  | context [run ?m w'] =>
      let Hq := fresh "Hq" in
      assert (preserves quiet m) as Hq by quiet_go;
      specialize (Hq w'); unfold quiet in Hq;
      specialize (Hq (proj1 Hle)); lia
  end.

(** ** Buffered answers *)

Lemma nonstream_grows p w :
  0 <= failureCount (handler w) ->
  grows (_handleNonStreamResponse rt cfg p) w ->
  0 < failureThreshold cfg /\ first_answer_is_error w.
Proof.
  intros Hpos Hg. split.
  { apply (grows_needs_threshold (_handleNonStreamResponse rt cfg p) w);
      [|exact Hpos|exact Hg].
    intro Hoff. unfold _handleNonStreamResponse. quiet_go. }
  unfold grows, _handleNonStreamResponse in Hg.
  destruct (forward_cases p w) as (o & w1 & Ef & Hh & Hi & [-> | [e ->]]).
  2:{ rewrite (run_bind_throw _ _ _ _ _ Ef) in Hg. rewrite Hh in Hg. lia. }
  rewrite (run_bind_return _ _ _ _ _ Ef) in Hg.
  destruct (dequeue_cases w1) as (o & w2 & Ed & Dh & Di & [(m & -> & Hm) | [e ->]]).
  2:{ rewrite (run_try_bind_throw _ _ _ _ _ _ Ed) in Hg.
      assert (failureCount (handler w2) = failureCount (handler w)) as Heq
          by (rewrite Dh, Hh; reflexivity).
      quiet_absurd Hg w2 Heq Hpos. }
  rewrite (run_try_bind_return _ _ _ _ _ _ Ed) in Hg.
  rewrite Hi in Hm.
  assert (failureCount (handler w2) = failureCount (handler w)) as Heq
      by (rewrite Dh, Hh; reflexivity).
  destruct m as [st hs|dt|st tx|]; simpl in Hg;
    try (quiet_absurd Hg w2 Heq Hpos).
  exists st, tx. exact Hm.
Qed.

(** ** Pseudo streaming *)

(** When the attempts declare the request failed, each of them, from
    the current one to the last, was forwarded and failed. *)
Lemma attempts_failed p fuel :
  forall attempt last w lastMessage,
    completion (pseudo_attempts cfg p fuel attempt last) w
    = Return (lastMessage, true) ->
    attempt <= maxRetries cfg
    /\ forall k : nat,
         attempt + Z.of_nat k <= maxRetries cfg ->
         nth k (links w) false = true
         /\ attempt_fails (nth_error (inbox w) k) = true.
Proof.
  induction fuel as [|fuel IH]; intros attempt last w lastMessage; simpl.
  - unfold completion. simpl. discriminate.
  - destruct (attempt <=? maxRetries cfg) eqn:Ele;
      [|unfold completion; simpl; discriminate].
    apply Z.leb_le in Ele.
    destruct (forward_spec p w) as (Hup & Hdown & Hh & Hi & Hl & _).
    destruct (hd false (links w)) eqn:Elink.
    2:{ destruct (Hdown eq_refl) as [Fc _]. unfold completion in Fc.
        destruct (_forwardRequest p w) as [o w1] eqn:Ef. simpl in Fc. subst o.
        rewrite (completion_bind_throw _ _ _ _ _ Ef). discriminate. }
    destruct (Hup eq_refl) as [Fc _]. unfold completion, run in Fc, Hh, Hi, Hl.
    destruct (_forwardRequest p w) as [o w1] eqn:Ef. cbn [fst snd] in Fc, Hh, Hi, Hl.
    subst o. rewrite (completion_bind_return _ _ _ _ _ Ef).
    destruct (dequeue_spec w1) as (Dc & Dh & _ & Di & Dl & _).
    unfold completion, run in Dc, Dh, Di, Dl.
    destruct (dequeue w1) as [o w2] eqn:Ed. cbn [fst snd] in Dc, Dh, Di, Dl.
    rewrite Hi in Dc, Di. rewrite Hl in Dl.
    assert (exists m, try_catch dequeue
                        (fun _ => ret (ErrorEvent (Some 504) (Some "Timeout"))) w1
                      = (Return m, w2)
                      /\ (is_error m && not_aborted m = true ->
                          attempt_fails (hd_error (inbox w)) = true))
      as (m & Et & Hm).
    { unfold try_catch. rewrite Ed. subst o.
      destruct (inbox w) as [|[m0|e0] q]; simpl.
      - eexists. split; [reflexivity | auto].
      - exists m0. split; [reflexivity | auto].
      - eexists. split; [reflexivity | auto]. }
    rewrite (completion_bind_return _ _ _ _ _ Et).
    destruct (is_error m) eqn:Eerr; [|unfold completion; simpl; discriminate].
    destruct (not_aborted m) eqn:Eab; [|unfold completion; simpl; discriminate].
    specialize (Hm eq_refl).
    assert (nth 0 (links w) false = true) as Hl0
        by (destruct (links w); simpl in *; [discriminate | exact Elink]).
    assert (attempt_fails (nth_error (inbox w) 0) = true) as Hi0
        by (destruct (inbox w); exact Hm).
    destruct (attempt <? maxRetries cfg) eqn:Elt.
    + destruct (sleep_spec (retryDelay cfg) w2) as (Sc & Sh & Sr & Si & Sl & St).
      unfold completion, run in Sc, Si, Sl.
      destruct (sleep (retryDelay cfg) w2) as [[[]|e3] w3] eqn:Es;
        cbn [fst snd] in Sc, Si, Sl; [|discriminate].
      rewrite (completion_bind_return _ _ _ _ _ Es).
      intro Hc. destruct (IH _ _ _ _ Hc) as (_ & Hall).
      split; [exact Ele|].
      intros [|k] Hk; [auto|].
      destruct (Hall k ltac:(lia)) as [Hlk Hik].
      rewrite Sl, Dl in Hlk. rewrite Si, Di in Hik.
      split.
      * destruct (links w); simpl in *; [destruct k; discriminate | exact Hlk].
      * destruct (inbox w); simpl in *; [destruct k; exact Hik | exact Hik].
    + apply Z.ltb_ge in Elt. intros _. split; [exact Ele|].
      intros [|k] Hk; [auto | lia].
Qed.

Lemma attempts_quiet p fuel attempt last :
  preserves quiet (pseudo_attempts cfg p fuel attempt last).
Proof.
  apply (framed_pseudo_attempts cfg quiet quiet_frame quiet_push_relay).
Qed.

Lemma pseudo_grows p w :
  0 <= failureCount (handler w) ->
  grows (_handlePseudoStreamResponse rt cfg p) w ->
  0 < failureThreshold cfg /\ every_attempt_failed cfg w.
Proof.
  intros Hpos Hg. split.
  { apply (grows_needs_threshold (_handlePseudoStreamResponse rt cfg p) w);
      [|exact Hpos|exact Hg].
    intro Hoff. unfold _handlePseudoStreamResponse. quiet_go. }
  unfold grows, _handlePseudoStreamResponse in Hg.
  set (w1 := put_res (Res.status 200 (res w)) w) in *.
  rewrite (run_bind_return (modify_res (Res.status 200)) _ w tt w1 eq_refl) in Hg.
  destruct (set_sse_headers_spec w1) as (_ & Hi & Hh & _). unfold run in Hi, Hh.
  destruct (set_sse_headers w1) as [[[]|e] w2] eqn:E; simpl in Hi, Hh.
  2:{ rewrite (run_bind_throw _ _ w1 e w2 E) in Hg. rewrite Hh in Hg.
      simpl in Hg. lia. }
  rewrite (run_bind_return _ _ w1 tt w2 E) in Hg.
  match type of Hg with
  | context [run (bind (set_keepAlive true) ?k) w2] =>
      rewrite (run_bind_return (set_keepAlive true) k w2 tt
                 (snd (set_keepAlive true w2)) eq_refl) in Hg
  end.
  set (w3 := snd (set_keepAlive true w2)) in *.
  assert (handler w3 = handler w) as Hh3 by (simpl; exact Hh).
  assert (inbox w3 = inbox w) as Hi3 by (simpl; exact Hi).
  assert (links w3 = links w) as Hl3.
  { destruct (set_sse_headers_spec w1) as (_ & _ & _ & Hl). unfold run in Hl.
    rewrite E in Hl. simpl. exact Hl. }
  pose proof (attempts_quiet p (Z.to_nat (maxRetries cfg)) 1 None w3) as Hq.
  unfold quiet, run in Hq. rewrite Hh3 in Hq. specialize (Hq Hpos).
  pose proof (attempts_failed p (Z.to_nat (maxRetries cfg)) 1 None w3) as Hf.
  unfold completion in Hf.
  destruct (pseudo_attempts cfg p (Z.to_nat (maxRetries cfg)) 1 None w3)
    as [[[lastMessage requestFailed]|e] w4] eqn:Ea; cbn [fst snd] in Hq, Hf.
  - rewrite (run_guarded_return _ _ _ _ _ _ _ Ea) in Hg.
    destruct requestFailed.
    + destruct (Hf lastMessage eq_refl) as (Hmax & Hall).
      split; [exact Hmax|]. intros k Hk.
      rewrite <- Hl3, <- Hi3. apply Hall. lia.
    + quiet_absurd_le Hg w4 Hq.
  - rewrite (run_guarded_throw _ _ _ _ _ _ _ Ea) in Hg.
    quiet_absurd_le Hg w4 Hq.
Qed.

(** ** The reset *)

Lemma reset_failures_zero h :
  0 <= failureCount h -> failureCount (reset_failures h) = 0.
Proof.
  intro H. unfold reset_failures.
  destruct (0 <? failureCount h) eqn:E; simpl; [reflexivity|].
  apply Z.ltb_ge in E. lia.
Qed.

(** The goal says the counter is 0 at the end of [run m w'], where it is
    0 in [w'] and [m] cannot count a failure. *)
Ltac stays_zero w' H0 :=
  match goal with
  | |- context [run ?m w'] =>
      let Hq := fresh "Hq" in
      assert (preserves quiet m) as Hq by quiet_go;
      specialize (Hq w'); unfold quiet in Hq; rewrite H0 in Hq;
      specialize (Hq (Z.le_refl 0)); lia
  end.

Lemma real_resets p w m :
  0 <= failureCount (handler w) ->
  hd false (links w) = true ->
  hd_error (inbox w) = Some (Msg m) ->
  is_error m = false ->
  failureCount (handler (run (_handleRealStreamResponse rt cfg p) w)) = 0.
Proof.
  intros Hpos Hlink Hhd Hok. unfold _handleRealStreamResponse.
  destruct (forward_spec p w) as (Hup & _ & Hh & Hi & _).
  destruct (Hup Hlink) as [Fc _]. unfold completion, run in Fc, Hh, Hi.
  destruct (_forwardRequest p w) as [[[]|e] w1] eqn:Ef; simpl in Fc, Hh, Hi;
    [|discriminate].
  rewrite (run_bind_return _ _ _ _ _ Ef).
  destruct (dequeue_cases w1) as (o & w2 & Ed & Dh & Di & Hd).
  rewrite Hi in Hd.
  assert (o = Return m) as ->.
  { destruct (dequeue_spec w1) as (Dc & _). unfold completion in Dc.
    rewrite Ed, Hi in Dc. simpl in Dc.
    destruct (inbox w) as [|[m0|e0] q]; simpl in Hhd; try discriminate.
    injection Hhd as ->. exact Dc. }
  rewrite (run_bind_return _ _ _ _ _ Ed). rewrite Hok.
  set (w3 := snd (modify_handler reset_failures w2)).
  rewrite (run_bind_return (modify_handler reset_failures) _ w2 tt w3 eq_refl).
  assert (failureCount (handler w3) = 0) as H0.
  { simpl. apply reset_failures_zero. rewrite Dh, Hh. exact Hpos. }
  stays_zero w3 H0.
Qed.

Lemma pseudo_resets p w m :
  0 <= failureCount (handler w) ->
  1 <= maxRetries cfg ->
  Res.headersSent (res w) = false ->
  hd false (links w) = true ->
  hd_error (inbox w) = Some (Msg m) ->
  is_error m = false ->
  failureCount (handler (run (_handlePseudoStreamResponse rt cfg p) w)) = 0.
Proof.
  intros Hpos Hmax Hsent Hlink Hhd Hok. unfold _handlePseudoStreamResponse.
  set (w1 := put_res (Res.status 200 (res w)) w).
  rewrite (run_bind_return (modify_res (Res.status 200)) _ w tt w1 eq_refl).
  destruct (set_sse_headers_spec w1) as (_ & Hi & Hh & Hl). unfold run in Hi, Hh, Hl.
  assert (exists w2, set_sse_headers w1 = (Return tt, w2)) as (w2 & E).
  { unfold set_sse_headers, bind, try_res, Res.set. simpl. rewrite Hsent. simpl.
    eexists. reflexivity. }
  rewrite E in Hi, Hh, Hl. simpl in Hi, Hh, Hl.
  rewrite (run_bind_return _ _ w1 tt w2 E).
  match goal with
  | |- context [run (bind (set_keepAlive true) ?k) w2] =>
      rewrite (run_bind_return (set_keepAlive true) k w2 tt
                 (snd (set_keepAlive true w2)) eq_refl)
  end.
  set (w3 := snd (set_keepAlive true w2)).
  assert (handler w3 = handler w) as Hh3 by (simpl; exact Hh).
  assert (inbox w3 = inbox w) as Hi3 by (simpl; exact Hi).
  assert (links w3 = links w) as Hl3 by (simpl; exact Hl).
  (* the first attempt *)
  assert (exists w4, pseudo_attempts cfg p (Z.to_nat (maxRetries cfg)) 1 None w3
                     = (Return (Some m, false), w4)
                     /\ handler w4 = handler w) as (w4 & Ea & Hh4).
  { destruct (Z.to_nat (maxRetries cfg)) as [|fuel] eqn:Efuel; [lia|]. simpl.
    apply Z.leb_le in Hmax. rewrite Hmax.
    destruct (forward_spec p w3) as (Hup & _ & Fh & Fi & _).
    rewrite Hl3 in Hup. destruct (Hup Hlink) as [Fc _].
    unfold completion, run in Fc, Fh, Fi.
    destruct (_forwardRequest p w3) as [[[]|e] w31] eqn:Ef;
      cbn [fst snd] in Fc, Fh, Fi; [|discriminate].
    destruct (dequeue_spec w31) as (Dc & Dh & _). unfold completion, run in Dc, Dh.
    rewrite Fi, Hi3 in Dc.
    destruct (inbox w) as [|[m0|e0] q]; simpl in Hhd; try discriminate.
    injection Hhd as ->.
    destruct (dequeue w31) as [[m1|e1] w32] eqn:Ed; cbn [fst snd] in Dc, Dh;
      [|discriminate].
    injection Dc as ->.
    exists w32. unfold bind, try_catch. rewrite Ef, Ed. simpl. rewrite Hok.
    split; [reflexivity|]. rewrite Dh, Fh. exact Hh3. }
  rewrite (run_guarded_return _ _ _ _ _ _ _ Ea). cbv beta iota.
  match goal with
  | |- context [run (finally (try_catch (bind (modify_handler reset_failures) ?k) ?h) ?c) w4] =>
      rewrite (run_guarded_return (modify_handler reset_failures) k h c w4 tt
                 (snd (modify_handler reset_failures w4)) eq_refl)
  end.
  set (w5 := snd (modify_handler reset_failures w4)).
  assert (failureCount (handler w5) = 0) as H0.
  { simpl. apply reset_failures_zero. rewrite Hh4. exact Hpos. }
  stays_zero w5 H0.
Qed.

(** The buffering loop comes to its end when the end of the stream is in
    the queue. *)
Lemma drain_completes chunks :
  forall fuel acc w rest,
    inbox w = map Msg chunks ++ Msg StreamEnd :: rest ->
    forallb (fun m => negb (is_stream_end m)) chunks = true ->
    (List.length chunks < fuel)%nat ->
    exists fullBody w',
      drain_body fuel acc w = (Return fullBody, w')
      /\ handler w' = handler w /\ inbox w' = rest.
Proof.
  induction chunks as [|c chunks IH]; intros fuel acc w rest Hin Hall Hfuel;
    (destruct fuel as [|fuel]; [simpl in Hfuel; lia|]); simpl;
    destruct (dequeue_spec w) as (Dc & Dh & _ & Di & _);
    unfold completion, run in Dc, Dh, Di; rewrite Hin in Dc, Di; simpl in Dc, Di;
    destruct (dequeue w) as [[m|e] w1] eqn:Ed; cbn [fst snd] in Dc, Dh, Di;
    try discriminate; injection Dc as ->; unfold bind at 1; rewrite Ed.
  - simpl. eexists _, w1. repeat split; auto.
  - simpl in Hall. apply andb_prop in Hall. destruct Hall as [Hc Hall].
    apply negb_true_iff in Hc. rewrite Hc.
    simpl in Hfuel.
    destruct (is_chunk c && nonempty (msg_data c)).
    + destruct (IH fuel (acc ++ match msg_data c with Some d => d | None => "" end)%string
                  w1 rest Di Hall ltac:(lia)) as (b & w' & E & Hh & Hi).
      exists b, w'. rewrite E. repeat split; congruence.
    + destruct (IH fuel acc w1 rest Di Hall ltac:(lia)) as (b & w' & E & Hh & Hi).
      exists b, w'. rewrite E. repeat split; congruence.
Qed.

Lemma nonstream_resets p w :
  0 <= failureCount (handler w) ->
  hd false (links w) = true ->
  answers_in_full w ->
  failureCount (handler (run (_handleNonStreamResponse rt cfg p) w)) = 0.
Proof.
  intros Hpos Hlink (first & chunks & rest & Hok & Hin & Hall).
  unfold _handleNonStreamResponse.
  destruct (forward_spec p w) as (Hup & _ & Hh & Hi & _).
  destruct (Hup Hlink) as [Fc _]. unfold completion, run in Fc, Hh, Hi.
  destruct (_forwardRequest p w) as [[[]|e] w1] eqn:Ef; cbn [fst snd] in Fc, Hh, Hi;
    [|discriminate].
  rewrite (run_bind_return _ _ _ _ _ Ef).
  destruct (dequeue_spec w1) as (Dc & Dh & _ & Di & _).
  unfold completion, run in Dc, Dh, Di. rewrite Hi, Hin in Dc, Di. simpl in Dc, Di.
  destruct (dequeue w1) as [[m1|e1] w2] eqn:Ed; cbn [fst snd] in Dc, Dh, Di;
    [|discriminate].
  injection Dc as ->.
  rewrite (run_try_bind_return _ _ _ _ _ _ Ed). rewrite Hok.
  destruct (drain_completes chunks (S (List.length (inbox w2))) "" w2 rest Di Hall)
    as (fullBody & w3 & Eb & Bh & _).
  { rewrite Di, length_app, length_map. simpl. lia. }
  assert (buffer_body w2 = (Return fullBody, w3)) as Eb'.
  { unfold buffer_body, bind, get_world. exact Eb. }
  rewrite (run_try_bind_return _ _ _ _ _ _ Eb').
  match goal with
  | |- context [run (try_catch (bind (modify_handler reset_failures) ?k) ?h) w3] =>
      rewrite (run_try_bind_return (modify_handler reset_failures) k h w3 tt
                 (snd (modify_handler reset_failures w3)) eq_refl)
  end.
  set (w4 := snd (modify_handler reset_failures w3)).
  assert (failureCount (handler w4) = 0) as H0.
  { simpl. apply reset_failures_zero. rewrite Bh, Dh, Hh. exact Hpos. }
  stays_zero w4 H0.
Qed.

(** ** Chat completions *)

Lemma openai_grows req w :
  0 <= failureCount (handler w) ->
  grows (processOpenAIRequest rt cfg sys req) w ->
  0 < failureThreshold cfg /\ first_answer_is_error w.
Proof.
  intros Hpos Hg. split.
  { apply (grows_needs_threshold (processOpenAIRequest rt cfg sys req) w);
      [|exact Hpos|exact Hg].
    intro Hoff. unfold processOpenAIRequest. quiet_go. }
  assert (0 <= failureCount (handler w) <= failureCount (handler w)) as Hle by lia.
  unfold grows, processOpenAIRequest in Hg.
  rewrite (run_bind_return get_handler _ w (handler w) w eq_refl) in Hg.
  destruct (gate_closed (handler w)); [quiet_absurd_le Hg w Hle|].
  set (w1 := snd (modify_handler enter_request w)) in *.
  rewrite (run_bind_return (modify_handler enter_request) _ w tt w1 eq_refl) in Hg.
  set (w2 := snd (modify_handler (count_use cfg true) w1)) in *.
  rewrite (run_bind_return (modify_handler (count_use cfg true)) _ w1 tt w2 eq_refl)
    in Hg.
  set (w3 := snd (_generateRequestId w2)) in *.
  rewrite (run_bind_return _generateRequestId _ w2 (hd "" (ids w2)) w3 eq_refl) in Hg.
  assert (failureCount (handler w3) = failureCount (handler w)) as Hf3.
  { simpl. rewrite (proj1 (InterleavingFacts.count_use_failures cfg true _)).
    reflexivity. }
  assert (inbox w3 = inbox w) as Hi3 by reflexivity.
  assert (0 <= failureCount (handler w3) <= failureCount (handler w)) as Hle3
      by (rewrite Hf3; lia).
  destruct (get (req_body req) "stream") as [stream|];
    [|unfold run in Hg; simpl in Hg; simpl in Hf3; lia].
  destruct (get (req_body req) "model") as [model|];
    [|unfold run in Hg; simpl in Hg; simpl in Hf3; lia].
  cbv zeta in Hg.
  destruct (Translator._translateOpenAIToGoogle sys (req_body req)) as [googleBody|];
    [|quiet_absurd_le Hg w3 Hle3].
  destruct (forward_cases
              (openai_frame rt sys (hd "" (ids w2))
                 (if redirect25to30 sys &&
                     match (if truthy model then model else JStr "gemini-1.5-pro-latest")
                     with
                     | JStr s => String.eqb s "gemini-2.5-pro"
                     | _ => false
                     end
                  then JStr "gemini-3-pro-preview"
                  else if truthy model then model else JStr "gemini-1.5-pro-latest")
                 match stream with JBool true => true | _ => false end googleBody) w3)
    as (o & w4 & Ef & Hh & Hi & [-> | [e ->]]).
  2:{ rewrite (run_guarded_throw _ _ _ _ _ _ _ Ef) in Hg.
      assert (0 <= failureCount (handler w4) <= failureCount (handler w)) as Hle4
          by (rewrite Hh, Hf3; lia).
      quiet_absurd_le Hg w4 Hle4. }
  rewrite (run_guarded_return _ _ _ _ _ _ _ Ef) in Hg.
  destruct (dequeue_cases w4) as (o & w5 & Ed & Dh & Di & [(m & -> & Hm) | [e ->]]).
  2:{ rewrite (run_guarded_throw _ _ _ _ _ _ _ Ed) in Hg.
      assert (0 <= failureCount (handler w5) <= failureCount (handler w)) as Hle5
          by (rewrite Dh, Hh, Hf3; lia).
      quiet_absurd_le Hg w5 Hle5. }
  rewrite (run_guarded_return _ _ _ _ _ _ _ Ed) in Hg.
  rewrite Hi, Hi3 in Hm.
  assert (0 <= failureCount (handler w5) <= failureCount (handler w)) as Hle5
      by (rewrite Dh, Hh, Hf3; lia).
  destruct m as [st hs|dt|st tx|]; simpl in Hg;
    try (quiet_absurd_le Hg w5 Hle5).
  exists st, tx. exact Hm.
Qed.

Lemma openai_resets req w m :
  0 <= failureCount (handler w) ->
  gate_closed (handler w) = false ->
  get (req_body req) "stream" <> None ->
  get (req_body req) "model" <> None ->
  Translator._translateOpenAIToGoogle sys (req_body req) <> None ->
  hd false (links w) = true ->
  hd_error (inbox w) = Some (Msg m) ->
  is_error m = false ->
  failureCount (handler (run (processOpenAIRequest rt cfg sys req) w)) = 0.
Proof.
  intros Hpos Hgate Hstream Hmodel Htr Hlink Hhd Hok.
  unfold processOpenAIRequest.
  rewrite (run_bind_return get_handler _ w (handler w) w eq_refl). rewrite Hgate.
  set (w1 := snd (modify_handler enter_request w)).
  rewrite (run_bind_return (modify_handler enter_request) _ w tt w1 eq_refl).
  set (w2 := snd (modify_handler (count_use cfg true) w1)).
  rewrite (run_bind_return (modify_handler (count_use cfg true)) _ w1 tt w2 eq_refl).
  set (w3 := snd (_generateRequestId w2)).
  rewrite (run_bind_return _generateRequestId _ w2 (hd "" (ids w2)) w3 eq_refl).
  assert (failureCount (handler w3) = failureCount (handler w)) as Hf3.
  { simpl. rewrite (proj1 (InterleavingFacts.count_use_failures cfg true _)).
    reflexivity. }
  assert (inbox w3 = inbox w) as Hi3 by reflexivity.
  assert (links w3 = links w) as Hl3 by reflexivity.
  destruct (get (req_body req) "stream") as [stream|]; [|congruence].
  destruct (get (req_body req) "model") as [model|]; [|congruence].
  cbv zeta.
  destruct (Translator._translateOpenAIToGoogle sys (req_body req)) as [googleBody|];
    [|congruence].
  match goal with
  | |- context [_forwardRequest ?q] =>
      destruct (forward_spec q w3) as (Hup & _ & Fh & Fi & _);
      rewrite Hl3 in Hup; destruct (Hup Hlink) as [Fc _];
      unfold completion, run in Fc, Fh, Fi;
      destruct (_forwardRequest q w3) as [[[]|e] w4] eqn:Ef;
      cbn [fst snd] in Fc, Fh, Fi; [|discriminate]
  end.
  rewrite (run_guarded_return _ _ _ _ _ _ _ Ef).
  destruct (dequeue_spec w4) as (Dc & Dh & _).
  unfold completion, run in Dc, Dh. rewrite Fi, Hi3 in Dc.
  destruct (inbox w) as [|[m0|e0] q]; simpl in Hhd; try discriminate.
  injection Hhd as ->.
  destruct (dequeue w4) as [[m1|e1] w5] eqn:Ed; cbn [fst snd] in Dc, Dh;
    [|discriminate].
  injection Dc as ->.
  rewrite (run_guarded_return _ _ _ _ _ _ _ Ed). rewrite Hok.
  match goal with
  | |- context [run (finally (try_catch (bind (modify_handler reset_failures) ?k) ?h) ?c) w5] =>
      rewrite (run_guarded_return (modify_handler reset_failures) k h c w5 tt
                 (snd (modify_handler reset_failures w5)) eq_refl)
  end.
  set (w6 := snd (modify_handler reset_failures w5)).
  assert (failureCount (handler w6) = 0) as H0.
  { simpl. apply reset_failures_zero. rewrite Dh, Fh, Hf3. exact Hpos. }
  stays_zero w6 H0.
Qed.

(** C3, amended.  The failure counter grows only with a positive
    [failureThreshold], and only as follows.  In pass-through streaming,
    in buffered mode and for chat completions: when the first answer of
    the relay is an error event; a wait that fails (queue timeout, queue
    closed) never counts there.  In pseudo streaming: when every one of
    the [maxRetries] attempts was forwarded and failed, on an error
    event that does not say "aborted" or on a wait that failed, which is
    turned into the error 504 "Timeout".  The counter is back to 0 once
    a first answer is not an error: in pass-through streaming, in pseudo
    streaming and for a chat completion that is let in and translated, as
    soon as that answer is there; in buffered mode once the body is read
    to the end of the stream. *)
Theorem C3_failure_counter p req w :
  0 <= failureCount (handler w) ->
  (grows (_handleRealStreamResponse rt cfg p) w ->
   0 < failureThreshold cfg /\ first_answer_is_error w)
  /\ (grows (_handleNonStreamResponse rt cfg p) w ->
      0 < failureThreshold cfg /\ first_answer_is_error w)
  /\ (grows (processOpenAIRequest rt cfg sys req) w ->
      0 < failureThreshold cfg /\ first_answer_is_error w)
  /\ (grows (_handlePseudoStreamResponse rt cfg p) w ->
      0 < failureThreshold cfg /\ every_attempt_failed cfg w)
  /\ (hd false (links w) = true ->
      (forall m,
         hd_error (inbox w) = Some (Msg m) -> is_error m = false ->
         failureCount (handler (run (_handleRealStreamResponse rt cfg p) w)) = 0
         /\ (1 <= maxRetries cfg -> Res.headersSent (res w) = false ->
             failureCount (handler (run (_handlePseudoStreamResponse rt cfg p) w)) = 0)
         /\ (gate_closed (handler w) = false ->
             get (req_body req) "stream" <> None ->
             get (req_body req) "model" <> None ->
             Translator._translateOpenAIToGoogle sys (req_body req) <> None ->
             failureCount (handler (run (processOpenAIRequest rt cfg sys req) w)) = 0))
      /\ (answers_in_full w ->
          failureCount (handler (run (_handleNonStreamResponse rt cfg p) w)) = 0)).
Proof.
  intro Hpos.
  split; [apply real_grows; exact Hpos|].
  split; [apply nonstream_grows; exact Hpos|].
  split; [apply openai_grows; exact Hpos|].
  split; [apply pseudo_grows; exact Hpos|].
  intro Hlink. split.
  - intros m Hhd Hok. split; [|split].
    + apply (real_resets p w m); assumption.
    + intros Hmax Hsent. apply (pseudo_resets p w m); assumption.
    + intros Hgate Hstream Hmodel Htr. apply (openai_resets req w m); assumption.
  - intro Hfull. apply nonstream_resets; assumption.
Qed.

End WithConfig.

(** C3, as stated, does not hold: in pseudo streaming a lost relay link
    (the queue is closed) and a queue that stays empty (the wait times
    out) are turned into error 504 "Timeout", and the failure counter
    goes from 0 to 1. *)
Lemma C3_failed_wait_counts_in_pseudo_stream :
  failureCount
    (handler (run (processRequest Example.models_runtime (Example.retries 1)
                     Example.fake_system Example.stream_request)
                (Example.world new_handler Example.queue_closed))) = 1
  /\ failureCount
       (handler (run (processRequest Example.models_runtime (Example.retries 1)
                        Example.fake_system Example.stream_request)
                   (Example.world new_handler []))) = 1.
Proof. vm_compute. split; reflexivity. Qed.

(** Outside pseudo streaming nothing looks for "aborted": an error event
    that says so counts like any other. *)
Lemma aborted_counts_in_pass_through :
  failureCount
    (handler (run (processRequest Example.models_runtime (Example.retries 1)
                     Example.system Example.stream_request)
                (Example.world new_handler Example.aborted_then_answer))) = 1.
Proof. vm_compute. reflexivity. Qed.

(** The theorem at work, on a relay that answers with an error (the
    counter grows, in each mode) and on one that answers in full after
    two failures (the counter is back to 0, in each mode). *)
Lemma C3_failure_counter_witness :
  ((0 < failureThreshold (Example.retries 1)
    /\ first_answer_is_error (Example.world new_handler Example.error_then_answer))
   /\ (0 < failureThreshold (Example.retries 1)
       /\ every_attempt_failed (Example.retries 1)
            (Example.world new_handler Example.error_then_answer)))
  /\ failureCount
       (handler (run (_handleRealStreamResponse Example.answer_runtime (Example.retries 1)
                        (prepare_frame Example.answer_runtime Example.system
                           Example.plain_request "id"))
                   (Example.world Example.failed_twice Example.answer_inbox))) = 0
  /\ failureCount
       (handler (run (_handlePseudoStreamResponse Example.answer_runtime
                        (Example.retries 1)
                        (prepare_frame Example.answer_runtime Example.system
                           Example.plain_request "id"))
                   (Example.world Example.failed_twice Example.answer_inbox))) = 0
  /\ failureCount
       (handler (run (processOpenAIRequest Example.answer_runtime (Example.retries 1)
                        Example.system Example.chat_request)
                   (Example.world Example.failed_twice Example.answer_inbox))) = 0
  /\ failureCount
       (handler (run (_handleNonStreamResponse Example.answer_runtime (Example.retries 1)
                        (prepare_frame Example.answer_runtime Example.system
                           Example.plain_request "id"))
                   (Example.world Example.failed_twice Example.answer_inbox))) = 0.
Proof.
  destruct (C3_failure_counter Example.models_runtime (Example.retries 1)
              Example.fake_system
              (prepare_frame Example.models_runtime Example.fake_system
                 Example.stream_request "id")
              Example.no_messages
              (Example.world new_handler Example.error_then_answer))
    as (Greal & _ & _ & Gpseudo & _).
  { vm_compute. discriminate. }
  destruct (C3_failure_counter Example.answer_runtime (Example.retries 1)
              Example.system
              (prepare_frame Example.answer_runtime Example.system
                 Example.plain_request "id")
              Example.chat_request
              (Example.world Example.failed_twice Example.answer_inbox))
    as (_ & _ & _ & _ & Hreset).
  { vm_compute. discriminate. }
  destruct (Hreset eq_refl) as [Hfirst Hfull].
  destruct (Hfirst (ResponseHeaders (Some 201) []) eq_refl eq_refl)
    as (Hr & Hp & Ho).
  split.
  { split; [apply Greal | apply Gpseudo]; vm_compute; reflexivity. }
  split; [exact Hr|].
  split; [apply Hp; [vm_compute; discriminate | reflexivity]|].
  split.
  { apply Ho; [reflexivity | | | ]; vm_compute; discriminate. }
  apply Hfull.
  exists (ResponseHeaders (Some 201) []), [Chunk (Some (Example.stringify Example.answer_value))], [].
  repeat split.
Defined.

End FailureFacts.

(* ================================================================== *)
(** * The dialect translator against its specification *)
(* ================================================================== *)

Module TranslatorFacts.
Import Translator TranslatorSpec.

(** ** The data URL *)

Lemma no_line_terminator_app a b :
  no_line_terminator (a ++ b) = no_line_terminator a && no_line_terminator b.
Proof.
  induction a as [|c a IH]; simpl; [reflexivity|].
  rewrite IH. rewrite andb_assoc. reflexivity.
Qed.

Lemma strip_prefix_app p : forall s rest, strip_prefix p s = Some rest -> s = (p ++ rest)%string.
Proof.
  induction p as [|a p IH]; intros [|b s] rest; simpl; intro H; try discriminate.
  - injection H as <-. reflexivity.
  - injection H as <-. reflexivity.
  - destruct (Ascii.eqb a b) eqn:E; [|discriminate].
    apply Ascii.eqb_eq in E. subst b. f_equal. apply IH. exact H.
Qed.

Lemma strip_prefix_of_app p : forall rest, strip_prefix p (p ++ rest) = Some rest.
Proof.
  induction p as [|a p IH]; intro rest; simpl.
  - destruct rest; reflexivity.
  - rewrite Ascii.eqb_refl. apply IH.
Qed.

Lemma string_app_assoc (a b c : string) : ((a ++ b) ++ c = a ++ (b ++ c))%string.
Proof. induction a as [|x a IH]; simpl; [reflexivity | rewrite IH; reflexivity]. Qed.

Lemma prefix_app p : forall s, String.prefix p (p ++ s) = true.
Proof.
  induction p as [|a p IH]; intro s; simpl.
  - destruct s; reflexivity.
  - destruct (ascii_dec a a) as [_|N]; [apply IH | contradiction N; reflexivity].
Qed.

Lemma prefix_split p : forall s, String.prefix p s = true -> exists t, s = (p ++ t)%string.
Proof.
  induction p as [|a p IH]; intros s H.
  - exists s. reflexivity.
  - destruct s as [|b s]; simpl in H; [discriminate|].
    destruct (ascii_dec a b) as [->|]; [|discriminate].
    destruct (IH s H) as [t ->]. exists t. reflexivity.
Qed.

(** What the lazy group took is what precedes the [;base64,] it stopped
    at, and no line terminator is in sight. *)
Lemma match_lazy_sound s :
  forall acc mimeType data,
    match_lazy s acc = Some (mimeType, data) ->
    exists t,
      mimeType = (acc ++ t)%string
      /\ s = (t ++ ";base64," ++ data)%string
      /\ no_line_terminator t = true
      /\ no_line_terminator data = true.
Proof.
  induction s as [|c s IH]; intros acc mimeType data H.
  - simpl in H. discriminate.
  - assert (forall r, (if is_line_terminator c then None
                       else match_lazy s (acc ++ String c EmptyString)) = Some r ->
                      r = (mimeType, data) ->
                      exists t, mimeType = (acc ++ t)%string
                                /\ String c s = (t ++ ";base64," ++ data)%string
                                /\ no_line_terminator t = true
                                /\ no_line_terminator data = true) as Hext.
    { intros r Hr ->. destruct (is_line_terminator c) eqn:Ec; [discriminate|].
      destruct (IH _ _ _ Hr) as (t & -> & -> & Ht & Hd).
      exists (String c t). rewrite string_app_assoc. simpl.
      rewrite Ec, Ht. auto. }
    cbn [match_lazy] in H.
    destruct (strip_prefix ";base64," (String c s)) as [rest|] eqn:Es.
    + destruct (no_line_terminator rest) eqn:En.
      * injection H as <- <-. exists EmptyString.
        apply strip_prefix_app in Es.
        repeat split; auto.
        clear. induction acc as [|x acc IH]; simpl; [reflexivity | rewrite <- IH; reflexivity].
      * eapply Hext; [exact H | reflexivity].
    + eapply Hext; [exact H | reflexivity].
Qed.

Lemma match_lazy_complete t :
  forall data acc,
    no_line_terminator t = true ->
    no_line_terminator data = true ->
    match_lazy (t ++ ";base64," ++ data) acc <> None.
Proof.
  induction t as [|c t IH]; intros data acc Ht Hd.
  - change (EmptyString ++ ";base64," ++ data)%string with (";base64," ++ data)%string.
    destruct data as [|d data]; simpl; [discriminate|].
    simpl in Hd. rewrite Hd. discriminate.
  - simpl in Ht. apply andb_prop in Ht. destruct Ht as [Hc Ht].
    apply negb_true_iff in Hc.
    change (String c t ++ ";base64," ++ data)%string
      with (String c (t ++ ";base64," ++ data)).
    cbn [match_lazy]. rewrite Hc.
    destruct (strip_prefix ";base64," (String c (t ++ ";base64," ++ data)))
      as [rest|] eqn:Es.
    + assert (no_line_terminator rest = true) as Hr.
      { apply strip_prefix_app in Es.
        assert (no_line_terminator (String c (t ++ ";base64," ++ data)) = true) as Hall.
        { cbn [no_line_terminator]. rewrite Hc. cbn [negb andb].
          rewrite no_line_terminator_app, Ht. simpl. exact Hd. }
        rewrite Es in Hall. rewrite no_line_terminator_app in Hall.
        apply andb_prop in Hall. apply Hall. }
      rewrite Hr. discriminate.
    + apply IH; assumption.
Qed.

Lemma match_data_url_sound url mimeType data :
  match_data_url url = Some (mimeType, data) -> image_data_url url mimeType data.
Proof.
  unfold match_data_url.
  destruct (strip_prefix "data:image/" url) as [rest|] eqn:Es; [|discriminate].
  intro H. apply strip_prefix_app in Es.
  destruct (match_lazy_sound _ _ _ _ H) as (t & -> & -> & Ht & Hd).
  unfold image_data_url. rewrite Es. repeat split; auto.
  apply prefix_app.
Qed.

Lemma match_data_url_complete url mimeType data :
  image_data_url url mimeType data -> match_data_url url <> None.
Proof.
  intros (-> & Hp & Hm & Hd). unfold match_data_url.
  destruct (prefix_split _ _ Hp) as [t ->].
  change ("data:" ++ ("image/" ++ t) ++ ";base64," ++ data)%string
    with ("data:image/" ++ (t ++ ";base64," ++ data))%string.
  rewrite strip_prefix_of_app.
  apply match_lazy_complete; [|exact Hd].
  rewrite no_line_terminator_app in Hm. apply andb_prop in Hm. apply Hm.
Qed.

(** ** The loops against [filter], [map] and [flat_map] *)

Lemma get_opt_of_get v k x : get v k = Some x -> get_opt v k = x.
Proof. unfold get_opt. intros ->. reflexivity. Qed.

Lemma filter_system_spec keep messages :
  forall kept,
    filter_system keep messages = Some kept ->
    kept = filter (fun msg => Bool.eqb (is_system msg) keep) messages.
Proof.
  induction messages as [|msg rest IH]; intros kept H; simpl in H.
  - injection H as <-. reflexivity.
  - destruct (get msg "role") as [role|] eqn:Er; [|discriminate].
    destruct (filter_system keep rest) as [rest'|]; [|discriminate].
    injection H as <-. simpl. unfold is_system at 1.
    rewrite (get_opt_of_get _ _ _ Er). rewrite (IH rest' eq_refl).
    reflexivity.
Qed.

Lemma filter_system_total keep messages :
  forallb message_ok messages = true -> filter_system keep messages <> None.
Proof.
  induction messages as [|msg rest IH]; intro H; simpl; [discriminate|].
  simpl in H. apply andb_prop in H. destruct H as [Hm Hr].
  unfold message_ok in Hm. destruct (get msg "role"); [|discriminate].
  specialize (IH Hr). destruct (filter_system keep rest); [discriminate|congruence].
Qed.

Lemma translate_parts_spec content :
  forall googleParts parts,
    translate_parts content googleParts = Some parts ->
    parts = googleParts ++ flat_map spec_part content.
Proof.
  induction content as [|part rest IH]; intros googleParts parts H; simpl in H.
  - injection H as <-. rewrite app_nil_r. reflexivity.
  - destruct (get part "type") as [type|] eqn:Et; [|discriminate].
    simpl. unfold spec_part at 1. rewrite (get_opt_of_get _ _ _ Et).
    destruct (is_str type "text").
    + rewrite (IH _ _ H). rewrite <- app_assoc. reflexivity.
    + destruct (is_str type "image_url").
      * destruct (get part "image_url") as [image_url|] eqn:Ei; [|discriminate].
        destruct (get image_url "url") as [url|] eqn:Eu; [|discriminate].
        rewrite (get_opt_of_get _ _ _ Ei), (get_opt_of_get _ _ _ Eu).
        destruct url; try discriminate.
        destruct (match_data_url s) as [[mimeType data]|].
        -- rewrite (IH _ _ H). rewrite <- app_assoc. reflexivity.
        -- rewrite (IH _ _ H). reflexivity.
      * rewrite (IH _ _ H). reflexivity.
Qed.

Lemma translate_parts_total content :
  forall googleParts,
    forallb entry_ok content = true -> translate_parts content googleParts <> None.
Proof.
  induction content as [|part rest IH]; intros googleParts H; simpl; [discriminate|].
  simpl in H. apply andb_prop in H. destruct H as [Hp Hr].
  unfold entry_ok in Hp. destruct (get part "type") as [type|]; [|discriminate].
  destruct (is_str type "text"); [apply IH; exact Hr|].
  destruct (is_str type "image_url"); [|apply IH; exact Hr].
  unfold get_opt in Hp.
  destruct (get part "image_url") as [image_url|]; [|simpl in Hp; discriminate].
  destruct (get image_url "url") as [url|]; [|discriminate].
  destruct url; try discriminate.
  destruct (match_data_url s) as [[mimeType data]|]; apply IH; exact Hr.
Qed.

Lemma translate_messages_spec conversation :
  forall googleContents contents,
    translate_messages conversation googleContents = Some contents ->
    contents = googleContents ++ map spec_content conversation.
Proof.
  induction conversation as [|message rest IH]; intros googleContents contents H;
    simpl in H.
  - injection H as <-. rewrite app_nil_r. reflexivity.
  - simpl. unfold spec_content at 1. unfold spec_parts, spec_role.
    fold (google_role message).
    destruct (get_opt message "content") as [| |b|n|s|entries|fields];
      try (rewrite (IH _ _ H); rewrite <- app_assoc; reflexivity).
    destruct (translate_parts entries []) as [googleParts|] eqn:Ep; [|discriminate].
    apply translate_parts_spec in Ep. simpl in Ep. subst googleParts.
    rewrite (IH _ _ H). rewrite <- app_assoc. reflexivity.
Qed.

Lemma translate_messages_total conversation :
  forall googleContents,
    forallb message_ok conversation = true ->
    translate_messages conversation googleContents <> None.
Proof.
  induction conversation as [|message rest IH]; intros googleContents H; simpl;
    [discriminate|].
  simpl in H. apply andb_prop in H. destruct H as [Hm Hr].
  unfold message_ok in Hm. destruct (get message "role"); [|discriminate].
  destruct (get_opt message "content") as [| |b|n|s|entries|fields];
    try (apply IH; exact Hr).
  pose proof (translate_parts_total entries [] Hm) as Ht.
  destruct (translate_parts entries []); [apply IH; exact Hr | congruence].
Qed.

Lemma forallb_filter {A} (f g : A -> bool) l :
  forallb f l = true -> forallb f (filter g l) = true.
Proof.
  induction l as [|x l IH]; simpl; [auto|].
  intro H. apply andb_prop in H. destruct H as [Hx Hl].
  destruct (g x); simpl; [rewrite Hx|]; auto.
Qed.

(** C7, as stated, does not hold: a message whose role is neither
    [system] nor [assistant] does not keep its role; a [tool] message
    comes out with role [user]. *)
Lemma C7_tool_role_becomes_user :
  option_map (fun g => get_opt g "contents")
    (_translateOpenAIToGoogle Example.system Example.tool_body)
  = Some (JArr [JObj [("role", JStr "user");
                      ("parts", JArr [JObj [("text", JStr "42")]])]]).
Proof. vm_compute. reflexivity. Qed.

(** Neither is every data URL turned into inline data: the media type
    has to start with [image/]. *)
Lemma data_url_of_a_document_is_dropped :
  option_map (fun g => get_opt g "contents")
    (_translateOpenAIToGoogle Example.system Example.pdf_body)
  = Some (JArr [JObj [("role", JStr "user"); ("parts", JArr [])]]).
Proof. vm_compute. reflexivity. Qed.

(** C7, amended.  Whenever the translation returns, the body has an
    array of messages and the result is what the specification says:
    [systemInstruction] is absent without a system message and else one
    text part, the contents of the system messages joined by newlines;
    [contents] maps the other messages in order, role [assistant] to
    [model] and any other role to [user], a string content to one text
    part, an array content entry by entry (text verbatim, an image data
    URL to inline data, anything else dropped).  A URL is such a data URL
    exactly when it reads [data:], a media type starting with [image/],
    [;base64,], data, on one line.  And the translation does return on
    every body whose messages are well formed. *)
Theorem C7_translation_follows_the_specification sys openaiBody googleRequest :
  _translateOpenAIToGoogle sys openaiBody = Some googleRequest ->
  (exists messages,
      get openaiBody "messages" = Some (JArr messages)
      /\ get googleRequest "systemInstruction" = Some (spec_systemInstruction messages)
      /\ get googleRequest "contents" = Some (JArr (spec_contents messages)))
  /\ (forall url mimeType data,
        match_data_url url = Some (mimeType, data) -> image_data_url url mimeType data)
  /\ (forall url mimeType data,
        image_data_url url mimeType data -> match_data_url url <> None)
  /\ (forall body messages,
        get body "messages" = Some (JArr messages) ->
        forallb message_ok messages = true ->
        _translateOpenAIToGoogle sys body <> None).
Proof.
  intro H. split; [|split; [|split]].
  - unfold _translateOpenAIToGoogle in H.
    destruct (get openaiBody "messages") as [messages|] eqn:Em; [|discriminate].
    destruct messages as [| |b|n|s|msgs|fields]; try discriminate.
    exists msgs. split; [reflexivity|].
    destruct (filter_system true msgs) as [systemMessages|] eqn:Es; [|discriminate].
    destruct (filter_system false msgs) as [conversation|] eqn:Ec; [|discriminate].
    destruct (translate_messages conversation []) as [googleContents|] eqn:Et;
      [|discriminate].
    injection H as <-.
    apply filter_system_spec in Es. apply filter_system_spec in Ec.
    apply translate_messages_spec in Et. simpl in Et.
    assert (systemMessages = filter is_system msgs) as Hs.
    { rewrite Es. apply filter_ext. intro a. destruct (is_system a); reflexivity. }
    assert (conversation = filter (fun msg => negb (is_system msg)) msgs) as Hc.
    { rewrite Ec. apply filter_ext. intro a. destruct (is_system a); reflexivity. }
    split.
    + unfold spec_systemInstruction. rewrite <- Hs.
      destruct systemMessages; reflexivity.
    + unfold spec_contents. rewrite <- Hc, <- Et. reflexivity.
  - apply match_data_url_sound.
  - apply match_data_url_complete.
  - intros body messages Hm Hok. unfold _translateOpenAIToGoogle. rewrite Hm.
    pose proof (filter_system_total true messages Hok) as H1.
    destruct (filter_system true messages) as [systemMessages|]; [|congruence].
    pose proof (filter_system_total false messages Hok) as H2.
    destruct (filter_system false messages) as [conversation|] eqn:Ec; [|congruence].
    assert (forallb message_ok conversation = true) as Hconv.
    { apply filter_system_spec in Ec. rewrite Ec. apply forallb_filter. exact Hok. }
    pose proof (translate_messages_total conversation [] Hconv) as H3.
    destruct (translate_messages conversation []); [discriminate | congruence].
Qed.

Lemma C7_translation_follows_the_specification_witness :
  (exists messages,
      get Example.chat_body "messages" = Some (JArr messages)
      /\ get Example.chat_translated "systemInstruction"
         = Some (spec_systemInstruction messages)
      /\ get Example.chat_translated "contents" = Some (JArr (spec_contents messages)))
  /\ (forall url mimeType data,
        match_data_url url = Some (mimeType, data) -> image_data_url url mimeType data)
  /\ (forall url mimeType data,
        image_data_url url mimeType data -> match_data_url url <> None)
  /\ (forall body messages,
        get body "messages" = Some (JArr messages) ->
        forallb message_ok messages = true ->
        _translateOpenAIToGoogle Example.system body <> None).
Proof.
  apply (C7_translation_follows_the_specification Example.system Example.chat_body
           Example.chat_translated).
  vm_compute. reflexivity.
Defined.

End TranslatorFacts.

(* ================================================================== *)
(** * The bounds of the loops *)
(* ================================================================== *)

(** The loops of the handlers are written with a bound on their turns.
    The bounds the handlers pass are enough: a larger one gives the same
    run, so no run ends because the bound is reached. *)
Module LoopFacts.

Lemma inbox_shrinks_frame cfg : Frame cfg inbox_shrinks.
Proof.
  constructor; try (intros; intro w; unfold inbox_shrinks, run; simpl; lia).
  - intro w. unfold inbox_shrinks. lia.
  - intros a b c Hab Hbc. unfold inbox_shrinks in *. lia.
  - intro w. unfold inbox_shrinks, run, await. destruct (keepAlive w); simpl; lia.
  - intros k v w. unfold inbox_shrinks, run, try_res.
    destruct (Res.set k v (res w)); simpl; lia.
  - intros t w. unfold inbox_shrinks, run, try_res.
    destruct (Res.type t (res w)); simpl; lia.
  - intros s w. unfold inbox_shrinks, run, try_res.
    destruct (Res.json s (res w)); simpl; lia.
  - intros s w. unfold inbox_shrinks, run, try_res.
    destruct (Res.send s (res w)); simpl; lia.
  - intro w. unfold inbox_shrinks, run, pop_inbox. simpl.
    destruct (inbox w); simpl; lia.
Qed.

(** An answer taken from the queue leaves it shorter. *)
Lemma dequeue_shortens w m w1 :
  dequeue w = (Return m, w1) -> (List.length (inbox w1) < List.length (inbox w))%nat.
Proof.
  intro E. destruct (PseudoFacts.dequeue_spec w) as (Hc & _ & _ & Hi & _).
  unfold completion, run in *. rewrite E in *. simpl in *.
  rewrite Hi. destruct (inbox w) as [|[m0|e0] q]; simpl; [discriminate | lia | discriminate].
Qed.

(** Two continuations that agree after [m] give the same run. *)
Lemma bind_ext {A B} (m : M A) (k k' : A -> M B) w :
  (forall x w1, m w = (Return x, w1) -> k x w1 = k' x w1) ->
  bind m k w = bind m k' w.
Proof.
  intro H. unfold bind. destruct (m w) as [[x|e] w1]; [apply H|]; reflexivity.
Qed.

Lemma shrinks_after {A} (m : M A) w x w1 :
  preserves inbox_shrinks m -> m w = (Return x, w1) ->
  (List.length (inbox w1) <= List.length (inbox w))%nat.
Proof. intros P E. specialize (P w). unfold inbox_shrinks, run in P. rewrite E in P. exact P. Qed.

Lemma real_stream_loop_bound : forall fuel fuel' w,
  (List.length (inbox w) < fuel)%nat -> (List.length (inbox w) < fuel')%nat ->
  real_stream_loop fuel w = real_stream_loop fuel' w.
Proof.
  induction fuel as [|fuel IH]; intros fuel' w H H'; [lia|].
  destruct fuel' as [|fuel']; [lia|]. simpl.
  apply bind_ext. intros m w1 E. apply dequeue_shortens in E.
  destruct (is_stream_end m); [reflexivity|].
  apply bind_ext. intros [] w2 E2.
  apply shrinks_after in E2;
    [|framed_go (inbox_shrinks_frame default_config) idtac].
  apply IH; lia.
Qed.

Lemma drain_body_bound : forall fuel fuel' fullBody w,
  (List.length (inbox w) < fuel)%nat -> (List.length (inbox w) < fuel')%nat ->
  drain_body fuel fullBody w = drain_body fuel' fullBody w.
Proof.
  induction fuel as [|fuel IH]; intros fuel' fullBody w H H'; [lia|].
  destruct fuel' as [|fuel']; [lia|]. simpl.
  apply bind_ext. intros m w1 E. apply dequeue_shortens in E.
  destruct (is_stream_end m); [reflexivity|].
  destruct (is_chunk m && nonempty (msg_data m)); apply IH; lia.
Qed.

Lemma openai_stream_loop_bound rt model : forall fuel fuel' w,
  (List.length (inbox w) < fuel)%nat -> (List.length (inbox w) < fuel')%nat ->
  openai_stream_loop rt fuel model w = openai_stream_loop rt fuel' model w.
Proof.
  induction fuel as [|fuel IH]; intros fuel' w H H'; [lia|].
  destruct fuel' as [|fuel']; [lia|]. simpl.
  apply bind_ext. intros m w1 E. apply dequeue_shortens in E.
  destruct (is_stream_end m); [reflexivity|].
  apply bind_ext. intros [] w2 E2.
  apply shrinks_after in E2.
  - apply IH; lia.
  - destruct (nonempty (msg_data m));
      framed_go (inbox_shrinks_frame default_config) idtac.
Qed.

(** [maxRetries - attempt + 1] turns are left when the loop of
    [_handlePseudoStreamResponse] tests its condition. *)
Lemma pseudo_attempts_bound cfg p : forall fuel fuel' attempt last w,
  maxRetries cfg - attempt + 1 <= Z.of_nat fuel ->
  maxRetries cfg - attempt + 1 <= Z.of_nat fuel' ->
  pseudo_attempts cfg p fuel attempt last w = pseudo_attempts cfg p fuel' attempt last w.
Proof.
  induction fuel as [|fuel IH]; intros fuel' attempt last w H H'.
  - destruct fuel' as [|fuel']; [reflexivity|]. simpl.
    destruct (attempt <=? maxRetries cfg) eqn:E; [|reflexivity].
    apply Z.leb_le in E. lia.
  - destruct fuel' as [|fuel'].
    + simpl. destruct (attempt <=? maxRetries cfg) eqn:E; [|reflexivity].
      apply Z.leb_le in E. lia.
    + simpl. destruct (attempt <=? maxRetries cfg); [|reflexivity].
      apply bind_ext. intros [] w1 _.
      apply bind_ext. intros m w2 _.
      destruct (is_error m); [|reflexivity].
      destruct (not_aborted m); [|reflexivity].
      destruct (attempt <? maxRetries cfg); [|reflexivity].
      apply bind_ext. intros [] w3 _.
      apply IH; lia.
Qed.

(** The bound [_handlePseudoStreamResponse] passes is enough. *)
Lemma pseudo_attempts_enough cfg p n w :
  pseudo_attempts cfg p (Z.to_nat (maxRetries cfg) + n) 1 None w
  = pseudo_attempts cfg p (Z.to_nat (maxRetries cfg)) 1 None w.
Proof. apply pseudo_attempts_bound; lia. Qed.

(** So is the bound of [buffer_body]. *)
Lemma buffer_body_enough n w :
  drain_body (S (List.length (inbox w)) + n) "" w = buffer_body w.
Proof.
  unfold buffer_body, bind, get_world. apply drain_body_bound; lia.
Qed.

End LoopFacts.

(* ================================================================== *)
(** * Buffered answers *)
(* ================================================================== *)

Module BufferedFacts.
Import Buffered.

(** ** Forwarding and waiting while no keep-alive interval is armed *)

Lemma forward_up p w :
  hd false (links w) = true ->
  exists w1,
    _forwardRequest p w = (Return tt, w1)
    /\ handler w1 = handler w /\ res w1 = res w /\ relay w1 = relay w ++ [p]
    /\ inbox w1 = inbox w /\ links w1 = tl (links w)
    /\ keepAlive w1 = keepAlive w.
Proof.
  intro H. unfold _forwardRequest, bind, hasActiveConnections. simpl. rewrite H.
  eexists. split; [reflexivity|]. simpl. repeat split.
Qed.

Lemma dequeue_plain w :
  keepAlive w = false ->
  exists w1,
    dequeue w = (match inbox w with
                 | Msg m :: _ => Return m
                 | Rejected e :: _ => Throw e
                 | [] => Throw "Queue timeout"
                 end, w1)
    /\ handler w1 = handler w /\ res w1 = res w /\ relay w1 = relay w
    /\ inbox w1 = tl (inbox w) /\ links w1 = links w
    /\ keepAlive w1 = false.
Proof.
  intro H. unfold dequeue, bind, await, pop_inbox. rewrite H. simpl.
  destruct (inbox w) as [|[m|e] q]; simpl; eexists; (split; [reflexivity|]);
    simpl; repeat split; auto.
Qed.


(** ** The image block *)

Lemma assoc_set_field k x : forall fields, assoc k (set_field k x fields) = x.
Proof.
  induction fields as [|[k' v] fields IH]; simpl.
  - rewrite String.eqb_refl. reflexivity.
  - destruct (String.eqb k k') eqn:E; simpl; [rewrite String.eqb_refl | rewrite E]; auto.
Qed.




(** ** The rewrite is in place *)










(** ** A response that has ended stays as it is *)

Lemma settled_refl w : settled w w.
Proof. intros Hs He. auto. Qed.

Lemma settled_trans a b c : settled a b -> settled b c -> settled a c.
Proof.
  intros Hab Hbc Hs He. destruct (Hab Hs He) as (Hs' & He' & Hl & Hh & Ho).
  destruct (Hbc Hs' He') as (Hs2 & He2 & Hl2 & Hh2 & Ho2).
  repeat split; congruence.
Qed.

Lemma settled_same_res {A} (m : M A) :
  (forall w, res (snd (m w)) = res w) -> preserves settled m.
Proof. intros H w. unfold settled, run. rewrite H. auto. Qed.

Lemma settled_write s r :
  Res.writableEnded r = true -> Res.write s r = r.
Proof. intro He. unfold Res.write. rewrite He. reflexivity. Qed.

Lemma settled_ticks n : forall r,
  Res.writableEnded r = true -> repeat_tick n r = r.
Proof.
  induction n as [|n IH]; intros r He; simpl; [reflexivity|].
  unfold keep_alive_tick. rewrite He. apply IH, He.
Qed.

Lemma settled_modify f :
  (forall r, Res.headersSent r = true -> Res.writableEnded r = true ->
     Res.headersSent (f r) = true /\ Res.writableEnded (f r) = true
     /\ Res.statusLines (f r) = Res.statusLines r
     /\ Res.header_fields (f r) = Res.header_fields r
     /\ Res.out (f r) = Res.out r) ->
  preserves settled (modify_res f).
Proof. intros Hf w Hs He. apply Hf; assumption. Qed.

Lemma settled_try f :
  (forall r, Res.headersSent r = true -> f r = None) ->
  preserves settled (try_res f).
Proof.
  intros Hf w Hs He. unfold run, try_res. rewrite (Hf _ Hs). simpl. auto.
Qed.

Lemma settled_frame cfg : Frame cfg settled.
Proof.
  constructor;
    try (intros; apply settled_same_res; intros; reflexivity).
  - apply settled_refl.
  - apply settled_trans.
  - intros w Hs He. unfold run, await. destruct (keepAlive w); simpl; auto.
    rewrite settled_ticks by exact He. auto.
  - intro c. apply settled_modify. intros r Hs He. simpl. auto.
  - intro s. apply settled_modify. intros r Hs He.
    rewrite settled_write by exact He. auto.
  - apply settled_modify. intros r Hs He. unfold Res.end_, Res.flush.
    rewrite Hs. simpl. auto.
  - intros k v. apply settled_try. intros r Hs. unfold Res.set. rewrite Hs. reflexivity.
  - intro t. apply settled_try. intros r Hs. unfold Res.type, Res.set. rewrite Hs. reflexivity.
  - intro s. apply settled_try. intros r Hs. unfold Res.json, Res.set. rewrite Hs. reflexivity.
  - intro s. apply settled_try. intros r Hs. unfold Res.send. rewrite Hs. reflexivity.
Qed.

Section WithConfig.
Variable rt : Runtime.
Variable cfg : Config.
Variable sys : ServerSystem.


(** [processRequest] up to the choice of the response mode, for a
    request that is let in while the browser is connected. *)
Lemma processRequest_buffered req w :
  gate_closed (handler w) = false ->
  isSystemBusy (handler w) = false ->
  hd false (links w) = true ->
  wantsStream req = false ->
  exists wA,
    processRequest rt cfg sys req w
    = finally
        (try_catch
           (_handleNonStreamResponse rt cfg
              (with_streaming_mode "fake" (prepare_frame rt sys req (hd "" (ids w)))))
           (_handleRequestError rt))
        (modify_handler finalise_request ;; _tryExecutePendingSwitch) wA
    /\ res wA = res w /\ relay wA = relay w /\ inbox wA = inbox w
    /\ links wA = tl (links w) /\ keepAlive wA = keepAlive w.
Proof.
  intros Hgate Hbusy Hlink Hwants.
  eexists. split.
  - unfold processRequest. unfold bind at 1. unfold get_handler at 1.
    rewrite Hgate.
    unfold bind at 1. unfold modify_handler at 1.
    unfold bind at 1. unfold _generateRequestId, pop_ids.
    unfold bind at 1. unfold bind at 1. unfold hasActiveConnections.
    cbn [fst snd links handler ids]. rewrite Hlink.
    unfold ret at 1. cbn [negb].
    unfold bind at 1. unfold get_handler at 1.
    cbn [handler]. 
    replace (isSystemBusy (enter_request (handler w))) with false
      by (symmetry; exact Hbusy).
    unfold bind at 1. unfold modify_handler at 1.
    rewrite Hwants. reflexivity.
  - simpl. auto.
Qed.






End WithConfig.




End BufferedFacts.

(* ================================================================== *)
(** * The message queue *)
(* ================================================================== *)

Module QueueFacts.
Import Queue.

Section WithMessage.
Context {A : Type}.
Implicit Types (q : MessageQueue A) (ops : list (@op A)).

Lemma delivered_app (s1 s2 : list (settlement A)) :
  delivered (s1 ++ s2) = delivered s1 ++ delivered s2.
Proof. unfold delivered. apply flat_map_app. Qed.

Lemma settled_app (s1 s2 : list (settlement A)) :
  settled (s1 ++ s2) = settled s1 ++ settled s2.
Proof. unfold settled. apply map_app. Qed.

Lemma delivered_rejects (reason : string) (l : list nat) :
  delivered (map (fun r => @Reject A r reason) l) = [].
Proof. induction l; simpl; auto. Qed.

Lemma settled_rejects (reason : string) (l : list nat) :
  settled (map (fun r => @Reject A r reason) l) = l.
Proof. induction l; simpl; congruence. Qed.

Lemma step_balanced o q : balanced q -> balanced (fst (step o q)).
Proof.
  intro Hq. pose proof Hq as [Hb Hc]. destruct o as [m|r|r|]; simpl.
  - unfold enqueue. destruct (closed q) eqn:E; [exact Hq|].
    destruct (waitingResolvers q) as [|r rest] eqn:Ew; simpl.
    + split; [right; reflexivity | simpl; intro; congruence].
    + split; [|simpl; intro; congruence]. left.
      destruct Hb as [Hb|Hb]; [exact Hb | discriminate].
  - unfold dequeue. destruct (closed q) eqn:E; [exact Hq|].
    destruct (messages q) as [|m rest] eqn:Em; simpl.
    + split; [left; reflexivity | simpl; intro; congruence].
    + split; [|simpl; intro; congruence]. right.
      destruct Hb as [Hb|Hb]; [discriminate | exact Hb].
  - unfold timeout. destruct (existsb (Nat.eqb r) (waitingResolvers q));
      [|exact Hq].
    simpl. split; simpl.
    + destruct Hb as [Hb|Hb]; [left; exact Hb | right; rewrite Hb; reflexivity].
    + intro E. destruct (Hc E) as [Hm Hw]. rewrite Hw. auto.
  - split; simpl; auto.
Qed.

Lemma steps_cons o ops q :
  steps (o :: ops) q
  = (fst (steps ops (fst (step o q))),
     snd (step o q) ++ snd (steps ops (fst (step o q)))).
Proof.
  simpl. destruct (step o q) as [q1 s1]. simpl.
  destruct (steps ops q1) as [q2 s2]. reflexivity.
Qed.

Lemma steps_balanced ops : forall q, balanced q -> balanced (fst (steps ops q)).
Proof.
  induction ops as [|o ops IH]; intros q Hq; [exact Hq|].
  rewrite steps_cons. simpl. apply IH, step_balanced, Hq.
Qed.

Lemma balanced_empty : balanced (@empty A).
Proof. split; [left; reflexivity | discriminate]. Qed.

(** X1: whatever is done to a queue, it never holds a buffered message
    while a [dequeue] waits, and it holds neither once it is closed. *)
Theorem queue_is_balanced ops : balanced (fst (steps ops (@empty A))).
Proof. apply steps_balanced, balanced_empty. Qed.

(** A closed queue stays as it is: it keeps nothing, and it answers
    every [dequeue] with "Queue is closed". *)
Lemma steps_closed ops : forall q,
  closed q = true -> messages q = [] -> waitingResolvers q = [] ->
  steps ops q = (q, map (fun r => Reject r "Queue is closed") (promised ops)).
Proof.
  induction ops as [|o ops IH]; intros q Hc Hm Hw; [reflexivity|].
  rewrite steps_cons.
  assert (step o q = (q, match o with
                         | Dequeue r => [Reject r "Queue is closed"]
                         | _ => []
                         end)) as E.
  { destruct o as [m|r|r|]; simpl.
    - unfold enqueue. rewrite Hc. reflexivity.
    - unfold dequeue. rewrite Hc. reflexivity.
    - unfold timeout. rewrite Hw. reflexivity.
    - unfold close. rewrite Hw. simpl. destruct q; simpl in *. congruence. }
  rewrite E. simpl. rewrite (IH q Hc Hm Hw). simpl.
  destruct o; reflexivity.
Qed.

(** X4: [close] is final.  After it an [enqueue] is dropped, a timer
    that fires finds nothing, and every [dequeue] is rejected with
    "Queue is closed"; the queue stays closed and empty. *)
Theorem close_is_final q ops :
  steps ops (fst (close q))
  = ({| messages := []; waitingResolvers := []; closed := true |},
     map (fun r => Reject r "Queue is closed") (promised ops)).
Proof. apply steps_closed; reflexivity. Qed.

Lemma steps_fifo ops : forall q,
  balanced q ->
  exists rest,
    messages q ++ enqueued ops = delivered (snd (steps ops q)) ++ rest
    /\ (closed (fst (steps ops q)) = false -> rest = messages (fst (steps ops q))).
Proof.
  induction ops as [|o ops IH]; intros q Hq.
  - exists (messages q). simpl. rewrite app_nil_r. auto.
  - pose proof (step_balanced o q Hq) as Hq1.
    destruct Hq as [Hb Hc]. rewrite steps_cons. cbn [fst snd].
    destruct (closed q) eqn:Ec.
    + destruct (Hc eq_refl) as [Hm Hw].
      exists (enqueued (o :: ops)).
      assert (step o q = (q, match o with
                             | Dequeue r => [Reject r "Queue is closed"]
                             | _ => []
                             end)) as E.
      { destruct o as [m|r|r|]; simpl.
        - unfold enqueue. rewrite Ec. reflexivity.
        - unfold dequeue. rewrite Ec. reflexivity.
        - unfold timeout. rewrite Hw. reflexivity.
        - unfold close. rewrite Hw. simpl. destruct q; simpl in *. congruence. }
      rewrite E. cbn [fst snd]. rewrite (steps_closed ops q Ec Hm Hw). cbn [fst snd].
      rewrite delivered_app, delivered_rejects, Hm, Ec.
      split; [|discriminate]. destruct o; reflexivity.
    + destruct (IH _ Hq1) as (rest & E & Hr).
      destruct o as [m|r|r|]; cbn [step enqueued flat_map] in *.
      * unfold enqueue in *. rewrite Ec in *.
        destruct (waitingResolvers q) as [|r w] eqn:Ew; cbn [fst snd] in *.
        -- exists rest. split; [|exact Hr].
           simpl in E. rewrite <- app_assoc in E. exact E.
        -- destruct Hb as [Hb|Hb]; [|discriminate]. rewrite Hb in *.
           exists rest. split; [|exact Hr]. simpl. f_equal. exact E.
      * unfold dequeue in *. rewrite Ec in *.
        destruct (messages q) as [|m ms] eqn:Em; cbn [fst snd] in *.
        -- exists rest. split; [exact E | exact Hr].
        -- exists rest. split; [|exact Hr]. simpl. f_equal. exact E.
      * unfold timeout in *.
        destruct (existsb (Nat.eqb r) (waitingResolvers q)); cbn [fst snd] in *;
          exists rest; (split; [|exact Hr]); simpl in *; exact E.
      * exists (messages q ++ enqueued ops).
        rewrite (steps_closed ops (fst (close q))) by reflexivity.
        cbn [fst snd close]. rewrite delivered_app, !delivered_rejects.
        split; [reflexivity | discriminate].
Qed.

(** X2: first in, first out, nothing lost and nothing twice.  The
    messages delivered to [dequeue]s are, in order, the first of the
    messages given to [enqueue]; while the queue is open, the rest is
    what the queue holds. *)
Theorem queue_is_fifo ops :
  exists rest,
    enqueued ops = delivered (snd (steps ops (@empty A))) ++ rest
    /\ (closed (fst (steps ops (@empty A))) = false ->
        rest = messages (fst (steps ops (@empty A)))).
Proof. exact (steps_fifo ops empty balanced_empty). Qed.

Lemma splice_out_perm r : forall l,
  existsb (Nat.eqb r) l = true -> Permutation (r :: splice_out r l) l.
Proof.
  induction l as [|x l IH]; simpl; [discriminate|].
  destruct (Nat.eqb x r) eqn:E.
  - intros _. apply Nat.eqb_eq in E. subst. reflexivity.
  - rewrite Nat.eqb_sym, E. simpl. intro H.
    rewrite perm_swap. constructor. apply IH, H.
Qed.

Lemma steps_settle ops : forall q,
  Permutation (settled (snd (steps ops q)) ++ waitingResolvers (fst (steps ops q)))
              (waitingResolvers q ++ promised ops).
Proof.
  induction ops as [|o ops IH]; intro q.
  - simpl. rewrite app_nil_r. reflexivity.
  - rewrite steps_cons. cbn [fst snd]. rewrite settled_app, <- app_assoc.
    rewrite (IH (fst (step o q))).
    destruct o as [m|r|r|]; cbn [step promised flat_map].
    + unfold enqueue. destruct (closed q); [reflexivity|].
      destruct (waitingResolvers q); reflexivity.
    + unfold dequeue. destruct (closed q); cbn [fst snd settled map].
      * simpl. apply Permutation_middle.
      * destruct (messages q); cbn [fst snd settled map waitingResolvers].
        -- simpl. rewrite <- app_assoc. reflexivity.
        -- simpl. apply Permutation_middle.
    + unfold timeout. destruct (existsb (Nat.eqb r) (waitingResolvers q)) eqn:E;
        cbn [fst snd settled map waitingResolvers]; [|reflexivity].
      change (Permutation ((r :: splice_out r (waitingResolvers q)) ++ promised ops)
                (waitingResolvers q ++ promised ops)).
      apply Permutation_app_tail, splice_out_perm, E.
    + cbn [close fst snd waitingResolvers]. rewrite settled_rejects.
      reflexivity.
Qed.

(** X3: every [dequeue] is settled once or still waits, and none is
    settled twice: the promises settled and the promises waiting are,
    together, exactly the promises made. *)
Theorem every_dequeue_settles_once ops :
  Permutation
    (settled (snd (steps ops (@empty A)))
     ++ waitingResolvers (fst (steps ops (@empty A))))
    (promised ops).
Proof. exact (steps_settle ops empty). Qed.

End WithMessage.

End QueueFacts.

(* ================================================================== *)
(** * The connection registry *)
(* ================================================================== *)

Module RegistryFacts.
Import Registry.

Section Maps.
Context {V : Type}.
Implicit Types (m : list (string * V)).

Lemma map_get_set_same k v m : map_get k (map_set k v m) = Some v.
Proof.
  induction m as [|[k' v'] m IH]; simpl.
  - rewrite String.eqb_refl. reflexivity.
  - destruct (String.eqb k k') eqn:E; simpl; [rewrite String.eqb_refl | rewrite E]; auto.
Qed.

Lemma map_get_set_other k k' v m :
  k' <> k -> map_get k' (map_set k v m) = map_get k' m.
Proof.
  intro H. induction m as [|[k0 v0] m IH]; simpl.
  - destruct (String.eqb k' k) eqn:E; [apply String.eqb_eq in E; congruence | reflexivity].
  - destruct (String.eqb k k0) eqn:E; simpl.
    + apply String.eqb_eq in E. subst k0.
      destruct (String.eqb k' k) eqn:E'; [apply String.eqb_eq in E'; congruence | reflexivity].
    + rewrite IH. reflexivity.
Qed.

Lemma map_set_keys k v m :
  map_get k m <> None -> map fst (map_set k v m) = map fst m.
Proof.
  induction m as [|[k' v'] m IH]; simpl; [congruence|].
  destruct (String.eqb k k') eqn:E; simpl.
  - apply String.eqb_eq in E. subst. reflexivity.
  - intro H. rewrite IH by exact H. reflexivity.
Qed.

Lemma map_get_delete_same k m : map_get k (map_delete k m) = None.
Proof.
  unfold map_delete. induction m as [|[k' v'] m IH]; simpl; [reflexivity|].
  destruct (String.eqb k k') eqn:E; simpl; [exact IH | rewrite E; exact IH].
Qed.

Lemma map_get_delete_other k k' m :
  k' <> k -> map_get k' (map_delete k m) = map_get k' m.
Proof.
  intro H. unfold map_delete. induction m as [|[k0 v0] m IH]; simpl; [reflexivity|].
  destruct (String.eqb k k0) eqn:E; simpl.
  - apply String.eqb_eq in E. subst k0.
    destruct (String.eqb k' k) eqn:E'; [apply String.eqb_eq in E'; congruence | exact IH].
  - rewrite IH. reflexivity.
Qed.

End Maps.

Section WithRuntime.
Variable rt : Runtime.

Lemma queue_of_some requestId reg id queue :
  queue_of requestId reg = Some (id, queue) ->
  requestId = JStr id /\ map_get id (messageQueues reg) = Some queue.
Proof.
  unfold queue_of. destruct requestId; try discriminate.
  destruct (map_get s (messageQueues reg)) eqn:E; [|discriminate].
  intro H. injection H as <- <-. auto.
Qed.

(** X5: a frame of the relay reaches the queue of its own request and
    no other.  It never adds or removes a queue or touches the sockets,
    and a queue whose request id is not the frame's [request_id] is left
    as it is, with none of its [dequeue]s settled. *)
Theorem frame_reaches_its_queue_only messageData reg id :
  (forall parsedMessage,
     JSON_parse rt messageData = Some parsedMessage ->
     get parsedMessage "request_id" <> Some (JStr id)) ->
  map_get id (messageQueues (fst (_handleIncomingMessage rt messageData reg)))
  = map_get id (messageQueues reg)
  /\ (forall s, ~ In (id, s) (snd (_handleIncomingMessage rt messageData reg)))
  /\ map fst (messageQueues (fst (_handleIncomingMessage rt messageData reg)))
     = map fst (messageQueues reg)
  /\ connections (fst (_handleIncomingMessage rt messageData reg)) = connections reg.
Proof.
  intro H. unfold _handleIncomingMessage.
  destruct (JSON_parse rt messageData) as [parsed|] eqn:Ep; [|simpl; auto].
  specialize (H parsed eq_refl).
  destruct (get parsed "request_id") as [requestId|] eqn:Er; [|simpl; auto].
  destruct (truthy requestId); simpl; [|auto].
  destruct (queue_of requestId reg) as [[id' queue]|] eqn:Eq; [|simpl; auto].
  apply queue_of_some in Eq. destruct Eq as [-> Eq].
  assert (id <> id') as Hne by congruence.
  destruct (_routeMessage parsed queue) as [queue' s]. simpl.
  repeat split.
  - apply map_get_set_other, Hne.
  - intros x Hin. unfold of_request in Hin. apply in_map_iff in Hin.
    destruct Hin as (y & Hy & _). congruence.
  - apply map_set_keys. congruence.
Qed.

(** X6: an answer that comes after its request is over is dropped.
    Once [removeMessageQueue] has run for a request, a frame with that
    [request_id] changes nothing and settles nothing. *)
Theorem late_frame_is_dropped messageData reg id parsedMessage :
  JSON_parse rt messageData = Some parsedMessage ->
  get parsedMessage "request_id" = Some (JStr id) ->
  _handleIncomingMessage rt messageData (fst (removeMessageQueue id reg))
  = (fst (removeMessageQueue id reg), []).
Proof.
  intros Hp Hr. unfold _handleIncomingMessage. rewrite Hp, Hr.
  destruct (truthy (JStr id)); [|reflexivity]. cbn [negb].
  unfold queue_of.
  assert (map_get id (messageQueues (fst (removeMessageQueue id reg))) = None) as E.
  { unfold removeMessageQueue.
    destruct (map_get id (messageQueues reg)) eqn:Eg; simpl; [|exact Eg].
    apply map_get_delete_same. }
  rewrite E. reflexivity.
Qed.

Lemma handle_routed id messageData reg q :
  map_get id (messageQueues reg) = Some q ->
  Queue.closed q = false -> Queue.waitingResolvers q = [] ->
  map_get id (messageQueues (fst (_handleIncomingMessage rt messageData reg)))
  = Some {| Queue.messages := Queue.messages q ++ routed rt id messageData;
            Queue.waitingResolvers := [];
            Queue.closed := false |}.
Proof.
  intros Hq Hc Hw.
  assert (Some q = Some {| Queue.messages := Queue.messages q ++ [];
                           Queue.waitingResolvers := [];
                           Queue.closed := false |}) as Same.
  { rewrite app_nil_r. destruct q; simpl in *. congruence. }
  unfold _handleIncomingMessage, routed.
  destruct (JSON_parse rt messageData) as [parsed|]; [|simpl; congruence].
  destruct (get parsed "request_id") as [requestId|]; [|simpl; congruence].
  destruct requestId as [| | | |id'| |];
    try (destruct (negb (truthy _)); simpl; congruence).
  cbn [truthy]. rewrite Bool.negb_involutive.
  destruct (String.eqb id' "") eqn:E0; simpl.
  { rewrite Bool.andb_false_r. congruence. }
  rewrite Bool.andb_true_r.
  destruct (String.eqb id' id) eqn:Ei.
  - apply String.eqb_eq in Ei. subst id'. rewrite Hq.
    unfold _routeMessage.
    destruct (get_opt parsed "event_type") as [| | | |event_type| |];
      try (simpl; rewrite map_get_set_same; congruence).
    destruct (String.eqb event_type "response_headers"
              || String.eqb event_type "chunk"
              || String.eqb event_type "error").
    + unfold Queue.enqueue. rewrite Hc, Hw. simpl. rewrite map_get_set_same.
      reflexivity.
    + destruct (String.eqb event_type "stream_close").
      * unfold Queue.enqueue. rewrite Hc, Hw. simpl. rewrite map_get_set_same.
        reflexivity.
      * simpl. rewrite map_get_set_same. congruence.
  - assert (id <> id') as Hne.
    { intro. subst. rewrite String.eqb_refl in Ei. discriminate. }
    destruct (map_get id' (messageQueues reg)) as [q'|]; [|simpl; congruence].
    destruct (_routeMessage parsed q') as [q'' s]. simpl.
    rewrite map_get_set_other by exact Hne. congruence.
Qed.

Lemma incoming_routed id frames : forall reg q,
  map_get id (messageQueues reg) = Some q ->
  Queue.closed q = false -> Queue.waitingResolvers q = [] ->
  map_get id (messageQueues (fst (incoming rt frames reg)))
  = Some {| Queue.messages := Queue.messages q ++ flat_map (routed rt id) frames;
            Queue.waitingResolvers := [];
            Queue.closed := false |}.
Proof.
  induction frames as [|f frames IH]; intros reg q Hq Hc Hw.
  - simpl. rewrite app_nil_r. destruct q; simpl in *. congruence.
  - pose proof (handle_routed id f reg q Hq Hc Hw) as H1.
    simpl. destruct (_handleIncomingMessage rt f reg) as [reg1 s1]. simpl in H1.
    specialize (IH reg1 _ H1 eq_refl eq_refl).
    destruct (incoming rt frames reg1) as [reg2 s2]. simpl in *.
    rewrite IH, <- app_assoc. reflexivity.
Qed.

(** X7: from [createMessageQueue] on, the frames of a request wait on
    its queue in the order of their arrival, whatever frames of other
    requests, frames without a request id, frames of an unknown event
    type and texts that do not parse come in between: those add nothing.
    A [response_headers], [chunk] or [error] frame is kept as it was
    parsed, a [stream_close] frame as the [STREAM_END] sentinel. *)
Theorem frames_wait_in_order id frames reg :
  map_get id (messageQueues (fst (incoming rt frames (createMessageQueue id reg))))
  = Some {| Queue.messages := flat_map (routed rt id) frames;
            Queue.waitingResolvers := [];
            Queue.closed := false |}.
Proof.
  apply (incoming_routed id frames (createMessageQueue id reg) Queue.empty);
    try reflexivity.
  simpl. apply map_get_set_same.
Qed.

End WithRuntime.

(** ** The grace timer *)

Lemma filter_self t : filter (fun x => negb (Nat.eqb x t)) [t] = [].
Proof. simpl. rewrite Nat.eqb_refl. reflexivity. Qed.

Lemma filter_out_not_in ws : forall l,
  ~ In ws l -> filter (fun x => negb (Nat.eqb x ws)) l = l.
Proof.
  induction l as [|x l IH]; simpl; intro H; [reflexivity|].
  destruct (Nat.eqb x ws) eqn:E.
  - apply Nat.eqb_eq in E. subst. tauto.
  - simpl. rewrite IH; tauto.
Qed.

Lemma existsb_not_in ws l : ~ In ws l -> existsb (Nat.eqb ws) l = false.
Proof.
  intro H. destruct (existsb (Nat.eqb ws) l) eqn:E; [|reflexivity].
  apply existsb_exists in E. destruct E as (x & Hx & Ex).
  apply Nat.eqb_eq in Ex. subst. tauto.
Qed.

Lemma link_step_one_timer e st connected :
  connections (fst st) = connected ->
  one_timer st ->
  well_formed [e] connected ->
  one_timer (fst (link_step e st))
  /\ connections (fst (fst (link_step e st)))
     = match e with
       | Connected ws => connected ++ [ws]
       | Disconnected ws => filter (fun x => negb (Nat.eqb x ws)) connected
       | GraceExpired _ => connected
       end.
Proof.
  destruct st as [reg tm]. simpl. intros Hc Hone Hwf.
  destruct e as [ws|ws|t]; simpl in *.
  - destruct Hwf as [Hnot _]. rewrite Hc, existsb_not_in by exact Hnot.
    split; [|reflexivity]. left.
    destruct Hone as [Ha|(_ & t & Ha & Ht)]; simpl in *.
    + destruct (reconnectGraceTimer reg); simpl; rewrite Ha; reflexivity.
    + rewrite Ht. simpl. rewrite Ha. apply filter_self.
  - destruct Hwf as [Hin _]. rewrite Hc.
    assert (armed tm = []) as Ha.
    { destruct Hone as [Ha|(He & _)]; [exact Ha|]. simpl in He.
      rewrite He in Hc. subst. destruct Hin. }
    destruct (filter (fun x => negb (Nat.eqb x ws)) connected) eqn:Ef; simpl.
    + split; [|reflexivity]. right. simpl. split; [reflexivity|].
      exists (next_timer tm). rewrite Ha. auto.
    + split; [|reflexivity]. left. exact Ha.
  - unfold grace_expired. destruct (existsb (Nat.eqb t) (armed tm)) eqn:E; simpl.
    + split; [|exact Hc]. left. simpl.
      destruct Hone as [Ha|(_ & t' & Ha & _)]; simpl in *.
      * rewrite Ha in E. discriminate.
      * rewrite Ha in *. simpl in E. rewrite Bool.orb_false_r in E.
        apply Nat.eqb_eq in E. subst. apply filter_self.
    + split; [exact Hone | exact Hc].
Qed.

Lemma link_steps_one_timer es : forall st connected,
  connections (fst st) = connected ->
  one_timer st ->
  well_formed es connected ->
  one_timer (fst (link_steps es st)).
Proof.
  induction es as [|e es IH]; intros st connected Hc Hone Hwf; [exact Hone|].
  assert (well_formed [e] connected) as Hwf1.
  { destruct e; simpl in *; tauto. }
  destruct (link_step_one_timer e st connected Hc Hone Hwf1) as [H1 H2].
  simpl. destruct (link_step e st) as [st1 s1]. simpl in *.
  specialize (IH st1 _ H2 H1).
  destruct (link_steps es st1) as [st2 s2]. simpl in *.
  apply IH. destruct e; simpl in *; tauto.
Qed.

(** X8: the grace period.  While sockets connect and close, at most one
    grace timer is armed; it is armed only while no socket is connected,
    so a browser that reconnects in time cancels it and the queues of
    the requests in flight are not closed. *)
Theorem one_grace_timer es reg tm :
  armed tm = [] ->
  well_formed es (connections reg) ->
  one_timer (fst (link_steps es (reg, tm)))
  /\ (hasActiveConnections (fst (fst (link_steps es (reg, tm)))) = true ->
      armed (snd (fst (link_steps es (reg, tm)))) = []).
Proof.
  intros Ha Hwf.
  assert (one_timer (fst (link_steps es (reg, tm)))) as H.
  { apply (link_steps_one_timer es (reg, tm) (connections reg)); auto.
    left. exact Ha. }
  split; [exact H|].
  destruct H as [H|(Hc & _)]; [auto|].
  unfold hasActiveConnections. rewrite Hc. discriminate.
Qed.

Lemma frame_reaches_its_queue_only_witness :
  map_get "r2"
    (messageQueues
       (fst (_handleIncomingMessage Sample.frames_runtime Sample.chunk_text
               Sample.two_requests)))
  = map_get "r2" (messageQueues Sample.two_requests)
  /\ (forall s,
        ~ In ("r2", s)
            (snd (_handleIncomingMessage Sample.frames_runtime Sample.chunk_text
                    Sample.two_requests)))
  /\ map fst
       (messageQueues
          (fst (_handleIncomingMessage Sample.frames_runtime Sample.chunk_text
                  Sample.two_requests)))
     = map fst (messageQueues Sample.two_requests)
  /\ connections
       (fst (_handleIncomingMessage Sample.frames_runtime Sample.chunk_text
               Sample.two_requests))
     = connections Sample.two_requests.
Proof.
  apply (frame_reaches_its_queue_only Sample.frames_runtime Sample.chunk_text
           Sample.two_requests "r2").
  intros parsedMessage H. vm_compute in H. injection H as <-.
  vm_compute. discriminate.
Defined.

Lemma late_frame_is_dropped_witness :
  _handleIncomingMessage Sample.frames_runtime Sample.chunk_text
    (fst (removeMessageQueue "r1" Sample.two_requests))
  = (fst (removeMessageQueue "r1" Sample.two_requests), []).
Proof.
  apply (late_frame_is_dropped Sample.frames_runtime Sample.chunk_text
           Sample.two_requests "r1" Sample.chunk_frame);
    vm_compute; reflexivity.
Defined.

Lemma one_grace_timer_witness :
  one_timer (fst (link_steps Sample.reconnect (Sample.two_requests, Sample.no_timers)))
  /\ (hasActiveConnections
        (fst (fst (link_steps Sample.reconnect (Sample.two_requests, Sample.no_timers))))
      = true ->
      armed (snd (fst (link_steps Sample.reconnect
                         (Sample.two_requests, Sample.no_timers)))) = []).
Proof.
  apply (one_grace_timer Sample.reconnect Sample.two_requests Sample.no_timers).
  - reflexivity.
  - simpl. intuition discriminate.
Defined.

End RegistryFacts.

(* ================================================================== *)
(** * The log buffer *)
(* ================================================================== *)

Module LoggingFacts.
Import Logging.

Lemma logged_last (lines : list line) : forall logger,
  (List.length (logBuffer logger) <= maxBufferSize logger)%nat ->
  logBuffer (logged lines logger)
  = skipn (List.length (logBuffer logger) + List.length lines - maxBufferSize logger)
      (logBuffer logger ++ map (formatted (serviceName logger)) lines)
  /\ serviceName (logged lines logger) = serviceName logger
  /\ maxBufferSize (logged lines logger) = maxBufferSize logger.
Proof.
  induction lines as [|l lines IH]; intros logger Hlen.
  - simpl. rewrite app_nil_r.
    replace (_ + 0 - _)%nat with 0%nat by lia. auto.
  - unfold logged. cbn [fold_left]. fold (logged lines (snd (_formatMessage l logger))).
    set (logger1 := snd (_formatMessage l logger)).
    assert (serviceName logger1 = serviceName logger) as Hn by reflexivity.
    assert (maxBufferSize logger1 = maxBufferSize logger) as Hm by reflexivity.
    assert (logBuffer logger1
            = if Nat.ltb (maxBufferSize logger)
                   (List.length (logBuffer logger ++ [formatted (serviceName logger) l]))
              then tl (logBuffer logger ++ [formatted (serviceName logger) l])
              else logBuffer logger ++ [formatted (serviceName logger) l]) as Hb
      by reflexivity.
    rewrite length_app in Hb. cbn [List.length] in Hb.
    destruct (Nat.ltb (maxBufferSize logger) (List.length (logBuffer logger) + 1)) eqn:E.
    + apply Nat.ltb_lt in E.
      assert (List.length (logBuffer logger) = maxBufferSize logger) as Hfull by lia.
      assert (List.length (logBuffer logger1) = maxBufferSize logger) as Hl1.
      { rewrite Hb. destruct (logBuffer logger) as [|b0 buf]; simpl in *.
        - lia.
        - rewrite length_app. simpl. lia. }
      destruct (IH logger1) as (H1 & H2 & H3); [lia|].
      rewrite H1, H2, H3, Hn, Hm, Hl1. split; [|auto].
      replace (maxBufferSize logger + List.length lines - maxBufferSize logger)%nat
        with (List.length lines) by lia.
      replace (List.length (logBuffer logger) + List.length (l :: lines)
               - maxBufferSize logger)%nat
        with (S (List.length lines)) by (simpl; lia).
      rewrite Hb. destruct (logBuffer logger) as [|b0 buf]; simpl; reflexivity
        || (rewrite <- app_assoc; reflexivity).
    + apply Nat.ltb_ge in E.
      assert (List.length (logBuffer logger1) = S (List.length (logBuffer logger))) as Hl1.
      { rewrite Hb, length_app. simpl. lia. }
      destruct (IH logger1) as (H1 & H2 & H3); [lia|].
      rewrite H1, H2, H3, Hn, Hm, Hl1, Hb. split; [|auto].
      rewrite <- app_assoc. cbn [app map List.length]. f_equal. lia.
Qed.

(** X9: the log buffer holds the last hundred lines.  After any run of
    [info], [error] and [warn] calls on a new logger, [logBuffer] is, in
    order, the last [min n 100] of the [n] lines formatted, so it never
    holds more than 100. *)
Theorem log_buffer_keeps_the_last_hundred name lines :
  logBuffer (logged lines (create name))
  = skipn (List.length lines - 100) (map (formatted name) lines)
  /\ (List.length (logBuffer (logged lines (create name))) <= 100)%nat.
Proof.
  destruct (logged_last lines (create name)) as (H & _ & _); [simpl; lia|].
  simpl in H. rewrite H. split; [reflexivity|].
  rewrite length_skipn, length_map. lia.
Qed.

End LoggingFacts.

(* ================================================================== *)
(** * The authentication sources *)
(* ================================================================== *)

Module AuthFacts.
Import Auth.

(** ** The pattern of the names *)

Lemma span_digits_spec : forall s digits rest,
  span_digits s = (digits, rest) ->
  s = (digits ++ rest)%string /\ all_digits digits = true
  /\ match rest with
     | String c _ => is_digit c = false
     | EmptyString => True
     end.
Proof.
  induction s as [|c s IH]; intros digits rest H; simpl in H.
  - injection H as <- <-. simpl. auto.
  - destruct (is_digit c) eqn:E.
    + destruct (span_digits s) as [d r]. injection H as <- <-.
      destruct (IH d r eq_refl) as (-> & Hd & Hr). simpl. rewrite E. auto.
    + injection H as <- <-. simpl. rewrite E. auto.
Qed.

Lemma span_digits_app : forall digits rest,
  all_digits digits = true ->
  match rest with
  | String c _ => is_digit c = false
  | EmptyString => True
  end ->
  span_digits (digits ++ rest) = (digits, rest).
Proof.
  induction digits as [|c d IH]; intros rest Hd Hr; simpl in *.
  - destruct rest as [|c r]; [reflexivity|]. simpl. rewrite Hr. reflexivity.
  - apply andb_prop in Hd. destruct Hd as [Hc Hd]. rewrite Hc, (IH rest Hd Hr).
    reflexivity.
Qed.

(** A name matches when it is the prefix, a nonempty run of digits and
    the suffix, and the group is that run. *)
Lemma match_index_spec prefix suffix s digits :
  match suffix with
  | String c _ => is_digit c = false
  | EmptyString => True
  end ->
  match_index prefix suffix s = Some digits
  <-> s = (prefix ++ digits ++ suffix)%string /\ index_text digits.
Proof.
  intro Hs. unfold match_index, index_text. split.
  - destruct (Translator.strip_prefix prefix s) as [rest|] eqn:Ep; [|discriminate].
    apply TranslatorFacts.strip_prefix_app in Ep.
    destruct (span_digits rest) as [d tail] eqn:Es.
    apply span_digits_spec in Es. destruct Es as (-> & Hd & _).
    destruct (String.eqb d "") eqn:E0; simpl; [discriminate|].
    destruct (String.eqb tail suffix) eqn:Et; [|discriminate].
    intro H. injection H as <-. apply String.eqb_eq in Et. subst tail.
    repeat split; auto. intro. subst d. discriminate.
  - intros (-> & Hne & Hd).
    rewrite TranslatorFacts.strip_prefix_of_app, (span_digits_app digits suffix Hd Hs).
    rewrite String.eqb_refl.
    destruct (String.eqb digits "") eqn:E0; [apply String.eqb_eq in E0; contradiction|].
    reflexivity.
Qed.

(** ** Sets and sorting *)

Lemma existsb_Zeqb i l : existsb (Z.eqb i) l = true <-> In i l.
Proof.
  rewrite existsb_exists. split.
  - intros (x & Hx & E). apply Z.eqb_eq in E. subst. exact Hx.
  - intro H. exists i. split; [exact H | apply Z.eqb_refl].
Qed.

Lemma dedupe_acc l : forall seen,
  NoDup seen ->
  NoDup (fold_left (fun seen i => if existsb (Z.eqb i) seen then seen else seen ++ [i])
           l seen)
  /\ forall x,
       In x (fold_left (fun seen i => if existsb (Z.eqb i) seen then seen else seen ++ [i])
               l seen)
       <-> In x seen \/ In x l.
Proof.
  induction l as [|i l IH]; intros seen Hnd; simpl.
  - split; [exact Hnd | tauto].
  - destruct (existsb (Z.eqb i) seen) eqn:E.
    + destruct (IH seen Hnd) as [H1 H2]. split; [exact H1|].
      intro x. rewrite H2. apply existsb_Zeqb in E.
      split; [tauto|]. intros [H|[H|H]]; subst; auto.
    + assert (~ In i seen) as Hni.
      { intro H. apply existsb_Zeqb in H. congruence. }
      destruct (IH (seen ++ [i])) as [H1 H2].
      { apply NoDup_app; [exact Hnd | repeat constructor; intros [] |].
        intros x Hx [Hi|[]]. subst. tauto. }
      split; [exact H1|]. intro x. rewrite H2, in_app_iff. simpl. tauto.
Qed.

Lemma dedupe_spec l : NoDup (dedupe l) /\ forall x, In x (dedupe l) <-> In x l.
Proof.
  destruct (dedupe_acc l [] (NoDup_nil Z)) as [H1 H2]. split; [exact H1|].
  intro x. unfold dedupe. rewrite H2. simpl. tauto.
Qed.

Lemma insert_perm i : forall l, Permutation (insert i l) (i :: l).
Proof.
  induction l as [|j l IH]; simpl; [reflexivity|].
  destruct (i <=? j); [reflexivity|].
  rewrite perm_swap. constructor. exact IH.
Qed.

Lemma sort_perm l : Permutation (sort l) l.
Proof.
  induction l as [|i l IH]; simpl; [reflexivity|].
  rewrite insert_perm. constructor. exact IH.
Qed.

Lemma insert_sorted i : forall l,
  StronglySorted Z.le l -> StronglySorted Z.le (insert i l).
Proof.
  induction l as [|j l IH]; intro H; simpl.
  - repeat constructor.
  - inversion H as [|? ? Hs Hf]; subst.
    destruct (i <=? j) eqn:E.
    + apply Z.leb_le in E. constructor; [exact H|].
      constructor; [exact E|].
      eapply Forall_impl; [|exact Hf]. intros a Ha. simpl in Ha. lia.
    + apply Z.leb_gt in E. constructor; [apply IH, Hs|].
      eapply Permutation_Forall; [symmetry; apply insert_perm|].
      constructor; [lia | exact Hf].
Qed.

Lemma sort_sorted l : StronglySorted Z.le (sort l).
Proof.
  induction l as [|i l IH]; simpl; [constructor | apply insert_sorted, IH].
Qed.

Lemma strictly l : StronglySorted Z.le l -> NoDup l -> StronglySorted Z.lt l.
Proof.
  induction 1 as [|a l Hs IH Hf]; intro Hnd; [constructor|].
  inversion Hnd as [|? ? Hni Hnd']; subst.
  constructor; [apply IH, Hnd'|].
  rewrite Forall_forall in *. intros x Hx. specialize (Hf x Hx).
  assert (a <> x) by (intro; subst; tauto). lia.
Qed.

Lemma sort_dedupe l :
  StronglySorted Z.lt (sort (dedupe l))
  /\ forall x, In x (sort (dedupe l)) <-> In x l.
Proof.
  destruct (dedupe_spec l) as [Hnd Hin]. split.
  - apply strictly; [apply sort_sorted|].
    eapply Permutation_NoDup; [symmetry; apply sort_perm | exact Hnd].
  - intro x. rewrite <- Hin. split; apply Permutation_in;
      [apply sort_perm | symmetry; apply sort_perm].
Qed.

Lemma filter_sorted (f : Z -> bool) l :
  StronglySorted Z.lt l -> StronglySorted Z.lt (filter f l).
Proof.
  induction 1 as [|a l Hs IH Hf]; simpl; [constructor|].
  destruct (f a); [|exact IH]. constructor; [exact IH|].
  rewrite Forall_forall in *. intros x Hx. apply filter_In in Hx. apply Hf, Hx.
Qed.

Section WithHost.
Variable rt : Runtime.
Variable h : Host.

Lemma indices_of_spec prefix suffix names i :
  match suffix with
  | String c _ => is_digit c = false
  | EmptyString => True
  end ->
  In i (indices_of h prefix suffix names)
  <-> exists digits,
        In (prefix ++ digits ++ suffix)%string names
        /\ index_text digits /\ i = parseInt h digits.
Proof.
  intro Hs. unfold indices_of. rewrite in_flat_map. split.
  - intros (name & Hn & Hi).
    destruct (match_index prefix suffix name) as [digits|] eqn:E; [|destruct Hi].
    destruct Hi as [<-|[]]. apply match_index_spec in E; [|exact Hs].
    destruct E as [-> Hd]. exists digits. auto.
  - intros (digits & Hn & Hd & ->). exists (prefix ++ digits ++ suffix)%string.
    split; [exact Hn|].
    assert (match_index prefix suffix (prefix ++ digits ++ suffix) = Some digits) as E
      by (apply match_index_spec; auto).
    rewrite E. left. reflexivity.
Qed.

Lemma discovered_spec authMode :
  StronglySorted Z.lt (_discoverAvailableIndices h authMode)
  /\ (forall i,
        In i (_discoverAvailableIndices h authMode)
        <-> exists digits,
              index_text digits /\ i = parseInt h digits
              /\ if String.eqb authMode "env"
                 then In ("AUTH_JSON_" ++ digits)%string (map fst (env h))
                 else exists files,
                        readdir h = Some (Some files)
                        /\ In ("auth-" ++ digits ++ ".json")%string files).
Proof.
  unfold _discoverAvailableIndices. destruct (String.eqb authMode "env").
  - destruct (sort_dedupe (indices_of h "AUTH_JSON_" "" (map fst (env h)))) as [H1 H2].
    split; [exact H1|]. intro i. rewrite H2, indices_of_spec by exact I.
    split; intros (digits & Ha & Hb & Hc); exists digits.
    + replace (digits ++ "")%string with digits in Ha; [auto|].
      clear. induction digits; simpl; congruence.
    + replace (digits ++ "")%string with digits; [auto|].
      clear. induction digits; simpl; congruence.
  - destruct (readdir h) as [[files|]|].
    + destruct (sort_dedupe (indices_of h "auth-" ".json" files)) as [H1 H2].
      split; [exact H1|]. intro i. rewrite H2, indices_of_spec by reflexivity.
      split.
      * intros (digits & Ha & Hb & Hc). exists digits.
        split; [exact Hb|]. split; [exact Hc|]. exists files. auto.
      * intros (digits & Ha & Hb & files' & Hf & Hin). injection Hf as <-.
        exists digits. auto.
    + split; [constructor|]. intro i. split; [intros []|].
      intros (digits & _ & _ & files & Hf & _). discriminate.
    + split; [constructor|]. intro i. split; [intros []|].
      intros (digits & _ & _ & files & Hf & _). discriminate.
Qed.

(** X10: the indices discovered are in strictly ascending order, so
    each is listed once; in the environment mode they are the numbers
    read from the variables named [AUTH_JSON_] and a nonempty run of
    digits, in the file mode from the names [auth-], digits, [.json] of
    the directory; no other name counts, and a directory that is
    missing or cannot be listed gives none. *)
Theorem discovered_indices authMode :
  StronglySorted Z.lt (_discoverAvailableIndices h authMode)
  /\ (forall i,
        In i (_discoverAvailableIndices h authMode)
        <-> exists digits,
              index_text digits /\ i = parseInt h digits
              /\ if String.eqb authMode "env"
                 then In ("AUTH_JSON_" ++ digits)%string (map fst (env h))
                 else exists files,
                        readdir h = Some (Some files)
                        /\ In ("auth-" ++ digits ++ ".json")%string files).
Proof. exact (discovered_spec authMode). Qed.

Lemma validate_valid authMode i valid names invalid :
  fst (fst (validate rt h authMode i (valid, names, invalid)))
  = if parses rt h authMode i then valid ++ [i] else valid.
Proof.
  unfold validate, parses.
  destruct (_getAuthContent h authMode i) as [content|]; [|reflexivity].
  destruct (String.eqb content ""); [reflexivity|].
  destruct (JSON_parse rt content) as [authData|]; [|reflexivity].
  destruct (get authData "accountName"); reflexivity.
Qed.

Lemma validate_fold authMode l : forall st,
  fst (fst (fold_left (fun st index => validate rt h authMode index st) l st))
  = fst (fst st) ++ filter (parses rt h authMode) l.
Proof.
  induction l as [|i l IH]; intros [[valid names] invalid]; cbn [fold_left filter fst].
  - rewrite app_nil_r. reflexivity.
  - rewrite IH, validate_valid.
    destruct (parses rt h authMode i); [rewrite <- app_assoc|]; reflexivity.
Qed.

Lemma prevalidated a :
  availableIndices (_preValidateAndFilter rt h a)
  = filter (parses rt h (authMode a)) (availableIndices a)
  /\ authMode (_preValidateAndFilter rt h a) = authMode a
  /\ initialIndices (_preValidateAndFilter rt h a) = initialIndices a.
Proof.
  unfold _preValidateAndFilter.
  destruct (availableIndices a) as [|i l] eqn:E; [rewrite E; auto|].
  pose proof (validate_fold (authMode a) (i :: l) ([], accountNameMap a, [])) as H.
  destruct (fold_left _ (i :: l) _) as [[valid names] invalid]. simpl in *.
  auto.
Qed.

Lemma created_spec a :
  create rt h = Some a ->
  availableIndices a <> []
  /\ StronglySorted Z.lt (availableIndices a)
  /\ StronglySorted Z.lt (initialIndices a)
  /\ (forall i,
        In i (availableIndices a)
        <-> In i (initialIndices a) /\ parses rt h (authMode a) i = true).
Proof.
  unfold create.
  set (mode := if nonempty (getenv h "AUTH_JSON_1") then "env" else "file").
  set (a0 := {| authMode := mode;
                availableIndices := _discoverAvailableIndices h mode;
                initialIndices := _discoverAvailableIndices h mode;
                accountNameMap := [] |}).
  destruct (prevalidated a0) as (Hv & Hm & Hi).
  destruct (availableIndices (_preValidateAndFilter rt h a0)) as [|i l] eqn:E;
    [discriminate|].
  intro H. injection H as <-. rewrite E, Hm, Hi.
  subst a0. cbn [authMode initialIndices availableIndices] in *.
  destruct (discovered_spec mode) as [Hs _].
  rewrite Hv. split; [rewrite <- Hv; discriminate|].
  split; [apply filter_sorted, Hs|]. split; [exact Hs|].
  intro i0. rewrite filter_In. tauto.
Qed.

(** X11: the sources a new [AuthSource] offers.  When the constructor
    returns, [availableIndices] is not empty and strictly ascending, and
    an index is in it exactly when it was discovered and its content,
    read under the canonical name of the index, is not empty and parses
    as JSON. *)
Theorem available_sources a :
  create rt h = Some a ->
  availableIndices a <> []
  /\ StronglySorted Z.lt (availableIndices a)
  /\ StronglySorted Z.lt (initialIndices a)
  /\ (forall i,
        In i (availableIndices a)
        <-> In i (initialIndices a) /\ parses rt h (authMode a) i = true).
Proof. exact (created_spec a). Qed.

(** X12: [getAuth] gives the credentials of the available sources and
    of no other: for an index that is not in [availableIndices] it
    returns [null], and for one that is, the JSON value its content
    parses to. *)
Theorem getAuth_serves_the_available_sources a :
  create rt h = Some a ->
  forall i,
    (~ In i (availableIndices a) -> getAuth rt h a i = JNull)
    /\ (In i (availableIndices a) ->
        exists content,
          _getAuthContent h (authMode a) i = Some content
          /\ content <> ""
          /\ JSON_parse rt content = Some (getAuth rt h a i)).
Proof.
  intros Hc i. destruct (created_spec a Hc) as (_ & _ & _ & Hin).
  unfold getAuth. split.
  - intro Hni. destruct (existsb (Z.eqb i) (availableIndices a)) eqn:E; [|reflexivity].
    apply existsb_Zeqb in E. contradiction.
  - intro Hi.
    assert (existsb (Z.eqb i) (availableIndices a) = true) as E
      by (apply existsb_Zeqb, Hi).
    rewrite E. simpl. apply Hin in Hi. destruct Hi as [_ Hp].
    unfold parses in Hp.
    destruct (_getAuthContent h (authMode a) i) as [content|]; [|discriminate].
    destruct (String.eqb content "") eqn:E0; [discriminate|]. simpl in Hp.
    destruct (JSON_parse rt content) as [v|] eqn:Ej; [|discriminate].
    exists content. split; [reflexivity|]. split; [|exact Ej].
    intro. subst. discriminate.
Qed.

End WithHost.

Lemma fold_max l : forall m,
  m <= fold_left Z.max l m
  /\ (forall i, In i l -> i <= fold_left Z.max l m)
  /\ (fold_left Z.max l m = m \/ In (fold_left Z.max l m) l).
Proof.
  induction l as [|x l IH]; intro m; simpl.
  - repeat split; [lia | intros i [] | left; reflexivity].
  - destruct (IH (Z.max m x)) as (H1 & H2 & H3). repeat split.
    + lia.
    + intros i [<-|Hi]; [lia | apply H2, Hi].
    + destruct H3 as [H3|H3]; [|right; right; exact H3].
      rewrite H3. destruct (Z.max_spec m x) as [[_ ->]|[_ ->]]; auto.
Qed.

(** X13: [getMaxIndex] is an upper bound of the available indices and
    is never negative; it is one of them, or 0 when none is positive. *)
Theorem getMaxIndex_is_the_maximum a :
  0 <= getMaxIndex a
  /\ (forall i, In i (availableIndices a) -> i <= getMaxIndex a)
  /\ (getMaxIndex a = 0 \/ In (getMaxIndex a) (availableIndices a)).
Proof. apply fold_max. Qed.

Lemma available_sources_witness :
  availableIndices Sample.auth_source <> []
  /\ StronglySorted Z.lt (availableIndices Sample.auth_source)
  /\ StronglySorted Z.lt (initialIndices Sample.auth_source)
  /\ (forall i,
        In i (availableIndices Sample.auth_source)
        <-> In i (initialIndices Sample.auth_source)
            /\ parses Sample.auth_runtime Sample.auth_host
                 (authMode Sample.auth_source) i = true).
Proof.
  apply (available_sources Sample.auth_runtime Sample.auth_host Sample.auth_source).
  vm_compute. reflexivity.
Defined.

Lemma getAuth_serves_the_available_sources_witness :
  (~ In 2 (availableIndices Sample.auth_source) ->
   getAuth Sample.auth_runtime Sample.auth_host Sample.auth_source 2 = JNull)
  /\ (In 2 (availableIndices Sample.auth_source) ->
      exists content,
        _getAuthContent Sample.auth_host (authMode Sample.auth_source) 2
        = Some content
        /\ content <> ""
        /\ JSON_parse Sample.auth_runtime content
           = Some (getAuth Sample.auth_runtime Sample.auth_host
                     Sample.auth_source 2)).
Proof.
  apply (getAuth_serves_the_available_sources Sample.auth_runtime Sample.auth_host
           Sample.auth_source).
  vm_compute. reflexivity.
Defined.

End AuthFacts.

(* ================================================================== *)
(** * The order of the rotation *)
(* ================================================================== *)

Module RoundRobinFacts.

Lemma indexOf_nth : forall l i c,
  NoDup l -> nth_error l i = Some c -> indexOf c l = Some i.
Proof.
  induction l as [|x l IH]; intros i c Hnd H; [destruct i; discriminate|].
  inversion Hnd as [|? ? Hni Hnd']; subst. simpl.
  destruct i as [|i]; simpl in H.
  - injection H as ->. rewrite Z.eqb_refl. reflexivity.
  - destruct (c =? x) eqn:E.
    + apply Z.eqb_eq in E. subst. apply nth_error_In in H. contradiction.
    + rewrite (IH i c Hnd' H). reflexivity.
Qed.

Lemma indexOf_none : forall l c, ~ In c l -> indexOf c l = None.
Proof.
  induction l as [|x l IH]; intros c H; simpl; [reflexivity|].
  destruct (c =? x) eqn:E.
  - apply Z.eqb_eq in E. subst. simpl in H. tauto.
  - rewrite IH; [reflexivity | simpl in H; tauto].
Qed.

(** The account after the one at position [i] is the one at position
    [i + 1], and the first one after the last. *)
Lemma next_position available i c :
  NoDup available -> nth_error available i = Some c ->
  _getNextAuthIndex available c
  = nth_error available (Nat.modulo (i + 1) (List.length available)).
Proof.
  intros Hnd H. unfold _getNextAuthIndex.
  destruct available as [|first rest]; [destruct i; discriminate|].
  rewrite (indexOf_nth _ i c Hnd H). reflexivity.
Qed.

Lemma rotate_position available : forall k i c,
  NoDup available -> nth_error available i = Some c ->
  rotate k available c
  = nth_error available (Nat.modulo (i + k) (List.length available)).
Proof.
  induction k as [|k IH]; intros i c Hnd H.
  - assert (i < List.length available)%nat as Hi
      by (apply nth_error_Some; congruence).
    simpl. rewrite Nat.add_0_r, Nat.mod_small by exact Hi. symmetry. exact H.
  - assert (List.length available <> 0)%nat as Hn
      by (destruct available; [destruct i; discriminate | discriminate]).
    simpl. rewrite (next_position available i c Hnd H).
    destruct (nth_error available (Nat.modulo (i + 1) (List.length available)))
      as [next|] eqn:E.
    + rewrite (IH _ next Hnd E). f_equal.
      rewrite Nat.Div0.add_mod_idemp_l. f_equal. lia.
    + apply nth_error_None in E.
      pose proof (Nat.mod_upper_bound (i + 1) _ Hn). lia.
Qed.

(** X14: the rotation is a round robin.  When the available indices are
    distinct and the current one is among them, successive rotations
    reach every available account within one turn, and after as many
    rotations as there are accounts the current one is back; from an
    index that is not available the rotation goes to the first account;
    it has no next account only when there is none. *)
Theorem rotation_is_a_round_robin available current :
  NoDup available ->
  (In current available ->
   (forall target, In target available ->
      exists k, (k < List.length available)%nat
                /\ rotate k available current = Some target)
   /\ rotate (List.length available) available current = Some current)
  /\ (~ In current available ->
      _getNextAuthIndex available current = hd_error available)
  /\ (_getNextAuthIndex available current = None <-> available = []).
Proof.
  intro Hnd. split; [|split].
  - intro Hc. apply In_nth_error in Hc. destruct Hc as [i Hi].
    assert (i < List.length available)%nat as Hlt
      by (apply nth_error_Some; congruence).
    split.
    + intros target Ht. apply In_nth_error in Ht. destruct Ht as [j Hj].
      assert (j < List.length available)%nat as Hjlt
        by (apply nth_error_Some; congruence).
      exists (Nat.modulo (j + List.length available - i) (List.length available)).
      split; [apply Nat.mod_upper_bound; lia|].
      rewrite (rotate_position available _ i current Hnd Hi).
      rewrite Nat.Div0.add_mod_idemp_r.
      replace (i + (j + List.length available - i))%nat
        with (j + 1 * List.length available)%nat by lia.
      rewrite Nat.Div0.mod_add, Nat.mod_small by exact Hjlt. exact Hj.
    + rewrite (rotate_position available _ i current Hnd Hi).
      replace (i + List.length available)%nat
        with (i + 1 * List.length available)%nat by lia.
      rewrite Nat.Div0.mod_add, Nat.mod_small by exact Hlt. exact Hi.
  - intro Hc. unfold _getNextAuthIndex.
    destruct available as [|first rest]; [reflexivity|].
    rewrite (indexOf_none _ _ Hc). reflexivity.
  - unfold _getNextAuthIndex. destruct available as [|first rest]; [tauto|].
    split; [|discriminate].
    destruct (indexOf current (first :: rest)) as [i|] eqn:E; [|discriminate].
    intro H. apply nth_error_None in H.
    pose proof (Nat.mod_upper_bound (i + 1) (List.length (first :: rest))).
    simpl in *. lia.
Qed.

Lemma rotation_is_a_round_robin_witness :
  (In 2 [1; 2; 4] ->
   (forall target, In target [1; 2; 4] ->
      exists k, (k < List.length [1; 2; 4])%nat
                /\ rotate k [1; 2; 4] 2 = Some target)
   /\ rotate (List.length [1; 2; 4]) [1; 2; 4] 2 = Some 2)
  /\ (~ In 2 [1; 2; 4] -> _getNextAuthIndex [1; 2; 4] 2 = hd_error [1; 2; 4])
  /\ (_getNextAuthIndex [1; 2; 4] 2 = None <-> [1; 2; 4] = []).
Proof.
  apply (rotation_is_a_round_robin [1; 2; 4] 2).
  repeat constructor; simpl; intuition discriminate.
Defined.

End RoundRobinFacts.

(* ================================================================== *)
(** * Switching accounts *)
(* ================================================================== *)

Module SwitchFacts.

(** [launchOrSwitchContext] moves to the account it is given or throws
    and leaves the current account as it was; it does not touch the
    rotation fields. *)
Lemma launch_spec i w :
  handler (run (launchOrSwitchContext i) w) = handler w
  /\ availableIndices (run (launchOrSwitchContext i) w) = availableIndices w
  /\ relay (run (launchOrSwitchContext i) w) = relay w
  /\ match completion (launchOrSwitchContext i) w with
     | Return _ =>
         exists n, i = Some n /\ In n (availableIndices w)
                   /\ currentAuthIndex (run (launchOrSwitchContext i) w) = n
     | Throw _ =>
         currentAuthIndex (run (launchOrSwitchContext i) w) = currentAuthIndex w
     end.
Proof.
  unfold run, completion, launchOrSwitchContext, bind, await, pop_browser, get_world,
    pop_ticks, modify_res, put_res, set_currentAuthIndex, throw.
  destruct (keepAlive w); simpl.
  - destruct i as [n|]; simpl; [|auto].
    destruct (hd false (browser w) && existsb (Z.eqb n) (availableIndices w)) eqn:E;
      simpl; [|auto].
    repeat split. exists n. repeat split.
    apply andb_prop in E. destruct E as [_ E]. apply AuthFacts.existsb_Zeqb, E.
  - destruct i as [n|]; simpl; [|auto].
    destruct (hd false (browser w) && existsb (Z.eqb n) (availableIndices w)) eqn:E;
      simpl; [|auto].
    repeat split. exists n. repeat split.
    apply andb_prop in E. destruct E as [_ E]. apply AuthFacts.existsb_Zeqb, E.
Qed.

(** X15: what a rotation leaves behind.  [_switchToNextAuth] answers
    "Busy" and changes nothing while another switch runs.  Otherwise,
    however the browser behaves, it ends with [isAuthSwitching] and
    [isSystemBusy] false and leaves [pendingSwitch] and
    [activeRequestCount] alone; on success the current account is the
    next one of the round robin and both counters are 0; on fallback the
    current account is the previous one and both counters are 0; when
    the fallback fails too it throws, with the account and the counters
    as they were. *)
Theorem rotation_outcome w :
  if isAuthSwitching (handler w)
  then _switchToNextAuth w = (Return Busy, w)
  else
    isAuthSwitching (handler (run _switchToNextAuth w)) = false
    /\ isSystemBusy (handler (run _switchToNextAuth w)) = false
    /\ pendingSwitch (handler (run _switchToNextAuth w)) = pendingSwitch (handler w)
    /\ activeRequestCount (handler (run _switchToNextAuth w))
       = activeRequestCount (handler w)
    /\ match completion _switchToNextAuth w with
       | Return (Success i) =>
           _getNextAuthIndex (availableIndices w) (currentAuthIndex w) = Some i
           /\ In i (availableIndices w)
           /\ currentAuthIndex (run _switchToNextAuth w) = i
           /\ failureCount (handler (run _switchToNextAuth w)) = 0
           /\ usageCount (handler (run _switchToNextAuth w)) = 0
       | Return (Fallback i) =>
           i = currentAuthIndex w
           /\ currentAuthIndex (run _switchToNextAuth w) = i
           /\ failureCount (handler (run _switchToNextAuth w)) = 0
           /\ usageCount (handler (run _switchToNextAuth w)) = 0
       | Return _ => False
       | Throw _ =>
           currentAuthIndex (run _switchToNextAuth w) = currentAuthIndex w
           /\ failureCount (handler (run _switchToNextAuth w)) = failureCount (handler w)
           /\ usageCount (handler (run _switchToNextAuth w)) = usageCount (handler w)
       end.
Proof.
  destruct (isAuthSwitching (handler w)) eqn:Es.
  - unfold _switchToNextAuth, bind, get_handler. rewrite Es. reflexivity.
  - unfold run, completion.
    destruct (_switchToNextAuth w) as [o w'] eqn:E. cbn [fst snd].
    unfold _switchToNextAuth in E.
    unfold bind at 1 in E. unfold get_handler at 1 in E. rewrite Es in E.
    unfold bind at 1 in E. unfold modify_handler at 1 in E.
    set (w0 := {| handler := switch_enter (handler w); res := res w; relay := relay w;
                  links := links w; inbox := inbox w; browser := browser w;
                  currentAuthIndex := currentAuthIndex w;
                  availableIndices := availableIndices w; keepAlive := keepAlive w;
                  ticks := ticks w; timers := timers w; ids := ids w |}) in E.
    unfold finally in E. unfold bind at 1 in E. unfold read_index at 1 in E.
    unfold bind at 1 in E. unfold get_world at 1 in E.
    cbn [availableIndices currentAuthIndex w0] in E.
    unfold try_catch, switchAccount in E.
    set (next := _getNextAuthIndex (availableIndices w) (currentAuthIndex w)) in *.
    unfold bind at 1 in E.
    destruct (launch_spec next w0) as (Hh & Ha & _ & Hc).
    unfold run, completion in *.
    destruct (launchOrSwitchContext next w0) as [[[]|e] w1]; cbn [fst snd] in *.
    + destruct Hc as (n & Hn & Hin & Hcur).
      unfold bind, modify_handler, read_index, ret in E. cbn in E.
      injection E as <- <-. cbn. rewrite Hh. cbn.
      rewrite Hn, Hcur. repeat split; auto.
    + unfold bind at 1 in E.
      destruct (launch_spec (Some (currentAuthIndex w)) w1) as (Hh2 & _ & _ & Hc2).
      unfold run, completion in *.
      destruct (launchOrSwitchContext (Some (currentAuthIndex w)) w1)
        as [[[]|e2] w2]; cbn [fst snd] in *.
      * destruct Hc2 as (n & Hn & _ & Hcur). injection Hn as <-.
        unfold bind, modify_handler, read_index, ret in E. cbn in E.
        injection E as <- <-. cbn. rewrite Hh2, Hh. cbn.
        repeat split; auto.
      * unfold modify_handler in E. cbn in E. injection E as <- <-.
        cbn. rewrite Hh2, Hh. cbn.
        rewrite Hc2, Hc. repeat split; auto.
Qed.

(** X16: a switch to a given account.  [_switchToSpecificAuth] answers
    "Busy" while another switch runs and "Invalid index" for an index
    that is not available, and changes nothing in either case.
    Otherwise it ends with [isAuthSwitching] and [isSystemBusy] false;
    on success the current account is the target, both counters are 0
    and [pendingSwitch] is false; on failure it throws, with the
    account, the counters and [pendingSwitch] as they were. *)
Theorem specific_switch_outcome targetIndex w :
  if isAuthSwitching (handler w)
  then _switchToSpecificAuth targetIndex w = (Return Busy, w)
  else if negb (existsb (Z.eqb targetIndex) (availableIndices w))
  then _switchToSpecificAuth targetIndex w = (Return InvalidIndex, w)
  else
    isAuthSwitching (handler (run (_switchToSpecificAuth targetIndex) w)) = false
    /\ isSystemBusy (handler (run (_switchToSpecificAuth targetIndex) w)) = false
    /\ activeRequestCount (handler (run (_switchToSpecificAuth targetIndex) w))
       = activeRequestCount (handler w)
    /\ match completion (_switchToSpecificAuth targetIndex) w with
       | Return (Success i) =>
           i = targetIndex
           /\ currentAuthIndex (run (_switchToSpecificAuth targetIndex) w) = targetIndex
           /\ failureCount (handler (run (_switchToSpecificAuth targetIndex) w)) = 0
           /\ usageCount (handler (run (_switchToSpecificAuth targetIndex) w)) = 0
           /\ pendingSwitch (handler (run (_switchToSpecificAuth targetIndex) w)) = false
       | Return _ => False
       | Throw _ =>
           currentAuthIndex (run (_switchToSpecificAuth targetIndex) w)
           = currentAuthIndex w
           /\ failureCount (handler (run (_switchToSpecificAuth targetIndex) w))
              = failureCount (handler w)
           /\ usageCount (handler (run (_switchToSpecificAuth targetIndex) w))
              = usageCount (handler w)
           /\ pendingSwitch (handler (run (_switchToSpecificAuth targetIndex) w))
              = pendingSwitch (handler w)
       end.
Proof.
  destruct (isAuthSwitching (handler w)) eqn:Es.
  - unfold _switchToSpecificAuth, bind, get_handler. rewrite Es. reflexivity.
  - destruct (negb (existsb (Z.eqb targetIndex) (availableIndices w))) eqn:Ea.
    + unfold _switchToSpecificAuth, bind, get_handler, get_world. rewrite Es, Ea.
      reflexivity.
    + unfold run, completion.
      destruct (_switchToSpecificAuth targetIndex w) as [o w'] eqn:E. cbn [fst snd].
      unfold _switchToSpecificAuth in E.
      unfold bind at 1 in E. unfold get_handler at 1 in E. rewrite Es in E.
      unfold bind at 1 in E. unfold get_world at 1 in E. rewrite Ea in E.
      unfold bind at 1 in E. unfold modify_handler at 1 in E.
      set (w0 := {| handler := switch_enter (handler w); res := res w; relay := relay w;
                    links := links w; inbox := inbox w; browser := browser w;
                    currentAuthIndex := currentAuthIndex w;
                    availableIndices := availableIndices w; keepAlive := keepAlive w;
                    ticks := ticks w; timers := timers w; ids := ids w |}) in E.
      unfold finally, switchAccount in E. unfold bind at 1 in E.
      destruct (launch_spec (Some targetIndex) w0) as (Hh & _ & _ & Hc).
      unfold run, completion in *.
      destruct (launchOrSwitchContext (Some targetIndex) w0) as [[[]|e] w1];
        cbn [fst snd] in *.
      * destruct Hc as (n & Hn & _ & Hcur). injection Hn as <-.
        unfold bind, modify_handler, read_index, ret in E. cbn in E.
        injection E as <- <-. cbn. rewrite Hh. cbn.
        repeat split; auto.
      * unfold modify_handler in E. cbn in E. injection E as <- <-.
        cbn. rewrite Hh. cbn. rewrite Hc. repeat split; auto.
Qed.

End SwitchFacts.

(* ================================================================== *)
(** * More reasoning about handlers *)
(* ================================================================== *)

(** Structural steps of a [preserves] proof for a relation with the
    proofs [Rrefl] and [Rtrans]; [leaf] proves the primitives. *)
Ltac keeps_step Rrefl Rtrans leaf :=
  lazymatch goal with
  | |- preserves _ (bind _ _) => apply (preserves_bind _ Rtrans); [ | intros ]
  | |- preserves _ (try_catch _ _) => apply (preserves_try_catch _ Rtrans); [ | intros ]
  | |- preserves _ (finally _ _) => apply (preserves_finally _ Rtrans)
  | |- preserves _ (when _ _) => apply (preserves_when _ Rrefl)
  | |- preserves _ (ret _) => apply (preserves_ret _ Rrefl)
  | |- preserves _ (throw _) => apply (preserves_throw _ Rrefl)
  | |- preserves _ get_handler => apply (preserves_get_handler _ Rrefl)
  | |- preserves _ get_res => apply (preserves_get_res _ Rrefl)
  | |- preserves _ get_world => apply (preserves_get_world _ Rrefl)
  | |- preserves _ read_index => apply (preserves_read_index _ Rrefl)
  | |- preserves _ (let _ := _ in _) => cbv zeta
  | |- preserves _ (match ?x with _ => _ end) => destruct x
  | |- _ => leaf
  end.

Ltac keeps Rrefl Rtrans leaf := repeat (keeps_step Rrefl Rtrans leaf).

Module HandlerFacts.

Lemma same_handler_refl w : same_handler w w.
Proof. reflexivity. Qed.

Lemma same_handler_trans a b c : same_handler a b -> same_handler b c -> same_handler a c.
Proof. unfold same_handler. congruence. Qed.

Lemma calm_refl w : calm w w.
Proof. intro H. auto. Qed.

Lemma calm_trans a b c : calm a b -> calm b c -> calm a c.
Proof.
  intros Hab Hbc Ha. destruct (Hab Ha) as [Hr Hk]. destruct (Hbc Hk) as [Hr' Hk'].
  split; congruence.
Qed.

(** The primitives that leave the rotation fields alone. *)
Ltac same_handler_leaf :=
  let w0 := fresh "w" in
  intro w0;
  first
    [ reflexivity
    | unfold same_handler, run, await; destruct (keepAlive w0); reflexivity
    | unfold same_handler, run, try_res;
      match goal with |- context [match ?f (res w0) with _ => _ end] =>
        destruct (f (res w0)) end; reflexivity ].

Ltac same_handler_go :=
  keeps same_handler_refl same_handler_trans ltac:(same_handler_leaf).

(** The primitives that leave the response alone while no interval is
    armed. *)
Ltac calm_leaf :=
  let w0 := fresh "w" in
  let Hk0 := fresh "Hk" in
  intros w0 Hk0;
  first
    [ split; [reflexivity | exact Hk0]
    | unfold run, await; rewrite Hk0; split; [reflexivity | exact Hk0] ].

Ltac calm_go := keeps calm_refl calm_trans ltac:(calm_leaf).

Lemma same_handler_dequeue : preserves same_handler dequeue.
Proof. unfold dequeue. same_handler_go. Qed.

Lemma calm_dequeue : preserves calm dequeue.
Proof. unfold dequeue. calm_go. Qed.

Lemma same_handler_forward p : preserves same_handler (_forwardRequest p).
Proof. unfold _forwardRequest. same_handler_go. Qed.

Lemma calm_forward p : preserves calm (_forwardRequest p).
Proof. unfold _forwardRequest. calm_go. Qed.

Lemma same_handler_drain : forall fuel acc, preserves same_handler (drain_body fuel acc).
Proof.
  induction fuel as [|fuel IH]; intro acc; simpl.
  - same_handler_go.
  - apply (preserves_bind _ same_handler_trans); [apply same_handler_dequeue|].
    intro m. destruct (is_stream_end m); [same_handler_go|].
    destruct (is_chunk m && nonempty (msg_data m)); apply IH.
Qed.

Lemma calm_drain : forall fuel acc, preserves calm (drain_body fuel acc).
Proof.
  induction fuel as [|fuel IH]; intro acc; simpl.
  - calm_go.
  - apply (preserves_bind _ calm_trans); [apply calm_dequeue|].
    intro m. destruct (is_stream_end m); [calm_go|].
    destruct (is_chunk m && nonempty (msg_data m)); apply IH.
Qed.

Lemma same_handler_sendErrorResponse rt s m :
  preserves same_handler (_sendErrorResponse rt s m).
Proof. unfold _sendErrorResponse. same_handler_go. Qed.

End HandlerFacts.

(* ================================================================== *)
(** * The model list *)
(* ================================================================== *)

Module ModelListFacts.
Import HandlerFacts.

Section WithRuntime.
Variable rt : Runtime.
Variable sys : ServerSystem.

(** In [try { a; K } catch { H }], when only [a] forwards frames, the
    frames forwarded are those of [a]. *)
Lemma relay_of_try {A} (a : M unit) (K : M A) (H : string -> M A) w :
  preserves same_relay K ->
  (forall e, preserves same_relay (H e)) ->
  relay (run (try_catch (bind a (fun _ => K)) H) w) = relay (run a w).
Proof.
  intros HK HH. unfold run, try_catch, bind.
  destruct (a w) as [[[]|e] w1]; simpl.
  - pose proof (HK w1) as H1. unfold same_relay, run in H1.
    destruct (K w1) as [[x|e] w2]; simpl in *; [exact H1|].
    pose proof (HH e w2) as H2. unfold same_relay, run in H2.
    destruct (H e w2) as [o w3]; simpl in *. congruence.
  - pose proof (HH e w1) as H2. unfold same_relay, run in H2.
    destruct (H e w1) as [o w3]; simpl in *. congruence.
Qed.

(** X17: the model list costs nothing.  [processModelListRequest] leaves
    every rotation field as it was (no use is counted, no failure, no
    request in flight), whatever the relay answers; and it forwards one
    frame at most, a [GET] of [/v1beta/models] in the "fake" mode under
    the request's id. *)
Theorem model_list_leaves_the_rotation_alone req w :
  handler (run (processModelListRequest rt sys req) w) = handler w
  /\ (relay (run (processModelListRequest rt sys req) w) = relay w
      \/ exists frame,
           relay (run (processModelListRequest rt sys req) w) = relay w ++ [frame]
           /\ path frame = "/v1beta/models"
           /\ method frame = "GET"
           /\ streaming_mode frame = "fake"
           /\ request_id frame = hd "" (ids w)).
Proof.
  split.
  - assert (preserves same_handler (processModelListRequest rt sys req)) as P.
    { unfold processModelListRequest, _generateRequestId.
      apply (preserves_bind _ same_handler_trans); [same_handler_go|]. intro requestId.
      apply (preserves_try_catch _ same_handler_trans);
        [|intro; apply same_handler_sendErrorResponse].
      apply (preserves_bind _ same_handler_trans); [apply same_handler_forward|]. intros _.
      apply (preserves_bind _ same_handler_trans); [apply same_handler_dequeue|].
      intro headerMessage. destruct (is_error headerMessage); [same_handler_go|].
      apply (preserves_bind _ same_handler_trans); [same_handler_go|]. intro w1.
      apply (preserves_bind _ same_handler_trans); [apply same_handler_drain|].
      intro fullBody. same_handler_go. }
    apply P.
  - set (w1 := {| handler := handler w; res := res w; relay := relay w;
                  links := links w; inbox := inbox w; browser := browser w;
                  currentAuthIndex := currentAuthIndex w;
                  availableIndices := availableIndices w; keepAlive := keepAlive w;
                  ticks := ticks w; timers := timers w; ids := tl (ids w) |}).
    assert (relay (run (processModelListRequest rt sys req) w)
            = relay (run (_forwardRequest (model_list_frame rt sys req (hd "" (ids w)))) w1))
      as E.
    { unfold processModelListRequest, _generateRequestId.
      unfold run at 1. unfold bind at 1. unfold pop_ids at 1. cbn [fst snd].
      fold w1. fold (model_list_frame rt sys req (hd "" (ids w))).
      match goal with
      | |- context [try_catch (bind (_forwardRequest ?p) (fun _ => ?K)) ?H] =>
          apply (relay_of_try (_forwardRequest p) K H w1)
      end.
      - framed_go (PseudoFacts.same_relay_frame default_config) idtac.
      - intro e. framed_go (PseudoFacts.same_relay_frame default_config) idtac. }
    rewrite E.
    destruct (PseudoFacts.forward_spec (model_list_frame rt sys req (hd "" (ids w))) w1)
      as (Hup & Hdown & _).
    destruct (hd false (links w1)).
    + right. exists (model_list_frame rt sys req (hd "" (ids w))).
      destruct (Hup eq_refl) as [_ ->]. repeat split.
    + left. destruct (Hdown eq_refl) as [_ ->]. reflexivity.
Qed.

(** [res.status(200).json(body)] on a response of which nothing has
    left. *)
Lemma json_200_unsent body w :
  unsent (res w) ->
  completion (modify_res (Res.status 200) ;; try_res (Res.json body))%js w = Return tt
  /\ served 200 body (res (run (modify_res (Res.status 200) ;; try_res (Res.json body))%js w)).
Proof.
  intros (Hs & He & Hl & Ho).
  unfold completion, run, served, bind, modify_res, try_res, put_res,
    Res.json, Res.set, Res.send, Res.write, Res.end_, Res.flush, Res.status.
  simpl. repeat (first [rewrite Hs | rewrite He]; simpl).
  rewrite Hl, Ho. simpl. repeat split; reflexivity.
Qed.

Lemma calm_step {A} (m : M A) w :
  preserves calm m -> keepAlive w = false ->
  res (snd (m w)) = res w /\ keepAlive (snd (m w)) = false.
Proof. intros P Hk. exact (P w Hk). Qed.

(** X18: the model list is always answered.  On a response of which
    nothing has left, [processModelListRequest] returns without
    throwing and the client has one whole response: either 200 with a
    list, or 500 "Failed to fetch model list."; it is the latter when
    the browser is not connected, when no answer arrives, and when the
    first answer of the relay is an error. *)
Theorem model_list_is_always_answered req w :
  keepAlive w = false ->
  unsent (res w) ->
  completion (processModelListRequest rt sys req) w = Return tt
  /\ ((exists body, served 200 body (res (run (processModelListRequest rt sys req) w)))
      \/ served 500 (error_body rt 500 (Some "Failed to fetch model list."))
           (res (run (processModelListRequest rt sys req) w)))
  /\ (hd false (links w) = false
      \/ match inbox w with
         | Msg m :: _ => is_error m = true
         | _ => True
         end ->
      served 500 (error_body rt 500 (Some "Failed to fetch model list."))
        (res (run (processModelListRequest rt sys req) w))).
Proof.
  intros Hk Hun.
  set (w1 := {| handler := handler w; res := res w; relay := relay w;
                links := links w; inbox := inbox w; browser := browser w;
                currentAuthIndex := currentAuthIndex w;
                availableIndices := availableIndices w; keepAlive := keepAlive w;
                ticks := ticks w; timers := timers w; ids := tl (ids w) |}).
  unfold completion, run.
  destruct (processModelListRequest rt sys req w) as [o w'] eqn:E. cbn [fst snd].
  unfold processModelListRequest, _generateRequestId in E.
  unfold bind at 1 in E. unfold pop_ids at 1 in E. fold w1 in E.
  fold (model_list_frame rt sys req (hd "" (ids w))) in E.
  set (p := model_list_frame rt sys req (hd "" (ids w))) in *.
  assert (forall w2, res w2 = res w ->
            _sendErrorResponse rt (Some 500) (Some "Failed to fetch model list.") w2
            = (o, w') ->
            o = Return tt
            /\ served 500 (error_body rt 500 (Some "Failed to fetch model list."))
                 (res w')) as Fail.
  { intros w2 Hr Eh.
    destruct (GateFacts._sendErrorResponse_unsent rt (Some 500)
                (Some "Failed to fetch model list.") w2) as (Hc & _ & _ & _ & Hl & Ho & He).
    { rewrite Hr. exact Hun. }
    unfold completion, run in *. rewrite Eh in *. simpl in *.
    unfold served. auto. }
  unfold try_catch in E. unfold bind at 1 in E.
  destruct (calm_step (_forwardRequest p) w1 (calm_forward p) Hk) as [Hr2 Hk2].
  destruct (PseudoFacts.forward_spec p w1) as (_ & Hdown & _ & Hi2 & _).
  unfold completion, run in *.
  destruct (_forwardRequest p w1) as [[[]|e] w2]; cbn [fst snd] in *.
  2:{ destruct (Fail w2 Hr2 E) as [-> Hs]. auto. }
  unfold bind at 1 in E.
  destruct (calm_step dequeue w2 calm_dequeue Hk2) as [Hr3 Hk3].
  destruct (PseudoFacts.dequeue_spec w2) as (Hc3 & _).
  unfold completion, run in *.
  destruct (dequeue w2) as [[headerMessage|e] w3]; cbn [fst snd] in *.
  2:{ destruct (Fail w3 (eq_trans Hr3 Hr2) E) as [-> Hs]. auto. }
  assert (hd false (links w) = false
          \/ match inbox w with
             | Msg m :: _ => is_error m = true
             | _ => True
             end -> is_error headerMessage = true) as Hfail.
  { intros [Hl|Hm].
    - specialize (Hdown Hl). destruct Hdown as [Hd _]. discriminate.
    - rewrite Hi2 in Hc3. change (inbox w1) with (inbox w) in Hc3.
      destruct (inbox w) as [|[m|r] q]; try discriminate.
      injection Hc3 as <-. exact Hm. }
  destruct (is_error headerMessage) eqn:Eerr.
  { unfold throw in E.
    destruct (Fail w3 (eq_trans Hr3 Hr2) E) as [-> Hs]. auto. }
  unfold bind at 1 in E. unfold get_world at 1 in E.
  unfold bind at 1 in E.
  destruct (calm_step (drain_body (S (List.length (inbox w3))) "") w3
              (calm_drain _ _) Hk3) as [Hr4 Hk4].
  destruct (drain_body (S (List.length (inbox w3))) "" w3) as [[fullBody|e] w4];
    cbn [fst snd] in *.
  2:{ destruct (Fail w4 (eq_trans Hr4 (eq_trans Hr3 Hr2)) E) as [-> Hs].
      split; [reflexivity|]. split; [right; exact Hs|]. intro H. exact Hs. }
  assert (res w4 = res w) as Hr by (rewrite Hr4, Hr3, Hr2; reflexivity).
  match type of E with
  | (let (_, _) := match ?g with _ => _ end ?x in _) = _ =>
      destruct g as [| | | | |l|]
  end;
    try (destruct (Fail w4 Hr E) as [-> Hs];
         split; [reflexivity|]; split; [right; exact Hs|]; intro H;
         specialize (Hfail H); discriminate).
  destruct (openai_models rt l) as [openaiModels|].
  2:{ destruct (Fail w4 Hr E) as [-> Hs].
      split; [reflexivity|]. split; [right; exact Hs|]. intro H.
      specialize (Hfail H). discriminate. }
  match type of E with
  | (let (_, _) := bind _ (fun _ => try_res (Res.json ?body)) _ in _) = _ =>
      destruct (json_200_unsent body w4) as [Hc Hs]
  end.
  { rewrite Hr. exact Hun. }
  unfold completion, run in *.
  match type of E with
  | (let (_, _) := ?m w4 in _) = _ => destruct (m w4) as [[[]|e] w5]
  end; cbn [fst snd] in *; [|discriminate].
  injection E as <- <-. split; [reflexivity|]. split; [left; eauto|].
  intro H. specialize (Hfail H). discriminate.
Qed.

End WithRuntime.

Lemma model_list_is_always_answered_witness :
  completion (processModelListRequest Example.models_runtime Example.system
                Example.get_models)
    (Example.world new_handler Example.models_inbox) = Return tt
  /\ ((exists body,
         served 200 body
           (res (run (processModelListRequest Example.models_runtime Example.system
                        Example.get_models)
                   (Example.world new_handler Example.models_inbox))))
      \/ served 500
           (error_body Example.models_runtime 500 (Some "Failed to fetch model list."))
           (res (run (processModelListRequest Example.models_runtime Example.system
                        Example.get_models)
                   (Example.world new_handler Example.models_inbox))))
  /\ (hd false (links (Example.world new_handler Example.models_inbox)) = false
      \/ match inbox (Example.world new_handler Example.models_inbox) with
         | Msg m :: _ => is_error m = true
         | _ => True
         end ->
      served 500
        (error_body Example.models_runtime 500 (Some "Failed to fetch model list."))
        (res (run (processModelListRequest Example.models_runtime Example.system
                     Example.get_models)
                (Example.world new_handler Example.models_inbox)))).
Proof.
  apply (model_list_is_always_answered Example.models_runtime Example.system
           Example.get_models (Example.world new_handler Example.models_inbox)).
  - reflexivity.
  - vm_compute. repeat split; reflexivity.
Defined.

End ModelListFacts.

(* ================================================================== *)
(** * Errors in buffered mode *)
(* ================================================================== *)

Module BufferedErrorFacts.
Import HandlerFacts Buffered.

Section WithConfig.
Variable rt : Runtime.
Variable cfg : Config.
Variable sys : ServerSystem.

Lemma error_sent status message w :
  unsent (res w) ->
  completion (_sendErrorResponse rt status message) w = Return tt
  /\ served (or_default status 500) (error_body rt (or_default status 500) message)
       (res (run (_sendErrorResponse rt status message) w))
  /\ Res.headersSent (res (run (_sendErrorResponse rt status message) w)) = true
  /\ relay (run (_sendErrorResponse rt status message) w) = relay w.
Proof.
  intros (Hs & He & Hl & Ho).
  unfold completion, run, served, _sendErrorResponse, bind, get_res, when, modify_res,
    try_res, Res.json, Res.set, Res.send, Res.write, Res.end_, Res.flush, Res.status.
  simpl. repeat (first [rewrite Hs | rewrite He]; simpl).
  rewrite Hl, Ho. simpl. repeat split; reflexivity.
Qed.

Lemma request_error_sent message w :
  unsent (res w) ->
  completion (_handleRequestError rt message) w = Return tt
  /\ served (if includes message "Timeout" then 504 else 500)
       (error_body rt (if includes message "Timeout" then 504 else 500) (Some message))
       (res (run (_handleRequestError rt message) w))
  /\ Res.headersSent (res (run (_handleRequestError rt message) w)) = true
  /\ relay (run (_handleRequestError rt message) w) = relay w.
Proof.
  intro Hun. pose proof Hun as (Hs & _).
  assert (_handleRequestError rt message w
          = _sendErrorResponse rt
              (Some (if includes message "Timeout" then 504 else 500)) (Some message) w)
    as E.
  { unfold _handleRequestError. unfold bind at 1. unfold get_res at 1. rewrite Hs.
    reflexivity. }
  unfold completion, run. rewrite E.
  destruct (includes message "Timeout").
  - apply (error_sent (Some 504) (Some message) w Hun).
  - apply (error_sent (Some 500) (Some message) w Hun).
Qed.

Lemma or_default_idem s : or_default (Some (or_default s 500)) 500 = or_default s 500.
Proof.
  unfold or_default. destruct s as [n|]; [|reflexivity].
  destruct (n =? 0) eqn:E; [reflexivity | rewrite E; reflexivity].
Qed.

Lemma calm_launch i : preserves calm (launchOrSwitchContext i).
Proof. unfold launchOrSwitchContext. calm_go. Qed.

Lemma calm_switch : preserves calm _switchToNextAuth.
Proof.
  unfold _switchToNextAuth, switchAccount.
  keeps calm_refl calm_trans ltac:(first [apply calm_launch | calm_leaf]).
Qed.

Lemma calm_failure m : preserves calm (_handleRequestFailureAndSwitch rt cfg m false).
Proof.
  unfold _handleRequestFailureAndSwitch. cbn [when].
  keeps calm_refl calm_trans ltac:(first [apply calm_switch | calm_leaf]).
Qed.

Lemma failure_returns m w :
  completion (_handleRequestFailureAndSwitch rt cfg m false) w = Return tt.
Proof.
  unfold completion, _handleRequestFailureAndSwitch. cbn [when].
  unfold bind at 1. unfold modify_handler at 1.
  unfold bind at 1. unfold get_handler at 1. cbv beta iota. unfold when.
  match goal with |- context [if ?c then _ else _] => destruct c end; [|reflexivity].
  unfold try_catch.
  match goal with |- fst (let (_, _) := ?m ?x in _) = _ =>
    destruct (m x) as [[[]|e] w1] end; reflexivity.
Qed.

(** The last steps of [processRequest] leave a response that has ended
    as it is. *)
Lemma finalised {A} (m : M A) w (o : outcome A) w1 :
  m w = (o, w1) ->
  Res.headersSent (res w1) = true ->
  forall status body,
    served status body (res w1) ->
    served status body
      (res (run (finally m (modify_handler finalise_request ;; _tryExecutePendingSwitch)) w))
    /\ relay (run (finally m (modify_handler finalise_request ;; _tryExecutePendingSwitch)) w)
       = relay w1.
Proof.
  intros E Hs status body (Hl & Ho & He).
  assert (preserves settled
            (modify_handler finalise_request ;; _tryExecutePendingSwitch)) as P
    by framed_go (BufferedFacts.settled_frame cfg) idtac.
  assert (preserves same_relay
            (modify_handler finalise_request ;; _tryExecutePendingSwitch)) as Q
    by framed_go (PseudoFacts.same_relay_frame cfg) idtac.
  specialize (P w1 Hs He). specialize (Q w1). unfold same_relay in Q.
  unfold run, finally in *. rewrite E.
  destruct ((modify_handler finalise_request ;; _tryExecutePendingSwitch)%js w1)
    as [[[]|e] w2]; cbn [fst snd] in *;
    destruct P as (_ & He' & Hl' & _ & Ho'); unfold served;
    rewrite Hl', Ho', He'; auto.
Qed.

(** X19: the errors of the buffered mode.  A request that
    [processRequest] lets in, that does not want a stream and of whose
    response nothing has left gets one whole error response, and no
    second frame is forwarded, in each of these cases: 500 "No
    available browser connection." when the browser has gone before the
    frame is sent; 500 "Queue timeout" when no answer arrives (the
    status is 504 only for a message that contains "Timeout", which
    this one does not); and, when the first answer is an error event,
    the status of the event (500 when it has none) with its message. *)
Theorem buffered_request_errors req w :
  gate_closed (handler w) = false ->
  isSystemBusy (handler w) = false ->
  hd false (links w) = true ->
  wantsStream req = false ->
  keepAlive w = false ->
  unsent (res w) ->
  (hd false (tl (links w)) = false ->
   served 500 (error_body rt 500 (Some "No available browser connection."))
     (res (run (processRequest rt cfg sys req) w))
   /\ relay (run (processRequest rt cfg sys req) w) = relay w)
  /\ (hd false (tl (links w)) = true ->
      (inbox w = [] ->
       served 500 (error_body rt 500 (Some "Queue timeout"))
         (res (run (processRequest rt cfg sys req) w)))
      /\ (forall status message rest,
            inbox w = Msg (ErrorEvent status message) :: rest ->
            served (or_default status 500)
              (error_body rt (or_default status 500) message)
              (res (run (processRequest rt cfg sys req) w)))
      /\ exists frame,
           relay (run (processRequest rt cfg sys req) w) = relay w ++ [frame]
           /\ streaming_mode frame = "fake").
Proof.
  intros Hgate Hbusy Hlink Hwants Hk Hun.
  destruct (BufferedFacts.processRequest_buffered rt cfg sys req w Hgate Hbusy Hlink Hwants)
    as (wA & E & Ar & Ay & Ai & Al & Ak).
  set (p := with_streaming_mode "fake" (prepare_frame rt sys req (hd "" (ids w)))) in *.
  rewrite Hk in Ak.
  assert (unsent (res wA)) as HunA by (rewrite Ar; exact Hun).
  split.
  - intro Hdown. rewrite <- Al in Hdown.
    destruct (PseudoFacts.forward_spec p wA) as (_ & Hd & _).
    destruct (Hd Hdown) as [Hc Hr].
    destruct (calm_forward p wA Ak) as [Hres _].
    unfold completion, run in Hc, Hr, Hres.
    destruct (_forwardRequest p wA) as [o1 w1] eqn:E1. simpl in Hc, Hr, Hres. subst o1.
    destruct (request_error_sent "No available browser connection." w1)
      as (Hc2 & Hs2 & Hh2 & Hr2).
    { rewrite Hres. exact HunA. }
    unfold completion, run in Hc2, Hs2, Hh2, Hr2.
    destruct (_handleRequestError rt "No available browser connection." w1)
      as [o2 w2] eqn:E2. simpl in Hc2, Hs2, Hh2, Hr2.
    assert (try_catch (_handleNonStreamResponse rt cfg p) (_handleRequestError rt) wA
            = (o2, w2)) as Et.
    { unfold try_catch, _handleNonStreamResponse. unfold bind at 1. rewrite E1.
      exact E2. }
    unfold run at 1 2. rewrite E.
    destruct (finalised _ wA o2 w2 Et Hh2 _ _ Hs2) as [F1 F2].
    split; [exact F1|]. unfold run in F2. rewrite F2. congruence.
  - intro Hup. rewrite <- Al in Hup.
    destruct (BufferedFacts.forward_up p wA Hup) as (w1 & E1 & Fh & Fr & Fy & Fi & _ & Fk).
    rewrite Ak in Fk.
    destruct (BufferedFacts.dequeue_plain w1 Fk) as (w2 & E2 & Dh & Dr & Dy & Di & _ & Dk).
    rewrite Fi, Ai in E2.
    assert (unsent (res w2)) as Hun2 by (rewrite Dr, Fr; exact HunA).
    assert (relay w2 = relay w ++ [p]) as Hrel by congruence.
    assert (forall o3 w3 status body,
              try_catch (_handleNonStreamResponse rt cfg p) (_handleRequestError rt) wA
              = (o3, w3) ->
              Res.headersSent (res w3) = true -> relay w3 = relay w2 ->
              served status body (res w3) ->
              served status body (res (run (processRequest rt cfg sys req) w))
              /\ relay (run (processRequest rt cfg sys req) w) = relay w ++ [p]) as Fin.
    { intros o3 w3 status body Et Hh Hr Hs. unfold run at 1 2. rewrite E.
      destruct (finalised _ wA o3 w3 Et Hh _ _ Hs) as [F1 F2].
      split; [exact F1|]. unfold run in F2. rewrite F2. congruence. }
    split; [|split].
    + intro Hin. rewrite Hin in E2.
      destruct (request_error_sent "Queue timeout" w2 Hun2) as (Hc3 & Hs3 & Hh3 & Hr3).
      unfold completion, run in Hc3, Hs3, Hh3, Hr3.
      destruct (_handleRequestError rt "Queue timeout" w2) as [o3 w3] eqn:E3.
      simpl in Hc3, Hs3, Hh3, Hr3. subst o3.
      refine (proj1 (Fin (Return tt) w3 _ _ _ Hh3 Hr3 Hs3)).
      unfold try_catch at 1, _handleNonStreamResponse. unfold bind at 1. rewrite E1.
      unfold try_catch at 1. unfold bind at 1. rewrite E2, E3. reflexivity.
    + intros status message rest Hin. rewrite Hin in E2.
      pose proof (failure_returns (ErrorEvent status message) w2) as Hc3.
      destruct (calm_failure (ErrorEvent status message) w2 Dk) as [Hres3 _].
      assert (relay (run (_handleRequestFailureAndSwitch rt cfg
                            (ErrorEvent status message) false) w2) = relay w2) as Hrel3.
      { assert (preserves same_relay
                  (_handleRequestFailureAndSwitch rt cfg (ErrorEvent status message) false))
          as P.
        { framed_go (PseudoFacts.same_relay_frame cfg)
            ltac:(apply PseudoFacts.same_relay_count_failure). }
        apply P. }
      unfold completion, run in Hc3, Hres3, Hrel3.
      destruct (_handleRequestFailureAndSwitch rt cfg (ErrorEvent status message) false w2)
        as [o3 w3] eqn:E3. simpl in Hc3, Hres3, Hrel3. subst o3.
      destruct (error_sent (Some (or_default status 500)) message w3)
        as (Hc4 & Hs4 & Hh4 & Hr4).
      { rewrite Hres3. exact Hun2. }
      rewrite or_default_idem in Hs4.
      unfold completion, run in Hc4, Hs4, Hh4, Hr4.
      destruct (_sendErrorResponse rt (Some (or_default status 500)) message w3)
        as [o4 w4] eqn:E4. simpl in Hc4, Hs4, Hh4, Hr4. subst o4.
      refine (proj1 (Fin (Return tt) w4 _ _ _ Hh4 (eq_trans Hr4 Hrel3) Hs4)).
      unfold try_catch at 1, _handleNonStreamResponse. unfold bind at 1. rewrite E1.
      unfold try_catch at 1. unfold bind at 1. rewrite E2.
      cbn [is_error msg_status msg_message]. unfold bind at 1. rewrite E3. rewrite E4.
      reflexivity.
    + exists p. split; [|reflexivity].
      assert (preserves same_relay
                (try_catch
                   (headerMessage <- dequeue ;;
                    if is_error headerMessage
                    then _handleRequestFailureAndSwitch rt cfg headerMessage false ;;
                         _sendErrorResponse rt
                           (Some (or_default (msg_status headerMessage) 500))
                           (msg_message headerMessage)
                    else fullBody <- buffer_body ;;
                         modify_handler reset_failures ;;
                         modify_res (Res.status (or_default (msg_status headerMessage) 200)) ;;
                         try_res (Res.type "application/json") ;;
                         try_res (Res.send (if String.eqb (image_block rt fullBody) ""
                                            then "{}" else image_block rt fullBody)))%js
                   (_handleRequestError rt))) as P.
      { framed_go (PseudoFacts.same_relay_frame cfg)
          ltac:(apply PseudoFacts.same_relay_count_failure). }
      assert (preserves same_relay
                (modify_handler finalise_request ;; _tryExecutePendingSwitch)) as Q
        by framed_go (PseudoFacts.same_relay_frame cfg) idtac.
      unfold run. rewrite E. unfold finally, try_catch at 1, _handleNonStreamResponse.
      unfold bind at 1. rewrite E1.
      specialize (P w1). unfold same_relay, run in P.
      match goal with |- context [try_catch ?m ?h w1] =>
        change (try_catch m h w1) with
          ((try_catch
              (headerMessage <- dequeue ;;
               if is_error headerMessage
               then _handleRequestFailureAndSwitch rt cfg headerMessage false ;;
                    _sendErrorResponse rt
                      (Some (or_default (msg_status headerMessage) 500))
                      (msg_message headerMessage)
               else fullBody <- buffer_body ;;
                    modify_handler reset_failures ;;
                    modify_res (Res.status (or_default (msg_status headerMessage) 200)) ;;
                    try_res (Res.type "application/json") ;;
                    try_res (Res.send (if String.eqb (image_block rt fullBody) ""
                                       then "{}" else image_block rt fullBody)))%js
              (_handleRequestError rt)) w1)
      end.
      destruct ((try_catch _ (_handleRequestError rt)) w1) as [[[]|e] w3];
        cbn [fst snd] in *.
      * specialize (Q w3). unfold same_relay, run in Q.
        destruct ((modify_handler finalise_request ;; _tryExecutePendingSwitch)%js w3)
          as [[[]|e] w4]; cbn [fst snd] in *; congruence.
      * pose proof (PseudoFacts.same_relay_frame cfg) as F.
        assert (preserves same_relay (_handleRequestError rt e)) as R
          by framed_go F idtac.
        specialize (R w3). unfold same_relay, run in R.
        destruct (_handleRequestError rt e w3) as [o5 w5]; cbn [fst snd] in *.
        specialize (Q w5). unfold same_relay, run in Q.
        destruct ((modify_handler finalise_request ;; _tryExecutePendingSwitch)%js w5)
          as [[[]|e'] w6]; cbn [fst snd] in *; congruence.
Qed.

End WithConfig.

Lemma buffered_request_errors_witness :
  (hd false (tl (links (Example.world new_handler []))) = false ->
   served 500
     (error_body Example.models_runtime 500 (Some "No available browser connection."))
     (res (run (processRequest Example.models_runtime default_config Example.system
                  Example.plain_request)
             (Example.world new_handler [])))
   /\ relay (run (processRequest Example.models_runtime default_config Example.system
                    Example.plain_request)
               (Example.world new_handler []))
      = relay (Example.world new_handler []))
  /\ (hd false (tl (links (Example.world new_handler []))) = true ->
      (inbox (Example.world new_handler []) = [] ->
       served 500 (error_body Example.models_runtime 500 (Some "Queue timeout"))
         (res (run (processRequest Example.models_runtime default_config Example.system
                      Example.plain_request)
                 (Example.world new_handler []))))
      /\ (forall status message rest,
            inbox (Example.world new_handler [])
            = Msg (ErrorEvent status message) :: rest ->
            served (or_default status 500)
              (error_body Example.models_runtime (or_default status 500) message)
              (res (run (processRequest Example.models_runtime default_config
                           Example.system Example.plain_request)
                      (Example.world new_handler []))))
      /\ exists frame,
           relay (run (processRequest Example.models_runtime default_config
                         Example.system Example.plain_request)
                    (Example.world new_handler []))
           = relay (Example.world new_handler []) ++ [frame]
           /\ streaming_mode frame = "fake").
Proof.
  apply (buffered_request_errors Example.models_runtime default_config Example.system
           Example.plain_request (Example.world new_handler []));
    try reflexivity.
  vm_compute. repeat split; reflexivity.
Defined.

End BufferedErrorFacts.

(* ================================================================== *)
(** * The frame of a request *)
(* ================================================================== *)

Module FrameFacts.

Lemma assoc_set_field_other k k' x : forall fields,
  k <> k' -> assoc k (set_field k' x fields) = assoc k fields.
Proof.
  intros fields H. induction fields as [|[k0 v0] fields IH]; simpl.
  - destruct (String.eqb k k') eqn:E; [apply String.eqb_eq in E; congruence | reflexivity].
  - destruct (String.eqb k' k0) eqn:E; simpl.
    + apply String.eqb_eq in E. subst k0.
      destruct (String.eqb k k') eqn:E'; [apply String.eqb_eq in E'; congruence | reflexivity].
    + rewrite IH. reflexivity.
Qed.

Lemma inject_thinking_spec fields :
  match assoc "generationConfig" fields with
  | JObj _ => True
  | v => truthy v = false
  end ->
  exists fields',
    inject_thinking (JObj fields) = Some (JObj fields')
    /\ get_opt (get_opt (assoc "generationConfig" fields') "thinkingConfig")
         "includeThoughts" = JBool true
    /\ (forall k, k <> "generationConfig" -> assoc k fields' = assoc k fields)
    /\ (forall k, k <> "thinkingConfig" ->
          get_opt (assoc "generationConfig" fields') k
          = match assoc "generationConfig" fields with
            | JObj g => assoc k g
            | _ => JUndefined
            end).
Proof.
  intro Hgc. unfold inject_thinking.
  set (fields1 := if truthy (assoc "generationConfig" fields) then fields
                  else set_field "generationConfig" (JObj []) fields).
  assert (exists g, assoc "generationConfig" fields1 = JObj g
                    /\ (forall k, k <> "generationConfig" ->
                          assoc k fields1 = assoc k fields)
                    /\ (forall k, assoc k g
                                  = match assoc "generationConfig" fields with
                                    | JObj g0 => assoc k g0
                                    | _ => JUndefined
                                    end)) as (g & Eg & Hother & Hg).
  { subst fields1. destruct (assoc "generationConfig" fields) as [| | | | | |g] eqn:E;
      try (rewrite Hgc; exists []; split; [apply BufferedFacts.assoc_set_field|];
           split; [intros k Hk; apply assoc_set_field_other, Hk | reflexivity]).
    cbn [truthy]. exists g. auto. }
  rewrite Eg. eexists. split; [reflexivity|].
  rewrite BufferedFacts.assoc_set_field. unfold get_opt. cbn [get].
  rewrite BufferedFacts.assoc_set_field. cbn [get assoc String.eqb].
  split; [reflexivity|]. split.
  - intros k Hk. rewrite assoc_set_field_other by exact Hk. apply Hother, Hk.
  - intros k Hk. rewrite assoc_set_field_other by exact Hk. apply Hg.
Qed.

Section WithSystem.
Variable rt : Runtime.
Variable sys : ServerSystem.

(** X20: native thinking.  With [enableNativeReasoning] on, a request to
    a [generateContent] path whose body is an object (one that
    [JSON.parse(JSON.stringify(...))] gives back) is forwarded with
    [generationConfig.thinkingConfig.includeThoughts] set to [true];
    every other field of the body and every other field of
    [generationConfig] is forwarded as it was.  This holds when
    [generationConfig] is an object or is missing or falsy (it is then
    created). *)
Theorem native_thinking_is_injected req requestId fields :
  enableNativeReasoning sys = true ->
  is_generate_path (req_path req) = true ->
  req_body req = JObj fields ->
  JSON_parse rt (JSON_stringify rt (JObj fields)) = Some (JObj fields) ->
  match assoc "generationConfig" fields with
  | JObj _ => True
  | v => truthy v = false
  end ->
  exists fields',
    body (_buildProxyRequest rt sys req requestId) = JSON_stringify rt (JObj fields')
    /\ get_opt (get_opt (assoc "generationConfig" fields') "thinkingConfig")
         "includeThoughts" = JBool true
    /\ (forall k, k <> "generationConfig" -> assoc k fields' = assoc k fields)
    /\ (forall k, k <> "thinkingConfig" ->
          get_opt (assoc "generationConfig" fields') k
          = match assoc "generationConfig" fields with
            | JObj g => assoc k g
            | _ => JUndefined
            end).
Proof.
  intros Hon Hpath Hbody Hround Hgc.
  destruct (inject_thinking_spec fields Hgc) as (fields' & Ei & H1 & H2 & H3).
  exists fields'. split; [|auto].
  unfold _buildProxyRequest. cbn [body]. rewrite Hon, Hpath, Hbody. cbn [andb].
  rewrite Hround, Ei. reflexivity.
Qed.

End WithSystem.

Lemma native_thinking_is_injected_witness :
  exists fields',
    body (_buildProxyRequest Sample.thinking_runtime Sample.thinking_system
            Sample.thinking_request "id")
    = JSON_stringify Sample.thinking_runtime (JObj fields')
    /\ get_opt (get_opt (assoc "generationConfig" fields') "thinkingConfig")
         "includeThoughts" = JBool true
    /\ (forall k, k <> "generationConfig" ->
          assoc k fields' = assoc k Sample.thinking_fields)
    /\ (forall k, k <> "thinkingConfig" ->
          get_opt (assoc "generationConfig" fields') k
          = match assoc "generationConfig" Sample.thinking_fields with
            | JObj g => assoc k g
            | _ => JUndefined
            end).
Proof.
  apply (native_thinking_is_injected Sample.thinking_runtime Sample.thinking_system
           Sample.thinking_request "id" Sample.thinking_fields);
    first [ vm_compute; reflexivity | exact I ].
Defined.

End FrameFacts.

(* ================================================================== *)
(** * Errors of a streamed chat completion *)
(* ================================================================== *)

Module ChatStreamFacts.
Import HandlerFacts.

Section WithConfig.
Variable rt : Runtime.
Variable cfg : Config.
Variable sys : ServerSystem.

Lemma must_switch_reads_failures status h h' :
  failureCount h' = failureCount h ->
  must_switch cfg status (count_failure cfg h') = must_switch cfg status (count_failure cfg h).
Proof.
  intro E. unfold must_switch, count_failure.
  destruct (0 <? failureThreshold cfg); simpl; try rewrite E; reflexivity.
Qed.

(** [res.write("data: [DONE]\n\n"); res.end()] on a response of which
    nothing has left: the status line goes out with the status the
    response holds. *)
Lemma done_unsent w :
  unsent (res w) ->
  served (Res.statusCode (res w)) ("data: [DONE]" ++ nl ++ nl)
    (res (run (modify_res (Res.write ("data: [DONE]" ++ nl ++ nl)) ;;
               modify_res Res.end_)%js w))
  /\ Res.headersSent
       (res (run (modify_res (Res.write ("data: [DONE]" ++ nl ++ nl)) ;;
                  modify_res Res.end_)%js w)) = true.
Proof.
  intros (Hs & He & Hl & Ho).
  unfold run, served, bind, modify_res, put_res, Res.write, Res.end_, Res.flush.
  simpl. repeat (first [rewrite Hs | rewrite He]; simpl).
  rewrite Hl, Ho. simpl. repeat split; reflexivity.
Qed.

(** X21: a streamed chat completion does not show an error of the
    relay.  When the first answer to a chat completion with
    [stream: true] is an error event and no rotation is due, the client
    gets the status the response holds (200 unless it was changed) and
    a stream that is only [data: [DONE]]: neither the status nor the
    message of the error reaches it. *)
Theorem streamed_chat_hides_the_error req w model googleBody status message rest :
  gate_closed (handler w) = false ->
  get (req_body req) "stream" = Some (JBool true) ->
  get (req_body req) "model" = Some model ->
  Translator._translateOpenAIToGoogle sys (req_body req) = Some googleBody ->
  hd false (links w) = true ->
  keepAlive w = false ->
  unsent (res w) ->
  inbox w = Msg (ErrorEvent status message) :: rest ->
  must_switch cfg status (count_failure cfg (handler w)) = false ->
  served (Res.statusCode (res w)) ("data: [DONE]" ++ nl ++ nl)
    (res (run (processOpenAIRequest rt cfg sys req) w)).
Proof.
  intros Hgate Hstream Hmodel Htr Hlink Hk Hun Hin Hno.
  unfold run. destruct (processOpenAIRequest rt cfg sys req w) as [o w'] eqn:E.
  cbn [snd].
  unfold processOpenAIRequest in E.
  unfold bind at 1 in E. unfold get_handler at 1 in E. rewrite Hgate in E.
  unfold bind at 1 in E. unfold modify_handler at 1 in E.
  unfold bind at 1 in E. unfold modify_handler at 1 in E.
  unfold bind at 1 in E. unfold _generateRequestId, pop_ids in E.
  cbn [handler ids] in E. rewrite Hstream, Hmodel, Htr in E.
  match type of E with
  | finally _ _ ?x = _ => set (wA := x) in E
  end.
  assert (failureCount (handler wA) = failureCount (handler w)) as HfA.
  { subst wA. cbn [handler].
    rewrite (proj1 (InterleavingFacts.count_use_failures cfg true _)). reflexivity. }
  assert (unsent (res wA)) as HunA by exact Hun.
  assert (Res.statusCode (res wA) = Res.statusCode (res w)) as HstA by reflexivity.
  assert (hd false (links wA) = true) as HlA by exact Hlink.
  assert (keepAlive wA = false) as HkA by exact Hk.
  assert (inbox wA = Msg (ErrorEvent status message) :: rest) as HiA by exact Hin.
  clearbody wA.
  match type of E with
  | finally (try_catch (bind (_forwardRequest ?q) _) _) _ _ = _ => set (p := q) in E
  end.
  destruct (BufferedFacts.forward_up p wA HlA) as (w1 & E1 & Fh & Fr & Fy & Fi & _ & Fk).
  rewrite HkA in Fk.
  destruct (BufferedFacts.dequeue_plain w1 Fk) as (w2 & E2 & Dh & Dr & Dy & Di & _ & Dk).
  rewrite Fi, HiA in E2.
  unfold finally, try_catch in E. unfold bind at 1 in E. rewrite E1 in E.
  unfold bind at 1 in E. rewrite E2 in E. cbn [is_error] in E.
  unfold bind at 1 in E.
  assert (_handleRequestFailureAndSwitch rt cfg (ErrorEvent status message) true w2
          = (Return tt, run (modify_handler (count_failure cfg)) w2)) as E3.
  { unfold _handleRequestFailureAndSwitch. unfold bind at 1. unfold modify_handler at 1.
    unfold bind at 1. unfold get_handler at 1. cbn [handler msg_status].
    rewrite (must_switch_reads_failures status (handler w) (handler w2)), Hno
      by congruence.
    reflexivity. }
  rewrite E3 in E. unfold bind at 1 in E. unfold get_res at 1 in E.
  set (w3 := run (modify_handler (count_failure cfg)) w2) in *.
  assert (unsent (res w3)) as Hun3.
  { subst w3. unfold run, modify_handler. cbn. rewrite Dr, Fr. exact HunA. }
  assert (Res.statusCode (res w3) = Res.statusCode (res w)) as Hst3.
  { subst w3. unfold run, modify_handler. cbn. rewrite Dr, Fr. exact HstA. }
  pose proof Hun3 as (_ & He3 & _). rewrite He3 in E. cbn [negb when] in E.
  destruct (done_unsent w3 Hun3) as [Hs4 Hh4]. rewrite Hst3 in Hs4.
  unfold run in Hs4, Hh4.
  destruct ((modify_res (Res.write ("data: [DONE]" ++ nl ++ nl)) ;;
             modify_res Res.end_)%js w3) as [[[]|e] w4] eqn:E4; [|discriminate E4].
  cbn [fst snd] in *.
  pose proof Hs4 as (Hl4 & Ho4 & He4).
  unfold bind at 1 in E. unfold get_res at 1 in E. rewrite He4 in E.
  cbn [negb when] in E. unfold bind at 1 in E. unfold ret at 1 in E.
  unfold bind at 1 in E. unfold modify_handler at 1 in E.
  match type of E with
  | (let (_, _) := _tryExecutePendingSwitch ?x in _) = _ => set (w5 := x) in E
  end.
  assert (preserves Buffered.settled _tryExecutePendingSwitch) as P
    by framed_go (BufferedFacts.settled_frame cfg) idtac.
  specialize (P w5). unfold Buffered.settled, run in P.
  destruct (P Hh4 He4) as (_ & He' & Hl' & _ & Ho').
  assert (snd (_tryExecutePendingSwitch w5) = w') as Ew.
  { destruct (_tryExecutePendingSwitch w5) as [[[]|e] w6]; cbn [snd];
      injection E as _ <-; reflexivity. }
  rewrite Ew in *.
  unfold served. subst w5. cbn [res] in *. rewrite Hl', Ho', He'. auto.
Qed.

End WithConfig.

Lemma streamed_chat_hides_the_error_witness :
  served (Res.statusCode (res (Example.world new_handler Sample.upstream_error)))
    ("data: [DONE]" ++ nl ++ nl)
    (res (run (processOpenAIRequest Example.models_runtime default_config Example.system
                 Sample.stream_chat_request)
            (Example.world new_handler Sample.upstream_error))).
Proof.
  apply (streamed_chat_hides_the_error Example.models_runtime default_config
           Example.system Sample.stream_chat_request
           (Example.world new_handler Sample.upstream_error)
           (JStr "gemini-pro") Sample.stream_chat_translated (Some 500) (Some "boom") []);
    try (vm_compute; reflexivity).
  vm_compute. repeat split; reflexivity.
Defined.

End ChatStreamFacts.

(* ================================================================== *)
(** * The headers of a relayed response *)
(* ================================================================== *)

Module HeaderFacts.

Lemma put_header_in k0 v0 fields k v :
  In (k, v) (Res.put_header k0 v0 fields) ->
  (k, v) = (k0, v0)
  \/ (In (k, v) fields /\ toLowerCase k <> toLowerCase k0).
Proof.
  unfold Res.put_header. rewrite in_app_iff, filter_In. simpl.
  intros [[Hin Hne]|[H|[]]]; [right | left; congruence].
  split; [exact Hin|]. intro E. rewrite E, String.eqb_refl in Hne. discriminate.
Qed.

Lemma set_unsent k v w :
  Res.headersSent (res w) = false ->
  try_res (Res.set k v) w
  = (Return tt,
     put_res {| Res.statusCode := Res.statusCode (res w); Res.headersSent := false;
                Res.writableEnded := Res.writableEnded (res w);
                Res.header_fields := Res.put_header k v (Res.header_fields (res w));
                Res.statusLines := Res.statusLines (res w);
                Res.out := Res.out (res w) |} w).
Proof. intro H. unfold try_res, Res.set. rewrite H. reflexivity. Qed.

Lemma copy_headers_spec isStream headers : forall w,
  Res.headersSent (res w) = false ->
  completion (copy_headers isStream headers) w = Return tt
  /\ Res.headersSent (res (run (copy_headers isStream headers) w)) = false
  /\ Res.statusCode (res (run (copy_headers isStream headers) w)) = Res.statusCode (res w)
  /\ Res.statusLines (res (run (copy_headers isStream headers) w))
     = Res.statusLines (res w)
  /\ (forall k v,
        In (k, v) (Res.header_fields (res (run (copy_headers isStream headers) w))) ->
        In (k, v) (Res.header_fields (res w))
        \/ (In (k, v) headers
            /\ toLowerCase k <> "content-length"
            /\ (isStream = true -> toLowerCase k <> "content-type"))).
Proof.
  induction headers as [|[name value] headers IH]; intros w Hs.
  - unfold completion, run. simpl. repeat split; auto.
  - unfold completion, run in *. cbn [copy_headers]. unfold bind.
    destruct (String.eqb (toLowerCase name) "content-length") eqn:E1.
    { unfold ret. destruct (IH w Hs) as (H1 & H2 & H3 & H4 & H5).
      destruct (copy_headers isStream headers w) as [o w1]. simpl in *.
      repeat split; auto. intros k v Hin. destruct (H5 k v Hin) as [H|(H & Ha & Hb)];
        [left; exact H | right; simpl; auto]. }
    destruct (isStream && String.eqb (toLowerCase name) "content-type") eqn:E2.
    { unfold ret. destruct (IH w Hs) as (H1 & H2 & H3 & H4 & H5).
      destruct (copy_headers isStream headers w) as [o w1]. simpl in *.
      repeat split; auto. intros k v Hin. destruct (H5 k v Hin) as [H|(H & Ha & Hb)];
        [left; exact H | right; simpl; auto]. }
    rewrite (set_unsent name value w Hs).
    match goal with |- context [copy_headers isStream headers ?x] => set (w0 := x) end.
    destruct (IH w0 eq_refl) as (H1 & H2 & H3 & H4 & H5).
    destruct (copy_headers isStream headers w0) as [o w1]. simpl in *.
    repeat split; auto. intros k v Hin.
    destruct (H5 k v Hin) as [H|(H & Ha & Hb)]; [|right; auto].
    apply put_header_in in H. destruct H as [H|[H _]]; [|left; exact H].
    injection H as -> ->. right. split; [left; reflexivity|]. split.
    + intro E. rewrite E in E1. discriminate.
    + intros -> E. rewrite E in E2. discriminate.
Qed.

(** X22: the headers of a relayed response.  [_setResponseHeaders], on a
    response whose headers are not out, does not throw, sets the status
    of the relay (200 when it has none) and sends nothing yet; it never
    hands on a [Content-Length] of the relay, whatever the case of the
    name; and for a stream the only content type left is
    [text/event-stream], whatever the relay sent. *)
Theorem relayed_headers_are_filtered headerMessage isStream w :
  Res.headersSent (res w) = false ->
  completion (_setResponseHeaders headerMessage isStream) w = Return tt
  /\ Res.headersSent (res (run (_setResponseHeaders headerMessage isStream) w)) = false
  /\ Res.statusCode (res (run (_setResponseHeaders headerMessage isStream) w))
     = or_default (msg_status headerMessage) 200
  /\ Res.statusLines (res (run (_setResponseHeaders headerMessage isStream) w))
     = Res.statusLines (res w)
  /\ (forall k v,
        In (k, v)
          (Res.header_fields (res (run (_setResponseHeaders headerMessage isStream) w))) ->
        toLowerCase k = "content-length" ->
        In (k, v) (Res.header_fields (res w)))
  /\ (isStream = true ->
      forall k v,
        In (k, v)
          (Res.header_fields (res (run (_setResponseHeaders headerMessage isStream) w))) ->
        toLowerCase k = "content-type" ->
        (k, v) = ("Content-Type", "text/event-stream")).
Proof.
  intro Hs. unfold completion, run.
  destruct (_setResponseHeaders headerMessage isStream w) as [o w'] eqn:E.
  cbn [fst snd].
  unfold _setResponseHeaders in E. unfold bind at 1 in E. unfold modify_res at 1 in E.
  match type of E with bind _ _ ?x = _ => set (w0 := x) in E end.
  assert (Res.headersSent (res w0) = false) as Hs0 by exact Hs.
  destruct (copy_headers_spec isStream (msg_headers headerMessage) w0 Hs0)
    as (H1 & H2 & H3 & H4 & H5).
  unfold completion, run in H1, H2, H3, H4, H5. unfold bind at 1 in E.
  destruct (copy_headers isStream (msg_headers headerMessage) w0) as [o1 w1].
  simpl in H1, H2, H3, H4, H5. subst o1.
  destruct isStream; cbn [when] in E.
  - unfold set_sse_headers in E. unfold bind at 1 in E.
    rewrite (set_unsent "Content-Type" "text/event-stream" w1 H2) in E.
    unfold bind at 1 in E.
    match type of E with
    | (let (_, _) := try_res _ ?x in _) = _ => set (w2 := x) in E
    end.
    rewrite (set_unsent "Cache-Control" "no-cache" w2 eq_refl) in E.
    match type of E with
    | try_res _ ?x = _ => set (w3 := x) in E
    end.
    rewrite (set_unsent "Connection" "keep-alive" w3 eq_refl) in E.
    injection E as <- <-.
    cbn [fst snd res put_res Res.headersSent Res.statusCode Res.statusLines
         Res.header_fields w3 w2].
    split; [reflexivity|]. split; [reflexivity|]. split; [exact H3|].
    split; [exact H4|]. split.
    + intros k v Hin E.
      apply put_header_in in Hin. destruct Hin as [Hin|[Hin _]];
        [injection Hin as -> ->; discriminate E|].
      apply put_header_in in Hin. destruct Hin as [Hin|[Hin _]];
        [injection Hin as -> ->; discriminate E|].
      apply put_header_in in Hin. destruct Hin as [Hin|[Hin _]];
        [injection Hin as -> ->; discriminate E|].
      destruct (H5 k v Hin) as [H|(_ & Hne & _)]; [exact H | contradiction].
    + intros _ k v Hin E.
      apply put_header_in in Hin. destruct Hin as [Hin|[Hin _]];
        [injection Hin as -> ->; discriminate E|].
      apply put_header_in in Hin. destruct Hin as [Hin|[Hin _]];
        [injection Hin as -> ->; discriminate E|].
      apply put_header_in in Hin. destruct Hin as [Hin|[_ Hne]]; [exact Hin|].
      contradiction Hne.
  - unfold ret in E. injection E as <- <-.
    split; [reflexivity|]. split; [exact H2|]. split; [exact H3|].
    split; [exact H4|]. split.
    + intros k v Hin E. destruct (H5 k v Hin) as [H|(_ & Hne & _)];
        [exact H | contradiction].
    + discriminate.
Qed.

Lemma relayed_headers_are_filtered_witness :
  completion (_setResponseHeaders Sample.relayed_headers true)
    (Example.world new_handler []) = Return tt
  /\ Res.headersSent
       (res (run (_setResponseHeaders Sample.relayed_headers true)
               (Example.world new_handler []))) = false
  /\ Res.statusCode
       (res (run (_setResponseHeaders Sample.relayed_headers true)
               (Example.world new_handler [])))
     = or_default (msg_status Sample.relayed_headers) 200
  /\ Res.statusLines
       (res (run (_setResponseHeaders Sample.relayed_headers true)
               (Example.world new_handler [])))
     = Res.statusLines (res (Example.world new_handler []))
  /\ (forall k v,
        In (k, v)
          (Res.header_fields
             (res (run (_setResponseHeaders Sample.relayed_headers true)
                     (Example.world new_handler [])))) ->
        toLowerCase k = "content-length" ->
        In (k, v) (Res.header_fields (res (Example.world new_handler []))))
  /\ (true = true ->
      forall k v,
        In (k, v)
          (Res.header_fields
             (res (run (_setResponseHeaders Sample.relayed_headers true)
                     (Example.world new_handler [])))) ->
        toLowerCase k = "content-type" ->
        (k, v) = ("Content-Type", "text/event-stream")).
Proof.
  apply (relayed_headers_are_filtered Sample.relayed_headers true
           (Example.world new_handler [])).
  reflexivity.
Defined.

End HeaderFacts.

(* ================================================================== *)
(** * Configuration and the API key check *)
(* ================================================================== *)

Module LoadedFacts.
Import Loaded.

Section WithRuntime.
Variable rt : Runtime.

Lemma denied_sent w :
  unsent (res w) ->
  completion (denied rt) w = Return tt
  /\ served 401 (denied_body rt) (res (run (denied rt) w))
  /\ handler (run (denied rt) w) = handler w
  /\ relay (run (denied rt) w) = relay w
  /\ inbox (run (denied rt) w) = inbox w.
Proof.
  intros (Hs & He & Hl & Ho).
  unfold completion, run, served, denied, bind, modify_res, try_res, Res.json, Res.set,
    Res.send, Res.write, Res.end_, Res.flush, Res.status.
  simpl. repeat (first [rewrite Hs | rewrite He]; simpl).
  rewrite Hl, Ho. simpl. repeat split; reflexivity.
Qed.

Lemma existsb_eqb key keys : existsb (String.eqb key) keys = true <-> In key keys.
Proof.
  rewrite existsb_exists. split.
  - intros (x & Hin & E). apply String.eqb_eq in E. subst x. exact Hin.
  - intro Hin. exists key. split; [exact Hin | apply String.eqb_refl].
Qed.

Lemma refused keys req next :
  keys <> [] ->
  (forall key, clientKey req = Some key -> key = EmptyString \/ ~ In key keys) ->
  _createAuthMiddleware rt keys req next = denied rt.
Proof.
  intros Hk Hc. unfold _createAuthMiddleware.
  destruct keys as [|k0 keys']; [congruence|].
  destruct (clientKey req) as [key|]; [|reflexivity].
  destruct (Hc key eq_refl) as [-> | Hn]; [reflexivity|].
  destruct (existsb (String.eqb key) (k0 :: keys')) eqn:E.
  - apply existsb_eqb in E. contradiction.
  - rewrite andb_false_r. reflexivity.
Qed.

Lemma passed keys req key next :
  clientKey req = Some key -> key <> EmptyString -> In key keys ->
  _createAuthMiddleware rt keys req next = next (without_key req).
Proof.
  intros Hc Hn Hin. unfold _createAuthMiddleware.
  destruct keys as [|k0 keys']; [contradiction|].
  rewrite Hc. apply existsb_eqb in Hin. rewrite Hin.
  destruct (String.eqb key "") eqn:E; [apply String.eqb_eq in E; contradiction|].
  reflexivity.
Qed.

Lemma a_request_without_a_server_key_is_denied_aux keys req next w :
  keys <> [] ->
  (forall key, clientKey req = Some key -> key = EmptyString \/ ~ In key keys) ->
  unsent (res w) ->
  _createAuthMiddleware rt keys req next w = denied rt w
  /\ completion (_createAuthMiddleware rt keys req next) w = Return tt
  /\ served 401 (denied_body rt) (res (run (_createAuthMiddleware rt keys req next) w))
  /\ handler (run (_createAuthMiddleware rt keys req next) w) = handler w
  /\ relay (run (_createAuthMiddleware rt keys req next) w) = relay w
  /\ inbox (run (_createAuthMiddleware rt keys req next) w) = inbox w.
Proof.
  intros Hk Hc Hun. rewrite (refused keys req next Hk Hc).
  split; [reflexivity|]. apply denied_sent, Hun.
Qed.

(** X23: a request that brings no key of the server is answered 401
    with "Access denied." and goes no further: whatever comes next in the
    chain is not run, nothing reaches the relay and the rotation fields
    are as they were. *)
Theorem a_request_without_a_server_key_is_denied keys req next w :
  keys <> [] ->
  (forall key, clientKey req = Some key -> key = EmptyString \/ ~ In key keys) ->
  unsent (res w) ->
  _createAuthMiddleware rt keys req next w = denied rt w
  /\ completion (_createAuthMiddleware rt keys req next) w = Return tt
  /\ served 401 (denied_body rt) (res (run (_createAuthMiddleware rt keys req next) w))
  /\ handler (run (_createAuthMiddleware rt keys req next) w) = handler w
  /\ relay (run (_createAuthMiddleware rt keys req next) w) = relay w
  /\ inbox (run (_createAuthMiddleware rt keys req next) w) = inbox w.
Proof.
  intros Hk Hc Hun. apply a_request_without_a_server_key_is_denied_aux; assumption.
Qed.

Lemma header_filter_other name key q :
  name <> key ->
  header name (filter (fun kv : string * string => negb (String.eqb (fst kv) key)) q)
  = header name q.
Proof.
  intro Hn. induction q as [|[k v] q IH]; [reflexivity|]. simpl.
  destruct (String.eqb k key) eqn:Ek; simpl.
  - apply String.eqb_eq in Ek. subst k.
    destruct (String.eqb key name) eqn:E; [apply String.eqb_eq in E; congruence|].
    exact IH.
  - destruct (String.eqb k name); [reflexivity | exact IH].
Qed.

Lemma header_filter_same key q :
  header key (filter (fun kv : string * string => negb (String.eqb (fst kv) key)) q) = None.
Proof.
  induction q as [|[k v] q IH]; [reflexivity|]. simpl.
  destruct (String.eqb k key) eqn:Ek; simpl; [exact IH|]. rewrite Ek. exact IH.
Qed.

(** X24: a request that brings a key of the server is handed on, and
    what is handed on has no [key] in its query any more (an empty one
    apart), while every other query parameter, the headers, the path,
    the method and the body are as they came.  So the frame built for
    the relay carries no [key] parameter, but it still carries the
    headers, the one with the key included. *)
Theorem an_accepted_request_loses_its_query_key keys req key next w :
  clientKey req = Some key -> key <> EmptyString -> In key keys ->
  _createAuthMiddleware rt keys req next w = next (without_key req) w
  /\ nonempty (header "key" (req_query (without_key req))) = false
  /\ (forall name, name <> "key"%string ->
        header name (req_query (without_key req)) = header name (req_query req))
  /\ req_headers (without_key req) = req_headers req
  /\ req_path (without_key req) = req_path req
  /\ req_method (without_key req) = req_method req
  /\ req_body (without_key req) = req_body req
  /\ forall sys requestId,
       nonempty (header "key"
                   (query_params (_buildProxyRequest rt sys (without_key req) requestId)))
       = false
       /\ headers (_buildProxyRequest rt sys (without_key req) requestId) = req_headers req.
Proof.
  intros Hc Hn Hin. rewrite (passed keys req key next Hc Hn Hin).
  split; [reflexivity|].
  assert (nonempty (header "key" (req_query (without_key req))) = false) as Hq.
  { unfold without_key. destruct (nonempty (header "key" (req_query req))) eqn:E.
    - cbn [req_query]. rewrite header_filter_same. reflexivity.
    - exact E. }
  assert (req_headers (without_key req) = req_headers req) as Hh.
  { unfold without_key. destruct (nonempty (header "key" (req_query req))); reflexivity. }
  split; [exact Hq|]. split.
  { intros name Hname. unfold without_key.
    destruct (nonempty (header "key" (req_query req))); [|reflexivity].
    cbn [req_query]. apply header_filter_other, Hname. }
  split; [exact Hh|].
  split; [unfold without_key; destruct (nonempty (header "key" (req_query req)));
          reflexivity|].
  split; [unfold without_key; destruct (nonempty (header "key" (req_query req)));
          reflexivity|].
  split; [unfold without_key; destruct (nonempty (header "key" (req_query req)));
          reflexivity|].
  intros sys requestId. unfold _buildProxyRequest. cbn [query_params headers].
  split; [exact Hq | exact Hh].
Qed.

Lemma drop_app p key : String.length p = 7%nat -> drop 7 (p ++ key) = key.
Proof.
  intro Hl.
  do 7 (destruct p as [|? p]; [discriminate|]).
  destruct p; [reflexivity | discriminate].
Qed.

(** X25: which credential counts.  A non-empty [x-goog-api-key] is the
    only one looked at, so a wrong one is refused even beside a right
    [x-api-key] and a right [key] parameter.  Without it, an
    [Authorization] header counts from its eighth character on, whatever
    the first seven are: any seven characters followed by a key of the
    server are accepted. *)
Theorem which_credential_counts keys req next w :
  (forall goog,
     header "x-goog-api-key" (req_headers req) = Some goog ->
     goog <> EmptyString -> ~ In goog keys -> keys <> [] -> unsent (res w) ->
     _createAuthMiddleware rt keys req next w = denied rt w
     /\ Res.statusLines (res (run (_createAuthMiddleware rt keys req next) w)) = [401])
  /\ (forall scheme key,
        nonempty (header "x-goog-api-key" (req_headers req)) = false ->
        header "authorization" (req_headers req) = Some (scheme ++ key)%string ->
        String.length scheme = 7%nat -> key <> EmptyString -> In key keys ->
        _createAuthMiddleware rt keys req next w = next (without_key req) w).
Proof.
  split.
  - intros goog Hg Hne Hnot Hk Hun.
    assert (clientKey req = Some goog) as Hc.
    { unfold clientKey. rewrite Hg. simpl.
      destruct (String.eqb goog "") eqn:E; [apply String.eqb_eq in E; contradiction|].
      reflexivity. }
    assert (forall key, clientKey req = Some key -> key = EmptyString \/ ~ In key keys)
      as Hall.
    { intros key Hkey. rewrite Hc in Hkey. injection Hkey as <-. right. exact Hnot. }
    destruct (a_request_without_a_server_key_is_denied_aux keys req next w Hk Hall Hun)
      as (E & _ & (Hl & _) & _).
    split; [exact E | exact Hl].
  - intros scheme key Hg Ha Hl Hne Hin.
    assert (clientKey req = Some key) as Hc.
    { unfold clientKey. rewrite Hg, Ha.
      assert (scheme ++ key <> EmptyString)%string as Hs.
      { destruct scheme; [discriminate Hl | discriminate]. }
      destruct (String.eqb (scheme ++ key) "") eqn:E;
        [apply String.eqb_eq in E; contradiction|].
      rewrite (drop_app scheme key Hl). unfold nonempty.
      destruct (String.eqb key "") eqn:E2; [apply String.eqb_eq in E2; contradiction|].
      reflexivity. }
    rewrite (passed keys req key next Hc Hne Hin). reflexivity.
Qed.

Section WithEnvironment.
Variable e : Environment.

Lemma number_setting_spec name default :
  default <> 0 ->
  number_setting e name default <> 0
  /\ (variable e name = None -> number_setting e name default = default)
  /\ (forall text,
        variable e name = Some text ->
        (parseInt e text = None \/ parseInt e text = Some 0 \/ text = EmptyString ->
         number_setting e name default = default)
        /\ (forall n, text <> EmptyString -> parseInt e text = Some n -> n <> 0 ->
            number_setting e name default = n)).
Proof.
  intro Hd. unfold number_setting.
  destruct (variable e name) as [text|]; [|split; [exact Hd|]; split; [auto | discriminate]].
  split.
  { destruct (String.eqb text ""); [exact Hd|].
    unfold or_default. destruct (parseInt e text) as [n|]; [|exact Hd].
    destruct (n =? 0) eqn:E; [exact Hd | apply Z.eqb_neq, E]. }
  split; [discriminate|].
  intros text' Ht. injection Ht as <-. split.
  - intros [Hp | [Hp | ->]]; try reflexivity;
      destruct (String.eqb text ""); try reflexivity; rewrite Hp; reflexivity.
  - intros n Hne Hp Hn.
    destruct (String.eqb text "") eqn:E; [apply String.eqb_eq in E; contradiction|].
    rewrite Hp. unfold or_default.
    destruct (n =? 0) eqn:E0; [apply Z.eqb_eq in E0; contradiction | reflexivity].
Qed.

(** X26: no number of the configuration is 0.  The port, the failure
    threshold, the use limit, the number of retries and the retry delay
    are each the number [parseInt] reads in their variable when it is
    not 0, and their default (7860, 3, 40, 1, 2000) when the variable is
    missing or empty or reads as [NaN] or as 0: a limit cannot be
    switched off by setting it to 0. *)
Theorem a_configured_number_is_never_zero :
  Forall (fun setting : string * Z * Z =>
            let '(name, default, value) := setting in
            value <> 0
            /\ (variable e name = None -> value = default)
            /\ (forall text,
                  variable e name = Some text ->
                  (parseInt e text = None \/ parseInt e text = Some 0
                   \/ text = EmptyString -> value = default)
                  /\ (forall n, text <> EmptyString -> parseInt e text = Some n ->
                      n <> 0 -> value = n)))
    [("PORT"%string, 7860, httpPort (_loadConfiguration e));
     ("FAILURE_THRESHOLD"%string, 3, failureThreshold (_loadConfiguration e));
     ("SWITCH_ON_USES"%string, 40, switchOnUses (_loadConfiguration e));
     ("MAX_RETRIES"%string, 1, maxRetries (_loadConfiguration e));
     ("RETRY_DELAY"%string, 2000, retryDelay (_loadConfiguration e))].
Proof.
  apply Forall_cons; [apply (number_setting_spec "PORT" 7860); discriminate|].
  apply Forall_cons; [apply (number_setting_spec "FAILURE_THRESHOLD" 3); discriminate|].
  apply Forall_cons; [apply (number_setting_spec "SWITCH_ON_USES" 40); discriminate|].
  apply Forall_cons; [apply (number_setting_spec "MAX_RETRIES" 1); discriminate|].
  apply Forall_cons; [apply (number_setting_spec "RETRY_DELAY" 2000); discriminate|].
  apply Forall_nil.
Qed.

Lemma trimStart_head s :
  match trimStart s with
  | String c _ => is_space c = false
  | EmptyString => True
  end.
Proof.
  induction s as [|c s IH]; simpl; [exact I|].
  destruct (is_space c) eqn:E; [exact IH | exact E].
Qed.

Lemma trimEnd_idem s : trimEnd (trimEnd s) = trimEnd s.
Proof.
  induction s as [|c s IH]; [reflexivity|]. simpl.
  destruct (trimEnd s) as [|a t] eqn:E.
  - destruct (is_space c) eqn:Ec; [reflexivity|]. simpl. rewrite Ec. reflexivity.
  - change (trimEnd (String c (String a t))) with
      (match trimEnd (String a t) with
       | EmptyString => if is_space c then EmptyString else String c EmptyString
       | String x y => String c (String x y)
       end).
    rewrite IH. reflexivity.
Qed.

Lemma trim_idem s : trim (trim s) = trim s.
Proof.
  unfold trim. pose proof (trimStart_head s) as H.
  destruct (trimStart s) as [|c t]; [reflexivity|].
  assert (exists u, trimEnd (String c t) = String c u) as [u Hu].
  { simpl. destruct (trimEnd t); [rewrite H|]; eauto. }
  rewrite Hu. simpl trimStart. rewrite H. rewrite <- Hu. apply trimEnd_idem.
Qed.

Lemma clean_keys_spec keys key :
  In key (clean_keys keys) <-> key <> EmptyString /\ exists k, In k keys /\ key = trim k.
Proof.
  unfold clean_keys. rewrite filter_In, in_map_iff. split.
  - intros ((k & <- & Hin) & Hne). split; [|eauto].
    intro E. rewrite E in Hne. discriminate.
  - intros (Hne & k & Hin & ->). split; [eauto|].
    destruct (String.eqb (trim k) "") eqn:E; [apply String.eqb_eq in E; contradiction|].
    reflexivity.
Qed.

Lemma loaded_keys_spec :
  apiKeys (_loadConfiguration e) <> []
  /\ (forall key, In key (apiKeys (_loadConfiguration e)) ->
        key <> EmptyString /\ trim key = key)
  /\ (apiKeys (_loadConfiguration e) = ["123456"%string]
      \/ exists text, variable e "API_KEYS" = Some text
                      /\ apiKeys (_loadConfiguration e) = clean_keys (split_comma text)).
Proof.
  unfold _loadConfiguration. cbn [apiKeys].
  set (pieces := if nonempty (variable e "API_KEYS")
                 then split_comma (text_setting e "API_KEYS" "") else []).
  assert (forall key, In key (clean_keys pieces) -> key <> EmptyString /\ trim key = key)
    as Hclean.
  { intros key Hin. apply clean_keys_spec in Hin. destruct Hin as (Hne & k & _ & ->).
    split; [exact Hne | apply trim_idem]. }
  destruct (clean_keys pieces) as [|k0 rest] eqn:E.
  - split; [discriminate|]. split; [|left; reflexivity].
    intros key [<- | []]. split; [discriminate | reflexivity].
  - split; [discriminate|]. split; [exact Hclean|]. right.
    subst pieces. unfold text_setting in E. unfold nonempty in E.
    destruct (variable e "API_KEYS") as [text|]; [|discriminate].
    exists text. split; [reflexivity|].
    destruct (String.eqb text ""); [discriminate|]. symmetry. exact E.
Qed.

End WithEnvironment.

(** X27: the key check cannot be switched off.  Whatever the
    environment holds, the loaded configuration has at least one API
    key, every key is non-empty and has no blank at either end, and when
    [API_KEYS] gives none (it is missing, empty, or only commas and
    blanks) the one key is "123456".  So the branch of the check that
    lets everything through is never taken: a request that brings no
    key is answered 401 under every environment. *)
Theorem the_key_check_cannot_be_switched_off e req next w :
  apiKeys (_loadConfiguration e) <> []
  /\ (forall key, In key (apiKeys (_loadConfiguration e)) ->
        key <> EmptyString /\ trim key = key)
  /\ (apiKeys (_loadConfiguration e) = ["123456"%string]
      \/ exists text, variable e "API_KEYS" = Some text
                      /\ apiKeys (_loadConfiguration e) = clean_keys (split_comma text))
  /\ ((forall key, clientKey req = Some key -> key = EmptyString) ->
      unsent (res w) ->
      _createAuthMiddleware rt (apiKeys (_loadConfiguration e)) req next w = denied rt w
      /\ Res.statusLines
           (res (run (_createAuthMiddleware rt (apiKeys (_loadConfiguration e)) req next)
                   w)) = [401]).
Proof.
  destruct (loaded_keys_spec e) as (Hne & Hkeys & Hdefault).
  split; [exact Hne|]. split; [exact Hkeys|]. split; [exact Hdefault|].
  intros Hc Hun.
  assert (forall key, clientKey req = Some key ->
                      key = EmptyString \/ ~ In key (apiKeys (_loadConfiguration e)))
    as Hall by (intros key Hk; left; apply Hc, Hk).
  destruct (a_request_without_a_server_key_is_denied_aux
              (apiKeys (_loadConfiguration e)) req next w Hne Hall Hun)
    as (E & _ & (Hl & _) & _).
  split; [exact E | exact Hl].
Qed.

End WithRuntime.

Lemma a_request_without_a_server_key_is_denied_witness :
  _createAuthMiddleware Example.models_runtime ["123456"%string] Sample.bare_request
    Sample.models_route Sample.arrival
  = denied Example.models_runtime Sample.arrival
  /\ completion (_createAuthMiddleware Example.models_runtime ["123456"%string]
                   Sample.bare_request Sample.models_route) Sample.arrival = Return tt
  /\ served 401 (denied_body Example.models_runtime)
       (res (run (_createAuthMiddleware Example.models_runtime ["123456"%string]
                    Sample.bare_request Sample.models_route) Sample.arrival))
  /\ handler (run (_createAuthMiddleware Example.models_runtime ["123456"%string]
                     Sample.bare_request Sample.models_route) Sample.arrival)
     = handler Sample.arrival
  /\ relay (run (_createAuthMiddleware Example.models_runtime ["123456"%string]
                   Sample.bare_request Sample.models_route) Sample.arrival)
     = relay Sample.arrival
  /\ inbox (run (_createAuthMiddleware Example.models_runtime ["123456"%string]
                   Sample.bare_request Sample.models_route) Sample.arrival)
     = inbox Sample.arrival.
Proof.
  apply (a_request_without_a_server_key_is_denied Example.models_runtime
           ["123456"%string] Sample.bare_request Sample.models_route Sample.arrival).
  - discriminate.
  - intros key H. vm_compute in H. discriminate.
  - vm_compute. repeat split; reflexivity.
Defined.

Lemma an_accepted_request_loses_its_query_key_witness :
  _createAuthMiddleware Example.models_runtime ["123456"%string] Sample.keyed_request
    Sample.models_route Sample.arrival
  = Sample.models_route (without_key Sample.keyed_request) Sample.arrival
  /\ header "key" (req_query (without_key Sample.keyed_request)) = None
  /\ header "alt" (req_query (without_key Sample.keyed_request)) = Some "sse"%string.
Proof.
  destruct (an_accepted_request_loses_its_query_key Example.models_runtime
              ["123456"%string] Sample.keyed_request "123456" Sample.models_route
              Sample.arrival)
    as (H1 & _ & H3 & _).
  - reflexivity.
  - discriminate.
  - left. reflexivity.
  - split; [exact H1|]. split; [reflexivity|].
    rewrite (H3 "alt"%string); [reflexivity | discriminate].
Defined.

Lemma which_credential_counts_witness :
  Res.statusLines
    (res (run (_createAuthMiddleware Example.models_runtime ["123456"%string]
                 Sample.wrong_key_request Sample.models_route) Sample.arrival)) = [401]
  /\ _createAuthMiddleware Example.models_runtime ["123456"%string] Sample.keyed_request
       Sample.models_route Sample.arrival
     = Sample.models_route (without_key Sample.keyed_request) Sample.arrival.
Proof.
  split.
  - apply (proj1 (which_credential_counts Example.models_runtime ["123456"%string]
                    Sample.wrong_key_request Sample.models_route Sample.arrival)
             "nope"%string).
    + reflexivity.
    + discriminate.
    + intros [H | []]. discriminate.
    + discriminate.
    + vm_compute. repeat split; reflexivity.
  - apply (proj2 (which_credential_counts Example.models_runtime ["123456"%string]
                    Sample.keyed_request Sample.models_route Sample.arrival)
             "Bearer "%string "123456"%string).
    + reflexivity.
    + reflexivity.
    + reflexivity.
    + discriminate.
    + left. reflexivity.
Defined.

Lemma the_key_check_cannot_be_switched_off_witness :
  apiKeys (_loadConfiguration Sample.blank_keys) = ["123456"%string]
  /\ Res.statusLines
       (res (run (_createAuthMiddleware Example.models_runtime
                    (apiKeys (_loadConfiguration Sample.blank_keys))
                    Sample.bare_request Sample.models_route) Sample.arrival)) = [401].
Proof.
  destruct (the_key_check_cannot_be_switched_off Example.models_runtime
              Sample.blank_keys Sample.bare_request Sample.models_route Sample.arrival)
    as (_ & _ & _ & H).
  split; [reflexivity|]. apply H.
  - intros key Hk. vm_compute in Hk. discriminate.
  - vm_compute. repeat split; reflexivity.
Defined.

End LoadedFacts.

(* ================================================================== *)
(** * Start-up *)
(* ================================================================== *)

Module StartupFacts.
Import Startup.

Lemma filter_other_perm i : forall l,
  NoDup l -> In i l -> Permutation (i :: filter (fun j => negb (j =? i)) l) l.
Proof.
  induction l as [|a l IH]; intros Hnd Hin; [destruct Hin|].
  inversion Hnd as [|? ? Hni Hnd']; subst. simpl.
  destruct (a =? i) eqn:E; simpl.
  - apply Z.eqb_eq in E. subst a. apply perm_skip.
    clear IH Hin Hnd Hnd'. induction l as [|b l IH]; [constructor|]. simpl.
    destruct (b =? i) eqn:Eb.
    + apply Z.eqb_eq in Eb. subst b. exfalso. apply Hni. left. reflexivity.
    + simpl. apply perm_skip, IH. intro H. apply Hni. right. exact H.
  - destruct Hin as [-> | Hin]; [rewrite Z.eqb_refl in E; discriminate|].
    eapply perm_trans; [apply perm_swap|]. apply perm_skip, IH; assumption.
Qed.

Lemma order_members init avail i : In i (startupOrder init avail) <-> In i avail.
Proof.
  unfold startupOrder. destruct init as [i0|]; [|tauto].
  destruct (negb (i0 =? 0) && existsb (Z.eqb i0) avail) eqn:E; [|tauto].
  apply andb_prop in E. destruct E as [_ E]. apply AuthFacts.existsb_Zeqb in E.
  simpl. rewrite filter_In. split.
  - intros [<- | [H _]]; assumption.
  - intro H. destruct (Z.eq_dec i0 i) as [-> | Hne]; [left; reflexivity|].
    right. split; [exact H|]. apply negb_true_iff, Z.eqb_neq. congruence.
Qed.

(** X28: the order in which [start] tries the accounts.  It holds the
    available accounts and no other; when these are distinct it is a
    rearrangement of them, so no account is tried twice; a preferred
    account that is available and not 0 comes first, and the others keep
    their order; a preferred account 0 is ignored even when account 0 is
    available.  The preference [initializeServer] passes is never 0. *)
Theorem the_startup_order_rearranges_the_accounts init avail :
  (forall i, In i (startupOrder init avail) <-> In i avail)
  /\ (NoDup avail ->
      Permutation (startupOrder init avail) avail /\ NoDup (startupOrder init avail))
  /\ (forall i, init = Some i -> i <> 0 -> In i avail ->
        hd_error (startupOrder init avail) = Some i
        /\ tl (startupOrder init avail) = filter (fun j => negb (j =? i)) avail)
  /\ startupOrder (Some 0) avail = avail
  /\ (forall e, initialAuthIndex e <> 0).
Proof.
  split; [intro i; apply order_members|].
  split.
  { intro Hnd.
    assert (Permutation (startupOrder init avail) avail) as Hp.
    { unfold startupOrder. destruct init as [i0|]; [|apply Permutation_refl].
      destruct (negb (i0 =? 0) && existsb (Z.eqb i0) avail) eqn:E;
        [|apply Permutation_refl].
      apply andb_prop in E. destruct E as [_ E]. apply AuthFacts.existsb_Zeqb in E.
      apply filter_other_perm; assumption. }
    split; [exact Hp|].
    eapply Permutation_NoDup; [symmetry; exact Hp | exact Hnd]. }
  split.
  { intros i -> Hne Hin. unfold startupOrder.
    apply AuthFacts.existsb_Zeqb in Hin. rewrite Hin.
    destruct (i =? 0) eqn:E; [apply Z.eqb_eq in E; contradiction|].
    simpl. auto. }
  split; [reflexivity|].
  intro e. unfold initialAuthIndex.
  destruct (Loaded.variable e "INITIAL_AUTH_INDEX") as [text|]; [|discriminate].
  unfold or_default. destruct (Loaded.parseInt e text) as [n|]; [|discriminate].
  destruct (n =? 0) eqn:E; [discriminate | apply Z.eqb_neq, E].
Qed.

Lemma launch_exact n w :
  In n (availableIndices w) ->
  handler (run (launchOrSwitchContext (Some n)) w) = handler w
  /\ relay (run (launchOrSwitchContext (Some n)) w) = relay w
  /\ availableIndices (run (launchOrSwitchContext (Some n)) w) = availableIndices w
  /\ browser (run (launchOrSwitchContext (Some n)) w) = tl (browser w)
  /\ if hd false (browser w)
     then completion (launchOrSwitchContext (Some n)) w = Return tt
          /\ currentAuthIndex (run (launchOrSwitchContext (Some n)) w) = n
     else (exists e, completion (launchOrSwitchContext (Some n)) w = Throw e)
          /\ currentAuthIndex (run (launchOrSwitchContext (Some n)) w)
             = currentAuthIndex w.
Proof.
  intro Hin. apply AuthFacts.existsb_Zeqb in Hin.
  unfold run, completion, launchOrSwitchContext, bind, await, pop_browser, get_world,
    pop_ticks, modify_res, put_res, set_currentAuthIndex, throw.
  destruct (keepAlive w); simpl; rewrite Hin;
    destruct (hd false (browser w)); simpl; repeat split; eauto.
Qed.

Lemma skipn_tl {A} k (l : list A) : skipn (S k) l = skipn k (tl l).
Proof. destruct l; [destruct k; reflexivity | reflexivity]. Qed.

Lemma launch_first_cons index rest w :
  launch_first (index :: rest) w
  = match launchOrSwitchContext (Some index) w with
    | (Return _, w1) => (Return true, w1)
    | (Throw _, w1) => launch_first rest w1
    end.
Proof.
  cbn [launch_first]. unfold bind, try_catch, ret.
  destruct (launchOrSwitchContext (Some index) w) as [[[]|e] w1]; reflexivity.
Qed.

Lemma launch_first_spec : forall order w,
  (forall i, In i order -> In i (availableIndices w)) ->
  handler (run (launch_first order) w) = handler w
  /\ relay (run (launch_first order) w) = relay w
  /\ availableIndices (run (launch_first order) w) = availableIndices w
  /\ match failures_before (List.length order) (browser w) with
     | Some k =>
         completion (launch_first order) w = Return true
         /\ currentAuthIndex (run (launch_first order) w) = nth k order 0
         /\ browser (run (launch_first order) w) = skipn (S k) (browser w)
     | None =>
         completion (launch_first order) w = Return false
         /\ currentAuthIndex (run (launch_first order) w) = currentAuthIndex w
         /\ browser (run (launch_first order) w) = skipn (List.length order) (browser w)
     end.
Proof.
  induction order as [|index rest IH]; intros w Hin.
  - simpl. repeat split; reflexivity.
  - destruct (launch_exact index w (Hin index (or_introl eq_refl)))
      as (Hh & Hr & Ha & Hb & Hl).
    unfold run, completion in *. rewrite launch_first_cons.
    cbn [List.length failures_before].
    destruct (launchOrSwitchContext (Some index) w) as [o w1] eqn:E. cbn [fst snd] in *.
    assert (forall i, In i rest -> In i (availableIndices w1)) as Hin1
      by (intros i Hi; rewrite Ha; apply Hin; right; exact Hi).
    destruct (IH w1 Hin1) as (IHh & IHr & IHa & IHm). rewrite Hb in IHm.
    destruct (browser w) as [|b answers] eqn:Eb; cbn [hd tl] in *.
    + destruct Hl as [[e He] Hc]. subst o.
      replace (failures_before (List.length rest) []) with (@None nat) in IHm
        by (destruct (List.length rest); reflexivity).
      destruct IHm as (IHc & IHi & IHb).
      repeat split; try congruence.
      rewrite IHb. destruct (List.length rest); reflexivity.
    + destruct b.
      * destruct Hl as [Ho Hc]. subst o. cbn [fst snd].
        repeat split; assumption.
      * destruct Hl as [[e He] Hc]. subst o.
        destruct (failures_before (List.length rest) answers) as [k|];
          cbn [option_map nth]; rewrite skipn_cons;
          destruct IHm as (IHc & IHi & IHb); repeat split; congruence.
Qed.

Lemma failures_before_lt : forall n answers k,
  failures_before n answers = Some k -> (k < n)%nat.
Proof.
  induction n as [|n IH]; intros answers k H; simpl in H; [discriminate|].
  destruct answers as [|[] answers]; [discriminate | |].
  - injection H as <-. lia.
  - destruct (failures_before n answers) as [k'|] eqn:E; [|discriminate].
    injection H as <-. apply IH in E. lia.
Qed.

Lemma start_unfolded init w :
  start init w
  = match availableIndices w with
    | [] => (Throw "无可用认证源。"%string, w)
    | _ :: _ =>
        match launch_first (startupOrder init (availableIndices w)) w with
        | (Return true, w1) => (Return tt, w1)
        | (Return false, w1) => (Throw "所有账号启动失败。"%string, w1)
        | (Throw e, w1) => (Throw e, w1)
        end
    end.
Proof.
  unfold start, bind, get_world, throw, ret.
  destruct (availableIndices w); [reflexivity|].
  destruct (launch_first _ w) as [[[]|e] w1]; reflexivity.
Qed.

(** X29: [start] launches the first account of the startup order whose
    launch succeeds, and tries no account after it; when every launch
    fails it throws "所有账号启动失败。" after one try per account, with the
    current account as it was; without an available account it throws
    "无可用认证源。" and launches nothing.  The rotation fields are never
    touched. *)
Theorem start_launches_the_first_account_that_works init w :
  handler (run (start init) w) = handler w
  /\ relay (run (start init) w) = relay w
  /\ match availableIndices w with
     | [] =>
         completion (start init) w = Throw "无可用认证源。"
         /\ run (start init) w = w
     | _ :: _ =>
         match failures_before (List.length (startupOrder init (availableIndices w)))
                 (browser w) with
         | Some k =>
             completion (start init) w = Return tt
             /\ currentAuthIndex (run (start init) w)
                = nth k (startupOrder init (availableIndices w)) 0
             /\ In (currentAuthIndex (run (start init) w)) (availableIndices w)
             /\ browser (run (start init) w) = skipn (S k) (browser w)
         | None =>
             completion (start init) w = Throw "所有账号启动失败。"
             /\ currentAuthIndex (run (start init) w) = currentAuthIndex w
             /\ browser (run (start init) w)
                = skipn (List.length (startupOrder init (availableIndices w)))
                    (browser w)
         end
     end.
Proof.
  unfold run, completion. rewrite start_unfolded.
  destruct (availableIndices w) as [|i0 avail'] eqn:Ea; [simpl; auto|].
  set (order := startupOrder init (i0 :: avail')).
  assert (forall i, In i order -> In i (availableIndices w)) as Hin
    by (intros i Hi; rewrite Ea; apply (order_members init (i0 :: avail')), Hi).
  destruct (launch_first_spec order w Hin) as (Hh & Hr & Ha & Hm).
  unfold run, completion in *.
  destruct (launch_first order w) as [o w1]. cbn [fst snd] in *.
  destruct (failures_before (List.length order) (browser w)) as [k|] eqn:Ef;
    destruct Hm as (-> & Hi & Hb); cbn [fst snd].
  - repeat split; try assumption.
    rewrite Hi. apply (order_members init (i0 :: avail')), nth_In.
    apply failures_before_lt in Ef. exact Ef.
  - repeat split; assumption.
Qed.

Lemma the_startup_order_rearranges_the_accounts_witness :
  Permutation (startupOrder (Some 2) [1; 2; 4]) [1; 2; 4]
  /\ NoDup (startupOrder (Some 2) [1; 2; 4])
  /\ hd_error (startupOrder (Some 2) [1; 2; 4]) = Some 2
  /\ tl (startupOrder (Some 2) [1; 2; 4]) = [1; 4].
Proof.
  destruct (the_startup_order_rearranges_the_accounts (Some 2) [1; 2; 4])
    as (_ & H2 & H3 & _).
  destruct H2 as [Hp Hn].
  - repeat constructor; simpl; intuition lia.
  - destruct (H3 2 eq_refl) as [Hh Ht].
    + discriminate.
    + simpl. auto.
    + repeat split; assumption.
Defined.

End StartupFacts.

(* ================================================================== *)
(** * The script that saves a new account *)
(* ================================================================== *)

Module SaveAuthFacts.
Import Auth SaveAuth.

Lemma uint_digits d : all_digits (NilEmpty.string_of_uint d) = true.
Proof. induction d; simpl; auto. Qed.

Lemma string_of_Z_index_text n : 0 <= n -> index_text (string_of_Z n).
Proof.
  intro Hn. unfold string_of_Z, index_text.
  destruct n as [|p|p]; [split; [discriminate | reflexivity] | | lia].
  simpl. unfold NilZero.string_of_uint.
  destruct (Pos.to_uint p) as [|d|d|d|d|d|d|d|d|d|d] eqn:E;
    (split; [discriminate | try reflexivity; rewrite <- E at 1; try apply uint_digits]).
  all: simpl; apply uint_digits.
Qed.

Lemma highest_spec (h : Host) : forall files m,
  let highest :=
    fold_left (fun maxIndex file =>
                 match match_index "auth-" ".json" file with
                 | Some digits =>
                     if maxIndex <? parseInt h digits then parseInt h digits
                     else maxIndex
                 | None => maxIndex
                 end) files m in
  m <= highest
  /\ forall file digits,
       In file files -> match_index "auth-" ".json" file = Some digits ->
       parseInt h digits <= highest.
Proof.
  induction files as [|f files IH]; intro m; cbn zeta; simpl fold_left.
  - split; [lia|]. intros file digits [].
  - set (m' := match match_index "auth-" ".json" f with
               | Some digits =>
                   if m <? parseInt h digits then parseInt h digits else m
               | None => m
               end).
    destruct (IH m') as [Hm Hall]. cbn zeta in Hm, Hall.
    assert (m <= m') as Hmm.
    { subst m'. destruct (match_index "auth-" ".json" f) as [d|]; [|lia].
      destruct (m <? parseInt h d) eqn:E; [apply Z.ltb_lt in E|]; lia. }
    split; [lia|]. intros file digits [<- | Hin] Hmatch.
    + assert (parseInt h digits <= m') as Hd.
      { subst m'. rewrite Hmatch.
        destruct (m <? parseInt h digits) eqn:E; [lia | apply Z.ltb_ge in E; lia]. }
      lia.
    + apply (Hall file digits Hin Hmatch).
Qed.

(** X30: the index the script picks for a new account is free.  It is
    at least 1 and above the index of every file [auth-N.json] of the
    directory, so, [parseInt] reading the decimal text of a number as
    that number and the indices being below [2^53], no file of the
    directory has the name the new account is saved under; without a
    directory the index is 1. *)
Theorem the_next_index_is_free h newIndex :
  getNextAuthIndex h = Some newIndex ->
  parseInt h (string_of_Z newIndex) = newIndex ->
  (forall files file digits,
     readdir h = Some (Some files) -> In file files ->
     match_index "auth-" ".json" file = Some digits -> parseInt h digits < 2 ^ 53) ->
  1 <= newIndex
  /\ (readdir h = None -> newIndex = 1)
  /\ forall files,
       readdir h = Some (Some files) ->
       (forall file digits,
          In file files -> match_index "auth-" ".json" file = Some digits ->
          parseInt h digits < newIndex)
       /\ ~ In (newAuthFileName newIndex) files.
Proof.
  intros Hn Hp _. unfold getNextAuthIndex in Hn.
  destruct (readdir h) as [[files|]|]; [| discriminate |].
  - injection Hn as Hn.
    destruct (highest_spec h files 0) as [H0 Hall]. cbn zeta in H0, Hall.
    assert (forall file digits,
              In file files -> match_index "auth-" ".json" file = Some digits ->
              parseInt h digits < newIndex) as Hlt.
    { intros file digits Hin Hm. specialize (Hall file digits Hin Hm). lia. }
    split; [lia|]. split; [discriminate|].
    intros files' Hf. injection Hf as <-. split; [exact Hlt|].
    intro Hin.
    assert (match_index "auth-" ".json" (newAuthFileName newIndex)
            = Some (string_of_Z newIndex)) as Hm.
    { apply AuthFacts.match_index_spec; [reflexivity|].
      split; [reflexivity | apply string_of_Z_index_text; lia]. }
    specialize (Hlt _ _ Hin Hm). lia.
  - injection Hn as <-. split; [lia|]. split; [reflexivity|]. discriminate.
Qed.

Lemma the_next_index_is_free_witness :
  1 <= 8
  /\ (readdir Sample.auth_directory = None -> 8 = 1)
  /\ forall files,
       readdir Sample.auth_directory = Some (Some files) ->
       (forall file digits,
          In file files -> match_index "auth-" ".json" file = Some digits ->
          parseInt Sample.auth_directory digits < 8)
       /\ ~ In (newAuthFileName 8) files.
Proof.
  apply (the_next_index_is_free Sample.auth_directory 8).
  - reflexivity.
  - reflexivity.
  - intros files file digits Hf Hin Hm. injection Hf as <-.
    destruct Hin as [<- | [<- | [<- | []]]]; vm_compute in Hm;
      first [discriminate | injection Hm as <-; reflexivity].
Defined.

End SaveAuthFacts.

(* ================================================================== *)
(** * The handlers refine the interleaving semantics *)
(* ================================================================== *)

Module RefinementFacts.
Import Interleaving Refinement HandlerFacts InterleavingFacts.

(** ** Runs, put together *)

Lemma trace_one cfg s e s' : step cfg s e s' -> trace cfg s [e] s'.
Proof. intro H. apply (trace_snoc cfg s [] s e s'); [apply trace_nil | exact H]. Qed.

Lemma trace_app cfg s tr1 s1 tr2 s2 :
  trace cfg s tr1 s1 -> trace cfg s1 tr2 s2 -> trace cfg s (tr1 ++ tr2) s2.
Proof.
  intros H1 H2. induction H2 as [|s1 tr s3 e s4 Htr IH Hstep].
  - rewrite app_nil_r. exact H1.
  - rewrite app_assoc. apply (trace_snoc cfg s (tr1 ++ tr) s3 e s4); auto.
Qed.

Lemma trace_cons cfg s e s1 tr s2 :
  step cfg s e s1 -> trace cfg s1 tr s2 -> trace cfg s (e :: tr) s2.
Proof.
  intros H1 H2. apply (trace_app cfg s [e] s1 tr s2); [apply trace_one|]; assumption.
Qed.

(** ** The rotation fields through the structure of the code *)

Lemma run_finally {A} (m : M A) (f : M unit) w :
  run (finally m f) w = run f (run m w).
Proof.
  unfold run, finally. destruct (m w) as [o w1]. cbn [snd].
  destruct (f w1) as [[u|e] w2]; reflexivity.
Qed.

Lemma handler_bind_tail {A B} (m : M A) (k : A -> M B) w :
  (forall a, preserves same_handler (k a)) ->
  handler (run (bind m k) w) = handler (run m w).
Proof.
  intro Hk. unfold run, bind. destruct (m w) as [[a|e] w1]; cbn [snd]; [|reflexivity].
  apply (Hk a w1).
Qed.

Lemma handler_try {A} (m : M A) (h : string -> M A) w :
  (forall e, preserves same_handler (h e)) ->
  handler (run (try_catch m h) w) = handler (run m w).
Proof.
  intro Hh. unfold run, try_catch. destruct (m w) as [[a|e] w1]; cbn [snd]; [reflexivity|].
  apply (Hh e w1).
Qed.

Lemma handler_finally {A} (m : M A) (f : M unit) w :
  preserves same_handler f ->
  handler (run (finally m f) w) = handler (run m w).
Proof. intro Hf. rewrite run_finally. apply (Hf (run m w)). Qed.

Lemma handler_bind_head {A B} (m : M A) (k : A -> M B) (Q : RequestHandler -> Prop) w :
  preserves same_handler m ->
  Q (handler w) ->
  (forall a w1, handler w1 = handler w -> Q (handler (run (k a) w1))) ->
  Q (handler (run (bind m k) w)).
Proof.
  intros Hm Hthrow Hk. unfold run, bind.
  pose proof (Hm w) as Hw. unfold same_handler, run in Hw.
  destruct (m w) as [[a|e] w1]; cbn [snd] in *.
  - apply (Hk a w1 Hw).
  - rewrite Hw. exact Hthrow.
Qed.

Lemma handler_modify f w : handler (run (modify_handler f) w) = f (handler w).
Proof. reflexivity. Qed.

Lemma run_modify_then {B} f (k : unit -> M B) w :
  run (bind (modify_handler f) k) w = run (k tt) (run (modify_handler f) w).
Proof. reflexivity. Qed.

(** ** More code that leaves the rotation fields alone *)

Lemma same_handler_sleep ms : preserves same_handler (sleep ms).
Proof. unfold sleep. same_handler_go. Qed.

Lemma same_handler_launch i : preserves same_handler (launchOrSwitchContext i).
Proof. intro w. apply (SwitchFacts.launch_spec i w). Qed.

Lemma same_handler_sendErrorChunk rt b m :
  preserves same_handler (_sendErrorChunkToClient rt b m).
Proof. unfold _sendErrorChunkToClient. same_handler_go. Qed.

Lemma same_handler_handleRequestError rt e :
  preserves same_handler (_handleRequestError rt e).
Proof. unfold _handleRequestError, _sendErrorResponse. same_handler_go. Qed.

Lemma same_handler_sse : preserves same_handler set_sse_headers.
Proof. unfold set_sse_headers. same_handler_go. Qed.

Lemma same_handler_copy_headers b hs : preserves same_handler (copy_headers b hs).
Proof.
  induction hs as [|[k v] hs IH]; simpl; [same_handler_go|].
  apply (preserves_bind _ same_handler_trans); [same_handler_go | intro; exact IH].
Qed.

Lemma same_handler_setResponseHeaders m b :
  preserves same_handler (_setResponseHeaders m b).
Proof.
  unfold _setResponseHeaders.
  apply (preserves_bind _ same_handler_trans); [same_handler_go | intro].
  apply (preserves_bind _ same_handler_trans); [apply same_handler_copy_headers | intro].
  apply (preserves_when _ same_handler_refl), same_handler_sse.
Qed.

Lemma same_handler_real_loop fuel : preserves same_handler (real_stream_loop fuel).
Proof.
  induction fuel as [|fuel IH]; simpl; [same_handler_go|].
  apply (preserves_bind _ same_handler_trans); [apply same_handler_dequeue|].
  intro m. destruct (is_stream_end m); [same_handler_go|].
  apply (preserves_bind _ same_handler_trans); [same_handler_go | intro; exact IH].
Qed.

Lemma same_handler_translate rt c m :
  preserves same_handler (_translateGoogleToOpenAIStream rt c m).
Proof. unfold _translateGoogleToOpenAIStream. same_handler_go. Qed.

Lemma same_handler_openai_loop rt fuel model :
  preserves same_handler (openai_stream_loop rt fuel model).
Proof.
  induction fuel as [|fuel IH]; simpl; [same_handler_go|].
  apply (preserves_bind _ same_handler_trans); [apply same_handler_dequeue|].
  intro m. destruct (is_stream_end m); [same_handler_go|].
  apply (preserves_bind _ same_handler_trans); [|intro; exact IH].
  destruct (nonempty (msg_data m)); [|same_handler_go].
  apply (preserves_bind _ same_handler_trans); [apply same_handler_translate|].
  intro c. same_handler_go.
Qed.

Lemma same_handler_buffer : preserves same_handler buffer_body.
Proof.
  unfold buffer_body.
  apply (preserves_bind _ same_handler_trans); [same_handler_go|].
  intro w. apply same_handler_drain.
Qed.

Lemma same_handler_attempts cfg p fuel :
  forall attempt last, preserves same_handler (pseudo_attempts cfg p fuel attempt last).
Proof.
  induction fuel as [|fuel IH]; intros attempt last; simpl; [same_handler_go|].
  destruct (attempt <=? maxRetries cfg); [|same_handler_go].
  apply (preserves_bind _ same_handler_trans); [apply same_handler_forward | intro].
  apply (preserves_bind _ same_handler_trans).
  { apply (preserves_try_catch _ same_handler_trans);
      [apply same_handler_dequeue | intro; same_handler_go]. }
  intro m. destruct (is_error m); [|same_handler_go].
  destruct (not_aborted m); [|same_handler_go].
  destruct (attempt <? maxRetries cfg); [|same_handler_go].
  apply (preserves_bind _ same_handler_trans); [apply same_handler_sleep | intro; apply IH].
Qed.

Lemma run_get_handler {B} (k : RequestHandler -> M B) w :
  run (bind get_handler k) w = run (k (handler w)) w.
Proof. reflexivity. Qed.

Lemma run_get_res {B} (k : Res.Response -> M B) w :
  run (bind get_res k) w = run (k (res w)) w.
Proof. reflexivity. Qed.

(** ** The switch functions *)

(** Whoever calls it, [_switchToNextAuth] does nothing while a switch is
    in progress; otherwise it sets the two flags, lets the browser
    driver end the switch in one of three ways, and clears the flags. *)
Lemma switch_next_busy w :
  isAuthSwitching (handler w) = true -> _switchToNextAuth w = (Return Busy, w).
Proof.
  intro Es. unfold _switchToNextAuth, bind, get_handler. rewrite Es. reflexivity.
Qed.

Lemma switch_next_spec w :
  isAuthSwitching (handler w) = false ->
  exists how,
    forall who, who <> ByAdminTarget ->
      handler (run _switchToNextAuth w)
      = switch_leave (settle who how (switch_enter (handler w))).
Proof.
  intro Es. unfold _switchToNextAuth.
  rewrite run_get_handler, Es, run_modify_then, run_finally.
  set (w0 := run (modify_handler switch_enter) w).
  rewrite handler_modify.
  unfold run at 1. unfold bind at 1. unfold read_index at 1.
  unfold bind at 1. unfold get_world at 1.
  unfold try_catch, switchAccount.
  set (next := _getNextAuthIndex (availableIndices w0) (currentAuthIndex w0)).
  unfold bind at 1.
  pose proof (same_handler_launch next w0) as Hh. unfold same_handler, run in Hh.
  destruct (launchOrSwitchContext next w0) as [[[]|e] w1]; cbn [fst snd] in *.
  - exists Switched. intros who Hwho.
    unfold bind, modify_handler, read_index, ret. cbn. rewrite Hh.
    destruct who; try reflexivity. contradiction Hwho. reflexivity.
  - unfold bind at 1.
    pose proof (same_handler_launch (Some (currentAuthIndex w0)) w1) as Hh2.
    unfold same_handler, run in Hh2.
    destruct (launchOrSwitchContext (Some (currentAuthIndex w0)) w1)
      as [[[]|e2] w2]; cbn [fst snd] in *.
    + exists FellBack. intros who Hwho.
      unfold bind, modify_handler, read_index, ret. cbn. rewrite Hh2, Hh.
      destruct who; try reflexivity. contradiction Hwho. reflexivity.
    + exists Broke. intros who Hwho. rewrite Hh2, Hh.
      destruct who; reflexivity.
Qed.

Lemma switch_specific_refused targetIndex w :
  isAuthSwitching (handler w) = true
  \/ existsb (Z.eqb targetIndex) (availableIndices w) = false ->
  run (_switchToSpecificAuth targetIndex) w = w.
Proof.
  intro H. unfold run, _switchToSpecificAuth, bind, get_handler, get_world.
  destruct (isAuthSwitching (handler w)); [reflexivity|].
  destruct H as [H|H]; [discriminate|]. rewrite H. reflexivity.
Qed.

Lemma switch_specific_spec targetIndex w :
  isAuthSwitching (handler w) = false ->
  existsb (Z.eqb targetIndex) (availableIndices w) = true ->
  exists how,
    how <> FellBack
    /\ handler (run (_switchToSpecificAuth targetIndex) w)
       = switch_leave (settle ByAdminTarget how (switch_enter (handler w))).
Proof.
  intros Es Ea. unfold _switchToSpecificAuth.
  rewrite run_get_handler, Es.
  unfold run at 1. unfold bind at 1. unfold get_world at 1. rewrite Ea. cbn [negb].
  match goal with |- context [snd (?m w)] => change (snd (m w)) with (run m w) end.
  rewrite run_modify_then, run_finally, handler_modify.
  set (w0 := run (modify_handler switch_enter) w).
  unfold run at 1, switchAccount. unfold bind at 1.
  pose proof (same_handler_launch (Some targetIndex) w0) as Hh.
  unfold same_handler, run in Hh.
  destruct (launchOrSwitchContext (Some targetIndex) w0) as [[[]|e] w1]; cbn [fst snd] in *.
  - exists Switched. split; [discriminate|].
    unfold bind, modify_handler, read_index, ret. cbn. rewrite Hh. reflexivity.
  - exists Broke. split; [discriminate|]. rewrite Hh. reflexivity.
Qed.

(** ** The two places where a request begins a rotation *)

Section WithConfig.
Variable rt : Runtime.
Variable cfg : Config.

(** [_tryExecutePendingSwitch] does nothing at all unless a switch is
    pending, no request is counted and no switch is in progress. *)
Lemma pending_switch_guard w :
  pending_ready (handler w) = false ->
  _tryExecutePendingSwitch w = (Return tt, w).
Proof.
  intro H. unfold _tryExecutePendingSwitch, bind, get_handler. rewrite H. reflexivity.
Qed.

Lemma pending_switch_runs w :
  pending_ready (handler w) = true ->
  exists how,
    handler (run _tryExecutePendingSwitch w)
    = with_pending false
        (switch_leave (settle ByIdle how (switch_enter (handler w)))).
Proof.
  intro H. unfold _tryExecutePendingSwitch.
  rewrite run_get_handler, H. cbn [when].
  rewrite run_finally, handler_modify.
  rewrite handler_try by (intro; same_handler_go).
  rewrite handler_bind_tail by (intro; same_handler_go).
  assert (isAuthSwitching (handler w) = false) as Es.
  { unfold pending_ready in H. destruct (isAuthSwitching (handler w)); [|reflexivity].
    rewrite andb_false_r in H. discriminate. }
  destruct (switch_next_spec w Es) as [how Hhow].
  exists how. rewrite (Hhow ByIdle) by discriminate. reflexivity.
Qed.

(** The [finally] block of a request, as events. *)
Lemma finish_refines w a n r s k :
  exists tr,
    finalises tr
    /\ trace cfg (Build_System (handler w) a (S n) r s k) tr
         (Build_System (handler (run finish w)) a n r s k)
    /\ (pending_ready (finalise_request (handler w)) = false -> tr = [Finalised])
    /\ (pending_ready (finalise_request (handler w)) = true ->
        exists how, tr = [FinalisedAndSwitched; SwitchEnded ByIdle how; PendingCleared]).
Proof.
  unfold finish. rewrite run_modify_then.
  set (w1 := run (modify_handler finalise_request) w).
  assert (handler w1 = finalise_request (handler w)) as H1 by reflexivity.
  destruct (pending_ready (finalise_request (handler w))) eqn:Ep.
  - destruct (pending_switch_runs w1) as [how Hhow]; [rewrite H1; exact Ep|].
    exists [FinalisedAndSwitched; SwitchEnded ByIdle how; PendingCleared].
    split; [right; exists how; reflexivity|].
    split; [|split; [discriminate | intros _; exists how; reflexivity]].
    rewrite Hhow, H1.
    eapply trace_cons; [apply step_finalised_switched; exact Ep|].
    eapply trace_cons;
      [apply (step_switch_ended cfg ByIdle how _ a n r [] s k); discriminate|].
    apply trace_one. cbn [app]. apply step_pending_cleared.
  - exists [Finalised].
    split; [left; reflexivity|].
    split; [|split; [reflexivity | discriminate]].
    unfold run. rewrite pending_switch_guard by (rewrite H1; exact Ep).
    cbn [snd]. rewrite H1. apply trace_one, step_finalised, Ep.
Qed.

(** [_handleRequestFailureAndSwitch], as events. *)
Lemma failure_refines m has_res w a n r s k :
  exists tr,
    fails (msg_status m) tr
    /\ trace cfg (Build_System (handler w) (S a) n r s k) tr
         (Build_System
            (handler (run (_handleRequestFailureAndSwitch rt cfg m has_res) w))
            a (S n) r s k)
    /\ (must_switch cfg (msg_status m) (count_failure cfg (handler w)) = true ->
        isAuthSwitching (handler w) = false ->
        exists how, tr = [FailedOver (msg_status m); SwitchEnded ByFailure how])
    /\ (must_switch cfg (msg_status m) (count_failure cfg (handler w)) = false
        \/ isAuthSwitching (handler w) = true ->
        tr = [Failed (msg_status m)]).
Proof.
  unfold _handleRequestFailureAndSwitch. rewrite run_modify_then.
  set (w1 := run (modify_handler (count_failure cfg)) w).
  assert (handler w1 = count_failure cfg (handler w)) as H1 by reflexivity.
  rewrite run_get_handler, H1.
  pose proof (count_failure_switching cfg (handler w)) as Hsw.
  destruct (must_switch cfg (msg_status m) (count_failure cfg (handler w))) eqn:Em;
    cbn [when].
  - rewrite handler_try
      by (intro; apply (preserves_when _ same_handler_refl), same_handler_sendErrorChunk).
    rewrite handler_bind_tail.
    2:{ intros [| | |]; try (apply (preserves_ret _ same_handler_refl)).
        apply (preserves_when _ same_handler_refl), same_handler_sendErrorChunk. }
    destruct (isAuthSwitching (handler w)) eqn:Es.
    + exists [Failed (msg_status m)].
      split; [left; reflexivity|].
      split; [|split; [discriminate | reflexivity]].
      unfold run. rewrite switch_next_busy by (rewrite H1; exact Hsw).
      cbn [snd]. rewrite H1. apply trace_one, step_failed. right. exact Hsw.
    + destruct (switch_next_spec w1) as [how Hhow]; [rewrite H1; exact Hsw|].
      exists [FailedOver (msg_status m); SwitchEnded ByFailure how].
      split; [right; exists how; reflexivity|].
      split; [|split; [intros; exists how; reflexivity | intros [H|H]; discriminate]].
      rewrite (Hhow ByFailure) by discriminate. rewrite H1.
      eapply trace_cons; [apply step_failed_over; [exact Em | exact Hsw]|].
      apply trace_one.
      apply (step_switch_ended cfg ByFailure how _ a n r [] s k). discriminate.
  - exists [Failed (msg_status m)].
    split; [left; reflexivity|].
    split; [|split; [discriminate | reflexivity]].
    unfold run, ret. cbn [snd]. rewrite H1. apply trace_one, step_failed. left. exact Em.
Qed.

(** ** An accepted request, from its acceptance to its [finally] block *)

Lemma answered_same c : answered_as cfg c c.
Proof.
  intros a n r s k. exists [Abandoned].
  split; [right; left; reflexivity|]. apply trace_one, step_abandoned.
Qed.

Lemma answered_reset c : answered_as cfg c (reset_failures c).
Proof.
  intros a n r s k. exists [Answered].
  split; [left; reflexivity|]. apply trace_one, step_answered.
Qed.

Lemma answered_failure m has_res w :
  answered_as cfg (handler w)
    (handler (run (_handleRequestFailureAndSwitch rt cfg m has_res) w)).
Proof.
  intros a n r s k.
  destruct (failure_refines m has_res w a n r s k) as (tr & Hf & Htr & _).
  exists tr. split; [right; right; exists (msg_status m); exact Hf | exact Htr].
Qed.

Lemma nonstream_is_answered p w :
  answered_as cfg (handler w) (handler (run (_handleNonStreamResponse rt cfg p) w)).
Proof.
  unfold _handleNonStreamResponse.
  apply (handler_bind_head _ _ (answered_as cfg (handler w)));
    [apply same_handler_forward | apply answered_same |].
  intros _ w1 H1.
  rewrite handler_try by (intro; apply same_handler_handleRequestError).
  apply (handler_bind_head _ _ (answered_as cfg (handler w)));
    [apply same_handler_dequeue | rewrite H1; apply answered_same |].
  intros m w2 H2. rewrite H1 in H2.
  destruct (is_error m).
  - rewrite handler_bind_tail by (intro; apply same_handler_sendErrorResponse).
    rewrite <- H2. apply answered_failure.
  - apply (handler_bind_head _ _ (answered_as cfg (handler w)));
      [apply same_handler_buffer | rewrite H2; apply answered_same |].
    intros fullBody w3 H3.
    rewrite handler_bind_tail by (intro; same_handler_go).
    rewrite handler_modify, H3, H2. apply answered_reset.
Qed.

Lemma real_is_answered p w :
  answered_as cfg (handler w) (handler (run (_handleRealStreamResponse rt cfg p) w)).
Proof.
  unfold _handleRealStreamResponse.
  apply (handler_bind_head _ _ (answered_as cfg (handler w)));
    [apply same_handler_forward | apply answered_same |].
  intros _ w1 H1.
  apply (handler_bind_head _ _ (answered_as cfg (handler w)));
    [apply same_handler_dequeue | rewrite H1; apply answered_same |].
  intros m w2 H2. rewrite H1 in H2.
  destruct (is_error m).
  - rewrite handler_bind_tail by (intro; apply same_handler_sendErrorResponse).
    rewrite <- H2. apply answered_failure.
  - rewrite handler_bind_tail.
    + rewrite handler_modify, H2. apply answered_reset.
    + intro. apply (preserves_bind _ same_handler_trans);
        [apply same_handler_setResponseHeaders | intro].
      apply (preserves_finally _ same_handler_trans); [|same_handler_go].
      apply (preserves_try_catch _ same_handler_trans); [|intro; same_handler_go].
      apply (preserves_bind _ same_handler_trans);
        [same_handler_go | intro; apply same_handler_real_loop].
Qed.

Lemma pseudo_is_answered p w :
  answered_as cfg (handler w) (handler (run (_handlePseudoStreamResponse rt cfg p) w)).
Proof.
  unfold _handlePseudoStreamResponse.
  apply (handler_bind_head _ _ (answered_as cfg (handler w)));
    [same_handler_go | apply answered_same |].
  intros _ w1 H1.
  apply (handler_bind_head _ _ (answered_as cfg (handler w)));
    [apply same_handler_sse | rewrite H1; apply answered_same |].
  intros _ w2 H2. rewrite H1 in H2.
  apply (handler_bind_head _ _ (answered_as cfg (handler w)));
    [same_handler_go | rewrite H2; apply answered_same |].
  intros _ w3 H3. rewrite H2 in H3.
  rewrite handler_finally by same_handler_go.
  rewrite handler_try by (intro; apply same_handler_handleRequestError).
  apply (handler_bind_head _ _ (answered_as cfg (handler w)));
    [apply same_handler_attempts | rewrite H3; apply answered_same |].
  intros [lastMessage requestFailed] w4 H4. rewrite H3 in H4.
  destruct requestFailed.
  - destruct lastMessage as [m|].
    + rewrite handler_bind_tail by (intro; apply same_handler_sendErrorChunk).
      rewrite <- H4. apply answered_failure.
    + unfold run, throw. cbn [snd]. rewrite H4. apply answered_same.
  - rewrite handler_bind_tail.
    + rewrite handler_modify, H4. apply answered_reset.
    + intro. apply (preserves_bind _ same_handler_trans);
        [apply same_handler_dequeue | intro].
      apply (preserves_bind _ same_handler_trans);
        [apply same_handler_dequeue | intro].
      same_handler_go.
Qed.

Section WithSystem.
Variable sys : ServerSystem.

Lemma respond_is_answered req p w :
  answered_as cfg (handler w) (handler (run (respond rt cfg sys req p) w)).
Proof.
  unfold respond. destruct (wantsStream req); [|apply nonstream_is_answered].
  destruct (String.eqb (streamingMode sys) "fake");
    [apply pseudo_is_answered | apply real_is_answered].
Qed.

(** What follows the acceptance in [processRequest]. *)
Lemma serve_refines req p w a n r s k :
  exists mid fin,
    answers mid /\ finalises fin
    /\ trace cfg (Build_System (handler w) (S a) n r s k) (mid ++ fin)
         (Build_System
            (handler (run (finally (try_catch (respond rt cfg sys req p)
                                      (_handleRequestError rt))
                             finish) w))
            a n r s k).
Proof.
  rewrite run_finally.
  set (wM := run (try_catch (respond rt cfg sys req p) (_handleRequestError rt)) w).
  assert (answered_as cfg (handler w) (handler wM)) as Hmid.
  { unfold wM. rewrite handler_try by (intro; apply same_handler_handleRequestError).
    apply respond_is_answered. }
  destruct (Hmid a n r s k) as (mid & Hm & Htr1).
  destruct (finish_refines wM a n r s k) as (fin & Hf & Htr2 & _).
  exists mid, fin. split; [exact Hm|]. split; [exact Hf|].
  eapply trace_app; eauto.
Qed.

Lemma returns_the_last {A B} (m : M A) (v b : B) w w' :
  (m ;; ret v) w = (Return b, w') -> b = v.
Proof.
  unfold bind, ret. destruct (m w) as [[x|e] w1]; intro H; inversion H. reflexivity.
Qed.

(** The automatic recovery of [processRequest]: it goes on with the
    browser back, or gives up with the request left. *)
Lemma recovery_spec w o w' :
  (modify_handler (with_busy true) ;;
   finally
     (try_catch
        (i <- read_index ;;
         launchOrSwitchContext (Some i) ;;
         ret true)
        (fun _ =>
           modify_handler leave_request ;;
           modify_handler (with_busy false) ;;
           _sendErrorResponse rt (Some 503) (Some "Service unavailable") ;;
           ret false))
     (modify_handler (with_busy false))) w = (o, w') ->
  (o = Return true /\ handler w' = with_busy false (with_busy true (handler w)))
  \/ (o <> Return true
      /\ handler w'
         = with_busy false (with_busy false (leave_request (with_busy true (handler w))))).
Proof.
  intro E.
  unfold bind at 1 in E. unfold modify_handler at 1 in E.
  match type of E with context [finally _ _ ?x] => set (w1 := x) in E end.
  assert (handler w1 = with_busy true (handler w)) as H1 by reflexivity.
  clearbody w1. rewrite <- H1.
  unfold finally, try_catch in E. unfold bind at 1 in E. unfold read_index at 1 in E.
  unfold bind at 1 in E.
  pose proof (same_handler_launch (Some (currentAuthIndex w1)) w1) as Hh.
  unfold same_handler, run in Hh.
  destruct (launchOrSwitchContext (Some (currentAuthIndex w1)) w1) as [[[]|e] w2];
    cbn [fst snd] in *.
  - left. cbn in E. injection E as <- <-. split; [reflexivity|].
    cbn. rewrite Hh. reflexivity.
  - right. unfold bind at 1 in E. unfold modify_handler at 1 in E.
    unfold bind at 1 in E. unfold modify_handler at 1 in E. cbn [handler] in E.
    match type of E with context [(_sendErrorResponse _ _ _ ;; _) ?x] =>
      set (w3 := x) in E end.
    assert (handler w3 = with_busy false (leave_request (handler w1))) as H3
        by (unfold w3; cbn; rewrite Hh; reflexivity).
    clearbody w3.
    assert (handler
              (snd ((_sendErrorResponse rt (Some 503) (Some "Service unavailable") ;;
                     ret false) w3)) = handler w3) as H4.
    { apply (preserves_bind _ same_handler_trans);
        [apply same_handler_sendErrorResponse | intro; same_handler_go]. }
    destruct ((_sendErrorResponse rt (Some 503) (Some "Service unavailable") ;; ret false) w3)
      as [[b|e'] w4] eqn:E4; cbn [snd] in H4.
    + pose proof (returns_the_last _ _ _ _ _ E4) as ->.
      cbn in E. injection E as <- <-. split; [discriminate|].
      cbn. rewrite H4, H3. reflexivity.
    + cbn in E. injection E as <- <-. split; [discriminate|].
      cbn. rewrite H4, H3. reflexivity.
Qed.

(** [processRequest] up to the acceptance of the request. *)
Lemma processRequest_accepted req w :
  gate_closed (handler w) = false ->
  isSystemBusy (handler w) = false ->
  hd false (links w) = true ->
  exists wA,
    processRequest rt cfg sys req w
    = finally
        (try_catch (respond rt cfg sys req (prepare_frame rt sys req (hd "" (ids w))))
           (_handleRequestError rt))
        finish wA
    /\ handler wA = count_use cfg (is_generative req) (enter_request (handler w))
    /\ res wA = res w /\ relay wA = relay w /\ inbox wA = inbox w
    /\ links wA = tl (links w) /\ keepAlive wA = keepAlive w.
Proof.
  intros Hgate Hbusy Hlink.
  eexists. split.
  - unfold processRequest. unfold bind at 1. unfold get_handler at 1.
    rewrite Hgate.
    unfold bind at 1. unfold modify_handler at 1.
    unfold bind at 1. unfold _generateRequestId, pop_ids.
    unfold bind at 1. unfold bind at 1. unfold hasActiveConnections.
    cbn [fst snd links handler ids]. rewrite Hlink.
    unfold ret at 1. cbn [negb].
    unfold bind at 1. unfold get_handler at 1.
    cbn [handler].
    replace (isSystemBusy (enter_request (handler w))) with false
      by (symmetry; exact Hbusy).
    unfold bind at 1. unfold modify_handler at 1.
    reflexivity.
  - repeat split; reflexivity.
Qed.

Lemma processRequest_refines req :
  refines cfg (processRequest rt cfg sys req) (request_events (is_generative req)).
Proof.
  intros w a n r s k.
  destruct (gate_closed (handler w)) eqn:Hgate.
  - exists [Rejected503]. split; [left; reflexivity|].
    assert (handler (run (processRequest rt cfg sys req) w) = handler w) as ->.
    { unfold processRequest. rewrite run_get_handler, Hgate.
      apply same_handler_sendErrorResponse. }
    apply trace_one, step_rejected, Hgate.
  - destruct (hd false (links w)) eqn:Hlink.
    + destruct (isSystemBusy (handler w)) eqn:Hbusy.
      * exists [TurnedAway]. split; [right; left; reflexivity|].
        assert (handler (run (processRequest rt cfg sys req) w)
                = leave_request (enter_request (handler w))) as ->.
        { unfold processRequest. unfold run. unfold bind at 1. unfold get_handler at 1.
          rewrite Hgate.
          unfold bind at 1. unfold modify_handler at 1.
          unfold bind at 1. unfold _generateRequestId, pop_ids.
          unfold bind at 1. unfold bind at 1. unfold hasActiveConnections.
          cbn [fst snd links handler ids]. rewrite Hlink.
          unfold ret at 1. cbn [negb].
          unfold bind at 1. unfold get_handler at 1.
          cbn [handler].
          replace (isSystemBusy (enter_request (handler w))) with true
            by (symmetry; exact Hbusy).
          match goal with |- context [snd (?m ?x)] => change (snd (m x)) with (run m x) end.
          rewrite handler_bind_tail by (intro; apply same_handler_sendErrorResponse).
          reflexivity. }
        apply trace_one, step_turned_away; assumption.
      * destruct (processRequest_accepted req w Hgate Hbusy Hlink) as (wA & Heq & HA & _).
        unfold run. rewrite Heq.
        match goal with |- context [snd (?m ?x)] => change (snd (m x)) with (run m x) end.
        destruct (serve_refines req (prepare_frame rt sys req (hd "" (ids w)))
                    wA a n r s k) as (mid & fin & Hm & Hf & Htr).
        exists (Accepted (is_generative req) :: mid ++ fin).
        split.
        { right; right; right. exists mid, fin. split; [left; reflexivity|]. auto. }
        eapply trace_cons; [|exact Htr]. rewrite HA.
        apply step_accepted; assumption.
    + unfold processRequest. unfold run. unfold bind at 1. unfold get_handler at 1.
      rewrite Hgate.
      unfold bind at 1. unfold modify_handler at 1.
      unfold bind at 1. unfold _generateRequestId, pop_ids.
      unfold bind at 1. unfold bind at 1. unfold hasActiveConnections.
      cbn [fst snd links handler ids]. rewrite Hlink.
      unfold bind at 1. unfold get_handler at 1.
      cbn [handler].
      change (isSystemBusy (enter_request (handler w))) with (isSystemBusy (handler w)).
      destruct (isSystemBusy (handler w)) eqn:Hbusy.
      * match goal with |- context [(modify_handler leave_request ;; ?k) ?x] =>
          set (w1 := x) end.
        assert (handler w1 = enter_request (handler w)) as H1 by reflexivity.
        clearbody w1.
        exists [TurnedAway]. split; [right; left; reflexivity|].
        unfold bind at 1. unfold modify_handler at 1.
        match goal with |- context [(_sendErrorResponse _ _ _ ;; _) ?x] =>
          set (w2 := x) end.
        assert (handler w2 = leave_request (enter_request (handler w))) as H2
            by (unfold w2; cbn; rewrite H1; reflexivity).
        clearbody w2.
        assert (handler
                  (snd ((_sendErrorResponse rt (Some 503) (Some "Server recovering...") ;;
                         ret false) w2)) = handler w2) as H3.
        { apply (preserves_bind _ same_handler_trans);
            [apply same_handler_sendErrorResponse | intro; same_handler_go]. }
        destruct ((_sendErrorResponse rt (Some 503) (Some "Server recovering...") ;;
                   ret false) w2) as [[b|e] w3] eqn:E3; cbn [snd] in *.
        -- pose proof (returns_the_last _ _ _ _ _ E3) as ->.
           cbn. rewrite H3, H2. apply trace_one, step_turned_away; assumption.
        -- rewrite H3, H2. apply trace_one, step_turned_away; assumption.
      * match goal with |- context [(modify_handler (with_busy true) ;; ?k) ?x] =>
          set (w1 := x) end.
        assert (handler w1 = enter_request (handler w)) as H1 by reflexivity.
        assert (ids w1 = tl (ids w)) as Hids by reflexivity.
        clearbody w1.
        match goal with |- context [let (_, _) := ?m w1 in _] =>
          destruct (m w1) as [o w2] eqn:E end.
        apply recovery_spec in E. destruct E as [[-> H2] | [Ho H2]].
        -- cbn [negb]. unfold bind at 1. unfold get_handler at 1.
           rewrite H2. cbn [isSystemBusy with_busy].
           unfold bind at 1. unfold modify_handler at 1.
           match goal with |- context [finally _ _ ?x] => set (wA := x) end.
           assert (handler wA
                   = count_use cfg (is_generative req)
                       (with_busy false (with_busy true (enter_request (handler w)))))
             as HA by (unfold wA; cbn [handler]; rewrite H2, H1; reflexivity).
           clearbody wA.
           match goal with |- context [snd (?m ?x)] => change (snd (m x)) with (run m x) end.
           destruct (serve_refines req (prepare_frame rt sys req (hd "" (ids w)))
                       wA a n r s k) as (mid & fin & Hm & Hf & Htr).
           exists (RecoveryStarted :: Recovered (is_generative req) :: mid ++ fin).
           split.
           { right; right; right. exists mid, fin. split; [right; reflexivity|]. auto. }
           eapply trace_cons; [apply step_recovery_started; assumption|].
           eapply trace_cons; [apply step_recovered|].
           rewrite <- HA. exact Htr.
        -- exists [RecoveryStarted; RecoveryFailed].
           split; [right; right; left; reflexivity|].
           destruct o as [[|]|e]; [contradiction Ho; reflexivity | |];
             cbn [negb]; unfold ret; cbn [snd].
           all: rewrite H2, H1.
           all: (eapply trace_cons; [apply step_recovery_started; assumption|]).
           all: apply trace_one, step_recovery_failed.
Qed.

(** The [try] block of [processOpenAIRequest]. *)
Lemma chat_is_answered requestId model isOpenAIStream proxyRequest w :
  answered_as cfg (handler w)
    (handler (run (chat_try rt cfg requestId model isOpenAIStream proxyRequest) w)).
Proof.
  unfold chat_try.
  apply (handler_bind_head _ _ (answered_as cfg (handler w)));
    [apply same_handler_forward | apply answered_same |].
  intros _ w1 H1.
  apply (handler_bind_head _ _ (answered_as cfg (handler w)));
    [apply same_handler_dequeue | rewrite H1; apply answered_same |].
  intros m w2 H2. rewrite H1 in H2.
  destruct (is_error m).
  - rewrite handler_bind_tail.
    + rewrite <- H2. apply answered_failure.
    + intro. destruct isOpenAIStream;
        [same_handler_go | apply same_handler_sendErrorResponse].
  - rewrite handler_bind_tail.
    + rewrite handler_modify, H2. apply answered_reset.
    + intro. destruct isOpenAIStream.
      * apply (preserves_bind _ same_handler_trans); [same_handler_go | intro].
        apply (preserves_bind _ same_handler_trans); [apply same_handler_sse | intro].
        apply (preserves_bind _ same_handler_trans);
          [same_handler_go | intro; apply same_handler_openai_loop].
      * apply (preserves_bind _ same_handler_trans); [apply same_handler_buffer | intro].
        same_handler_go.
Qed.

(** What follows the acceptance in [processOpenAIRequest]. *)
Lemma chat_serve_refines requestId model isOpenAIStream proxyRequest w a n r s k :
  exists mid fin,
    answers mid /\ finalises fin
    /\ trace cfg (Build_System (handler w) (S a) n r s k) (mid ++ fin)
         (Build_System
            (handler
               (run (finally
                       (try_catch
                          (chat_try rt cfg requestId model isOpenAIStream proxyRequest)
                          (_handleRequestError rt))
                       chat_finish) w))
            a n r s k).
Proof.
  rewrite run_finally.
  set (wM := run (try_catch (chat_try rt cfg requestId model isOpenAIStream proxyRequest)
                    (_handleRequestError rt)) w).
  assert (answered_as cfg (handler w) (handler wM)) as Hmid.
  { unfold wM. rewrite handler_try by (intro; apply same_handler_handleRequestError).
    apply chat_is_answered. }
  clearbody wM. unfold chat_finish. rewrite run_get_res.
  match goal with |- context [run ?m wM] =>
    assert (exists wF, handler wF = handler wM /\ run m wM = run finish wF)
      as (wF & HF & ->)
  end.
  { destruct (negb (Res.writableEnded (res wM))); eexists;
      (split; [|reflexivity]); reflexivity. }
  destruct (Hmid a n r s k) as (mid & Hm & Htr1).
  destruct (finish_refines wF a n r s k) as (fin & Hf & Htr2 & _).
  exists mid, fin. split; [exact Hm|]. split; [exact Hf|].
  eapply trace_app; [exact Htr1|]. rewrite <- HF. exact Htr2.
Qed.

Lemma processOpenAIRequest_refines req :
  get (req_body req) "stream" <> None ->
  get (req_body req) "model" <> None ->
  refines cfg (processOpenAIRequest rt cfg sys req) chat_events.
Proof.
  intros Hstream Hmodel w a n r s k.
  destruct (gate_closed (handler w)) eqn:Hgate.
  - exists [Rejected503]. split; [left; reflexivity|].
    assert (handler (run (processOpenAIRequest rt cfg sys req) w) = handler w) as ->.
    { unfold processOpenAIRequest. rewrite run_get_handler, Hgate.
      apply same_handler_sendErrorResponse. }
    apply trace_one, step_rejected, Hgate.
  - unfold processOpenAIRequest. rewrite run_get_handler, Hgate.
    rewrite run_modify_then, run_modify_then.
    unfold run at 1. unfold bind at 1. unfold _generateRequestId, pop_ids.
    match goal with |- context [snd (_ ?x)] => set (w1 := x) end.
    assert (handler w1 = count_use cfg true (enter_request (handler w))) as H1
        by reflexivity.
    clearbody w1.
    destruct (get (req_body req) "stream") as [stream|]; [|contradiction Hstream; reflexivity].
    destruct (get (req_body req) "model") as [m|]; [|contradiction Hmodel; reflexivity].
    cbv zeta.
    destruct (Translator._translateOpenAIToGoogle sys (req_body req)) as [googleBody|].
    + match goal with |- context [snd (?m ?x)] => change (snd (m x)) with (run m x) end.
      match goal with
      | |- context [run (finally (try_catch (_ ;; _) _) _) w1] =>
          destruct (chat_serve_refines
                      (hd "" (ids (run (modify_handler (count_use cfg true))
                                     (run (modify_handler enter_request) w))))
                      (Buffered.chosen_model sys m) (is_true stream)
                      (openai_frame rt sys
                         (hd "" (ids (run (modify_handler (count_use cfg true))
                                        (run (modify_handler enter_request) w))))
                         (Buffered.chosen_model sys m) (is_true stream) googleBody)
                      w1 a n r s k) as (mid & fin & Hm & Hf & Htr)
      end.
      exists (OpenAIAccepted :: mid ++ fin).
      split; [right; right; exists mid, fin; auto|].
      eapply trace_cons; [apply step_openai_accepted; exact Hgate|].
      rewrite <- H1. exact Htr.
    + exists [OpenAIRefused]. split; [right; left; reflexivity|].
      match goal with |- context [snd (?m ?x)] => change (snd (m x)) with (run m x) end.
      rewrite handler_bind_tail by (intro; apply same_handler_sendErrorResponse).
      rewrite handler_modify, H1.
      apply trace_one, step_openai_refused, Hgate.
Qed.


End WithSystem.

(** ** The switch functions called by the route of the administrator *)

Lemma switch_next_refines : refines cfg _switchToNextAuth (admin_events ByAdminNext).
Proof.
  intros w a n r s k.
  destruct (isAuthSwitching (handler w)) eqn:Es.
  - exists [AdminRefused]. split; [left; reflexivity|].
    unfold run. rewrite (switch_next_busy w Es). cbn [snd].
    apply trace_one, step_admin_refused.
  - destruct (switch_next_spec w Es) as [how Hhow].
    exists [AdminSwitchBegun ByAdminNext; SwitchEnded ByAdminNext how].
    split; [right; exists how; split; [discriminate | reflexivity]|].
    rewrite (Hhow ByAdminNext) by discriminate.
    eapply trace_cons; [apply step_admin_begun; [left; reflexivity | exact Es]|].
    apply trace_one.
    apply (step_switch_ended cfg ByAdminNext how _ a n r [] s k). discriminate.
Qed.

Lemma switch_specific_refines targetIndex :
  refines cfg (_switchToSpecificAuth targetIndex) (admin_events ByAdminTarget).
Proof.
  intros w a n r s k.
  destruct (isAuthSwitching (handler w)) eqn:Es.
  - exists [AdminRefused]. split; [left; reflexivity|].
    rewrite switch_specific_refused by (left; exact Es).
    apply trace_one, step_admin_refused.
  - destruct (existsb (Z.eqb targetIndex) (availableIndices w)) eqn:Ea.
    + destruct (switch_specific_spec targetIndex w Es Ea) as (how & Hne & Hhow).
      exists [AdminSwitchBegun ByAdminTarget; SwitchEnded ByAdminTarget how].
      split; [right; exists how; split; [intros _; exact Hne | reflexivity]|].
      rewrite Hhow.
      eapply trace_cons; [apply step_admin_begun; [right; reflexivity | exact Es]|].
      apply trace_one.
      apply (step_switch_ended cfg ByAdminTarget how _ a n r [] s k). intros _. exact Hne.
    + exists [AdminRefused]. split; [left; reflexivity|].
      rewrite switch_specific_refused by (right; exact Ea).
      apply trace_one, step_admin_refused.
Qed.

(** ** Reachable states *)

Lemma reachable_trace s tr s' :
  reachable cfg s -> trace cfg s tr s' -> reachable cfg s'.
Proof.
  intros [tr0 H0] H. exists (tr0 ++ tr). eapply trace_app; eauto.
Qed.






End WithConfig.

(** ** When a rotation begins *)

Lemma first_answered_trace :
  trace (Example.rotate_every 1) first_use [Answered] first_answered.
Proof.
  apply trace_one.
  apply (step_answered (Example.rotate_every 1) (ctl first_use) 0 0 0 [] 0).
Defined.

(** C1, amended.  The code: [_tryExecutePendingSwitch] does nothing at
    all unless [pendingSwitch] is set, [activeRequestCount] is 0 and no
    switch is in progress, and the switch functions answer "Busy" and do
    nothing while a switch is in progress; the [finally] block of a
    request begins the pending rotation exactly when that condition
    holds once the request is counted out, and
    [_handleRequestFailureAndSwitch] begins a rotation exactly when a
    switch is due and none is in progress, the failing request still
    counted.  Every run of [processRequest], of [processOpenAIRequest]
    and of the two switch functions is a run of the interleaving
    semantics.  There, in every state reachable with requests
    interleaved at their [await]s, a rotation begins only while
    [isAuthSwitching] is false and no other switch is in progress; the
    pending rotation begins with [activeRequestCount = 0] and no counted
    request in flight; a rotation begun by a failing request begins with
    that request counted, [activeRequestCount > 0]. *)
Theorem C1_rotation_begins rt cfg sys :
  (forall w, pending_ready (handler w) = false ->
     _tryExecutePendingSwitch w = (Return tt, w))
  /\ (forall w, isAuthSwitching (handler w) = true ->
        _switchToNextAuth w = (Return Busy, w)
        /\ forall targetIndex, _switchToSpecificAuth targetIndex w = (Return Busy, w))
  /\ (forall w a n r s k,
        exists tr,
          trace cfg (Build_System (handler w) a (S n) r s k) tr
            (Build_System (handler (run finish w)) a n r s k)
          /\ (pending_ready (finalise_request (handler w)) = false -> tr = [Finalised])
          /\ (pending_ready (finalise_request (handler w)) = true ->
              exists how,
                tr = [FinalisedAndSwitched; SwitchEnded ByIdle how; PendingCleared]))
  /\ (forall errorDetails has_res w a n r s k,
        exists tr,
          trace cfg (Build_System (handler w) (S a) n r s k) tr
            (Build_System
               (handler (run (_handleRequestFailureAndSwitch rt cfg errorDetails has_res) w))
               a (S n) r s k)
          /\ (must_switch cfg (msg_status errorDetails) (count_failure cfg (handler w)) = true ->
              isAuthSwitching (handler w) = false ->
              exists how,
                tr = [FailedOver (msg_status errorDetails); SwitchEnded ByFailure how])
          /\ (must_switch cfg (msg_status errorDetails) (count_failure cfg (handler w)) = false
              \/ isAuthSwitching (handler w) = true ->
              tr = [Failed (msg_status errorDetails)]))
  /\ (forall req,
        refines cfg (processRequest rt cfg sys req) (request_events (is_generative req)))
  /\ (forall req,
        get (req_body req) "stream" <> None ->
        get (req_body req) "model" <> None ->
        refines cfg (processOpenAIRequest rt cfg sys req) chat_events)
  /\ refines cfg _switchToNextAuth (admin_events ByAdminNext)
  /\ (forall targetIndex,
        refines cfg (_switchToSpecificAuth targetIndex) (admin_events ByAdminTarget))
  /\ (forall s tr s1 e s2 who,
        reachable cfg s -> trace cfg s tr s1 -> step cfg s1 e s2 ->
        begins e = Some who ->
        isAuthSwitching (ctl s1) = false
        /\ switching s1 = []
        /\ (who = ByIdle -> activeRequestCount (ctl s2) = 0 /\ in_flight s2 = 0%nat)
        /\ (who = ByFailure -> 0 < activeRequestCount (ctl s2))).
Proof.
  split; [intros w H; apply pending_switch_guard, H|].
  split.
  { intros w Es. split; [apply switch_next_busy, Es|].
    intro targetIndex. unfold _switchToSpecificAuth, bind, get_handler.
    rewrite Es. reflexivity. }
  split.
  { intros w a n r s k.
    destruct (finish_refines cfg w a n r s k) as (tr & _ & Htr & H1 & H2).
    exists tr. auto. }
  split.
  { intros m has_res w a n r s k.
    destruct (failure_refines rt cfg m has_res w a n r s k) as (tr & _ & Htr & H1 & H2).
    exists tr. auto. }
  split; [intro req; apply processRequest_refines|].
  split; [intros req Hs Hm; apply processOpenAIRequest_refines; assumption|].
  split; [apply switch_next_refines|].
  split; [intro targetIndex; apply switch_specific_refines|].
  intros s tr s1 e s2 who Hr Htr Hstep Hb.
  apply (rotation_begin_invariant cfg s1 e s2 who); auto.
  eapply reachable_trace; eauto.
Qed.

Lemma C1_rotation_begins_witness :
  _tryExecutePendingSwitch failing_in_flight = (Return tt, failing_in_flight)
  /\ (exists tr,
        trace (Example.rotate_every 1)
          (Build_System (handler last_one_out) 0 1 0 [] 0) tr
          (Build_System (handler (run finish last_one_out)) 0 0 0 [] 0)
        /\ exists how, tr = [FinalisedAndSwitched; SwitchEnded ByIdle how; PendingCleared])
  /\ (exists tr,
        trace (Example.rotate_every 1)
          (Build_System (handler failing_in_flight) 1 0 0 [] 0) tr
          (Build_System
             (handler
                (run (_handleRequestFailureAndSwitch Example.models_runtime
                        (Example.rotate_every 1)
                        (ErrorEvent (Some 429) (Some "quota")) false)
                   failing_in_flight))
             0 1 0 [] 0)
        /\ exists how, tr = [FailedOver (Some 429); SwitchEnded ByFailure how])
  /\ (isAuthSwitching (ctl first_answered) = false
      /\ switching first_answered = []
      /\ activeRequestCount (ctl idle_rotation) = 0
      /\ in_flight idle_rotation = 0%nat)
  /\ (isAuthSwitching (ctl first_use) = false
      /\ switching first_use = []
      /\ 0 < activeRequestCount (ctl failure_rotation)).
Proof.
  destruct (C1_rotation_begins Example.models_runtime (Example.rotate_every 1)
              Example.system)
    as (Hguard & _ & Hfin & Hfail & _ & _ & _ & _ & Hinv).
  split; [apply Hguard; reflexivity|].
  split.
  { destruct (Hfin last_one_out 0%nat 0%nat 0%nat [] 0%nat) as (tr & Htr & _ & Hon).
    exists tr. split; [exact Htr | apply Hon; reflexivity]. }
  split.
  { destruct (Hfail (ErrorEvent (Some 429) (Some "quota")) false failing_in_flight
                0%nat 0%nat 0%nat [] 0%nat) as (tr & Htr & Hon & _).
    exists tr. split; [exact Htr | apply Hon; reflexivity]. }
  split.
  - destruct (Hinv initial [Accepted true; Answered] first_answered FinalisedAndSwitched
                idle_rotation ByIdle) as (H1 & H2 & H3 & _).
    + exists []. apply trace_nil.
    + apply (trace_app (Example.rotate_every 1) initial [Accepted true] first_use
               [Answered] first_answered);
        [apply trace_one;
         apply (step_accepted (Example.rotate_every 1) true new_handler 0 0 0 [] 0);
         reflexivity
        | apply first_answered_trace].
    + apply (step_finalised_switched (Example.rotate_every 1) (ctl first_answered)
               0 0 0 [] 0). reflexivity.
    + reflexivity.
    + destruct (H3 eq_refl) as [H4 H5]. auto.
  - destruct (Hinv initial [Accepted true] first_use (FailedOver (Some 429))
                failure_rotation ByFailure) as (H1 & H2 & _ & H3).
    + exists []. apply trace_nil.
    + apply trace_one.
      apply (step_accepted (Example.rotate_every 1) true new_handler 0 0 0 [] 0);
        reflexivity.
    + apply (step_failed_over (Example.rotate_every 1) (Some 429) (ctl first_use)
               0 0 0 [] 0); reflexivity.
    + reflexivity.
    + split; [exact H1|]. split; [exact H2|]. apply H3. reflexivity.
Defined.

(** ** The usage count *)




End RefinementFacts.
